(** * The group-call coordinator of matrix-js-sdk: [src/webrtc/groupCall.ts]

    A shallow embedding of the [GroupCall] class and the statements of its
    specification.  The class is one mutable object whose methods run to
    completion on a single thread; it is embedded as a record [GroupCall]
    threaded through a state-and-exception monad [M].

    Modelling conventions.
    - JavaScript strings are [string]s and are compared code unit by code
      unit ([String.ltb]); identifiers of the protocol are ASCII.
    - JavaScript numbers are exact: integers ([Z]) for millisecond timestamps
      and rationals ([Q]) for audio volumes.
    - A JavaScript [Map] is a [gmap].  A [Map] iterates in insertion order and
      a [gmap] in key order; every loop below treats its entries
      independently, and no statement depends on the order of a traversal.
    - Objects with identity (calls and feeds) live in two stores,
      [callHeap] and [feedHeap], and are named by references.
    - A [RoomMember] object is identified with its user id: a room holds one
      member object per user.  The map [calls] is keyed by member objects and
      by one key that is no member, [undefined], which [onCallReplaced] uses
      for a call without opponent member; the entry of that key is the field
      [callsOfUndefined].
    - Collaborators whose code lives in other files (the single-call layer,
      the media handler, the event emitter) are observed through the fields
      of [MatrixCall.t] and [CallFeed.t]; invoking one of their operations is
      recorded in the [trace] of the state.
    - An [await] is a sequence point: the methods are embedded without
      interleaving of other callbacks. *)

From Stdlib Require Import String Ascii ZArith QArith Qminmax Lia List Bool.
From stdpp Require Import gmap strings list fin_maps option functions pretty.
Import ListNotations.

Local Open Scope string_scope.
Local Open Scope list_scope.

(** ** Results of a run: a value, or a thrown exception *)

Inductive exn : Type :=
| TypeError                  (* property access on [null] or [undefined] *)
| Error (msg : string)       (* [throw new Error(msg)] *)
| NonNullViolation.          (* a value asserted present with [!] is absent
                                where the embedding cannot carry on *)

Inductive Res (A : Type) : Type :=
| Ok (a : A)
| Throw (e : exn).
Arguments Ok {A} a.
Arguments Throw {A} e.

Definition res_bind {A B} (r : Res A) (k : A → Res B) : Res B :=
  match r with
  | Ok a => k a
  | Throw e => Throw e
  end.

Declare Scope res_scope.
Delimit Scope res_scope with res.
Notation "x <~ r ; k" := (res_bind r (λ x, k))
  (at level 100, r at next level, right associativity) : res_scope.

(** ** JSON values, as found in the content of room-state events *)

#[warnings="-register-all"]
Inductive json : Type :=
| JNull
| JBool (b : bool)
| JNum (n : Z)
| JStr (s : string)
| JArr (items : list json)
| JObj (fields : list (string * json)).

(** The value of a JavaScript expression over JSON data: [None] is
    [undefined]. *)
Abbreviation jsval := (option json).

Fixpoint assoc (k : string) (fields : list (string * json)) : jsval :=
  match fields with
  | [] => None
  | (k', v) :: rest => if String.eqb k k' then Some v else assoc k rest
  end.

(** [v[k]] for a key [k] that is no built-in property: it throws on [null],
    reads the own property of an object, and is [undefined] on numbers,
    booleans, strings and arrays. *)
Definition prop (v : json) (k : string) : Res jsval :=
  match v with
  | JNull => Throw TypeError
  | JObj fields => Ok (assoc k fields)
  | _ => Ok None
  end.

(** [{...o, [k]: v}]: an own property keeps its position, a new one is
    appended. *)
Fixpoint obj_set (k : string) (v : json) (fields : list (string * json))
  : list (string * json) :=
  match fields with
  | [] => [(k, v)]
  | (k', v') :: rest =>
      if String.eqb k k' then (k, v) :: rest else (k', v') :: obj_set k v rest
  end.

(** [Array.isArray(x) ? x : []] *)
Definition arrayOrEmpty (x : jsval) : list json :=
  match x with
  | Some (JArr items) => items
  | _ => []
  end.

(** [x === s] for a string [s] *)
Definition isString (x : jsval) (s : string) : bool :=
  match x with
  | Some (JStr s') => String.eqb s' s
  | _ => false
  end.

(** Assignment to one field of a record: the record rebuilt, by its
    eta-expansion [expand], with the field [proj] replaced. *)
Ltac setter_from expand proj :=
  let v := fresh "v" in
  let r := fresh "r" in
  intros v r;
  let e := eval cbv [expand] in (expand r) in
  let p := eval pattern (proj r) in e in
  match p with ?F _ => let t := eval cbv beta in (F v) in exact t end.

(** ** Enumerations *)

Module GroupCallState.
Inductive t : Type :=
| LocalCallFeedUninitialized
| InitializingLocalCallFeed
| LocalCallFeedInitialized
| Entered
| Ended.

#[global] Instance GroupCallState_eq_dec : EqDecision t.
Proof. solve_decision. Defined.
End GroupCallState.

Module CallState.
Inductive t : Type :=
| Fledgling | InviteSent | WaitLocalMedia | CreateOffer | CreateAnswer
| Connecting | Connected | Ringing | Ended.

#[global] Instance CallState_eq_dec : EqDecision t.
Proof. solve_decision. Defined.
End CallState.

Module CallErrorCode.
Inductive t : Type :=
| UserHangup | Replaced | NewSession | SignallingFailed
| Other (code : string).

#[global] Instance CallErrorCode_eq_dec : EqDecision t.
Proof. solve_decision. Defined.
End CallErrorCode.

Module SDPStreamMetadataPurpose.
Inductive t : Type := Usermedia | Screenshare.

Definition value (p : t) : string :=
  match p with
  | Usermedia => "m.usermedia"
  | Screenshare => "m.screenshare"
  end.
End SDPStreamMetadataPurpose.

Module CallEvent.
Inductive t : Type := FeedsChanged | State | Hangup | Replaced.
End CallEvent.

Module EventType.
Inductive t : Type := GroupCallPrefix | GroupCallMemberPrefix.
End EventType.

(** ** Objects of the collaborators *)

Abbreviation FeedRef := nat.
Abbreviation CallRef := nat.

Module CallFeed.
Record t : Type := mk {
  userId : string;
  deviceId : option string;
  purpose : SDPStreamMetadataPurpose.t;
  isLocal : bool;
  isAudioMuted : bool;
  isVideoMuted : bool;
  speakingVolumeSamples : list Q;
}.

(** Modelled from the spec: [CallFeed.setAudioVideoMuted] of
    [src/webrtc/callFeed.ts], which is not part of the sources at hand: the
    mute bits flow into the feed, [null] leaving a bit as it is. *)
Definition setAudioVideoMuted (audioMuted videoMuted : option bool) (f : t) : t :=
  {| userId := userId f;
     deviceId := deviceId f;
     purpose := purpose f;
     isLocal := isLocal f;
     isAudioMuted := default (isAudioMuted f) audioMuted;
     isVideoMuted := default (isVideoMuted f) videoMuted;
     speakingVolumeSamples := speakingVolumeSamples f |}.
End CallFeed.

Module MatrixCall.
Record t : Type := mk {
  callId : string;
  roomId : string;
  state : CallState.t;
  groupCallId : option string;
  invitee : option string;
  hangupReason : option CallErrorCode.t;
  (* [getOpponentMember()]: the member object, named by its user id *)
  getOpponentMember : option string;
  (* [getOpponentDeviceId()!]: asserted present at every use *)
  getOpponentDeviceId : string;
  getOpponentSessionId : option string;
  remoteUsermediaFeed : option FeedRef;
  remoteScreensharingFeed : option FeedRef;
  localUsermediaFeed : option FeedRef;
  localScreensharingFeed : option FeedRef;
  (* whether [localUsermediaStream] is present *)
  localUsermediaStream : bool;
  isMicrophoneMuted : bool;
  isLocalVideoMuted : bool;
  isPtt : bool;
}.

Definition expand (c : t) : t :=
  mk (callId c) (roomId c) (state c) (groupCallId c) (invitee c) (hangupReason c)
    (getOpponentMember c) (getOpponentDeviceId c) (getOpponentSessionId c)
    (remoteUsermediaFeed c) (remoteScreensharingFeed c) (localUsermediaFeed c)
    (localScreensharingFeed c) (localUsermediaStream c) (isMicrophoneMuted c)
    (isLocalVideoMuted c) (isPtt c).

Definition set_isPtt : bool → t → t := ltac:(setter_from expand isPtt).
Definition set_state : CallState.t → t → t := ltac:(setter_from expand state).
Definition set_hangupReason : option CallErrorCode.t → t → t :=
  ltac:(setter_from expand hangupReason).
Definition set_getOpponentMember : option string → t → t :=
  ltac:(setter_from expand getOpponentMember).
Definition set_localUsermediaFeed : option FeedRef → t → t :=
  ltac:(setter_from expand localUsermediaFeed).
Definition set_localUsermediaStream : bool → t → t :=
  ltac:(setter_from expand localUsermediaStream).
End MatrixCall.

Module RoomMember.
Record t : Type := mk { userId : string; membership : string }.
End RoomMember.

Module Room.
Record t : Type := mk {
  roomId : string;
  (* [currentState.members]: user id to membership *)
  memberships : gmap string string;
  (* [currentState.getStateEvents(EventType.GroupCallMemberPrefix)]: state
     key to event content; the content of an event is an object *)
  memberStateEvents : gmap string (list (string * json));
}.

Definition getMember (r : t) (userId : string) : option RoomMember.t :=
  RoomMember.mk userId <$> memberships r !! userId.
End Room.

Module MatrixClient.
Record t : Type := mk {
  getUserId : string;
  getDeviceId : string;
  getSessionId : string;
  (* whether [createNewMatrixCall] can build a call in this environment *)
  supportsMatrixCall : bool;
}.
End MatrixClient.

(** ** The state of a group call *)

Record ParticipantState : Type := mkParticipantState {
  sessionId : string;
  screensharing : bool;
}.

#[global] Instance ParticipantState_eq_dec : EqDecision ParticipantState.
Proof. solve_decision. Defined.

(** The four closures of [ICallHandlers].  Each is determined by the call it
    closes over; [onCallHangup] is the handler of the group call itself. *)
Inductive Closure : Type :=
| OnCallFeedsChanged (call : CallRef)
| OnCallStateChanged (call : CallRef)
| OnCallHangup
| OnCallReplaced (call : CallRef).

Module ICallHandlers.
Record t : Type := mk {
  onCallFeedsChanged : Closure;
  onCallStateChanged : Closure;
  onCallHangup : Closure;
  onCallReplaced : Closure;
}.
End ICallHandlers.

Module GroupCallErrorCode.
Inductive t : Type := NoUserMedia | UnknownDevice | PlaceCallFailed.
End GroupCallErrorCode.

Module GroupCallEvent.
Inductive t : Type :=
| GroupCallStateChanged (newState oldState : GroupCallState.t)
| ActiveSpeakerChanged (activeSpeaker : option FeedRef)
| CallsChanged
| UserMediaFeedsChanged (feeds : list FeedRef)
| ScreenshareFeedsChanged (feeds : list FeedRef)
| LocalScreenshareStateChanged (isScreensharing : bool)
| LocalMuteStateChanged (audioMuted videoMuted : bool)
| ParticipantsChanged
| Error (code : GroupCallErrorCode.t).
End GroupCallEvent.

Inductive TrackKind : Type := AudioTracks | VideoTracks.

(** What the group call does to its collaborators, in the order it does it. *)
Inductive Effect : Type :=
| Emit (e : GroupCallEvent.t)
| CallOn (call : CallRef) (ev : CallEvent.t) (listener : Closure)
| CallRemoveListener (call : CallRef) (ev : CallEvent.t) (listener : Closure)
| ReEmit (call : CallRef)
| CallHangup (call : CallRef) (reason : option CallErrorCode.t) (suppressEvent : bool)
| CallReject (call : CallRef)
| CallAnswerWithCallFeeds (call : CallRef) (clonesOf : list FeedRef)
| CallPlaceCallWithCallFeeds (call : CallRef) (clonesOf : list FeedRef)
    (requestScreenshareFeed : bool)
| CallSetMicrophoneMuted (call : CallRef) (muted : bool)
| CallSetLocalVideoMuted (call : CallRef) (muted : bool)
| CallSendMetadataUpdate (call : CallRef)
| FeedMeasureVolumeActivity (feed : FeedRef) (enabled : bool)
| FeedDispose (feed : FeedRef)
| SetTracksEnabled (feed : FeedRef) (kind : TrackKind) (enabled : bool)
| SendStateEvent (roomId : string) (eventType : EventType.t) (content : json)
    (stateKey : string) (keepAlive : bool).

Record GroupCall : Type := mkGroupCall {
  (* constructor parameters and configuration *)
  client : MatrixClient.t;
  room : Room.t;
  isPtt : bool;
  groupCallId : string;
  pttMaxTransmitTime : Z;
  (* public fields *)
  activeSpeaker : option FeedRef;
  localCallFeed : option FeedRef;
  localScreenshareFeed : option FeedRef;
  calls : gmap string (gmap string CallRef);
  callsOfUndefined : option (gmap string CallRef);  (* [calls.get(undefined)] *)
  userMediaFeeds : list FeedRef;
  screenshareFeeds : list FeedRef;
  (* private fields *)
  callHandlers : gmap string (gmap string ICallHandlers.t);
  retryCallCounts : gmap string (gmap string Z);
  transmitTimer : option Z;
  participantsExpirationTimer : option Z;
  initWithAudioMuted : bool;
  initWithVideoMuted : bool;
  state : GroupCallState.t;
  participants : gmap string (gmap string ParticipantState);
  enteredViaAnotherSession : bool;
  (* the stores of the objects the group call holds references to *)
  feedHeap : FeedRef → CallFeed.t;
  callHeap : CallRef → MatrixCall.t;
  nextCallRef : CallRef;
  (* the operations invoked on collaborators so far, oldest first *)
  trace : list Effect;
}.

Definition eta (gc : GroupCall) : GroupCall :=
  mkGroupCall (client gc) (room gc) (isPtt gc) (groupCallId gc)
    (pttMaxTransmitTime gc) (activeSpeaker gc) (localCallFeed gc)
    (localScreenshareFeed gc) (calls gc) (callsOfUndefined gc) (userMediaFeeds gc)
    (screenshareFeeds gc) (callHandlers gc) (retryCallCounts gc)
    (transmitTimer gc) (participantsExpirationTimer gc)
    (initWithAudioMuted gc) (initWithVideoMuted gc) (state gc)
    (participants gc) (enteredViaAnotherSession gc) (feedHeap gc)
    (callHeap gc) (nextCallRef gc) (trace gc).

Ltac field_setter proj := setter_from eta proj.

Definition set_activeSpeaker : option FeedRef → GroupCall → GroupCall :=
  ltac:(field_setter activeSpeaker).
Definition set_localCallFeed : option FeedRef → GroupCall → GroupCall :=
  ltac:(field_setter localCallFeed).
Definition set_localScreenshareFeed : option FeedRef → GroupCall → GroupCall :=
  ltac:(field_setter localScreenshareFeed).
Definition set_calls : gmap string (gmap string CallRef) → GroupCall → GroupCall :=
  ltac:(field_setter calls).
Definition set_callsOfUndefined
  : option (gmap string CallRef) → GroupCall → GroupCall :=
  ltac:(field_setter callsOfUndefined).
Definition set_userMediaFeeds : list FeedRef → GroupCall → GroupCall :=
  ltac:(field_setter userMediaFeeds).
Definition set_screenshareFeeds : list FeedRef → GroupCall → GroupCall :=
  ltac:(field_setter screenshareFeeds).
Definition set_callHandlers
  : gmap string (gmap string ICallHandlers.t) → GroupCall → GroupCall :=
  ltac:(field_setter callHandlers).
Definition set_retryCallCounts : gmap string (gmap string Z) → GroupCall → GroupCall :=
  ltac:(field_setter retryCallCounts).
Definition set_transmitTimer : option Z → GroupCall → GroupCall :=
  ltac:(field_setter transmitTimer).
Definition set_participantsExpirationTimer : option Z → GroupCall → GroupCall :=
  ltac:(field_setter participantsExpirationTimer).
Definition set_initWithAudioMuted : bool → GroupCall → GroupCall :=
  ltac:(field_setter initWithAudioMuted).
Definition set_initWithVideoMuted : bool → GroupCall → GroupCall :=
  ltac:(field_setter initWithVideoMuted).
Definition set_state : GroupCallState.t → GroupCall → GroupCall :=
  ltac:(field_setter state).
Definition set_participants
  : gmap string (gmap string ParticipantState) → GroupCall → GroupCall :=
  ltac:(field_setter participants).
Definition set_enteredViaAnotherSession : bool → GroupCall → GroupCall :=
  ltac:(field_setter enteredViaAnotherSession).
Definition set_feedHeap : (FeedRef → CallFeed.t) → GroupCall → GroupCall :=
  ltac:(field_setter feedHeap).
Definition set_callHeap : (CallRef → MatrixCall.t) → GroupCall → GroupCall :=
  ltac:(field_setter callHeap).
Definition set_nextCallRef : CallRef → GroupCall → GroupCall :=
  ltac:(field_setter nextCallRef).
Definition set_trace : list Effect → GroupCall → GroupCall :=
  ltac:(field_setter trace).

(** ** The monad of methods: state that survives a throw *)

Definition M (A : Type) : Type := GroupCall → Res A * GroupCall.

Definition ret {A} (a : A) : M A := λ gc, (Ok a, gc).

Definition bind {A B} (m : M A) (k : A → M B) : M B :=
  λ gc, match m gc with
        | (Ok a, gc') => k a gc'
        | (Throw e, gc') => (Throw e, gc')
        end.

Definition throw {A} (e : exn) : M A := λ gc, (Throw e, gc).

(** Read the object *)
Definition this : M GroupCall := λ gc, (Ok gc, gc).

(** Mutate the object *)
Definition modify (f : GroupCall → GroupCall) : M unit := λ gc, (Ok tt, f gc).

(** Run a computation that reads but does not write *)
Definition lift {A} (r : Res A) : M A := λ gc, (r, gc).

Declare Scope M_scope.
Delimit Scope M_scope with M.
Bind Scope M_scope with M.
Notation "x <- m ;; k" := (bind m (λ x, k))
  (at level 100, m at next level, right associativity) : M_scope.
Notation "m ;; k" := (bind m (λ _, k))
  (at level 100, right associativity) : M_scope.
Local Open Scope M_scope.

Definition when (b : bool) (m : M unit) : M unit := if b then m else ret tt.

(** [for (const x of xs) body(x)] over a snapshot of the sequence *)
Fixpoint for_each {A} (xs : list A) (body : A → M unit) : M unit :=
  match xs with
  | [] => ret tt
  | x :: rest => body x ;; for_each rest body
  end.

(** Record an operation invoked on a collaborator *)
Definition perform (e : Effect) : M unit :=
  modify (λ gc, set_trace (trace gc ++ [e]) gc).

(** [this.emit(e)], as seen by observers outside the class *)
Definition emit (e : GroupCallEvent.t) : M unit := perform (Emit e).

(** Mutate a call or a feed in its store *)
Definition update_call (c : CallRef) (f : MatrixCall.t → MatrixCall.t) : M unit :=
  modify (λ gc, set_callHeap (<[c := f (callHeap gc c)]> (callHeap gc)) gc).

Definition update_feed (r : FeedRef) (f : CallFeed.t → CallFeed.t) : M unit :=
  modify (λ gc, set_feedHeap (<[r := f (feedHeap gc r)]> (feedHeap gc)) gc).

(** ** Sequences with callbacks that may throw *)

(** [xs.find(p)]: elements after the first match are not visited *)
Fixpoint find_res {A} (p : A → Res bool) (xs : list A) : Res (option A) :=
  match xs with
  | [] => Ok None
  | x :: rest =>
      (b <~ p x;
       if b : bool then Ok (Some x) else find_res p rest)%res
  end.

(** [xs.filter(p)] *)
Fixpoint filter_res {A} (p : A → Res bool) (xs : list A) : Res (list A) :=
  match xs with
  | [] => Ok []
  | x :: rest =>
      (b <~ p x;
       rest' <~ filter_res p rest;
       Ok (if b : bool then x :: rest' else rest'))%res
  end.

(** [xs.filter(p) as unknown as B[]], where [f x] is [x] seen at type [B]
    when [p x] holds *)
Fixpoint filter_as_res {A B} (f : A → Res (option B)) (xs : list A) : Res (list B) :=
  match xs with
  | [] => Ok []
  | x :: rest =>
      (o <~ f x;
       rest' <~ filter_as_res f rest;
       Ok (match o with Some y => y :: rest' | None => rest' end))%res
  end.

(** [xs.some(p)]: elements after the first match are not visited *)
Fixpoint some_res {A} (p : A → Res bool) (xs : list A) : Res bool :=
  match xs with
  | [] => Ok false
  | x :: rest =>
      (b <~ p x;
       if b : bool then Ok true else some_res p rest)%res
  end.

(** [xs.findIndex(p)], [None] for [-1] *)
Fixpoint findIndex {A} (p : A → bool) (xs : list A) : option nat :=
  match xs with
  | [] => None
  | x :: rest => if p x then Some 0%nat else S <$> findIndex p rest
  end.

(** ** Local user media (lines 313-320, 497-511) *)

Definition getLocalFeeds (gc : GroupCall) : list FeedRef :=
  option_list (localCallFeed gc) ++ option_list (localScreenshareFeed gc).

Definition isLocalVideoMuted (gc : GroupCall) : bool :=
  match localCallFeed gc with
  | Some f => CallFeed.isVideoMuted (feedHeap gc f)
  | None => true
  end.

Definition isMicrophoneMuted (gc : GroupCall) : bool :=
  match localCallFeed gc with
  | Some f => CallFeed.isAudioMuted (feedHeap gc f)
  | None => true
  end.

(** [forEachCall] (lines 307-311): the calls under every key of [calls], the
    key [undefined] included *)
Definition allCalls (gc : GroupCall) : list CallRef :=
  (map_to_list (calls gc) ≫= λ entry, (map_to_list entry.2).*2)
  ++ (map_to_list (default ∅ (callsOfUndefined gc))).*2.

Definition forEachCall (f : CallRef → M unit) : M unit :=
  gc <- this ;;
  for_each (allCalls gc) f.

(** [setMicrophoneMuted] (lines 518-574).  [hasAudioDevice] is what the media
    handler answers when it is asked. *)
Definition setMicrophoneMuted (hasAudioDevice : bool) (muted : bool) : M bool :=
  if negb muted && negb hasAudioDevice then ret false
  else
    gc <- this ;;
    let sendUpdatesBefore := negb muted && isPtt gc in
    when (isPtt gc)
      (if negb muted && isMicrophoneMuted gc
       then modify (set_transmitTimer (Some (pttMaxTransmitTime gc)))
       else if muted && negb (isMicrophoneMuted gc)
            then modify (set_transmitTimer None)
            else ret tt) ;;
    forEachCall (λ call,
      gc <- this ;;
      match MatrixCall.localUsermediaFeed (callHeap gc call) with
      | Some f => update_feed f (CallFeed.setAudioVideoMuted (Some muted) None)
      | None => ret tt
      end) ;;
    let sendUpdates := forEachCall (λ call, perform (CallSendMetadataUpdate call)) in
    when sendUpdatesBefore sendUpdates ;;
    gc <- this ;;
    match localCallFeed gc with
    | Some f =>
        update_feed f (CallFeed.setAudioVideoMuted (Some muted) None) ;;
        perform (SetTracksEnabled f AudioTracks (negb muted))
    | None => modify (set_initWithAudioMuted muted)
    end ;;
    forEachCall (λ call,
      gc <- this ;;
      match MatrixCall.localUsermediaFeed (callHeap gc call) with
      | Some f => perform (SetTracksEnabled f AudioTracks (negb muted))
      | None => throw TypeError
      end) ;;
    gc <- this ;;
    emit (GroupCallEvent.LocalMuteStateChanged muted (isLocalVideoMuted gc)) ;;
    when (negb sendUpdatesBefore) sendUpdates ;;
    ret true.

(** [setLocalVideoMuted] (lines 581-606) *)
Definition setLocalVideoMuted (hasVideoDevice : bool) (muted : bool) : M bool :=
  if negb muted && negb hasVideoDevice then ret false
  else
    gc <- this ;;
    match localCallFeed gc with
    | Some f =>
        update_feed f (CallFeed.setAudioVideoMuted None (Some muted)) ;;
        perform (SetTracksEnabled f VideoTracks (negb muted))
    | None => modify (set_initWithVideoMuted muted)
    end ;;
    forEachCall (λ call, perform (CallSetLocalVideoMuted call muted)) ;;
    gc <- this ;;
    emit (GroupCallEvent.LocalMuteStateChanged (isMicrophoneMuted gc) muted) ;;
    ret true.

(** ** Feed registry (lines 1059-1103, 1133-1170) *)

(** [f.userId === userId && f.deviceId! === deviceId] *)
Definition feedHasKey (gc : GroupCall) (userId : string) (deviceId : option string)
    (f : FeedRef) : bool :=
  String.eqb (CallFeed.userId (feedHeap gc f)) userId
  && bool_decide (CallFeed.deviceId (feedHeap gc f) = deviceId).

Definition getUserMediaFeed (gc : GroupCall) (userId deviceId : string)
  : option FeedRef :=
  find (feedHasKey gc userId (Some deviceId)) (userMediaFeeds gc).

Definition addUserMediaFeed (callFeed : FeedRef) : M unit :=
  modify (λ gc, set_userMediaFeeds (userMediaFeeds gc ++ [callFeed]) gc) ;;
  perform (FeedMeasureVolumeActivity callFeed true) ;;
  gc <- this ;;
  emit (GroupCallEvent.UserMediaFeedsChanged (userMediaFeeds gc)).

Definition replaceUserMediaFeed (existingFeed replacementFeed : FeedRef) : M unit :=
  gc <- this ;;
  let existing := feedHeap gc existingFeed in
  match findIndex (feedHasKey gc (CallFeed.userId existing) (CallFeed.deviceId existing))
          (userMediaFeeds gc) with
  | None => throw (Error "Couldn't find user media feed to replace")
  | Some feedIndex =>
      modify (set_userMediaFeeds (<[feedIndex := replacementFeed]> (userMediaFeeds gc))) ;;
      perform (FeedDispose existingFeed) ;;
      perform (FeedMeasureVolumeActivity replacementFeed true) ;;
      gc <- this ;;
      emit (GroupCallEvent.UserMediaFeedsChanged (userMediaFeeds gc))
  end.

Definition removeUserMediaFeed (callFeed : FeedRef) : M unit :=
  gc <- this ;;
  let feed := feedHeap gc callFeed in
  match findIndex (feedHasKey gc (CallFeed.userId feed) (CallFeed.deviceId feed))
          (userMediaFeeds gc) with
  | None => throw (Error "Couldn't find user media feed to remove")
  | Some feedIndex =>
      modify (set_userMediaFeeds (delete feedIndex (userMediaFeeds gc))) ;;
      perform (FeedDispose callFeed) ;;
      gc <- this ;;
      emit (GroupCallEvent.UserMediaFeedsChanged (userMediaFeeds gc)) ;;
      when (bool_decide (activeSpeaker gc = Some callFeed))
        (modify (set_activeSpeaker (head (userMediaFeeds gc))) ;;
         emit (GroupCallEvent.ActiveSpeakerChanged (head (userMediaFeeds gc))))
  end.

Definition getScreenshareFeed (gc : GroupCall) (userId deviceId : string)
  : option FeedRef :=
  find (feedHasKey gc userId (Some deviceId)) (screenshareFeeds gc).

Definition addScreenshareFeed (callFeed : FeedRef) : M unit :=
  modify (λ gc, set_screenshareFeeds (screenshareFeeds gc ++ [callFeed]) gc) ;;
  gc <- this ;;
  emit (GroupCallEvent.ScreenshareFeedsChanged (screenshareFeeds gc)).

Definition replaceScreenshareFeed (existingFeed replacementFeed : FeedRef) : M unit :=
  gc <- this ;;
  let existing := feedHeap gc existingFeed in
  match findIndex (feedHasKey gc (CallFeed.userId existing) (CallFeed.deviceId existing))
          (screenshareFeeds gc) with
  | None => throw (Error "Couldn't find screenshare feed to replace")
  | Some feedIndex =>
      modify (set_screenshareFeeds (<[feedIndex := replacementFeed]> (screenshareFeeds gc))) ;;
      perform (FeedDispose existingFeed) ;;
      gc <- this ;;
      emit (GroupCallEvent.ScreenshareFeedsChanged (screenshareFeeds gc))
  end.

Definition removeScreenshareFeed (callFeed : FeedRef) : M unit :=
  gc <- this ;;
  let feed := feedHeap gc callFeed in
  match findIndex (feedHasKey gc (CallFeed.userId feed) (CallFeed.deviceId feed))
          (screenshareFeeds gc) with
  | None => throw (Error "Couldn't find screenshare feed to remove")
  | Some feedIndex =>
      modify (set_screenshareFeeds (delete feedIndex (screenshareFeeds gc))) ;;
      perform (FeedDispose callFeed) ;;
      gc <- this ;;
      emit (GroupCallEvent.ScreenshareFeedsChanged (screenshareFeeds gc))
  end.

(** ** Call handler table and call graph (lines 153-155, 692-731, 876-1053) *)

(** [x || y] on optional strings: the empty string is falsy *)
Definition truthy (s : option string) : option string :=
  match s with
  | Some "" => None
  | _ => s
  end.

Definition getCallUserId (call : MatrixCall.t) : option string :=
  match truthy (MatrixCall.getOpponentMember call) with
  | Some userId => Some userId
  | None => truthy (MatrixCall.invitee call)
  end.

Definition onCallFeedsChanged (call : CallRef) : M unit :=
  gc <- this ;;
  let opponentMemberId := getCallUserId (callHeap gc call) in
  let opponentDeviceId := MatrixCall.getOpponentDeviceId (callHeap gc call) in
  match opponentMemberId with
  | None => throw (Error "Cannot change call feeds without user id")
  | Some opponentMemberId =>
      let currentUserMediaFeed := getUserMediaFeed gc opponentMemberId opponentDeviceId in
      let remoteUsermediaFeed := MatrixCall.remoteUsermediaFeed (callHeap gc call) in
      match currentUserMediaFeed, remoteUsermediaFeed with
      | None, Some remote => addUserMediaFeed remote
      | Some current, Some remote =>
          when (negb (bool_decide (remote = current)))
            (replaceUserMediaFeed current remote)
      | Some current, None => removeUserMediaFeed current
      | None, None => ret tt
      end ;;
      gc <- this ;;
      let currentScreenshareFeed := getScreenshareFeed gc opponentMemberId opponentDeviceId in
      let remoteScreensharingFeed := MatrixCall.remoteScreensharingFeed (callHeap gc call) in
      match currentScreenshareFeed, remoteScreensharingFeed with
      | None, Some remote => addScreenshareFeed remote
      | Some current, Some remote =>
          when (negb (bool_decide (remote = current)))
            (replaceScreenshareFeed current remote)
      | Some current, None => removeScreenshareFeed current
      | None, None => ret tt
      end
  end.

Definition initCall (call : CallRef) : M unit :=
  gc <- this ;;
  match getCallUserId (callHeap gc call) with
  | None => throw (Error "Cannot init call without user id")
  | Some opponentMemberId =>
      let onCallFeedsChanged' := OnCallFeedsChanged call in
      let onCallStateChanged' := OnCallStateChanged call in
      let onCallHangup' := OnCallHangup in
      let onCallReplaced' := OnCallReplaced call in
      let deviceMap := default ∅ (callHandlers gc !! opponentMemberId) in
      modify (set_callHandlers
        (<[opponentMemberId :=
             <[MatrixCall.getOpponentDeviceId (callHeap gc call) :=
                 ICallHandlers.mk onCallFeedsChanged' onCallStateChanged'
                   onCallHangup' onCallReplaced']> deviceMap]>
           (callHandlers gc))) ;;
      perform (CallOn call CallEvent.FeedsChanged onCallFeedsChanged') ;;
      perform (CallOn call CallEvent.State onCallStateChanged') ;;
      perform (CallOn call CallEvent.Hangup onCallHangup') ;;
      perform (CallOn call CallEvent.Replaced onCallReplaced') ;;
      update_call call (MatrixCall.set_isPtt (isPtt gc)) ;;
      perform (ReEmit call) ;;
      onCallFeedsChanged call
  end.

Definition disposeCall (call : CallRef) (hangupReason : option CallErrorCode.t) : M unit :=
  gc <- this ;;
  let opponentMemberId := getCallUserId (callHeap gc call) in
  let opponentDeviceId := MatrixCall.getOpponentDeviceId (callHeap gc call) in
  match opponentMemberId with
  | None => throw (Error "Cannot dispose call without user id")
  | Some opponentMemberId =>
      match callHandlers gc !! opponentMemberId with
      | None => throw TypeError
      | Some deviceMap =>
          match deviceMap !! opponentDeviceId with
          | None => throw TypeError
          | Some handlers =>
              perform (CallRemoveListener call CallEvent.FeedsChanged (ICallHandlers.onCallFeedsChanged handlers)) ;;
              perform (CallRemoveListener call CallEvent.State (ICallHandlers.onCallStateChanged handlers)) ;;
              perform (CallRemoveListener call CallEvent.Hangup (ICallHandlers.onCallHangup handlers)) ;;
              perform (CallRemoveListener call CallEvent.Replaced (ICallHandlers.onCallReplaced handlers)) ;;
              (* [deviceMap.delete(opponentMemberId)]: the key passed is the
                 user id *)
              let deviceMap := delete opponentMemberId deviceMap in
              modify (set_callHandlers
                (if bool_decide (size deviceMap = 0%nat)
                 then delete opponentMemberId (callHandlers gc)
                 else <[opponentMemberId := deviceMap]> (callHandlers gc))) ;;
              if bool_decide (MatrixCall.hangupReason (callHeap gc call)
                              = Some CallErrorCode.Replaced)
              then ret tt
              else
                when (negb (bool_decide (MatrixCall.state (callHeap gc call)
                                         = CallState.Ended)))
                  (perform (CallHangup call hangupReason false)) ;;
                gc <- this ;;
                match getUserMediaFeed gc opponentMemberId opponentDeviceId with
                | Some usermediaFeed => removeUserMediaFeed usermediaFeed
                | None => ret tt
                end ;;
                gc <- this ;;
                match getScreenshareFeed gc opponentMemberId opponentDeviceId with
                | Some screenshareFeed => removeScreenshareFeed screenshareFeed
                | None => ret tt
                end
          end
      end
  end.

Definition onCallStateChanged (call : CallRef) (state : CallState.t)
    (_oldState : option CallState.t) : M unit :=
  gc <- this ;;
  match localCallFeed gc with
  | None => throw TypeError
  | Some localCallFeed =>
      let audioMuted := CallFeed.isAudioMuted (feedHeap gc localCallFeed) in
      when (MatrixCall.localUsermediaStream (callHeap gc call)
            && negb (eqb (MatrixCall.isMicrophoneMuted (callHeap gc call)) audioMuted))
        (perform (CallSetMicrophoneMuted call audioMuted)) ;;
      let videoMuted := CallFeed.isVideoMuted (feedHeap gc localCallFeed) in
      when (MatrixCall.localUsermediaStream (callHeap gc call)
            && negb (eqb (MatrixCall.isLocalVideoMuted (callHeap gc call)) videoMuted))
        (perform (CallSetLocalVideoMuted call videoMuted)) ;;
      when (bool_decide (state = CallState.Connected))
        (match MatrixCall.getOpponentMember (callHeap gc call) with
         | None => ret tt
         | Some opponent =>
             match retryCallCounts gc !! opponent with
             | None => ret tt
             | Some retriesMap =>
                 let retriesMap :=
                   delete (MatrixCall.getOpponentDeviceId (callHeap gc call)) retriesMap in
                 modify (set_retryCallCounts
                   (if bool_decide (size retriesMap = 0%nat)
                    then delete opponent (retryCallCounts gc)
                    else <[opponent := retriesMap]> (retryCallCounts gc)))
             end
         end)
  end.

Definition onCallHangup (call : CallRef) : M unit :=
  gc <- this ;;
  if bool_decide (MatrixCall.hangupReason (callHeap gc call) = Some CallErrorCode.Replaced)
  then ret tt
  else
    let opponent :=
      match MatrixCall.getOpponentMember (callHeap gc call) with
      | Some member => Some member
      | None =>
          RoomMember.userId <$>
            (MatrixCall.invitee (callHeap gc call) ≫= Room.getMember (room gc))
      end in
    let deviceMap := opponent ≫= (calls gc !!.) in
    let opponentDeviceId := MatrixCall.getOpponentDeviceId (callHeap gc call) in
    match opponent, deviceMap with
    | Some opponent, Some deviceMap =>
        when (bool_decide (deviceMap !! opponentDeviceId = Some call))
          (disposeCall call (MatrixCall.hangupReason (callHeap gc call)) ;;
           let deviceMap := delete opponentDeviceId deviceMap in
           modify (λ gc, set_calls
             (if bool_decide (size deviceMap = 0%nat)
              then delete opponent (calls gc)
              else <[opponent := deviceMap]> (calls gc)) gc) ;;
           emit GroupCallEvent.CallsChanged)
    | _, _ => ret tt
    end.

(** [onCallReplaced] (lines 1040-1053).  The opponent member of [prevCall]
    is the key into [calls] as it is: for a call that has none, the key is
    [undefined]. *)
Definition onCallReplaced (prevCall newCall : CallRef) : M unit :=
  gc <- this ;;
  match MatrixCall.getOpponentMember (callHeap gc prevCall) with
  | Some opponent =>
      when (bool_decide (calls gc !! opponent = None))
        (modify (set_calls (<[opponent := ∅]> (calls gc)))) ;;
      disposeCall prevCall (Some CallErrorCode.Replaced) ;;
      initCall newCall ;;
      modify (λ gc, set_calls
        (<[opponent :=
             <[MatrixCall.getOpponentDeviceId (callHeap gc prevCall) := newCall]>
               (default ∅ (calls gc !! opponent))]> (calls gc)) gc) ;;
      emit GroupCallEvent.CallsChanged
  | None =>
      when (bool_decide (callsOfUndefined gc = None))
        (modify (set_callsOfUndefined (Some ∅))) ;;
      disposeCall prevCall (Some CallErrorCode.Replaced) ;;
      initCall newCall ;;
      modify (λ gc, set_callsOfUndefined
        (Some (<[MatrixCall.getOpponentDeviceId (callHeap gc prevCall) := newCall]>
                 (default ∅ (callsOfUndefined gc)))) gc) ;;
      emit GroupCallEvent.CallsChanged
  end.

Definition onIncomingCall (newCall : CallRef) : M unit :=
  gc <- this ;;
  let call := callHeap gc newCall in
  if negb (String.eqb (MatrixCall.roomId call) (Room.roomId (room gc))) then ret tt
  else if negb (bool_decide (MatrixCall.state call = CallState.Ringing)) then ret tt
  else if negb (bool_decide (truthy (MatrixCall.groupCallId call) = Some (groupCallId gc)))
  then perform (CallReject newCall)
  else
    match MatrixCall.getOpponentMember call with
    | None => ret tt
    | Some opponent =>
        let deviceMap := default ∅ (calls gc !! opponent) in
        let prevCall := deviceMap !! MatrixCall.getOpponentDeviceId call in
        if bool_decide (MatrixCall.callId ∘ callHeap gc <$> prevCall
                        = Some (MatrixCall.callId call))
        then ret tt
        else
          match prevCall with
          | Some prevCall => disposeCall prevCall (Some CallErrorCode.Replaced)
          | None => ret tt
          end ;;
          initCall newCall ;;
          perform (CallAnswerWithCallFeeds newCall (getLocalFeeds gc)) ;;
          modify (λ gc, set_calls
            (<[opponent := <[MatrixCall.getOpponentDeviceId call := newCall]> deviceMap]>
               (calls gc)) gc) ;;
          emit GroupCallEvent.CallsChanged
    end.

(** [wantsOutgoingCall] (lines 740-749) *)
Definition wantsOutgoingCall (gc : GroupCall) (userId deviceId : string) : bool :=
  let localUserId := MatrixClient.getUserId (client gc) in
  let localDeviceId := MatrixClient.getDeviceId (client gc) in
  (localUserId <=? userId)%string
  && (negb (String.eqb userId localUserId) || (localDeviceId <? deviceId)%string).

(** [for (const x of xs) { ... }] with the local variables of the enclosing
    function threaded through the body *)
Fixpoint for_fold {A S} (xs : list A) (body : A → S → M S) (s : S) : M S :=
  match xs with
  | [] => ret s
  | x :: rest => s' <- body x s ;; for_fold rest body s'
  end.

(** Modelled from the spec: [createNewMatrixCall] of [src/webrtc/call.ts],
    which is not part of the sources at hand: it constructs a new outbound
    call addressed to [(invitee, opponentDeviceId, opponentSessionId,
    groupCallId)], or returns no call. *)
Definition createNewMatrixCall (roomId invitee opponentDeviceId opponentSessionId
    groupCallId : string) : M (option CallRef) :=
  gc <- this ;;
  if MatrixClient.supportsMatrixCall (client gc)
  then
    let newCall := nextCallRef gc in
    modify (set_nextCallRef (S newCall)) ;;
    update_call newCall (λ _,
      {| MatrixCall.callId := "c" +:+ pretty newCall;
         MatrixCall.roomId := roomId;
         MatrixCall.state := CallState.Fledgling;
         MatrixCall.groupCallId := Some groupCallId;
         MatrixCall.invitee := Some invitee;
         MatrixCall.hangupReason := None;
         MatrixCall.getOpponentMember := None;
         MatrixCall.getOpponentDeviceId := opponentDeviceId;
         MatrixCall.getOpponentSessionId := Some opponentSessionId;
         MatrixCall.remoteUsermediaFeed := None;
         MatrixCall.remoteScreensharingFeed := None;
         MatrixCall.localUsermediaFeed := None;
         MatrixCall.localScreensharingFeed := None;
         MatrixCall.localUsermediaStream := false;
         MatrixCall.isMicrophoneMuted := false;
         MatrixCall.isLocalVideoMuted := false;
         MatrixCall.isPtt := false |}) ;;
    ret (Some newCall)
  else ret None.

(** [call?.getOpponentSessionId() !== sessionId] *)
Definition sessionDiffers (gc : GroupCall) (call : option CallRef) (sessionId : string)
  : bool :=
  negb (bool_decide
          (call ≫= MatrixCall.getOpponentSessionId ∘ callHeap gc = Some sessionId)).

(** [placeOutgoingCalls] (lines 754-833).  [callMap] is the device map found
    under the member, in which case writing it writes the call graph, or a
    new one. *)
Definition placeOutgoingCalls : M unit :=
  gc <- this ;;
  callsChanged <-
    for_fold (map_to_list (participants gc)) (λ '(member, participantMap) callsChanged,
      gc <- this ;;
      let found := bool_decide (is_Some (calls gc !! member)) in
      let write callMap :=
        when found (modify (λ gc, set_calls (<[member := callMap]> (calls gc)) gc)) in
      acc <-
        for_fold (map_to_list participantMap) (λ '(deviceId, participant) '(callMap, callsChanged),
          gc <- this ;;
          let prevCall := callMap !! deviceId in
          if sessionDiffers gc prevCall (sessionId participant)
             && wantsOutgoingCall gc member deviceId
          then
            match prevCall with
            | Some prevCall => disposeCall prevCall (Some CallErrorCode.NewSession)
            | None => ret tt
            end ;;
            newCall <- createNewMatrixCall (Room.roomId (room gc)) member deviceId
                         (sessionId participant) (groupCallId gc) ;;
            match newCall with
            | None =>
                write (delete deviceId callMap) ;;
                ret (delete deviceId callMap, true)
            | Some newCall =>
                initCall newCall ;;
                write (<[deviceId := newCall]> callMap) ;;
                gc <- this ;;
                perform (CallPlaceCallWithCallFeeds newCall (getLocalFeeds gc)
                           (screensharing participant)) ;;
                ret (<[deviceId := newCall]> callMap, true)
            end
          else ret (callMap, callsChanged))
        (default ∅ (calls gc !! member), callsChanged) ;;
      modify (λ gc, set_calls
        (if bool_decide (0 < size acc.1)%nat
         then <[member := acc.1]> (calls gc)
         else delete member (calls gc)) gc) ;;
      ret acc.2)
    false ;;
  when callsChanged (emit GroupCallEvent.CallsChanged).

(** [onRetryCallLoop] (lines 847-874) *)
Definition onRetryCallLoop : M unit :=
  gc <- this ;;
  needsRetry <-
    for_fold (map_to_list (participants gc)) (λ '(member, participantMap) needsRetry,
      gc <- this ;;
      let callMap := calls gc !! member in
      for_fold (map_to_list participantMap) (λ '(deviceId, participant) needsRetry,
        gc <- this ;;
        let call := callMap ≫= (.!! deviceId) in
        let retriesMap := retryCallCounts gc !! member in
        let retries := default 0%Z (retriesMap ≫= (.!! deviceId)) in
        if sessionDiffers gc call (sessionId participant)
           && wantsOutgoingCall gc member deviceId
           && (retries <? 3)%Z
        then
          modify (set_retryCallCounts
            (<[member := <[deviceId := (retries + 1)%Z]> (default ∅ retriesMap)]>
               (retryCallCounts gc))) ;;
          ret true
        else ret needsRetry)
      needsRetry)
    false ;;
  when needsRetry placeOutgoingCalls.

(** ** Participant view (lines 260-272, 1175-1248) *)

Definition onParticipantsChanged : M unit :=
  gc <- this ;;
  when (bool_decide (state gc = GroupCallState.Entered)) placeOutgoingCalls.

(** The setter of [participants].  Modelled from the spec: [mapsEqual] of
    [src/utils.ts], which is not part of the sources at hand, is structural
    equality of the two views.  The listener that the constructor registers
    for [ParticipantsChanged] runs within the emission. *)
Definition setter_participants (value : gmap string (gmap string ParticipantState))
  : M unit :=
  gc <- this ;;
  when (negb (bool_decide (value = participants gc)))
    (modify (set_participants value) ;;
     emit GroupCallEvent.ParticipantsChanged ;;
     onParticipantsChanged).

(** A device advertisement that passed the filter, at the type the source
    casts it to *)
Record IGroupCallRoomMemberDevice : Type := mkDevice {
  device_id : string;
  session_id : string;
  expires_ts : Z;
  feeds : list json;
}.

(** The filter of lines 1199-1205 and 1281-1287 on one device [d]: [Some] of
    the device when the predicate holds. *)
Definition validDevice (now : Z) (d : json) : Res (option IGroupCallRoomMemberDevice) :=
  (device_id <~ prop d "device_id";
   session_id <~ prop d "session_id";
   expires_ts <~ prop d "expires_ts";
   feeds <~ prop d "feeds";
   Ok match device_id, session_id, expires_ts, feeds with
      | Some (JStr device_id), Some (JStr session_id), Some (JNum expires_ts),
        Some (JArr feeds) =>
          if (now <? expires_ts)%Z
          then Some (mkDevice device_id session_id expires_ts feeds)
          else None
      | _, _, _, _ => None
      end)%res.

(** [f.purpose === SDPStreamMetadataPurpose.Screenshare] on an advertised feed *)
Definition isScreenshareFeed (f : json) : Res bool :=
  (purpose <~ prop f "purpose";
   Ok (isString purpose (SDPStreamMetadataPurpose.value SDPStreamMetadataPurpose.Screenshare)))%res.

(** Lines 1193-1196: the devices advertised for this call in one event *)
Definition advertisedDevices (groupCallId : string) (content : list (string * json))
  : Res (list json) :=
  (let calls := arrayOrEmpty (assoc "m.calls" content) in
   call <~ find_res (λ call, id <~ prop call "m.call_id"; Ok (isString id groupCallId)) calls;
   match call with
   | Some call => devices <~ prop call "m.devices"; Ok (arrayOrEmpty devices)
   | None => Ok []
   end)%res.

(** [min] where [None] is [Infinity] *)
Definition earlier (expires_ts : Z) (nextExpiration : option Z) : option Z :=
  match nextExpiration with
  | Some t => if (expires_ts <? t)%Z then Some expires_ts else Some t
  | None => Some expires_ts
  end.

Definition considersEntered (gc : GroupCall) : bool :=
  bool_decide (state gc = GroupCallState.Entered) || enteredViaAnotherSession gc.

(** Line 1208: [!entered && member?.userId === this.client.getUserId()!] for
    the member of the event with state key [stateKey] *)
Definition suppresses (gc : GroupCall) (stateKey : string) : bool :=
  negb (considersEntered gc)
  && bool_decide (RoomMember.userId <$> Room.getMember (room gc) stateKey
                  = Some (MatrixClient.getUserId (client gc))).

(** Lines 1192-1210: the devices of one event that remain after both filters *)
Definition remainingDevices (gc : GroupCall) (now : Z) (stateKey : string)
    (content : list (string * json)) : Res (list IGroupCallRoomMemberDevice) :=
  (devices <~ advertisedDevices (groupCallId gc) content;
   validDevices <~ filter_as_res (validDevice now) devices;
   Ok (if suppresses gc stateKey
       then List.filter (λ d, negb (String.eqb (device_id d)
                                      (MatrixClient.getDeviceId (client gc))))
              validDevices
       else validDevices))%res.

(** Lines 1217-1223: the device map of one member *)
Fixpoint deviceMapOf (validDevices : list IGroupCallRoomMemberDevice)
    (acc : gmap string ParticipantState * option Z)
  : Res (gmap string ParticipantState * option Z) :=
  match validDevices with
  | [] => Ok acc
  | d :: rest =>
      (screensharing <~ some_res isScreenshareFeed (feeds d);
       deviceMapOf rest
         (<[device_id d := mkParticipantState (session_id d) screensharing]> acc.1,
          earlier (expires_ts d) acc.2))%res
  end.

(** Lines 1191-1225: one turn of the loop over the member-state events *)
Definition participantsOfEvent (gc : GroupCall) (now : Z)
    (acc : gmap string (gmap string ParticipantState) * option Z)
    (e : string * list (string * json))
  : Res (gmap string (gmap string ParticipantState) * option Z) :=
  (let member := Room.getMember (room gc) e.1 in
   validDevices <~ remainingDevices gc now e.1 e.2;
   if bool_decide (0 < length validDevices)%nat
      && bool_decide (RoomMember.membership <$> member = Some "join")
   then
     r <~ deviceMapOf validDevices (∅, acc.2);
     Ok (<[e.1 := r.1]> acc.1, r.2)
   else Ok acc)%res.

Fixpoint participantsOfEvents (gc : GroupCall) (now : Z)
    (events : list (string * list (string * json)))
    (acc : gmap string (gmap string ParticipantState) * option Z)
  : Res (gmap string (gmap string ParticipantState) * option Z) :=
  match events with
  | [] => Ok acc
  | e :: rest =>
      (acc' <~ participantsOfEvent gc now acc e;
       participantsOfEvents gc now rest acc')%res
  end.

Definition isScreenshare (gc : GroupCall) (f : FeedRef) : bool :=
  match CallFeed.purpose (feedHeap gc f) with
  | SDPStreamMetadataPurpose.Screenshare => true
  | SDPStreamMetadataPurpose.Usermedia => false
  end.

(** Lines 1186-1242: the local variables [participants] and [nextExpiration]
    when the loops are done *)
Definition collectParticipants (gc : GroupCall) (now : Z)
  : Res (gmap string (gmap string ParticipantState) * option Z) :=
  (let entered := considersEntered gc in
   r <~ participantsOfEvents gc now (map_to_list (Room.memberStateEvents (room gc))) (∅, None);
   if entered
   then
     match Room.getMember (room gc) (MatrixClient.getUserId (client gc)) with
     | None => Throw NonNullViolation
     | Some localMember =>
         let deviceMap := default ∅ (r.1 !! RoomMember.userId localMember) in
         let deviceMap :=
           if bool_decide (is_Some (deviceMap !! MatrixClient.getDeviceId (client gc)))
           then deviceMap
           else <[MatrixClient.getDeviceId (client gc) :=
                    mkParticipantState (MatrixClient.getSessionId (client gc))
                      (existsb (isScreenshare gc) (getLocalFeeds gc))]> deviceMap in
         Ok (<[RoomMember.userId localMember := deviceMap]> r.1, r.2)
     end
   else Ok r)%res.

(** [updateParticipants] (lines 1175-1248); [now] is the reading of the
    clock. *)
Definition updateParticipants (now : Z) : M unit :=
  modify (set_participantsExpirationTimer None) ;;
  gc <- this ;;
  if bool_decide (state gc = GroupCallState.Ended)
  then setter_participants ∅
  else
    r <- lift (collectParticipants gc now) ;;
    setter_participants r.1 ;;
    match r.2 with
    | Some nextExpiration =>
        modify (set_participantsExpirationTimer (Some (nextExpiration - now)%Z))
    | None => ret tt
    end.

(** ** Membership publisher (lines 151, 1256-1372) *)

Definition DEVICE_TIMEOUT : Z := 1000 * 60 * 60.

(** [v.k] for a value [v] that is an object *)
Definition field (v : json) (k : string) : jsval :=
  match v with
  | JObj fields => assoc k fields
  | _ => None
  end.

(** Lines 1267-1276: the loop that tells our entry from the others *)
Fixpoint partitionCalls (groupCallId : string) (calls : list json)
    (call : option json) (otherCalls : list json) : Res (option json * list json) :=
  match calls with
  | [] => Ok (call, otherCalls)
  | c :: rest =>
      (id <~ prop c "m.call_id";
       if isString id groupCallId
       then partitionCalls groupCallId rest (Some c) otherCalls
       else partitionCalls groupCallId rest call (otherCalls ++ [c]))%res
  end.

(** [validDevice] as the predicate of [filter] *)
Definition isValidDevice (now : Z) (d : json) : Res bool :=
  (o <~ validDevice now d; Ok (bool_decide (is_Some o)))%res.

(** The own properties of an object, for [{...call}] *)
Definition ownProperties (v : json) : list (string * json) :=
  match v with
  | JObj fields => fields
  | _ => []
  end.

(** Lines 1260-1287: what [updateDevices] reads before it calls [fn] *)
Definition readMemberState (gc : GroupCall) (now : Z)
  : Res (json * list json * list json) :=
  (let localUserId := MatrixClient.getUserId (client gc) in
   let event := Room.memberStateEvents (room gc) !! localUserId in
   let content := default [] event in
   let calls := arrayOrEmpty (assoc "m.calls" content) in
   r <~ partitionCalls (groupCallId gc) calls None [];
   let call := default (JObj []) r.1 in
   let otherCalls := r.2 in
   devices <~ prop call "m.devices";
   validDevices <~ filter_res (isValidDevice now) (arrayOrEmpty devices);
   Ok (call, otherCalls, validDevices))%res.

(** [updateDevices] (lines 1256-1306) *)
Definition updateDevices (fn : list json → option (list json)) (keepAlive : bool)
    (now : Z) : M unit :=
  gc <- this ;;
  let localUserId := MatrixClient.getUserId (client gc) in
  r <- lift (readMemberState gc now) ;;
  let '(call, otherCalls, validDevices) := r in
  match fn validDevices with
  | None => ret tt
  | Some newDevices =>
      let newCalls :=
        otherCalls ++
        (if bool_decide (0 < length newDevices)%nat
         then [JObj (obj_set "m.devices" (JArr newDevices)
                       (obj_set "m.call_id" (JStr (groupCallId gc))
                          (ownProperties call)))]
         else []) in
      let newContent := JObj [("m.calls", JArr newCalls)] in
      perform (SendStateEvent (Room.roomId (room gc)) EventType.GroupCallMemberPrefix
                 newContent localUserId keepAlive)
  end.

(** [d.device_id !== deviceId] *)
Definition isNotDevice (deviceId : string) (d : json) : bool :=
  negb (isString (field d "device_id") deviceId).

(** [{ purpose: feed.purpose }] *)
Definition advertisedFeed (gc : GroupCall) (feed : FeedRef) : json :=
  JObj [("purpose", JStr (SDPStreamMetadataPurpose.value (CallFeed.purpose (feedHeap gc feed))))].

(** The callback of [addDeviceToMemberState] (lines 1309-1318); [now'] is the
    reading of the clock in the callback. *)
Definition withLocalDevice (gc : GroupCall) (now' : Z) (devices : list json)
  : option (list json) :=
  Some (List.filter (isNotDevice (MatrixClient.getDeviceId (client gc))) devices ++
        [JObj [("device_id", JStr (MatrixClient.getDeviceId (client gc)));
               ("session_id", JStr (MatrixClient.getSessionId (client gc)));
               ("expires_ts", JNum (now' + DEVICE_TIMEOUT));
               ("feeds", JArr (advertisedFeed gc <$> getLocalFeeds gc))]]).

(** [addDeviceToMemberState] (lines 1308-1319); [now] is the reading of the
    clock in [updateDevices]. *)
Definition addDeviceToMemberState (now now' : Z) : M unit :=
  gc <- this ;;
  updateDevices (withLocalDevice gc now') false now.

(** The entries of [client.getDevices()] *)
Record IMyDevice : Type := mkIMyDevice {
  my_device_id : string;
  last_seen_ts : option Z;
}.

(** The callback of [devices.filter] in [cleanMemberState] (lines 1360-1367) *)
Definition keepsDevice (gc : GroupCall) (deviceMap : gmap string IMyDevice) (d : json)
  : bool :=
  let device :=
    match field d "device_id" with
    | Some (JStr device_id) => deviceMap !! device_id
    | _ => None
    end in
  bool_decide (is_Some (device ≫= last_seen_ts))
  && negb (isString (field d "device_id") (MatrixClient.getDeviceId (client gc))
           && negb (bool_decide (state gc = GroupCallState.Entered))
           && negb (enteredViaAnotherSession gc)).

(** [new Map(myDevices.map(d => [d.device_id, d]))] *)
Definition myDeviceMap (myDevices : list IMyDevice) : gmap string IMyDevice :=
  foldl (λ m d, <[my_device_id d := d]> m) ∅ myDevices.

(** The callback of [cleanMemberState] (lines 1359-1371) *)
Definition withoutUnknownDevices (gc : GroupCall) (deviceMap : gmap string IMyDevice)
    (devices : list json) : option (list json) :=
  let newDevices := List.filter (keepsDevice gc deviceMap) devices in
  if bool_decide (length newDevices = length devices) then None else Some newDevices.

(** [cleanMemberState] (lines 1354-1372); [myDevices] is the answer of
    [client.getDevices()]. *)
Definition cleanMemberState (myDevices : list IMyDevice) (now : Z) : M unit :=
  let deviceMap := myDeviceMap myDevices in
  gc <- this ;;
  updateDevices (withoutUnknownDevices gc deviceMap) false now.

(** ** Active speaker (lines 1105-1127) *)

Definition Qgtb (x y : Q) : bool := negb (Qle_bool x y).

(** [!x] on a number that may be [undefined]: zero is falsy *)
Definition falsy (x : option Q) : bool :=
  match x with
  | None => true
  | Some q => Qeq_bool q 0
  end.

Section ActiveSpeaker.

(** The constant of [src/webrtc/callFeed.ts] *)
Variable SPEAKING_THRESHOLD : Q.

(** [samples.reduce((acc, volume) => acc + Math.max(volume, SPEAKING_THRESHOLD))]:
    without an initial value the first sample starts the sum, and an empty
    sequence throws *)
Definition totalVolume (samples : list Q) : Res Q :=
  match samples with
  | [] => Throw TypeError
  | first :: rest =>
      Ok (fold_left (λ acc volume, acc + Qmax volume SPEAKING_THRESHOLD)%Q rest first)
  end.

(** One turn of the loop of lines 1109-1121 *)
Definition considerFeed (gc : GroupCall) (acc : option Q * option FeedRef)
    (callFeed : FeedRef) : Res (option Q * option FeedRef) :=
  if CallFeed.isLocal (feedHeap gc callFeed)
     && bool_decide (1 < length (userMediaFeeds gc))%nat
  then Ok acc
  else
    (let samples := CallFeed.speakingVolumeSamples (feedHeap gc callFeed) in
     total <~ totalVolume samples;
     let avg := (total / inject_Z (Z.of_nat (length samples)))%Q in
     if falsy acc.1 || match acc.1 with Some topAvg => Qgtb avg topAvg | None => false end
     then Ok (Some avg, Some callFeed)
     else Ok acc)%res.

Fixpoint considerFeeds (gc : GroupCall) (feeds : list FeedRef)
    (acc : option Q * option FeedRef) : Res (option Q * option FeedRef) :=
  match feeds with
  | [] => Ok acc
  | callFeed :: rest =>
      (acc' <~ considerFeed gc acc callFeed;
       considerFeeds gc rest acc')%res
  end.

Definition onActiveSpeakerLoop : M unit :=
  gc <- this ;;
  r <- lift (considerFeeds gc (userMediaFeeds gc) (None, None)) ;;
  match r with
  | (Some topAvg, Some nextActiveSpeaker) =>
      when (negb (bool_decide (activeSpeaker gc = Some nextActiveSpeaker))
            && negb (falsy (Some topAvg))
            && Qgtb topAvg SPEAKING_THRESHOLD)
        (modify (set_activeSpeaker (Some nextActiveSpeaker)) ;;
         emit (GroupCallEvent.ActiveSpeakerChanged (Some nextActiveSpeaker)))
  | _ => ret tt
  end.

End ActiveSpeaker.

(** ** The constructor and the scenarios of the specification *)

(** The fields of a group call when the constructor has assigned them
    (lines 162-209), before its call of [updateParticipants]. *)
Definition newGroupCall (client : MatrixClient.t) (room : Room.t) (isPtt : bool)
    (groupCallId : string) : GroupCall :=
  {| client := client;
     room := room;
     isPtt := isPtt;
     groupCallId := groupCallId;
     pttMaxTransmitTime := 1000 * 20;
     activeSpeaker := None;
     localCallFeed := None;
     localScreenshareFeed := None;
     calls := ∅;
     callsOfUndefined := None;
     userMediaFeeds := [];
     screenshareFeeds := [];
     callHandlers := ∅;
     retryCallCounts := ∅;
     transmitTimer := None;
     participantsExpirationTimer := None;
     initWithAudioMuted := false;
     initWithVideoMuted := false;
     state := GroupCallState.LocalCallFeedUninitialized;
     participants := ∅;
     enteredViaAnotherSession := false;
     feedHeap := λ _, CallFeed.mk "" None SDPStreamMetadataPurpose.Usermedia false false false [];
     callHeap := λ _, MatrixCall.mk "" "" CallState.Fledgling None None None None "" None
                        None None None None false false false false;
     nextCallRef := 0;
     trace := [] |}.

Definition clientOf (userId deviceId sessionId : string) : MatrixClient.t :=
  MatrixClient.mk userId deviceId sessionId true.

(** A device advertisement with one user-media feed, and the member-state
    content that carries the devices of one group call *)
Definition advertisement (device_id session_id : string) (expires_ts : Z) : json :=
  JObj [("device_id", JStr device_id); ("session_id", JStr session_id);
        ("expires_ts", JNum expires_ts);
        ("feeds", JArr [JObj [("purpose", JStr "m.usermedia")]])].

Definition memberState (groupCallId : string) (devices : list json)
  : list (string * json) :=
  [("m.calls", JArr [JObj [("m.call_id", JStr groupCallId); ("m.devices", JArr devices)]])].

(** The room of the scenarios: the local user [@a:h] and a remote user
    [@b:h], both joined; [@b:h] advertises device [DB] with session [s1]. *)
Definition room_ab : Room.t :=
  Room.mk "!r" {[ "@a:h" := "join"; "@b:h" := "join" ]}
    {[ "@b:h" := memberState "G" [advertisement "DB" "s1" 3600000] ]}.

(** The local user-media feed of [(@a:h, DA)], no volume sample yet *)
Definition localFeed_a : CallFeed.t :=
  CallFeed.mk "@a:h" (Some "DA") SDPStreamMetadataPurpose.Usermedia true false false [].

(** The local device [(@a:h, DA)] when [initLocalCallFeed] has stored its
    feed under reference [100] and [enter] has set the state, before the
    listeners of the state change run. *)
Definition gc_a_entered : GroupCall :=
  set_state GroupCallState.Entered
    (set_userMediaFeeds [100%nat]
       (set_localCallFeed (Some 100%nat)
          (set_feedHeap (<[100%nat := localFeed_a]> (feedHeap (newGroupCall (clientOf "@a:h" "DA" "sa") room_ab false "G")))
             (newGroupCall (clientOf "@a:h" "DA" "sa") room_ab false "G")))).

(** S1: the view is recomputed at time 0, and the call to [(@b:h, DB)] is
    placed. *)
Definition gc_a_calling_b : GroupCall := (updateParticipants 0 gc_a_entered).2.

(** The single-call layer ends call [0] with reason [UserHangup]. *)
Definition gc_a_b_hung_up : GroupCall :=
  (update_call 0%nat
     (MatrixCall.set_hangupReason (Some CallErrorCode.UserHangup)
      ∘ MatrixCall.set_state CallState.Ended) gc_a_calling_b).2.

(** The single-call layer has given call [0] the clone, reference [101], of
    the local feed. *)
Definition gc_a_b_media : GroupCall :=
  (update_call 0%nat
     (MatrixCall.set_localUsermediaFeed (Some 101%nat)
      ∘ MatrixCall.set_localUsermediaStream true)
     (set_feedHeap (<[101%nat := localFeed_a]> (feedHeap gc_a_calling_b))
        gc_a_calling_b)).2.

(** The remote feed of [(@b:h, DB)], reference [1], after a quiet sample of
    -100 dB and a loud one of -50 dB; it follows the local feed in the list
    of user-media feeds. *)
Definition remoteFeed_b : CallFeed.t :=
  CallFeed.mk "@b:h" (Some "DB") SDPStreamMetadataPurpose.Usermedia false false false
    [-100 # 1; -50 # 1]%Q.

Definition gc_b_speaking : GroupCall :=
  set_userMediaFeeds [100%nat; 1%nat]
    (set_feedHeap (<[1%nat := remoteFeed_b]> (feedHeap gc_a_entered)) gc_a_entered).

(** ** The notions of the statements *)

(** A method leaves an observation of the state alone, however it ends. *)
Definition frames {A X} (obs : GroupCall → X) (m : M A) : Prop :=
  ∀ gc, obs (m gc).2 = obs gc.

(** The identity of the local device *)
Definition localIds (gc : GroupCall) : string * string :=
  (MatrixClient.getUserId (client gc), MatrixClient.getDeviceId (client gc)).

(** The call graph and the handler table are keyed identically, and no inner
    map is empty. *)
Definition keyedIdentically (gc : GroupCall) : Prop :=
  (∀ userId deviceId,
     is_Some (calls gc !! userId ≫= (.!! deviceId))
     ↔ is_Some (callHandlers gc !! userId ≫= (.!! deviceId)))
  ∧ (∀ userId deviceMap, calls gc !! userId = Some deviceMap → deviceMap ≠ ∅)
  ∧ (∀ userId deviceMap, callHandlers gc !! userId = Some deviceMap → deviceMap ≠ ∅).

(** The arithmetic mean of the samples, every sample clamped below at the
    threshold *)
Definition clampedMean (threshold : Q) (samples : list Q) : Q :=
  (fold_right (λ volume acc, Qmax volume threshold + acc) 0 samples
   / inject_Z (Z.of_nat (length samples)))%Q.

(** The member-state entries of the local user as [updateDevices] reads
    them *)
Definition storedCalls (gc : GroupCall) : list json :=
  arrayOrEmpty
    (assoc "m.calls"
       (default [] (Room.memberStateEvents (room gc) !! MatrixClient.getUserId (client gc)))).

(** [c["m.call_id"] === this.groupCallId] on an entry that is an object *)
Definition isOurEntry (gc : GroupCall) (c : json) : bool :=
  isString (field c "m.call_id") (groupCallId gc).

(** The devices that a state-event write carries in the entry of the group
    call [groupCallId] *)
Definition writtenDevices (groupCallId : string) (e : Effect) : list json :=
  match e with
  | SendStateEvent _ _ content _ _ =>
      arrayOrEmpty (field content "m.calls") ≫= λ entry,
        if isString (field entry "m.call_id") groupCallId
        then arrayOrEmpty (field entry "m.devices")
        else []
  | _ => []
  end.

(** Every device that the run from [gc] to [gc'] wrote for this group call
    carries [expires_ts = now + DEVICE_TIMEOUT]. *)
Definition carriesFreshExpiry (gc : GroupCall) (now : Z) (gc' : GroupCall) : Prop :=
  ∀ e d, e ∈ drop (length (trace gc)) (trace gc') →
         d ∈ writtenDevices (groupCallId gc) e →
         field d "expires_ts" = Some (JNum (now + DEVICE_TIMEOUT)).

(** The run from [gc] to [gc'] wrote no state event, or exactly one. *)
Definition noWrite (gc gc' : GroupCall) : Prop := trace gc' = trace gc.

Definition oneWrite (gc gc' : GroupCall) : Prop :=
  ∃ content keepAlive,
    trace gc' = trace gc ++ [SendStateEvent (Room.roomId (room gc))
                               EventType.GroupCallMemberPrefix content
                               (MatrixClient.getUserId (client gc)) keepAlive].

(** The local user [@a:h] has a second device [DX], advertised until time
    1000, in the member state; this device [DA] is entered. *)
Definition gc_a_with_DX : GroupCall :=
  set_state GroupCallState.Entered
    (newGroupCall (clientOf "@a:h" "DA" "sa")
       (Room.mk "!r" {[ "@a:h" := "join" ]}
          {[ "@a:h" := memberState "G" [advertisement "DX" "sx" 1000] ]})
       false "G").

(** The entry of the answer of [client.getDevices()] for a device id: the
    last one, should the answer hold several with this id. *)
Definition listedDevice (myDevices : list IMyDevice) (device_id : string)
  : option IMyDevice :=
  last (List.filter (λ m, String.eqb (my_device_id m) device_id) myDevices).

(** [d] is the local device while the local device is not considered
    entered. *)
Definition isUnenteredLocalDevice (gc : GroupCall) (d : json) : bool :=
  isString (field d "device_id") (MatrixClient.getDeviceId (client gc))
  && negb (considersEntered gc).

(** C7 in the words of the specification: the filter removes the devices
    unknown to the identity service, and the local device when it is neither
    entered nor entered via another session. *)
Definition knownToIdentityService (myDevices : list IMyDevice) (d : json) : bool :=
  match field d "device_id" with
  | Some (JStr device_id) => bool_decide (is_Some (listedDevice myDevices device_id))
  | _ => false
  end.

Definition cleanMemberStateRule (gc : GroupCall) (myDevices : list IMyDevice) (now : Z)
  : Prop :=
  ∀ call otherCalls devices,
    readMemberState gc now = Ok (call, otherCalls, devices) →
    let kept := List.filter (λ d, knownToIdentityService myDevices d
                                  && negb (isUnenteredLocalDevice gc d)) devices in
    let gc' := (cleanMemberState myDevices now gc).2 in
    (noWrite gc gc' ↔ kept = devices) ∧ (oneWrite gc gc' ↔ kept ≠ devices).

(** C7 as the code has it: cleaning keeps a device that the identity service
    lists with a [last_seen_ts], unless it is the local device while that is
    not considered entered. *)
Definition survivesCleaning (gc : GroupCall) (myDevices : list IMyDevice) (d : json)
  : bool :=
  match field d "device_id" with
  | Some (JStr device_id) =>
      bool_decide (is_Some (listedDevice myDevices device_id ≫= last_seen_ts))
  | _ => false
  end
  && negb (isUnenteredLocalDevice gc d).

(** The advertisement [d] passes the structural validation at time [now],
    for device [deviceId] and session [sessionId]. *)
Definition isValidAdvertisement (now : Z) (d : json) (deviceId sessionId : string) : Prop :=
  prop d "device_id" = Ok (Some (JStr deviceId))
  ∧ prop d "session_id" = Ok (Some (JStr sessionId))
  ∧ (∃ expires_ts, prop d "expires_ts" = Ok (Some (JNum expires_ts)) ∧ (now < expires_ts)%Z)
  ∧ (∃ feeds, prop d "feeds" = Ok (Some (JArr feeds))).

(** The member-state event of [userId] advertises for this call a device
    [deviceId], with session [sessionId], that is valid at time [now]. *)
Definition advertises (gc : GroupCall) (now : Z) (userId deviceId sessionId : string)
  : Prop :=
  ∃ content devices d,
    Room.memberStateEvents (room gc) !! userId = Some content
    ∧ advertisedDevices (groupCallId gc) content = Ok devices
    ∧ d ∈ devices
    ∧ isValidAdvertisement now d deviceId sessionId.

(** Local-echo suppression: the local device of the local user, while the
    local device is not considered entered *)
Definition suppressed (gc : GroupCall) (userId deviceId : string) : Prop :=
  considersEntered gc = false
  ∧ userId = MatrixClient.getUserId (client gc)
  ∧ deviceId = MatrixClient.getDeviceId (client gc).

Definition isJoined (gc : GroupCall) (userId : string) : Prop :=
  Room.memberships (room gc) !! userId = Some "join".

(** C3 in the words of the specification: every device entry of the view is
    a valid advertisement, and a member is an outer key iff a valid device
    remains after filtering and the member is joined. *)
Definition viewOfValidDevices (gc : GroupCall) (now : Z)
    (view : gmap string (gmap string ParticipantState)) : Prop :=
  (∀ userId deviceId ps,
     view !! userId ≫= (.!! deviceId) = Some ps →
     ∃ sessionId, advertises gc now userId deviceId sessionId)
  ∧ (∀ userId,
       is_Some (view !! userId) ↔
       (∃ deviceId sessionId,
          advertises gc now userId deviceId sessionId ∧ ¬ suppressed gc userId deviceId)
       ∧ isJoined gc userId).

(** The entry that local echo synthesises *)
Definition localEcho (gc : GroupCall) : ParticipantState :=
  mkParticipantState (MatrixClient.getSessionId (client gc))
    (existsb (isScreenshare gc) (getLocalFeeds gc)).

(** C4 in the words of the specification *)
Definition localEchoRule (gc : GroupCall)
    (view : gmap string (gmap string ParticipantState)) : Prop :=
  (considersEntered gc = false →
   view !! MatrixClient.getUserId (client gc)
     ≫= (.!! MatrixClient.getDeviceId (client gc)) = None)
  ∧ (considersEntered gc = true →
     view !! MatrixClient.getUserId (client gc)
       ≫= (.!! MatrixClient.getDeviceId (client gc)) = Some (localEcho gc)).

(** [d] is the advertisement that the view shows for the device [deviceId] of
    [userId]: of the devices that the member-state event of [userId] holds
    for this call, the last one that is valid at time [now] and has this
    device id (line 1218 overwrites the entry of an earlier one). *)
Definition shownAdvertisement (gc : GroupCall) (now : Z) (userId deviceId : string)
    (d : json) : Prop :=
  ∃ content before after sessionId,
    Room.memberStateEvents (room gc) !! userId = Some content
    ∧ advertisedDevices (groupCallId gc) content = Ok (before ++ d :: after)
    ∧ isValidAdvertisement now d deviceId sessionId
    ∧ ∀ d' sessionId', d' ∈ after → ¬ isValidAdvertisement now d' deviceId sessionId'.

(** The entry [ps] is read off the advertisement [d]: the session id is its
    [session_id], and the screensharing bit says whether one of its [feeds]
    has the purpose [m.screenshare]. *)
Definition entryOfAdvertisement (d : json) (ps : ParticipantState) : Prop :=
  prop d "session_id" = Ok (Some (JStr (sessionId ps)))
  ∧ ∃ feeds, prop d "feeds" = Ok (Some (JArr feeds))
             ∧ some_res isScreenshareFeed feeds = Ok (screensharing ps).

(** The local device [DA] of [@a:h] is entered with session [sa]; the member
    state still holds the advertisement of [DA] from the previous run of the
    client, session [old], valid until time 3600000. *)
Definition gc_a_restarted : GroupCall :=
  set_state GroupCallState.Entered
    (set_userMediaFeeds [100%nat]
       (set_localCallFeed (Some 100%nat)
          (set_feedHeap (<[100%nat := localFeed_a]> (feedHeap (newGroupCall (clientOf "@a:h" "DA" "sa") room_ab false "G")))
             (newGroupCall (clientOf "@a:h" "DA" "sa")
                (Room.mk "!r" {[ "@a:h" := "join" ]}
                   {[ "@a:h" := memberState "G" [advertisement "DA" "old" 3600000] ]})
                false "G")))).

(** As [gc_a_restarted], and the advertisement of the previous run shares the
    screen, which this run does not. *)
Definition gc_a_restarted_sharing : GroupCall :=
  set_state GroupCallState.Entered
    (set_userMediaFeeds [100%nat]
       (set_localCallFeed (Some 100%nat)
          (set_feedHeap (<[100%nat := localFeed_a]> (feedHeap (newGroupCall (clientOf "@a:h" "DA" "sa") room_ab false "G")))
             (newGroupCall (clientOf "@a:h" "DA" "sa")
                (Room.mk "!r" {[ "@a:h" := "join" ]}
                   {[ "@a:h" := memberState "G"
                        [JObj [("device_id", JStr "DA"); ("session_id", JStr "old");
                               ("expires_ts", JNum 3600000);
                               ("feeds", JArr [JObj [("purpose", JStr "m.screenshare")]])]] ]})
                false "G")))).

(** The retry count of a slot, zero when the slot has no entry *)
Definition retriesIn (counts : gmap string (gmap string Z)) (member deviceId : string) : Z :=
  default 0%Z (counts !! member ≫= (.!! deviceId)).

Definition retries (gc : GroupCall) (member deviceId : string) : Z :=
  retriesIn (retryCallCounts gc) member deviceId.

(** The participant advertised for a slot of the view *)
Definition slot (gc : GroupCall) (member deviceId : string) : option ParticipantState :=
  participants gc !! member ≫= (.!! deviceId).

(** The local side wants the outgoing call of the slot, and no current call
    of the slot has the advertised session id. *)
Definition needsCall (gc : GroupCall) (member deviceId sessionId : string) : bool :=
  sessionDiffers gc (calls gc !! member ≫= (.!! deviceId)) sessionId
  && wantsOutgoingCall gc member deviceId.

(** The condition of lines 858-862 for a slot whose retry count is [n] *)
Definition qualifies (gc : GroupCall) (member deviceId : string) (p : ParticipantState)
    (n : Z) : bool :=
  needsCall gc member deviceId (sessionId p) && (n <? 3)%Z.

Definition stepCount (gc : GroupCall) (member deviceId : string) (p : ParticipantState)
    (n : Z) : Z :=
  if qualifies gc member deviceId p n then (n + 1)%Z else n.

(** One turn of the inner loop of [onRetryCallLoop] as a function of the
    retry counts and of [needsRetry] *)
Definition retryStep (gc : GroupCall) (member : string)
    (acc : gmap string (gmap string Z) * bool) (e : string * ParticipantState)
  : gmap string (gmap string Z) * bool :=
  if qualifies gc member e.1 e.2 (retriesIn acc.1 member e.1)
  then (<[member := <[e.1 := (retriesIn acc.1 member e.1 + 1)%Z]>
                      (default ∅ (acc.1 !! member))]> acc.1, true)
  else acc.

Definition retrySteps (gc : GroupCall) (acc : gmap string (gmap string Z) * bool)
    (e : string * gmap string ParticipantState) : gmap string (gmap string Z) * bool :=
  foldl (retryStep gc e.1) acc (map_to_list e.2).

(** The effect [e] of the run that ended in [gc'] places a call addressed to
    the slot. *)
Definition placedTo (gc' : GroupCall) (member deviceId : string) (e : Effect) : Prop :=
  ∃ call clonesOf requestScreenshareFeed,
    e = CallPlaceCallWithCallFeeds call clonesOf requestScreenshareFeed
    ∧ MatrixCall.invitee (callHeap gc' call) = Some member
    ∧ MatrixCall.getOpponentDeviceId (callHeap gc' call) = deviceId.

(** C9 in the words of the specification: a slot whose retry count has
    reached 3 sees no further placement on a retry tick. *)
Definition noPlacementAfterThree (gc gc' : GroupCall) : Prop :=
  ∀ member deviceId e,
    (3 ≤ retries gc member deviceId)%Z →
    e ∈ drop (length (trace gc)) (trace gc') →
    ¬ placedTo gc' member deviceId e.

(** The local device [(@a:h, DA)] is entered; [(@b:h, DB)] and [(@c:h, DC)]
    are in the view and neither has a call; the retry count of [(@b:h, DB)]
    has reached 3, that of [(@c:h, DC)] is 1. *)
Definition gc_a_retrying : GroupCall :=
  set_retryCallCounts {[ "@b:h" := {[ "DB" := 3%Z ]}; "@c:h" := {[ "DC" := 1%Z ]} ]}
    (set_participants
       {[ "@b:h" := {[ "DB" := mkParticipantState "s1" false ]};
          "@c:h" := {[ "DC" := mkParticipantState "sc" false ]} ]}
       gc_a_entered).

(** Call [0] of S1 when the single-call layer knows the opponent member *)
Definition gc_a_b_answered : GroupCall :=
  set_retryCallCounts {[ "@b:h" := {[ "DB" := 2%Z ]} ]}
    (update_call 0%nat
       (MatrixCall.set_getOpponentMember (Some "@b:h")) gc_a_calling_b).2.

(** No [null] occurs in a JSON value. *)
Fixpoint nullFree (v : json) : bool :=
  match v with
  | JNull => false
  | JArr items => forallb nullFree items
  | JObj fields => forallb (λ kv, let '(_, x) := kv in nullFree x) fields
  | _ => true
  end.

(** The member-state events hold no [null], and the room knows the local
    member when local echo needs it. *)
Definition wellFormedRoomState (gc : GroupCall) : Prop :=
  (∀ userId content,
     Room.memberStateEvents (room gc) !! userId = Some content →
     nullFree (JObj content) = true)
  ∧ (considersEntered gc = true →
     is_Some (Room.memberships (room gc) !! MatrixClient.getUserId (client gc))).

(** ** Further methods of the class, and the notions of their statements *)

(** [hasLocalParticipant] (lines 322-326) *)
Definition hasLocalParticipant (gc : GroupCall) : bool :=
  match Room.getMember (room gc) (MatrixClient.getUserId (client gc)) with
  | Some member =>
      bool_decide (is_Some (participants gc !! RoomMember.userId member
                              ≫= (.!! MatrixClient.getDeviceId (client gc))))
  | None => false
  end.

(** The setter of [enteredViaAnotherSession] (lines 298-301); [now] is the
    reading of the clock in [updateParticipants]. *)
Definition setter_enteredViaAnotherSession (value : bool) (now : Z) : M unit :=
  modify (set_enteredViaAnotherSession value) ;;
  updateParticipants now.

(** [onRoomState] (line 1374) *)
Definition onRoomState (now : Z) : M unit := updateParticipants now.

(** The callback of the removal in [updateMemberState] (line 1344) *)
Definition withoutLocalDevice (gc : GroupCall) (devices : list json)
  : option (list json) :=
  Some (List.filter (isNotDevice (MatrixClient.getDeviceId (client gc))) devices).

(** The key that the feed registry compares: user id and device id *)
Definition feedKey (gc : GroupCall) (f : FeedRef) : string * option string :=
  (CallFeed.userId (feedHeap gc f), CallFeed.deviceId (feedHeap gc f)).

(** The feed [f] is registered under the key of [callFeed]. *)
Definition sameKey (gc : GroupCall) (callFeed f : FeedRef) : bool :=
  feedHasKey gc (feedKey gc callFeed).1 (feedKey gc callFeed).2 f.

(** A method only adds to the record of the operations on collaborators. *)
Definition extends {A} (m : M A) : Prop :=
  ∀ gc, ∃ t, trace (m gc).2 = trace gc ++ t.

(** The handlers that [initCall] builds for a call *)
Definition handlersOf (call : CallRef) : ICallHandlers.t :=
  ICallHandlers.mk (OnCallFeedsChanged call) (OnCallStateChanged call)
    OnCallHangup (OnCallReplaced call).

(** The handler table when [disposeCall] has deleted from the device map
    [deviceMap] of the user [userId] (lines 937-938) *)
Definition handlersAfterDisposal (gc : GroupCall) (userId : string)
    (deviceMap : gmap string ICallHandlers.t) : gmap string (gmap string ICallHandlers.t) :=
  if bool_decide (size (delete userId deviceMap) = 0%nat)
  then delete userId (callHandlers gc)
  else <[userId := delete userId deviceMap]> (callHandlers gc).

(** The listeners that [disposeCall] removes from a call *)
Definition unsubscribed (call : CallRef) (handlers : ICallHandlers.t) : list Effect :=
  [CallRemoveListener call CallEvent.FeedsChanged (ICallHandlers.onCallFeedsChanged handlers);
   CallRemoveListener call CallEvent.State (ICallHandlers.onCallStateChanged handlers);
   CallRemoveListener call CallEvent.Hangup (ICallHandlers.onCallHangup handlers);
   CallRemoveListener call CallEvent.Replaced (ICallHandlers.onCallReplaced handlers)].

(** The member under which [onCallHangup] looks a call up (line 1028) *)
Definition hangupOpponent (gc : GroupCall) (call : CallRef) : option string :=
  match MatrixCall.getOpponentMember (callHeap gc call) with
  | Some member => Some member
  | None =>
      RoomMember.userId <$>
        (MatrixCall.invitee (callHeap gc call) ≫= Room.getMember (room gc))
  end.

(** The call that the graph holds in a slot *)
Definition callOf (gc : GroupCall) (member deviceId : string) : option CallRef :=
  calls gc !! member ≫= (.!! deviceId).

(** The advertisement that [addDeviceToMemberState] writes for the local
    device (lines 1311-1317); [now'] is the reading of the clock. *)
Definition localAdvertisement (gc : GroupCall) (now' : Z) : json :=
  JObj [("device_id", JStr (MatrixClient.getDeviceId (client gc)));
        ("session_id", JStr (MatrixClient.getSessionId (client gc)));
        ("expires_ts", JNum (now' + DEVICE_TIMEOUT));
        ("feeds", JArr (advertisedFeed gc <$> getLocalFeeds gc))].

(** The participant state under which the others should see the local
    device *)
Definition localParticipantState (gc : GroupCall) : ParticipantState :=
  mkParticipantState (MatrixClient.getSessionId (client gc))
    (existsb (isScreenshare gc) (getLocalFeeds gc)).

(** The remote device [(@b:h, DB)], not entered, in whose room the
    member-state event of [@a:h] has the content [content] *)
Definition gc_b_reading (content : list (string * json)) : GroupCall :=
  newGroupCall (clientOf "@b:h" "DB" "s1")
    (Room.mk "!r" {[ "@a:h" := "join"; "@b:h" := "join" ]} {[ "@a:h" := content ]})
    false "G".

(** Every device that the run from [gc] to [gc'] wrote for this group call
    passes, at time [now], the validation of lines 1281-1287. *)
Definition carriesOnlyValidDevices (gc : GroupCall) (now : Z) (gc' : GroupCall) : Prop :=
  ∀ e d, e ∈ drop (length (trace gc)) (trace gc') →
         d ∈ writtenDevices (groupCallId gc) e →
         isValidDevice now d = Ok true.

(** No device that the run from [gc] to [gc'] wrote for this group call has
    the device id [deviceId]. *)
Definition carriesNoDevice (gc : GroupCall) (deviceId : string) (gc' : GroupCall) : Prop :=
  ∀ e d, e ∈ drop (length (trace gc)) (trace gc') →
         d ∈ writtenDevices (groupCallId gc) e →
         field d "device_id" ≠ Some (JStr deviceId).

(** The body of the inner loop of [placeOutgoingCalls] (lines 760-823) for
    the devices of [member]; [found] tells whether the device map is the one
    that the graph holds for the member. *)
Definition placeToDevice (member : string) (found : bool)
  : string * ParticipantState → gmap string CallRef * bool → M (gmap string CallRef * bool) :=
  let write callMap :=
    when found (modify (λ gc, set_calls (<[member := callMap]> (calls gc)) gc)) in
  λ '(deviceId, participant) '(callMap, callsChanged),
    gc <- this ;;
    let prevCall := callMap !! deviceId in
    if sessionDiffers gc prevCall (sessionId participant)
       && wantsOutgoingCall gc member deviceId
    then
      match prevCall with
      | Some prevCall => disposeCall prevCall (Some CallErrorCode.NewSession)
      | None => ret tt
      end ;;
      newCall <- createNewMatrixCall (Room.roomId (room gc)) member deviceId
                   (sessionId participant) (groupCallId gc) ;;
      match newCall with
      | None =>
          write (delete deviceId callMap) ;;
          ret (delete deviceId callMap, true)
      | Some newCall =>
          initCall newCall ;;
          write (<[deviceId := newCall]> callMap) ;;
          gc <- this ;;
          perform (CallPlaceCallWithCallFeeds newCall (getLocalFeeds gc)
                     (screensharing participant)) ;;
          ret (<[deviceId := newCall]> callMap, true)
      end
    else ret (callMap, callsChanged).

(** The body of the outer loop of [placeOutgoingCalls] (lines 757-830) *)
Definition placeToMember
  : string * gmap string ParticipantState → bool → M bool :=
  λ '(member, participantMap) callsChanged,
    gc <- this ;;
    acc <-
      for_fold (map_to_list participantMap)
        (placeToDevice member (bool_decide (is_Some (calls gc !! member))))
        (default ∅ (calls gc !! member), callsChanged) ;;
    modify (λ gc, set_calls
      (if bool_decide (0 < size acc.1)%nat
       then <[member := acc.1]> (calls gc)
       else delete member (calls gc)) gc) ;;
    ret acc.2.

(** The fields of the object that the reconciliation of the call graph reads
    and does not write *)
Definition config (gc : GroupCall)
  : MatrixClient.t * Room.t * string * bool * gmap string (gmap string ParticipantState)
    * option FeedRef * option FeedRef :=
  (client gc, room gc, groupCallId gc, isPtt gc, participants gc, localCallFeed gc,
   localScreenshareFeed gc).

(** In the state [gc'], the call [call] is the call that the pass from [gc]
    placed to the device [(member, deviceId)] advertised as [p]: addressed to
    it, with the advertised session id; its handlers stored; and placed with
    clones of the local feeds. *)
Definition placedFor (gc gc' : GroupCall) (member deviceId : string)
    (p : ParticipantState) (call : CallRef) : Prop :=
  (nextCallRef gc ≤ call < nextCallRef gc')%nat
  ∧ MatrixCall.invitee (callHeap gc' call) = Some member
  ∧ MatrixCall.getOpponentDeviceId (callHeap gc' call) = deviceId
  ∧ MatrixCall.getOpponentSessionId (callHeap gc' call) = Some (sessionId p)
  ∧ MatrixCall.groupCallId (callHeap gc' call) = Some (groupCallId gc)
  ∧ MatrixCall.roomId (callHeap gc' call) = Room.roomId (room gc)
  ∧ MatrixCall.isPtt (callHeap gc' call) = isPtt gc
  ∧ callHandlers gc' !! member ≫= (.!! deviceId) = Some (handlersOf call)
  ∧ CallPlaceCallWithCallFeeds call (getLocalFeeds gc) (screensharing p) ∈ trace gc'.

(** From [gc] to [gc'] a pass has created calls and stored handlers for the
    slots in [touched] only: the calls that existed and the handlers of the
    other slots are as they were, and the record of the operations has
    grown. *)
Definition advances (touched : string → string → Prop) (gc gc' : GroupCall) : Prop :=
  config gc' = config gc
  ∧ (nextCallRef gc ≤ nextCallRef gc')%nat
  ∧ (∀ c, (c < nextCallRef gc)%nat → callHeap gc' c = callHeap gc c)
  ∧ (∀ u dv, ¬ touched u dv →
             callHandlers gc' !! u ≫= (.!! dv) = callHandlers gc !! u ≫= (.!! dv))
  ∧ ∃ t, trace gc' = trace gc ++ t.

(** Some device of the view is one that the local side is to call. *)
Definition someoneToCall (gc : GroupCall) : Prop :=
  ∃ member deviceId, is_Some (slot gc member deviceId)
                     ∧ wantsOutgoingCall gc member deviceId = true.

(** At time [now] some advertised device that is to enter the view expires
    at [t]: a valid device of a joined member that the local-echo filter
    keeps. *)
Definition expiresInView (gc : GroupCall) (now t : Z) : Prop :=
  ∃ userId content validDevices dev,
    Room.memberStateEvents (room gc) !! userId = Some content
    ∧ remainingDevices gc now userId content = Ok validDevices
    ∧ isJoined gc userId
    ∧ dev ∈ validDevices
    ∧ expires_ts dev = t.

(** ** The life cycle (lines 233-248, 328-491, 608-681, 1321-1348, 1380-1396)

    The methods of the life cycle use fields and collaborators that the
    methods above leave alone: the timers of the loops, the media handler and
    the listeners on the client and the room.  The record [GroupCallObject]
    adds them to the state [GroupCall]; the methods of the life cycle run in
    the monad [LM] over it, and call the methods above through [core].

    - An interval is named by its period.
    - The operations on the collaborators of the life cycle are recorded in
      [hostTrace]; no statement relates the order of the two records.
    - An [await] on the media handler is a point where other callbacks run:
      [initLocalCallFeed] takes them as [whileWaiting].
    - A call of an asynchronous method that is not awaited runs up to its
      first [await]; what follows is a definition of its own. *)

Module GroupCallType.
Inductive t : Type := Video | Voice.

#[global] Instance GroupCallType_eq_dec : EqDecision t.
Proof. solve_decision. Defined.
End GroupCallType.

(** The values of the enumeration [GroupCallState] (lines 131-137) *)
Definition GroupCallState_value (s : GroupCallState.t) : string :=
  match s with
  | GroupCallState.LocalCallFeedUninitialized => "local_call_feed_uninitialized"
  | GroupCallState.InitializingLocalCallFeed => "initializing_local_call_feed"
  | GroupCallState.LocalCallFeedInitialized => "local_call_feed_initialized"
  | GroupCallState.Entered => "entered"
  | GroupCallState.Ended => "ended"
  end.

(** The quotation mark of the error messages *)
Definition quote : string := String "034"%char EmptyString.

(** What the group call does to the collaborators of its life cycle *)
Inductive HostEffect : Type :=
| GetUserMediaStream (audio video : bool)
| GetScreensharingStream
| StopScreensharingStream (feed : FeedRef)
| StopAllStreams
| TrackAddEventListenerEnded (track : nat)
| ClientOnIncoming
| ClientRemoveListenerIncoming
| RoomOffUpdate
| GroupCallsDelete (roomId : string)
| ClientEmitEnded
| CallPushLocalFeed (call : CallRef) (cloneOf : FeedRef)
| CallRemoveLocalFeed (call : CallRef) (feed : FeedRef).

(** The interval of the active-speaker loop: [clearInterval] stops it and
    leaves the handle in its field. *)
Record Interval : Type := mkInterval {
  period : Z;
  cleared : bool;
}.

Record GroupCallObject : Type := mkGroupCallObject {
  (* the state of the methods above *)
  fields : GroupCall;
  (* constructor parameters and configuration *)
  type : GroupCallType.t;
  activeSpeakerInterval : Z;
  retryCallInterval : Z;
  (* fields of the life cycle *)
  localDesktopCapturerSourceId : option string;
  activeSpeakerLoopInterval : option Interval;
  retryCallLoopInterval : option Z;
  resendMemberStateTimer : option Z;
  (* [room.currentState.getStateEvents(EventType.GroupCallPrefix,
     this.groupCallId)]: the content of the state event of the call *)
  callStateEvent : option (list (string * json));
  (* the reference of the next feed that the group call constructs *)
  nextFeedRef : FeedRef;
  (* the operations invoked on the collaborators of the life cycle *)
  hostTrace : list HostEffect;
}.

Definition eta_object (o : GroupCallObject) : GroupCallObject :=
  mkGroupCallObject (fields o) (type o) (activeSpeakerInterval o) (retryCallInterval o)
    (localDesktopCapturerSourceId o) (activeSpeakerLoopInterval o)
    (retryCallLoopInterval o) (resendMemberStateTimer o) (callStateEvent o)
    (nextFeedRef o) (hostTrace o).

Definition set_fields : GroupCall → GroupCallObject → GroupCallObject :=
  ltac:(setter_from eta_object fields).
Definition set_localDesktopCapturerSourceId
  : option string → GroupCallObject → GroupCallObject :=
  ltac:(setter_from eta_object localDesktopCapturerSourceId).
Definition set_activeSpeakerLoopInterval
  : option Interval → GroupCallObject → GroupCallObject :=
  ltac:(setter_from eta_object activeSpeakerLoopInterval).
Definition set_retryCallLoopInterval : option Z → GroupCallObject → GroupCallObject :=
  ltac:(setter_from eta_object retryCallLoopInterval).
Definition set_resendMemberStateTimer : option Z → GroupCallObject → GroupCallObject :=
  ltac:(setter_from eta_object resendMemberStateTimer).
Definition set_nextFeedRef : FeedRef → GroupCallObject → GroupCallObject :=
  ltac:(setter_from eta_object nextFeedRef).
Definition set_hostTrace : list HostEffect → GroupCallObject → GroupCallObject :=
  ltac:(setter_from eta_object hostTrace).

(** *** The monad of the life cycle *)

Definition LM (A : Type) : Type := GroupCallObject → Res A * GroupCallObject.

Definition retL {A} (a : A) : LM A := λ o, (Ok a, o).

Definition bindL {A B} (m : LM A) (k : A → LM B) : LM B :=
  λ o, match m o with
       | (Ok a, o') => k a o'
       | (Throw e, o') => (Throw e, o')
       end.

Definition throwL {A} (e : exn) : LM A := λ o, (Throw e, o).

Definition thisL : LM GroupCallObject := λ o, (Ok o, o).

Definition modifyL (f : GroupCallObject → GroupCallObject) : LM unit := λ o, (Ok tt, f o).

(** A method of the part above, run on the state of the object *)
Definition core {A} (m : M A) : LM A :=
  λ o, let r := m (fields o) in (r.1, set_fields r.2 o).

Declare Scope L_scope.
Delimit Scope L_scope with L.
Bind Scope L_scope with LM.
Notation "x <- m ;; k" := (bindL m (λ x, k))
  (at level 100, m at next level, right associativity) : L_scope.
Notation "m ;; k" := (bindL m (λ _, k))
  (at level 100, right associativity) : L_scope.

Definition whenL (b : bool) (m : LM unit) : LM unit := if b then m else retL tt.

Fixpoint for_eachL {A} (xs : list A) (body : A → LM unit) : LM unit :=
  match xs with
  | [] => retL tt
  | x :: rest => (body x ;; for_eachL rest body)%L
  end.

Definition performL (e : HostEffect) : LM unit :=
  modifyL (λ o, set_hostTrace (hostTrace o ++ [e]) o).

(** [try { m } catch (error) { handler(error) }] *)
Definition try_catch {A} (m : LM A) (handler : exn → LM A) : LM A :=
  λ o, match m o with
       | (Ok a, o') => (Ok a, o')
       | (Throw e, o') => handler e o'
       end.

(** [m().catch(e => logger.error(..., e))] for an asynchronous [m] that is
    not awaited: what [m] throws before its first [await] is logged, and the
    caller goes on. *)
Definition catch_log (m : LM unit) : LM unit := try_catch m (λ _, retL tt).

(** The readings of the clock in the course of one state change:
    [Date.now()] in [updateParticipants] (line 1187), in [updateDevices]
    (line 1260) and in the callback of [addDeviceToMemberState]
    (line 1314). *)
Record Clock : Type := mkClock {
  nowParticipants : Z;
  nowDevices : Z;
  nowDevice : Z;
}.

(** *** Member state and the listeners of the constructor *)

(** [updateMemberState] up to its [await] (lines 1321-1330, 1341-1347): the
    answer tells whether the local device was added. *)
Definition updateMemberState_begin (clock : Clock) : LM bool :=
  (o <- thisL ;;
   whenL (bool_decide (is_Some (resendMemberStateTimer o)))
     (modifyL (set_resendMemberStateTimer None)) ;;
   o <- thisL ;;
   if bool_decide (state (fields o) = GroupCallState.Entered)
   then
     core (addDeviceToMemberState (nowDevices clock) (nowDevice clock)) ;;
     retL true
   else
     core (updateDevices (withoutLocalDevice (fields o)) true (nowDevices clock)) ;;
     retL false)%L.

(** [updateMemberState] after [await this.addDeviceToMemberState()]
    (lines 1332-1340): the member state is sent again every three quarters of
    [DEVICE_TIMEOUT]. *)
Definition updateMemberState_resume : LM unit :=
  modifyL (set_resendMemberStateTimer (Some (DEVICE_TIMEOUT * 3 / 4)%Z)).

(** The callback of the interval (lines 1333-1340) *)
Definition onResendMemberState (clock : Clock) : LM unit :=
  try_catch (core (addDeviceToMemberState (nowDevices clock) (nowDevice clock)))
    (λ _, retL tt).

(** [updateMemberState] (lines 1321-1348) when its caller awaits it and the
    homeserver accepts the event *)
Definition updateMemberState (clock : Clock) : LM unit :=
  (added <- updateMemberState_begin clock ;;
   whenL added updateMemberState_resume)%L.

(** [updateParticipants] with the clock read where the source reads it: not in
    state [Ended] *)
Definition updateParticipants_at (clock : Clock) : LM unit :=
  core (updateParticipants (nowParticipants clock)).

(** [onStateChanged] (lines 1380-1390) *)
Definition onStateChanged (clock : Clock) (newState oldState : GroupCallState.t)
  : LM unit :=
  whenL (bool_decide (newState = GroupCallState.Entered)
         || bool_decide (oldState = GroupCallState.Entered)
         || bool_decide (newState = GroupCallState.Ended))
    (updateParticipants_at clock ;;
     catch_log (updateMemberState_begin clock ;; retL tt))%L.

(** [onLocalFeedsChanged] (lines 1392-1396) *)
Definition onLocalFeedsChanged (clock : Clock) : LM unit :=
  (o <- thisL ;;
   whenL (bool_decide (state (fields o) = GroupCallState.Entered))
     (catch_log (updateMemberState_begin clock ;; retL tt)))%L.

(** The setter of [state] (lines 242-248).  The listener that the
    constructor registers for [GroupCallStateChanged] runs within the
    emission. *)
Definition setter_state (clock : Clock) (value : GroupCallState.t) : LM unit :=
  (o <- thisL ;;
   let prevValue := state (fields o) in
   whenL (negb (bool_decide (value = prevValue)))
     (core (modify (set_state value)) ;;
      core (emit (GroupCallEvent.GroupCallStateChanged value prevValue)) ;;
      onStateChanged clock value prevValue))%L.

(** *** The local feeds *)

(** Modelled from the spec: the constructor of [CallFeed] in
    [src/webrtc/callFeed.ts], which is not part of the sources at hand.  The
    feed takes the ids, the purpose and the mute bits that it is constructed
    with; a feed with the ids of the local device is local; [samples] are its
    first volume samples. *)
Definition newCallFeed (userId deviceId : string) (purpose : SDPStreamMetadataPurpose.t)
    (audioMuted videoMuted : bool) (samples : list Q) : CallFeed.t :=
  CallFeed.mk userId (Some deviceId) purpose true audioMuted videoMuted samples.

(** [new CallFeed(...)]: the new object gets the next reference. *)
Definition constructCallFeed (feed : CallFeed.t) : LM FeedRef :=
  (o <- thisL ;;
   let callFeed := nextFeedRef o in
   modifyL (set_nextFeedRef (S callFeed)) ;;
   core (modify (λ gc, set_feedHeap (<[callFeed := feed]> (feedHeap gc)) gc)) ;;
   retL callFeed)%L.

(** The answer of the media handler to a request for a stream: a stream with
    so many audio and video tracks, or an error *)
Inductive MediaAnswer : Type :=
| GotStream (audioTracks videoTracks : nat)
| MediaError (error : exn).

(** The listener [onState] of [initLocalCallFeed] (lines 340-344) on the
    events emitted while it was registered *)
Definition heardUninitialized (emitted : list Effect) : bool :=
  existsb (λ e, match e with
                | Emit (GroupCallEvent.GroupCallStateChanged
                          GroupCallState.LocalCallFeedUninitialized _) => true
                | _ => false
                end) emitted.

(** [initLocalCallFeed] (lines 328-379).  [whileWaiting] is what other
    callbacks do to the object while the media handler is awaited, [answer]
    the answer of the media handler. *)
Definition initLocalCallFeed (clock : Clock) (whileWaiting : LM unit)
    (answer : MediaAnswer) (samples : list Q) : LM FeedRef :=
  (o <- thisL ;;
   if negb (bool_decide (state (fields o) = GroupCallState.LocalCallFeedUninitialized))
   then throwL (Error ("Cannot initialize local call feed in the " ++ quote
                       ++ GroupCallState_value (state (fields o)) ++ quote ++ " state."))
   else
     setter_state clock GroupCallState.InitializingLocalCallFeed ;;
     performL (GetUserMediaStream true
                 (bool_decide (type o = GroupCallType.Video))) ;;
     registered <- thisL ;;
     catch_log whileWaiting ;;
     match answer with
     | MediaError error =>
         setter_state clock GroupCallState.LocalCallFeedUninitialized ;;
         throwL error
     | GotStream audioTracks videoTracks =>
         o <- thisL ;;
         let disposed :=
           heardUninitialized
             (drop (length (trace (fields registered))) (trace (fields o))) in
         if disposed then throwL (Error "Group call disposed")
         else
           let gc := fields o in
           let audioMuted :=
             initWithAudioMuted gc || bool_decide (audioTracks = 0%nat) || isPtt gc in
           let videoMuted :=
             initWithVideoMuted gc || bool_decide (videoTracks = 0%nat) in
           callFeed <- constructCallFeed
                         (newCallFeed (MatrixClient.getUserId (client gc))
                            (MatrixClient.getDeviceId (client gc))
                            SDPStreamMetadataPurpose.Usermedia audioMuted videoMuted
                            samples) ;;
           o <- thisL ;;
           let feed := feedHeap (fields o) callFeed in
           core (perform (SetTracksEnabled callFeed AudioTracks
                            (negb (CallFeed.isAudioMuted feed)))) ;;
           core (perform (SetTracksEnabled callFeed VideoTracks
                            (negb (CallFeed.isVideoMuted feed)))) ;;
           core (modify (set_localCallFeed (Some callFeed))) ;;
           core (addUserMediaFeed callFeed) ;;
           setter_state clock GroupCallState.LocalCallFeedInitialized ;;
           retL callFeed
     end)%L.

(** [isScreensharing] (lines 679-681) *)
Definition isScreensharing (gc : GroupCall) : bool :=
  bool_decide (is_Some (localScreenshareFeed gc)).

(** The answer of the media handler to a request for a screen-sharing
    stream: a stream with so many tracks, or an error *)
Inductive ScreenAnswer : Type :=
| GotScreen (tracks : nat)
| ScreenError (error : exn).

(** [setScreensharingEnabled] (lines 608-677); [desktopCapturerSourceId] and
    [throwOnFail] are the options that it reads, [whileWaiting] and [answer]
    as for [initLocalCallFeed]. *)
Definition setScreensharingEnabled (clock : Clock) (enabled : bool)
    (desktopCapturerSourceId : option string) (throwOnFail : bool)
    (whileWaiting : LM unit) (answer : ScreenAnswer) (samples : list Q) : LM bool :=
  (o <- thisL ;;
   if eqb enabled (isScreensharing (fields o)) then retL enabled
   else if enabled
   then
     try_catch
       (performL GetScreensharingStream ;;
        catch_log whileWaiting ;;
        match answer with
        | ScreenError error => throwL error
        | GotScreen tracks =>
            o <- thisL ;;
            for_eachL (seq 0 tracks)
              (λ track, performL (TrackAddEventListenerEnded track)) ;;
            modifyL (set_localDesktopCapturerSourceId desktopCapturerSourceId) ;;
            let gc := fields o in
            callFeed <- constructCallFeed
                          (newCallFeed (MatrixClient.getUserId (client gc))
                             (MatrixClient.getDeviceId (client gc))
                             SDPStreamMetadataPurpose.Screenshare false false samples) ;;
            core (modify (set_localScreenshareFeed (Some callFeed))) ;;
            core (addScreenshareFeed callFeed) ;;
            core (emit (GroupCallEvent.LocalScreenshareStateChanged true)) ;;
            onLocalFeedsChanged clock ;;
            o <- thisL ;;
            for_eachL (allCalls (fields o))
              (λ call, performL (CallPushLocalFeed call callFeed)) ;;
            retL true
        end)
       (λ error,
          if throwOnFail then throwL error
          else
            core (emit (GroupCallEvent.Error GroupCallErrorCode.NoUserMedia)) ;;
            retL false)
   else
     for_eachL (allCalls (fields o))
       (λ call,
          match MatrixCall.localScreensharingFeed (callHeap (fields o) call) with
          | Some feed => performL (CallRemoveLocalFeed call feed)
          | None => retL tt
          end) ;;
     match localScreenshareFeed (fields o) with
     | None => throwL TypeError
     | Some feed =>
         performL (StopScreensharingStream feed) ;;
         core (removeScreenshareFeed feed) ;;
         core (modify (set_localScreenshareFeed None)) ;;
         modifyL (set_localDesktopCapturerSourceId None) ;;
         core (emit (GroupCallEvent.LocalScreenshareStateChanged false)) ;;
         onLocalFeedsChanged clock ;;
         retL false
     end)%L.

(** *** Entering and leaving *)

Section Entering.

Variable SPEAKING_THRESHOLD : Q.

(** [enter] (lines 396-420); [incoming] are the calls that the client holds,
    [whileResuming] what other callbacks do before [enter] goes on after
    [await this.initLocalCallFeed()], and the other parameters those of
    [initLocalCallFeed]. *)
Definition enter (clock : Clock) (whileWaiting : LM unit) (answer : MediaAnswer)
    (samples : list Q) (whileResuming : LM unit) (incoming : list CallRef) : LM unit :=
  (o <- thisL ;;
   (if bool_decide (state (fields o) = GroupCallState.LocalCallFeedUninitialized)
    then
      initLocalCallFeed clock whileWaiting answer samples ;;
      catch_log whileResuming
    else if negb (bool_decide (state (fields o) = GroupCallState.LocalCallFeedInitialized))
    then throwL (Error ("Cannot enter call in the " ++ quote
                        ++ GroupCallState_value (state (fields o)) ++ quote ++ " state"))
    else retL tt) ;;
   setter_state clock GroupCallState.Entered ;;
   performL ClientOnIncoming ;;
   for_eachL incoming (λ call, core (onIncomingCall call)) ;;
   o <- thisL ;;
   modifyL (set_retryCallLoopInterval (Some (retryCallInterval o))) ;;
   core (modify (set_activeSpeaker None)) ;;
   core (onActiveSpeakerLoop SPEAKING_THRESHOLD) ;;
   modifyL (set_activeSpeakerLoopInterval
              (Some (mkInterval (activeSpeakerInterval o) false))))%L.

End Entering.

(** [clearInterval(this.activeSpeakerLoopInterval)] *)
Definition clearInterval (interval : option Interval) : option Interval :=
  (λ i, mkInterval (period i) true) <$> interval.

(** [dispose] (lines 422-461) *)
Definition dispose : LM unit :=
  (o <- thisL ;;
   match localCallFeed (fields o) with
   | Some feed =>
       core (removeUserMediaFeed feed) ;;
       core (modify (set_localCallFeed None))
   | None => retL tt
   end ;;
   o <- thisL ;;
   match localScreenshareFeed (fields o) with
   | Some feed =>
       performL (StopScreensharingStream feed) ;;
       core (removeScreenshareFeed feed) ;;
       core (modify (set_localScreenshareFeed None)) ;;
       modifyL (set_localDesktopCapturerSourceId None)
   | None => retL tt
   end ;;
   performL StopAllStreams ;;
   o <- thisL ;;
   whenL (bool_decide (is_Some (transmitTimer (fields o))))
     (core (modify (set_transmitTimer None))) ;;
   whenL (bool_decide (is_Some (retryCallLoopInterval o)))
     (modifyL (set_retryCallLoopInterval None)) ;;
   if negb (bool_decide (state (fields o) = GroupCallState.Entered)) then retL tt
   else
     core (forEachCall (λ call, disposeCall call (Some CallErrorCode.UserHangup))) ;;
     (* [this.calls = new Map()] *)
     core (modify (λ gc, set_callsOfUndefined None (set_calls ∅ gc))) ;;
     core (modify (set_activeSpeaker None)) ;;
     modifyL (λ o, set_activeSpeakerLoopInterval
                     (clearInterval (activeSpeakerLoopInterval o)) o) ;;
     core (modify (set_retryCallCounts ∅)) ;;
     (* [clearInterval(this.retryCallLoopInterval)]: the field is undefined
        by now *)
     performL ClientRemoveListenerIncoming)%L.

(** [leave] (lines 463-466) *)
Definition leave (clock : Clock) : LM unit :=
  (dispose ;;
   setter_state clock GroupCallState.LocalCallFeedUninitialized)%L.

(** [terminate] (lines 468-491) *)
Definition terminate (clock : Clock) (emitStateEvent : bool) : LM unit :=
  (dispose ;;
   o <- thisL ;;
   performL RoomOffUpdate ;;
   performL (GroupCallsDelete (Room.roomId (room (fields o)))) ;;
   performL ClientEmitEnded ;;
   setter_state clock GroupCallState.Ended ;;
   whenL emitStateEvent
     (o <- thisL ;;
      match callStateEvent o with
      | None => throwL TypeError
      | Some content =>
          core (perform
                  (SendStateEvent (Room.roomId (room (fields o))) EventType.GroupCallPrefix
                     (JObj (obj_set "m.terminated" (JStr "call_ended") content))
                     (groupCallId (fields o)) false))
      end))%L.

(** ** The notions of the statements about the life cycle *)

(** A method of the life cycle leaves an observation of the object as it
    is. *)
Definition framesL {A X} (obs : GroupCallObject → X) (m : LM A) : Prop :=
  ∀ o, obs (m o).2 = obs o.

(** A method of the life cycle only adds to the record of the operations of
    the methods above. *)
Definition extendsL {A} (m : LM A) : Prop :=
  ∀ o, ∃ t, trace (fields (m o).2) = trace (fields o) ++ t.

(** What happens while the media handler is awaited, when the application
    asks for the mute states [audioMuted] and [videoMuted] in that time *)
Definition muteRequests (hasAudioDevice audioMuted hasVideoDevice videoMuted : bool)
  : LM unit :=
  (core (setMicrophoneMuted hasAudioDevice audioMuted) ;;
   core (setLocalVideoMuted hasVideoDevice videoMuted) ;;
   retL tt)%L.

(** What a change of the participant view leaves alone while the call is not
    entered: every field but the view, its timer and the record of the
    operations *)
Definition besidesView (gc : GroupCall) :=
  (client gc, room gc, isPtt gc, groupCallId gc, pttMaxTransmitTime gc,
   activeSpeaker gc, localCallFeed gc, localScreenshareFeed gc, calls gc,
   callsOfUndefined gc, userMediaFeeds gc, screenshareFeeds gc, callHandlers gc,
   retryCallCounts gc, transmitTimer gc, initWithAudioMuted gc, initWithVideoMuted gc, state gc,
   enteredViaAnotherSession gc, feedHeap gc, callHeap gc, nextCallRef gc).

(** The handlers of a call are in the table, under the ids of its opponent,
    and no device of that user is named like the user. *)
Definition hasHandlers (gc : GroupCall) (call : CallRef) : Prop :=
  ∃ userId deviceMap,
    getCallUserId (callHeap gc call) = Some userId
    ∧ callHandlers gc !! userId = Some deviceMap
    ∧ is_Some (deviceMap !! MatrixCall.getOpponentDeviceId (callHeap gc call))
    ∧ deviceMap !! userId = None.

(** The local feeds are among the feeds of the call. *)
Definition localFeedsRegistered (gc : GroupCall) : Prop :=
  (∀ feed, localCallFeed gc = Some feed → feed ∈ userMediaFeeds gc)
  ∧ (∀ feed, localScreenshareFeed gc = Some feed → feed ∈ screenshareFeeds gc).

(** The call was asked to hang up for the reason [reason], unless it had
    been replaced or had ended. *)
Definition hungUp (gc : GroupCall) (reason : option CallErrorCode.t) (t : list Effect)
    (call : CallRef) : Prop :=
  MatrixCall.hangupReason (callHeap gc call) ≠ Some CallErrorCode.Replaced →
  MatrixCall.state (callHeap gc call) ≠ CallState.Ended →
  CallHangup call reason false ∈ t.

(** ** Scenarios of the life cycle *)

(** The object when the constructor has assigned its fields (lines 160-186,
    197-202); [callStateEvent] is the state event of the call in the room. *)
Definition newGroupCallObject (gc : GroupCall) (type : GroupCallType.t)
    (callStateEvent : option (list (string * json))) : GroupCallObject :=
  {| fields := gc;
     type := type;
     activeSpeakerInterval := 1000;
     retryCallInterval := 5000;
     localDesktopCapturerSourceId := None;
     activeSpeakerLoopInterval := None;
     retryCallLoopInterval := None;
     resendMemberStateTimer := None;
     callStateEvent := callStateEvent;
     nextFeedRef := 0;
     hostTrace := [] |}.

(** A video call of the user [@a:h] on the device [DA], in a room without
    state events *)
Definition object_a : GroupCallObject :=
  newGroupCallObject
    (newGroupCall (clientOf "@a:h" "DA" "sa") (Room.mk "!r" ∅ ∅) false "G")
    GroupCallType.Video None.

(** What the disposal of feeds and calls leaves alone: every field but the
    active speaker, the feeds, the handlers and the record of the
    operations *)
Definition besidesFeeds (gc : GroupCall) :=
  (client gc, room gc, isPtt gc, groupCallId gc, pttMaxTransmitTime gc,
   localCallFeed gc, localScreenshareFeed gc, calls gc, callsOfUndefined gc,
   retryCallCounts gc, transmitTimer gc, participantsExpirationTimer gc, initWithAudioMuted gc,
   initWithVideoMuted gc, state gc, participants gc, enteredViaAnotherSession gc,
   feedHeap gc, callHeap gc, nextCallRef gc).

(** The fields of the methods above when [dispose] has assigned them *)
Definition disposed (gc : GroupCall) : GroupCall :=
  let gc :=
    set_transmitTimer None (set_localScreenshareFeed None (set_localCallFeed None gc)) in
  if bool_decide (state gc = GroupCallState.Entered)
  then set_retryCallCounts ∅ (set_callsOfUndefined None (set_calls ∅ gc))
  else gc.

(** The object of S1: the local device has entered, both loops run, the
    member state is sent again periodically, and the call to [(@b:h, DB)] is
    placed.  The room holds the state event of the call. *)
Definition object_a_calling_b : GroupCallObject :=
  {| fields := gc_a_calling_b;
     type := GroupCallType.Video;
     activeSpeakerInterval := 1000;
     retryCallInterval := 5000;
     localDesktopCapturerSourceId := None;
     activeSpeakerLoopInterval := Some (mkInterval 1000 false);
     retryCallLoopInterval := Some 5000%Z;
     resendMemberStateTimer := Some (DEVICE_TIMEOUT * 3 / 4)%Z;
     callStateEvent := Some [("m.intent", JStr "m.room"); ("m.type", JStr "m.video")];
     nextFeedRef := 101;
     hostTrace := [] |}.

(** A video call of the user [@a:h] on the device [DA] in the room of the
    scenarios, when the constructor has assigned its fields *)
Definition object_a_in_room_ab : GroupCallObject :=
  newGroupCallObject (newGroupCall (clientOf "@a:h" "DA" "sa") room_ab false "G")
    GroupCallType.Video None.

(** The same call when [initLocalCallFeed] has returned: the media handler
    answered with a stream of one audio and one video track. *)
Definition object_a_initialized : GroupCallObject :=
  (initLocalCallFeed (mkClock 0 0 0) (retL tt) (GotStream 1 1) [(-100 # 1)%Q]
     object_a_in_room_ab).2.

(** The call that [calls] holds under a key and a device id; the key is a
    member, or [undefined]. *)
Definition callUnder (gc : GroupCall) (key : option string) (deviceId : string)
  : option CallRef :=
  match key with
  | Some member => calls gc !! member ≫= (.!! deviceId)
  | None => callsOfUndefined gc ≫= (.!! deviceId)
  end.

(** Glare: call [0] of S1 is placed and not answered, so that it has an
    invitee and no opponent member, and the single-call layer replaces it by
    the call [1] that came in from [(@b:h, DB)]. *)
Definition gc_a_b_glare : GroupCall :=
  (update_call 1%nat
     (λ _, MatrixCall.set_getOpponentMember (Some "@b:h") (callHeap gc_a_calling_b 0%nat))
     gc_a_calling_b).2.


(** * Properties *)

(** ** Order of strings *)

Lemma ascii_compare_refl (a : ascii) : (a ?= a)%char = Eq.
Proof. unfold Ascii.compare. apply N.compare_refl. Qed.

Lemma string_compare_refl (s : string) : (s ?= s)%string = Eq.
Proof.
  induction s as [|a s IH]; simpl; [done|].
  by rewrite ascii_compare_refl.
Qed.

Lemma string_compare_lt_trans (s1 s2 s3 : string) :
  (s1 ?= s2)%string = Lt → (s2 ?= s3)%string = Lt → (s1 ?= s3)%string = Lt.
Proof.
  revert s2 s3.
  induction s1 as [|a1 s1 IH]; intros [|a2 s2] [|a3 s3]; simpl; try done.
  unfold Ascii.compare.
  destruct (N.compare_spec (N_of_ascii a1) (N_of_ascii a2)) as [E12|L12|G12];
    destruct (N.compare_spec (N_of_ascii a2) (N_of_ascii a3)) as [E23|L23|G23];
    try done; intros H12 H23.
  - rewrite E12, E23, N.compare_refl. eauto.
  - rewrite E12. by rewrite (proj2 (N.compare_lt_iff _ _) L23).
  - rewrite <- E23. by rewrite (proj2 (N.compare_lt_iff _ _) L12).
  - assert (L13 : (N_of_ascii a1 < N_of_ascii a3)%N) by lia.
    by rewrite (proj2 (N.compare_lt_iff _ _) L13).
Qed.

Lemma string_ltb_lt (s1 s2 : string) : (s1 <? s2)%string = true ↔ (s1 ?= s2)%string = Lt.
Proof. unfold String.ltb. destruct (s1 ?= s2)%string; split; congruence. Qed.

Lemma string_leb_ltb (s1 s2 : string) :
  (s1 <=? s2)%string = true ↔ (s1 <? s2)%string = true ∨ s1 = s2.
Proof.
  unfold String.leb, String.ltb.
  destruct (s1 ?= s2)%string eqn:E; split; try tauto; try (intros [?|?]; congruence).
  - intros _. right. by apply String.compare_eq_iff.
  - intros [? | ->]; [done|]. by rewrite string_compare_refl in E.
Qed.

Lemma string_ltb_irrefl (s : string) : (s <? s)%string = false.
Proof. unfold String.ltb. by rewrite string_compare_refl. Qed.

Lemma string_ltb_trans (s1 s2 s3 : string) :
  (s1 <? s2)%string = true → (s2 <? s3)%string = true → (s1 <? s3)%string = true.
Proof. rewrite !string_ltb_lt. apply string_compare_lt_trans. Qed.

Lemma string_ltb_asym (s1 s2 : string) :
  (s1 <? s2)%string = true → (s2 <? s1)%string = false.
Proof.
  intros H. destruct (s2 <? s1)%string eqn:E; [|done].
  pose proof (string_ltb_trans _ _ _ H E) as F.
  by rewrite string_ltb_irrefl in F.
Qed.

Lemma string_ltb_total (s1 s2 : string) :
  (s1 <? s2)%string = true ∨ s1 = s2 ∨ (s2 <? s1)%string = true.
Proof.
  rewrite !string_ltb_lt.
  destruct (s1 ?= s2)%string eqn:E.
  - right; left. by apply String.compare_eq_iff.
  - by left.
  - right; right. rewrite String.compare_antisym, E. done.
Qed.

(** ** Who calls whom *)

Lemma wantsOutgoingCall_spec (gc : GroupCall) (userId deviceId : string) :
  wantsOutgoingCall gc userId deviceId = true ↔
  ((MatrixClient.getUserId (client gc) <? userId)%string = true
   ∨ (userId = MatrixClient.getUserId (client gc)
      ∧ (MatrixClient.getDeviceId (client gc) <? deviceId)%string = true)).
Proof.
  unfold wantsOutgoingCall.
  rewrite andb_true_iff, orb_true_iff, negb_true_iff, string_leb_ltb.
  destruct (String.eqb_spec userId (MatrixClient.getUserId (client gc))) as [->|Hne].
  - rewrite string_ltb_irrefl. split.
    + intros [_ [?|?]]; [done|]. by right.
    + intros [?|[_ ?]]; [done|]. split; [by right|by right].
  - split.
    + intros [[?|?] _]; [by left|]. congruence.
    + intros [?|[? _]]; [|done]. split; [by left|by left].
Qed.

Lemma lex_exactly_one (ul dl ur dr : string) :
  (ul, dl) ≠ (ur, dr) →
  ((ul <? ur)%string = true ∨ (ur = ul ∧ (dl <? dr)%string = true)) ↔
  ¬ ((ur <? ul)%string = true ∨ (ul = ur ∧ (dr <? dl)%string = true)).
Proof.
  intros Hne. split.
  - intros [H | [E H]] [H' | [E' H']].
    + apply string_ltb_asym in H. congruence.
    + subst. by rewrite string_ltb_irrefl in H.
    + subst. by rewrite string_ltb_irrefl in H'.
    + apply string_ltb_asym in H. congruence.
  - intros Hn.
    destruct (string_ltb_total ul ur) as [?|[E|?]]; [by left| |].
    + destruct (string_ltb_total dl dr) as [?|[E'|?]]; [by right| |].
      * destruct Hne. congruence.
      * destruct Hn. by right.
    + destruct Hn. by left.
Qed.

(** C2.  The local side places the call iff the remote user id is greater,
    or the user ids are equal and the remote device id is greater; of two
    distinct (user id, device id) pairs exactly one side wants the outgoing
    call of the other, and the relation is transitive. *)
Theorem wantsOutgoingCall_exactly_one_originator :
  (∀ gc uid_r did_r,
     wantsOutgoingCall gc uid_r did_r = true ↔
     ((MatrixClient.getUserId (client gc) <? uid_r)%string = true
      ∨ (uid_r = MatrixClient.getUserId (client gc)
         ∧ (MatrixClient.getDeviceId (client gc) <? did_r)%string = true)))
  ∧ (∀ gc_l gc_r,
       localIds gc_l ≠ localIds gc_r →
       wantsOutgoingCall gc_l (localIds gc_r).1 (localIds gc_r).2
       = negb (wantsOutgoingCall gc_r (localIds gc_l).1 (localIds gc_l).2))
  ∧ (∀ gc_1 gc_2 gc_3,
       wantsOutgoingCall gc_1 (localIds gc_2).1 (localIds gc_2).2 = true →
       wantsOutgoingCall gc_2 (localIds gc_3).1 (localIds gc_3).2 = true →
       wantsOutgoingCall gc_1 (localIds gc_3).1 (localIds gc_3).2 = true).
Proof.
  split; [exact wantsOutgoingCall_spec|]. split.
  - intros gc_l gc_r Hne. unfold localIds in *. simpl.
    apply eq_true_iff_eq. rewrite negb_true_iff, <- not_true_iff_false.
    rewrite !wantsOutgoingCall_spec. by apply lex_exactly_one.
  - intros gc_1 gc_2 gc_3. unfold localIds. simpl.
    rewrite !wantsOutgoingCall_spec.
    intros [H12|[E12 H12]] [H23|[E23 H23]].
    + left. eauto using string_ltb_trans.
    + left. congruence.
    + left. congruence.
    + right. split; [congruence|]. eauto using string_ltb_trans.
Qed.

Lemma wantsOutgoingCall_exactly_one_originator_witness :
  let gc_a := newGroupCall (clientOf "@a:h" "DA" "sa") (Room.mk "!r" ∅ ∅) false "G" in
  let gc_z := newGroupCall (clientOf "@z:h" "D1" "sz") (Room.mk "!r" ∅ ∅) false "G" in
  localIds gc_a ≠ localIds gc_z
  ∧ wantsOutgoingCall gc_a "@z:h" "D1" = true
  ∧ wantsOutgoingCall gc_z "@a:h" "DA" = false.
Proof.
  intros gc_a gc_z.
  assert (Hne : localIds gc_a ≠ localIds gc_z) by (vm_compute; congruence).
  split; [exact Hne|].
  pose proof (proj1 (proj2 wantsOutgoingCall_exactly_one_originator) gc_a gc_z Hne) as H.
  simpl in H. split; [reflexivity|].
  apply negb_true_iff. rewrite <- H. reflexivity.
Defined.

(** ** Reasoning about methods *)

Lemma bind_ok {A B} (m : M A) (k : A → M B) gc a gc' :
  m gc = (Ok a, gc') → bind m k gc = k a gc'.
Proof. unfold bind. by intros ->. Qed.

Lemma bind_throw {A B} (m : M A) (k : A → M B) gc e gc' :
  m gc = (Throw e, gc') → bind m k gc = (Throw e, gc').
Proof. unfold bind. by intros ->. Qed.

Lemma bind_returns {A B} (m : M A) (k : A → M B) gc b gc'' :
  bind m k gc = (Ok b, gc'') ↔
  ∃ a gc', m gc = (Ok a, gc') ∧ k a gc' = (Ok b, gc'').
Proof.
  unfold bind. split.
  - destruct (m gc) as [[a|e] gc']; [eauto|done].
  - by intros (a & gc' & -> & ?).
Qed.

Lemma frames_ret {A X} (obs : GroupCall → X) (a : A) : frames obs (ret a).
Proof. done. Qed.

Lemma frames_throw {A X} (obs : GroupCall → X) e : frames obs (throw (A:=A) e).
Proof. done. Qed.

Lemma frames_this {X} (obs : GroupCall → X) : frames obs this.
Proof. done. Qed.

Lemma frames_lift {A X} (obs : GroupCall → X) (r : Res A) : frames obs (lift r).
Proof. done. Qed.

Lemma frames_modify {X} (obs : GroupCall → X) (f : GroupCall → GroupCall) :
  (∀ gc, obs (f gc) = obs gc) → frames obs (modify f).
Proof. intros H gc. apply H. Qed.

Lemma frames_bind {A B X} (obs : GroupCall → X) (m : M A) (k : A → M B) :
  frames obs m → (∀ a, frames obs (k a)) → frames obs (bind m k).
Proof.
  intros Hm Hk gc. unfold bind. specialize (Hm gc).
  destruct (m gc) as [[a|e] gc']; simpl in *; [|done].
  by rewrite Hk.
Qed.

Lemma frames_when {X} (obs : GroupCall → X) (b : bool) (m : M unit) :
  frames obs m → frames obs (when b m).
Proof. destruct b; [done|]. intros _. apply frames_ret. Qed.

Lemma frames_for_each {A X} (obs : GroupCall → X) (xs : list A) (body : A → M unit) :
  (∀ x, frames obs (body x)) → frames obs (for_each xs body).
Proof.
  intros H. induction xs as [|x xs IH]; simpl; [apply frames_ret|].
  apply frames_bind; [apply H|]. by intros _.
Qed.

Lemma frames_for_fold {A S X} (obs : GroupCall → X) (xs : list A)
    (body : A → S → M S) (s : S) :
  (∀ x s, frames obs (body x s)) → frames obs (for_fold xs body s).
Proof.
  intros H. revert s. induction xs as [|x xs IH]; intros s; simpl; [apply frames_ret|].
  apply frames_bind; [apply H|]. by intros s'.
Qed.

Lemma frames_perform {X} (obs : GroupCall → X) (e : Effect) :
  (∀ gc t, obs (set_trace t gc) = obs gc) → frames obs (perform e).
Proof. intros H. apply frames_modify. intros gc. apply H. Qed.

(** A loop whose every turn returns, from any state, returns. *)
Lemma for_each_returns {A} (I : GroupCall → Prop) (xs : list A) (body : A → M unit) gc :
  I gc →
  (∀ x gc, x ∈ xs → I gc → ∃ gc', body x gc = (Ok tt, gc') ∧ I gc') →
  ∃ gc', for_each xs body gc = (Ok tt, gc') ∧ I gc'.
Proof.
  revert gc. induction xs as [|x xs IH]; intros gc HI Hbody; simpl; [by eexists|].
  destruct (Hbody x gc) as (gc1 & E1 & HI1); [left|done|].
  destruct (IH gc1 HI1) as (gc2 & E2 & HI2).
  { intros y gc' Hy. apply Hbody. by right. }
  exists gc2. split; [|done]. by rewrite (bind_ok _ _ _ _ _ E1).
Qed.

(** ** Local mute state *)

(** C10.  Without a local call feed both the microphone and the local video
    read as muted. *)
Theorem muted_without_local_call_feed (gc : GroupCall) :
  localCallFeed gc = None →
  isMicrophoneMuted gc = true ∧ isLocalVideoMuted gc = true.
Proof. unfold isMicrophoneMuted, isLocalVideoMuted. by intros ->. Qed.

Lemma muted_without_local_call_feed_witness :
  let gc := newGroupCall (clientOf "@a:h" "DA" "sa") (Room.mk "!r" ∅ ∅) false "G" in
  localCallFeed gc = None
  ∧ isMicrophoneMuted gc = true ∧ isLocalVideoMuted gc = true.
Proof.
  intros gc. split; [reflexivity|].
  apply (muted_without_local_call_feed gc). reflexivity.
Defined.

Ltac solve_frames :=
  repeat first
    [ apply frames_ret | apply frames_throw | apply frames_this | apply frames_lift
    | apply frames_when
    | apply frames_for_each; intros ?
    | apply frames_for_fold; intros ? ?
    | apply frames_bind; [|intros ?]
    | apply frames_modify; intros ?; reflexivity
    | progress unfold perform, emit, update_feed, update_call, forEachCall
    | match goal with
      | |- frames _ (match ?x with _ => _ end) => destruct x
      | |- frames _ (let '(_, _) := ?x in _) => destruct x
      | |- frames _ ((let '(_, _) := ?x in _) _) => destruct x
      end ].

Lemma forEachCall_unfold (f : CallRef → M unit) gc :
  forEachCall f gc = for_each (allCalls gc) f gc.
Proof. reflexivity. Qed.

Lemma perform_run (e : Effect) gc :
  perform e gc = (Ok tt, set_trace (trace gc ++ [e]) gc).
Proof. reflexivity. Qed.

(** The metadata updates of [setMicrophoneMuted] only extend the trace. *)
Lemma sendUpdates_returns gc :
  ∃ gc', forEachCall (λ call, perform (CallSendMetadataUpdate call)) gc = (Ok tt, gc')
         ∧ feedHeap gc' = feedHeap gc
         ∧ localCallFeed gc' = localCallFeed gc
         ∧ initWithAudioMuted gc' = initWithAudioMuted gc
         ∧ (∀ e, e ∈ trace gc → e ∈ trace gc').
Proof.
  rewrite forEachCall_unfold.
  destruct (for_each_returns
              (λ gc', feedHeap gc' = feedHeap gc ∧ localCallFeed gc' = localCallFeed gc
                      ∧ initWithAudioMuted gc' = initWithAudioMuted gc
                      ∧ ∀ e, e ∈ trace gc → e ∈ trace gc')
              (allCalls gc) (λ call, perform (CallSendMetadataUpdate call)) gc)
    as (gc' & E & H); [done| |by exists gc'].
  intros call gc1 _ (H1 & H2 & H3 & H4). eexists. split; [apply perform_run|].
  simpl. repeat split; try done.
  intros e He. apply elem_of_app. left. by apply H4.
Qed.

(** Muting the feeds of the calls leaves everything but the audio bits of
    feeds alone. *)
Lemma muteCallFeeds_returns (muted : bool) gc :
  ∃ gc',
    forEachCall (λ call,
      gc <- this ;;
      match MatrixCall.localUsermediaFeed (callHeap gc call) with
      | Some f => update_feed f (CallFeed.setAudioVideoMuted (Some muted) None)
      | None => ret tt
      end) gc = (Ok tt, gc')
    ∧ allCalls gc' = allCalls gc ∧ callHeap gc' = callHeap gc
    ∧ localCallFeed gc' = localCallFeed gc ∧ trace gc' = trace gc
    ∧ (∀ r, CallFeed.isVideoMuted (feedHeap gc' r) = CallFeed.isVideoMuted (feedHeap gc r)).
Proof.
  rewrite forEachCall_unfold.
  match goal with |- context [for_each _ ?body gc] =>
    destruct (for_each_returns
                (λ gc', allCalls gc' = allCalls gc ∧ callHeap gc' = callHeap gc
                        ∧ localCallFeed gc' = localCallFeed gc ∧ trace gc' = trace gc
                        ∧ ∀ r, CallFeed.isVideoMuted (feedHeap gc' r)
                               = CallFeed.isVideoMuted (feedHeap gc r))
                (allCalls gc) body gc) as (gc' & E & H); [done| |by exists gc']
  end.
  intros call gc1 _ (H1 & H2 & H3 & H4 & H5).
  unfold bind, this. simpl.
  destruct (MatrixCall.localUsermediaFeed (callHeap gc1 call)) as [f|].
  - eexists. split; [reflexivity|]. simpl. repeat split; try done.
    intros r. rewrite <- H5. unfold insert, fn_insert.
    by destruct (decide (f = r)) as [->|].
  - by exists gc1.
Qed.

Lemma unmuteTracks_returns (muted : bool) gc :
  (∀ call, call ∈ allCalls gc → is_Some (MatrixCall.localUsermediaFeed (callHeap gc call))) →
  ∃ gc',
    forEachCall (λ call,
      gc <- this ;;
      match MatrixCall.localUsermediaFeed (callHeap gc call) with
      | Some f => perform (SetTracksEnabled f AudioTracks (negb muted))
      | None => throw TypeError
      end) gc = (Ok tt, gc')
    ∧ feedHeap gc' = feedHeap gc ∧ localCallFeed gc' = localCallFeed gc
    ∧ initWithAudioMuted gc' = initWithAudioMuted gc.
Proof.
  intros Hcalls. rewrite forEachCall_unfold.
  match goal with |- context [for_each _ ?body gc] =>
    destruct (for_each_returns
                (λ gc', callHeap gc' = callHeap gc ∧ feedHeap gc' = feedHeap gc
                        ∧ localCallFeed gc' = localCallFeed gc
                        ∧ initWithAudioMuted gc' = initWithAudioMuted gc)
                (allCalls gc) body gc) as (gc' & E & H); [done| |]
  end.
  - intros call gc1 Hin (H1 & H2 & H3 & H4).
    unfold bind, this. simpl. rewrite H1.
    destruct (Hcalls call Hin) as [f ->].
    eexists. split; [apply perform_run|]. by simpl.
  - exists gc'. by destruct H as (_ & ? & ? & ?).
Qed.

(** A loop stops with the exception of the first turn that throws. *)
Lemma for_each_throws {A} (I : GroupCall → Prop) (throws : A → bool) (e : exn)
    (xs : list A) (body : A → M unit) gc :
  I gc →
  (∃ x, x ∈ xs ∧ throws x = true) →
  (∀ x gc, x ∈ xs → I gc →
     ∃ gc', body x gc = (if throws x then Throw e else Ok tt, gc') ∧ I gc') →
  ∃ gc', for_each xs body gc = (Throw e, gc') ∧ I gc'.
Proof.
  revert gc. induction xs as [|x xs IH]; intros gc HI (y & Hy & Ht) Hbody; simpl.
  { by apply elem_of_nil in Hy. }
  destruct (Hbody x gc) as (gc1 & E1 & HI1); [left|done|].
  destruct (throws x) eqn:Ex.
  - exists gc1. split; [|done]. by rewrite (bind_throw _ _ _ _ _ E1).
  - rewrite (bind_ok _ _ _ _ _ E1). apply IH; [done| |].
    + apply elem_of_cons in Hy. destruct Hy as [->|Hy]; [congruence|eauto].
    + intros z gc' Hz. apply Hbody. by right.
Qed.

(** The tracks of the calls (line 568): the loop throws at a call that has no
    local user-media feed, and has emitted nothing by then. *)
Lemma unmuteTracks_throws (muted : bool) gc call :
  call ∈ allCalls gc →
  MatrixCall.localUsermediaFeed (callHeap gc call) = None →
  ∃ gc',
    forEachCall (λ call,
      gc <- this ;;
      match MatrixCall.localUsermediaFeed (callHeap gc call) with
      | Some f => perform (SetTracksEnabled f AudioTracks (negb muted))
      | None => throw TypeError
      end) gc = (Throw TypeError, gc')
    ∧ feedHeap gc' = feedHeap gc ∧ localCallFeed gc' = localCallFeed gc
    ∧ initWithAudioMuted gc' = initWithAudioMuted gc
    ∧ (∀ a v, Emit (GroupCallEvent.LocalMuteStateChanged a v) ∈ trace gc' →
              Emit (GroupCallEvent.LocalMuteStateChanged a v) ∈ trace gc).
Proof.
  intros Hin Hnone. rewrite forEachCall_unfold.
  match goal with |- context [for_each _ ?body gc] =>
    destruct (for_each_throws
                (λ gc', callHeap gc' = callHeap gc ∧ feedHeap gc' = feedHeap gc
                        ∧ localCallFeed gc' = localCallFeed gc
                        ∧ initWithAudioMuted gc' = initWithAudioMuted gc
                        ∧ ∀ a v, Emit (GroupCallEvent.LocalMuteStateChanged a v) ∈ trace gc' →
                                 Emit (GroupCallEvent.LocalMuteStateChanged a v) ∈ trace gc)
                (λ call, bool_decide (MatrixCall.localUsermediaFeed (callHeap gc call) = None))
                TypeError (allCalls gc) body gc) as (gc' & E & H); [done| | |]
  end.
  - exists call. split; [done|]. by apply bool_decide_eq_true.
  - intros c gc1 _ (H1 & H2 & H3 & H4 & H5).
    unfold bind, this. simpl. rewrite H1.
    destruct (MatrixCall.localUsermediaFeed (callHeap gc c)) as [f|].
    + rewrite bool_decide_false by done.
      eexists. split; [apply perform_run|]. simpl. repeat split; try done.
      intros a v [Hold|Hnew%list_elem_of_singleton]%elem_of_app; [by apply H5|done].
    + rewrite bool_decide_true by done. by exists gc1.
  - exists gc'. by destruct H as (_ & ? & ? & ? & ?).
Qed.

(** [setMicrophoneMuted(true)] up to the loop of line 568: the timer, the
    feeds of the calls and the local feed are done, and nothing was emitted. *)
Lemma setMicrophoneMuted_mute_begin gc hasAudioDevice :
  ∃ gc3,
    setMicrophoneMuted hasAudioDevice true gc
    = (forEachCall (λ call,
         gc <- this ;;
         match MatrixCall.localUsermediaFeed (callHeap gc call) with
         | Some f => perform (SetTracksEnabled f AudioTracks false)
         | None => throw TypeError
         end) ;;
       gc <- this ;;
       emit (GroupCallEvent.LocalMuteStateChanged true (isLocalVideoMuted gc)) ;;
       forEachCall (λ call, perform (CallSendMetadataUpdate call)) ;;
       ret true) gc3
    ∧ allCalls gc3 = allCalls gc ∧ callHeap gc3 = callHeap gc
    ∧ isMicrophoneMuted gc3 = true
    ∧ isLocalVideoMuted gc3 = isLocalVideoMuted gc
    ∧ (localCallFeed gc = None → initWithAudioMuted gc3 = true)
    ∧ (∀ a v, Emit (GroupCallEvent.LocalMuteStateChanged a v) ∈ trace gc3 →
              Emit (GroupCallEvent.LocalMuteStateChanged a v) ∈ trace gc).
Proof.
  unfold setMicrophoneMuted. cbn [negb andb].
  rewrite (bind_ok this _ gc gc gc eq_refl). cbn [negb andb when].
  (* the transmit timer *)
  set (timer := when (isPtt gc) _).
  assert (∃ gc1, timer gc = (Ok tt, gc1)
                 ∧ allCalls gc1 = allCalls gc ∧ callHeap gc1 = callHeap gc
                 ∧ localCallFeed gc1 = localCallFeed gc ∧ feedHeap gc1 = feedHeap gc
                 ∧ trace gc1 = trace gc)
    as (gc1 & E1 & C1 & H1 & L1 & F1 & T1).
  { subst timer. destruct (isPtt gc); [|by exists gc].
    simpl. destruct (negb (isMicrophoneMuted gc)); by eexists. }
  rewrite (bind_ok _ _ _ _ _ E1).
  (* the feeds of the calls *)
  destruct (muteCallFeeds_returns true gc1) as (gc2 & E2 & C2 & H2 & L2 & T2 & V2).
  rewrite (bind_ok _ _ _ _ _ E2).
  rewrite (bind_ok (ret tt) _ gc2 tt gc2 eq_refl).
  rewrite (bind_ok this _ gc2 gc2 gc2 eq_refl).
  (* the local feed *)
  set (localFeed := match localCallFeed gc2 with Some _ => _ | None => _ end).
  assert (∃ gc3, localFeed gc2 = (Ok tt, gc3)
                 ∧ allCalls gc3 = allCalls gc2 ∧ callHeap gc3 = callHeap gc2
                 ∧ isMicrophoneMuted gc3 = true
                 ∧ isLocalVideoMuted gc3 = isLocalVideoMuted gc2
                 ∧ (localCallFeed gc2 = None → initWithAudioMuted gc3 = true)
                 ∧ (∀ a v, Emit (GroupCallEvent.LocalMuteStateChanged a v) ∈ trace gc3 →
                           Emit (GroupCallEvent.LocalMuteStateChanged a v) ∈ trace gc2))
    as (gc3 & E3 & C3 & H3 & A3 & V3 & I3 & T3).
  { subst localFeed. unfold isMicrophoneMuted, isLocalVideoMuted.
    destruct (localCallFeed gc2) as [f|] eqn:El.
    - eexists. split; [reflexivity|]. simpl. rewrite El.
      unfold insert, fn_insert. rewrite decide_True by done. simpl.
      repeat split; try done.
      intros a v [Hold|Hnew%list_elem_of_singleton]%elem_of_app; done.
    - eexists. split; [reflexivity|]. simpl. by rewrite El. }
  rewrite (bind_ok _ _ _ _ _ E3).
  exists gc3. split; [reflexivity|].
  split; [by rewrite C3, C2, C1|]. split; [by rewrite H3, H2, H1|]. split; [done|].
  split; [|split].
  - rewrite V3. unfold isLocalVideoMuted. rewrite L2, L1.
    destruct (localCallFeed gc); [|done]. by rewrite V2, F1.
  - intros Hn. apply I3. by rewrite L2, L1.
  - intros a v H. rewrite <- T1, <- T2. by apply T3.
Qed.

Lemma setMicrophoneMuted_mute gc hasAudioDevice :
  (∀ call, call ∈ allCalls gc → is_Some (MatrixCall.localUsermediaFeed (callHeap gc call))) →
  ∃ gc', setMicrophoneMuted hasAudioDevice true gc = (Ok true, gc')
         ∧ isMicrophoneMuted gc' = true
         ∧ (localCallFeed gc = None → initWithAudioMuted gc' = true)
         ∧ Emit (GroupCallEvent.LocalMuteStateChanged true (isLocalVideoMuted gc)) ∈ trace gc'.
Proof.
  intros Hcalls.
  destruct (setMicrophoneMuted_mute_begin gc hasAudioDevice)
    as (gc3 & -> & C3 & H3 & A3 & V3 & I3 & _).
  (* the tracks of the calls *)
  destruct (unmuteTracks_returns true gc3) as (gc4 & E4 & F4 & L4 & I4).
  { intros call. rewrite C3, H3. apply Hcalls. }
  rewrite (bind_ok _ _ _ _ _ E4).
  rewrite (bind_ok this _ gc4 gc4 gc4 eq_refl).
  unfold emit. rewrite (bind_ok _ _ _ _ _ (perform_run _ gc4)).
  destruct (sendUpdates_returns
              (set_trace (trace gc4 ++ [Emit (GroupCallEvent.LocalMuteStateChanged true
                                                (isLocalVideoMuted gc4))]) gc4))
    as (gc5 & E5 & F5 & L5 & I5 & T5).
  rewrite (bind_ok _ _ _ _ _ E5).
  exists gc5. split; [reflexivity|].
  assert (Hv : isLocalVideoMuted gc4 = isLocalVideoMuted gc).
  { rewrite <- V3. unfold isLocalVideoMuted. by rewrite L4, F4. }
  repeat split.
  - unfold isMicrophoneMuted in *. rewrite L5, F5. simpl. by rewrite L4, F4.
  - intros Hn. rewrite I5. simpl. rewrite I4. by apply I3.
  - apply T5. simpl. apply elem_of_app. right. rewrite Hv. by left.
Qed.

(** Line 568 on a call without local user-media feed: the run ends in a
    [TypeError] when the local feed is muted already and before
    [LocalMuteStateChanged] is emitted. *)
Lemma setMicrophoneMuted_mute_throws gc hasAudioDevice call :
  call ∈ allCalls gc →
  MatrixCall.localUsermediaFeed (callHeap gc call) = None →
  ∃ gc', setMicrophoneMuted hasAudioDevice true gc = (Throw TypeError, gc')
         ∧ isMicrophoneMuted gc' = true
         ∧ (localCallFeed gc = None → initWithAudioMuted gc' = true)
         ∧ (∀ a v, Emit (GroupCallEvent.LocalMuteStateChanged a v) ∈ trace gc' →
                   Emit (GroupCallEvent.LocalMuteStateChanged a v) ∈ trace gc).
Proof.
  intros Hin Hnone.
  destruct (setMicrophoneMuted_mute_begin gc hasAudioDevice)
    as (gc3 & -> & C3 & H3 & A3 & V3 & I3 & T3).
  destruct (unmuteTracks_throws true gc3 call) as (gc4 & E4 & F4 & L4 & I4 & T4).
  { by rewrite C3. }
  { by rewrite H3. }
  rewrite (bind_throw _ _ _ _ _ E4).
  exists gc4. split; [reflexivity|]. repeat split.
  - unfold isMicrophoneMuted in *. by rewrite L4, F4.
  - intros Hn. rewrite I4. by apply I3.
  - intros a v H. by apply T3, T4.
Qed.

Lemma setLocalVideoMuted_mute gc hasVideoDevice :
  ∃ gc', setLocalVideoMuted hasVideoDevice true gc = (Ok true, gc')
         ∧ isLocalVideoMuted gc' = true
         ∧ (localCallFeed gc = None → initWithVideoMuted gc' = true)
         ∧ Emit (GroupCallEvent.LocalMuteStateChanged (isMicrophoneMuted gc) true) ∈ trace gc'.
Proof.
  unfold setLocalVideoMuted. cbn [negb andb].
  rewrite (bind_ok this _ gc gc gc eq_refl).
  set (localFeed := match localCallFeed gc with Some _ => _ | None => _ end).
  assert (∃ gc1, localFeed gc = (Ok tt, gc1)
                 ∧ localCallFeed gc1 = localCallFeed gc
                 ∧ isLocalVideoMuted gc1 = true
                 ∧ isMicrophoneMuted gc1 = isMicrophoneMuted gc
                 ∧ (localCallFeed gc = None → initWithVideoMuted gc1 = true))
    as (gc1 & E1 & L1 & V1 & A1 & I1).
  { subst localFeed. unfold isMicrophoneMuted, isLocalVideoMuted.
    destruct (localCallFeed gc) as [f|] eqn:El.
    - eexists. split; [reflexivity|]. simpl. rewrite El.
      unfold insert, fn_insert. rewrite decide_True by done. by simpl.
    - eexists. split; [reflexivity|]. simpl. by rewrite El. }
  rewrite (bind_ok _ _ _ _ _ E1).
  assert (∃ gc2, forEachCall (λ call, perform (CallSetLocalVideoMuted call true)) gc1
                 = (Ok tt, gc2)
                 ∧ feedHeap gc2 = feedHeap gc1 ∧ localCallFeed gc2 = localCallFeed gc1
                 ∧ initWithVideoMuted gc2 = initWithVideoMuted gc1)
    as (gc2 & E2 & F2 & L2 & I2).
  { rewrite forEachCall_unfold.
    apply (for_each_returns
             (λ gc', feedHeap gc' = feedHeap gc1 ∧ localCallFeed gc' = localCallFeed gc1
                     ∧ initWithVideoMuted gc' = initWithVideoMuted gc1)); [done|].
    intros call gc' _ (? & ? & ?). eexists. split; [apply perform_run|]. by simpl. }
  rewrite (bind_ok _ _ _ _ _ E2).
  rewrite (bind_ok this _ gc2 gc2 gc2 eq_refl).
  unfold emit. rewrite (bind_ok _ _ _ _ _ (perform_run _ gc2)).
  eexists. split; [reflexivity|].
  assert (Ha : isMicrophoneMuted gc2 = isMicrophoneMuted gc).
  { rewrite <- A1. unfold isMicrophoneMuted. by rewrite L2, F2. }
  repeat split.
  - unfold isLocalVideoMuted in *. simpl. by rewrite L2, F2.
  - intros Hn. simpl. rewrite I2. by apply I1.
  - simpl. apply elem_of_app. right. rewrite Ha. by left.
Qed.

(** C8.  An unmute request without the input device returns [false] and
    changes nothing: no field, no feed of any call, no deferred bit, and
    nothing is emitted.  A request to mute the video returns [true] whatever
    the media handler would report, with the local state muted and
    [LocalMuteStateChanged] emitted.  A request to mute the microphone runs
    the same whatever the media handler would report; it returns [true] in
    the same way when every call of the graph has a local user-media feed.
    When some call has none, which line 549 provides for and line 568 does
    not, it ends in a [TypeError] instead: the local feed is muted by then,
    and [LocalMuteStateChanged] is not emitted. *)
Theorem microphone_mute_throws_without_call_feed :
  (∀ gc, setMicrophoneMuted false false gc = (Ok false, gc))
  ∧ (∀ gc, setLocalVideoMuted false false gc = (Ok false, gc))
  ∧ (∀ gc hasVideoDevice,
       ∃ gc', setLocalVideoMuted hasVideoDevice true gc = (Ok true, gc')
              ∧ isLocalVideoMuted gc' = true
              ∧ (localCallFeed gc = None → initWithVideoMuted gc' = true)
              ∧ Emit (GroupCallEvent.LocalMuteStateChanged (isMicrophoneMuted gc) true)
                ∈ trace gc')
  ∧ (∀ gc hasAudioDevice,
       setMicrophoneMuted hasAudioDevice true gc = setMicrophoneMuted true true gc
       ∧ ((∀ call, call ∈ allCalls gc →
                   is_Some (MatrixCall.localUsermediaFeed (callHeap gc call))) →
          ∃ gc', setMicrophoneMuted hasAudioDevice true gc = (Ok true, gc')
                 ∧ isMicrophoneMuted gc' = true
                 ∧ (localCallFeed gc = None → initWithAudioMuted gc' = true)
                 ∧ Emit (GroupCallEvent.LocalMuteStateChanged true (isLocalVideoMuted gc))
                   ∈ trace gc')
       ∧ ∀ call,
           call ∈ allCalls gc →
           MatrixCall.localUsermediaFeed (callHeap gc call) = None →
           ∃ gc', setMicrophoneMuted hasAudioDevice true gc = (Throw TypeError, gc')
                  ∧ isMicrophoneMuted gc' = true
                  ∧ (localCallFeed gc = None → initWithAudioMuted gc' = true)
                  ∧ ∀ a v, Emit (GroupCallEvent.LocalMuteStateChanged a v) ∈ trace gc' →
                           Emit (GroupCallEvent.LocalMuteStateChanged a v) ∈ trace gc).
Proof.
  split; [done|]. split; [done|]. split.
  - intros gc h. apply setLocalVideoMuted_mute.
  - intros gc h. split; [reflexivity|]. split.
    + apply setMicrophoneMuted_mute.
    + apply setMicrophoneMuted_mute_throws.
Qed.

Lemma microphone_mute_throws_without_call_feed_witness :
  ∃ gc', setMicrophoneMuted true true gc_a_calling_b = (Throw TypeError, gc')
         ∧ isMicrophoneMuted gc' = true
         ∧ ∀ a v, Emit (GroupCallEvent.LocalMuteStateChanged a v) ∉ trace gc'.
Proof.
  destruct (proj2 (proj2 (proj2 (proj2 (proj2 microphone_mute_throws_without_call_feed))
                             gc_a_calling_b true)) 0%nat)
    as (gc' & E & Hm & _ & Ht).
  - vm_compute. left.
  - vm_compute. reflexivity.
  - exists gc'. split; [exact E|]. split; [exact Hm|].
    intros a v Hin. apply Ht in Hin. vm_compute in Hin.
    repeat (apply elem_of_cons in Hin as [Hin|Hin]; [discriminate Hin|]).
    by apply elem_of_nil in Hin.
Defined.

(** ** Call graph and handler table *)

Lemma gc_a_calling_b_calls :
  calls gc_a_calling_b = {[ "@b:h" := {[ "DB" := 0%nat ]} ]}.
Proof. vm_compute. reflexivity. Qed.

Lemma gc_a_calling_b_callHandlers :
  callHandlers gc_a_calling_b
  = {[ "@b:h" := {[ "DB" := ICallHandlers.mk (OnCallFeedsChanged 0) (OnCallStateChanged 0)
                              OnCallHangup (OnCallReplaced 0) ]} ]}.
Proof. vm_compute. reflexivity. Qed.

Lemma gc_a_b_hung_up_calls :
  calls gc_a_b_hung_up = {[ "@b:h" := {[ "DB" := 0%nat ]} ]}.
Proof. vm_compute. reflexivity. Qed.

Lemma gc_a_b_hung_up_callHandlers :
  callHandlers gc_a_b_hung_up
  = {[ "@b:h" := {[ "DB" := ICallHandlers.mk (OnCallFeedsChanged 0) (OnCallStateChanged 0)
                              OnCallHangup (OnCallReplaced 0) ]} ]}.
Proof. vm_compute. reflexivity. Qed.

Lemma keyedIdentically_singleton gc userId deviceId call handlers :
  calls gc = {[ userId := {[ deviceId := call ]} ]} →
  callHandlers gc = {[ userId := {[ deviceId := handlers ]} ]} →
  keyedIdentically gc.
Proof.
  intros Hc Hh. unfold keyedIdentically. rewrite Hc, Hh. split; [|split].
  - intros u d. destruct (decide (u = userId)) as [->|Hu].
    + rewrite !lookup_singleton_eq. simpl.
      destruct (decide (d = deviceId)) as [->|Hd].
      * rewrite !lookup_singleton_eq. split; eauto.
      * rewrite !lookup_singleton_ne by done. split; intros [? ?]; done.
    + rewrite !lookup_singleton_ne by done. simpl. split; intros [? ?]; done.
  - intros u m [_ <-]%lookup_singleton_Some. apply insert_non_empty.
  - intros u m [_ <-]%lookup_singleton_Some. apply insert_non_empty.
Qed.

(** C1, at the call of S1 when it is hung up.  The call graph and the handler
    table are keyed identically while the call to [(@b:h, DB)] stands.  The
    hangup pass empties the call graph, and the handler table keeps the
    entry under [(@b:h, DB)]: [disposeCall] deletes from the device map under
    the user id. *)
Theorem hangup_leaves_the_handler_entry :
  keyedIdentically gc_a_calling_b
  ∧ keyedIdentically gc_a_b_hung_up
  ∧ ∃ gc', onCallHangup 0%nat gc_a_b_hung_up = (Ok tt, gc')
           ∧ calls gc' = ∅
           ∧ callHandlers gc' !! "@b:h" ≫= (.!! "DB")
             = Some (ICallHandlers.mk (OnCallFeedsChanged 0) (OnCallStateChanged 0)
                       OnCallHangup (OnCallReplaced 0))
           ∧ ¬ keyedIdentically gc'.
Proof.
  split; [|split].
  - eapply keyedIdentically_singleton;
      [exact gc_a_calling_b_calls|exact gc_a_calling_b_callHandlers].
  - eapply keyedIdentically_singleton;
      [exact gc_a_b_hung_up_calls|exact gc_a_b_hung_up_callHandlers].
  - exists (onCallHangup 0%nat gc_a_b_hung_up).2.
    assert (E : calls (onCallHangup 0%nat gc_a_b_hung_up).2 = ∅)
      by (vm_compute; reflexivity).
    assert (H : callHandlers (onCallHangup 0%nat gc_a_b_hung_up).2 !! "@b:h" ≫= (.!! "DB")
                = Some (ICallHandlers.mk (OnCallFeedsChanged 0) (OnCallStateChanged 0)
                          OnCallHangup (OnCallReplaced 0)))
      by (vm_compute; reflexivity).
    split; [|split; [exact E|split; [exact H|]]].
    + assert (R : (onCallHangup 0%nat gc_a_b_hung_up).1 = Ok tt)
        by (vm_compute; reflexivity).
      rewrite <- R. by destruct (onCallHangup 0%nat gc_a_b_hung_up).
    + intros (K & _ & _). specialize (K "@b:h" "DB").
      rewrite H, E in K. destruct K as [_ K].
      destruct K as [? K]; [by eexists|]. by rewrite lookup_empty in K.
Qed.

(** ** Active speaker *)

(** C5, at the local feed and one remote feed with samples -100 dB and
    -50 dB, and a threshold of -60 dB.  The mean of the clamped samples, -55 dB, exceeds
    the threshold and the feed is not the active speaker, yet the tick leaves
    the active speaker as it was and emits nothing: the first sample enters
    the sum unclamped. *)
Theorem active_speaker_first_sample_unclamped :
  (-60 # 1 < clampedMean (-60 # 1)
               (CallFeed.speakingVolumeSamples (feedHeap gc_b_speaking 1%nat)))%Q
  ∧ userMediaFeeds gc_b_speaking = [100%nat; 1%nat]
  ∧ activeSpeaker gc_b_speaking ≠ Some 1%nat
  ∧ totalVolume (-60 # 1) (CallFeed.speakingVolumeSamples (feedHeap gc_b_speaking 1%nat))
    = Ok (-150 # 1)%Q
  ∧ onActiveSpeakerLoop (-60 # 1) gc_b_speaking = (Ok tt, gc_b_speaking).
Proof.
  split; [by vm_compute|]. split; [reflexivity|]. split; [by vm_compute|].
  split; [by vm_compute|]. reflexivity.
Qed.

(** ** JSON values *)

Lemma prop_ok (v : json) (k : string) (x : jsval) : prop v k = Ok x → x = field v k.
Proof. destruct v; simpl; congruence. Qed.

Lemma prop_field (v : json) (k : string) : v ≠ JNull → prop v k = Ok (field v k).
Proof. by destruct v. Qed.

Lemma prop_not_null (v : json) (k : string) (x : jsval) : prop v k = Ok x → v ≠ JNull.
Proof. by destruct v. Qed.

Lemma assoc_obj_set_eq (k : string) (v : json) (fields : list (string * json)) :
  assoc k (obj_set k v fields) = Some v.
Proof.
  induction fields as [|[k' v'] rest IH]; simpl.
  - by rewrite String.eqb_refl.
  - destruct (String.eqb k k') eqn:E; simpl; rewrite ?String.eqb_refl, ?E; done.
Qed.

Lemma assoc_obj_set_ne (k k0 : string) (v : json) (fields : list (string * json)) :
  k0 ≠ k → assoc k0 (obj_set k v fields) = assoc k0 fields.
Proof.
  intros Hne. induction fields as [|[k' v'] rest IH]; simpl.
  - by rewrite (proj2 (String.eqb_neq k0 k) Hne).
  - destruct (String.eqb k k') eqn:E; simpl.
    + apply String.eqb_eq in E. subst k'.
      by rewrite !(proj2 (String.eqb_neq k0 k) Hne).
    + by rewrite IH.
Qed.

Lemma filter_length_eq {A} (p : A → bool) (xs : list A) :
  length (List.filter p xs) = length xs ↔ List.filter p xs = xs.
Proof.
  split; [|by intros ->].
  induction xs as [|x xs IH]; simpl; [done|].
  destruct (p x); simpl.
  - intros H. f_equal. apply IH. lia.
  - intros H. pose proof (List.filter_length_le p xs). lia.
Qed.

(** ** Membership publisher *)

Lemma partitionCalls_ok gid (calls : list json) call0 others0 call others :
  partitionCalls gid calls call0 others0 = Ok (call, others) →
  others = others0 ++ List.filter (λ c, negb (isString (field c "m.call_id") gid)) calls
  ∧ (call = call0 ∨ ∃ c, call = Some c ∧ c ∈ calls
                        ∧ isString (field c "m.call_id") gid = true).
Proof.
  revert call0 others0.
  induction calls as [|c rest IH]; intros call0 others0; simpl.
  - intros [= <- <-]. by rewrite app_nil_r; auto.
  - destruct (prop c "m.call_id") as [id|e] eqn:E; simpl; [|done].
    apply prop_ok in E. subst id.
    destruct (isString (field c "m.call_id") gid) eqn:Eid; simpl; intros H.
    + destruct (IH _ _ H) as [-> [->|(c' & -> & Hin & Hc')]]; split; try done.
      * right. exists c. split; [done|]. split; [left|done].
      * right. exists c'. split; [done|]. split; [by right|done].
    + destruct (IH _ _ H) as [-> [->|(c' & -> & Hin & Hc')]].
      * rewrite <- app_assoc. by auto.
      * rewrite <- app_assoc. split; [done|].
        right. exists c'. split; [done|]. split; [by right|done].
Qed.

Lemma readMemberState_ok gc now call otherCalls validDevices :
  readMemberState gc now = Ok (call, otherCalls, validDevices) →
  otherCalls = List.filter (λ c, negb (isOurEntry gc c)) (storedCalls gc).
Proof.
  unfold readMemberState. fold (storedCalls gc).
  destruct (partitionCalls (groupCallId gc) (storedCalls gc) None []) as [[c o]|e] eqn:E;
    simpl; [|done].
  apply partitionCalls_ok in E. destruct E as [-> _].
  destruct (prop (default (JObj []) c) "m.devices"); simpl; [|done].
  destruct (filter_res _ _); simpl; [|done].
  by intros [= <- <- <-].
Qed.

(** ** Runs over well-formed JSON return *)

Lemma nullFree_assoc fields k x :
  forallb (λ kv : string * json, let '(_, y) := kv in nullFree y) fields = true →
  assoc k fields = Some x → nullFree x = true.
Proof.
  induction fields as [|[k' v] rest IH]; simpl; [done|].
  intros [Hv Hrest]%andb_true_iff. destruct (String.eqb k k'); [|by apply IH].
  by intros [= <-].
Qed.

Lemma nullFree_field v k x : nullFree v = true → field v k = Some x → nullFree x = true.
Proof. destruct v; simpl; try done. apply nullFree_assoc. Qed.

Lemma nullFree_prop v k : nullFree v = true → prop v k = Ok (field v k).
Proof. intros H. apply prop_field. by intros ->. Qed.

Lemma nullFree_items (x : jsval) :
  (∀ y, x = Some y → nullFree y = true) →
  Forall (λ y, nullFree y = true) (arrayOrEmpty x).
Proof.
  intros H. destruct x as [[]|]; simpl; try by apply Forall_nil.
  specialize (H _ eq_refl). simpl in H.
  apply Forall_forall. intros y Hy. rewrite forallb_forall in H.
  apply H. by apply list_elem_of_In.
Qed.

Lemma find_res_returns {A} (p : A → Res bool) (xs : list A) :
  Forall (λ x, ∃ b, p x = Ok b) xs →
  ∃ o, find_res p xs = Ok o ∧ ∀ x, o = Some x → x ∈ xs.
Proof.
  induction 1 as [|x xs [b Hb] _ IH]; simpl; [by exists None|].
  rewrite Hb. simpl. destruct b.
  - exists (Some x). split; [done|]. intros ? [= <-]. left.
  - destruct IH as (o & -> & Ho). exists o. split; [done|].
    intros y Hy. right. by apply Ho.
Qed.

Lemma filter_res_returns {A} (p : A → Res bool) (xs : list A) :
  Forall (λ x, ∃ b, p x = Ok b) xs → ∃ ys, filter_res p xs = Ok ys.
Proof.
  induction 1 as [|x xs [b Hb] _ [ys IH]]; simpl; [by eexists|].
  rewrite Hb, IH. simpl. by eexists.
Qed.

Lemma filter_as_res_returns {A B} (f : A → Res (option B)) (xs : list A) :
  Forall (λ x, ∃ o, f x = Ok o) xs → ∃ ys, filter_as_res f xs = Ok ys.
Proof.
  induction 1 as [|x xs [o Ho] _ [ys IH]]; simpl; [by eexists|].
  rewrite Ho, IH. simpl. by eexists.
Qed.

Lemma some_res_returns {A} (p : A → Res bool) (xs : list A) :
  Forall (λ x, ∃ b, p x = Ok b) xs → ∃ b, some_res p xs = Ok b.
Proof.
  induction 1 as [|x xs [b Hb] _ [b' IH]]; simpl; [by eexists|].
  rewrite Hb. simpl. destruct b; by eexists.
Qed.

Lemma validDevice_returns now d :
  nullFree d = true →
  ∃ o, validDevice now d = Ok o
       ∧ ∀ dev, o = Some dev → Forall (λ f, nullFree f = true) (feeds dev).
Proof.
  intros Hd. unfold validDevice. rewrite !nullFree_prop by done. simpl.
  eexists. split; [reflexivity|]. intros dev Hdev.
  destruct (field d "device_id") as [[]|]; try done.
  destruct (field d "session_id") as [[]|]; try done.
  destruct (field d "expires_ts") as [[]|]; try done.
  destruct (field d "feeds") as [[| | | |fs|]|] eqn:Ef; try done.
  destruct (now <? n)%Z; [|done]. injection Hdev as <-. simpl.
  apply (nullFree_items (Some (JArr fs))). intros y [= <-].
  by apply (nullFree_field d "feeds").
Qed.

Lemma advertisedDevices_returns groupCallId content :
  nullFree (JObj content) = true →
  ∃ devices, advertisedDevices groupCallId content = Ok devices
             ∧ Forall (λ d, nullFree d = true) devices.
Proof.
  intros Hc. unfold advertisedDevices.
  assert (Hcalls : Forall (λ c, nullFree c = true) (arrayOrEmpty (assoc "m.calls" content))).
  { apply nullFree_items. intros y Hy. by apply (nullFree_field (JObj content) "m.calls"). }
  destruct (find_res_returns
              (λ call, (id <~ prop call "m.call_id"; Ok (isString id groupCallId))%res)
              (arrayOrEmpty (assoc "m.calls" content))) as (o & -> & Ho).
  { eapply Forall_impl; [exact Hcalls|]. intros c Hn. simpl.
    rewrite nullFree_prop by done. by eexists. }
  simpl. destruct o as [call|].
  - assert (Hcall : nullFree call = true).
    { rewrite Forall_forall in Hcalls. by apply Hcalls, Ho. }
    rewrite nullFree_prop by done. simpl. eexists. split; [reflexivity|].
    apply nullFree_items. intros y Hy. by apply (nullFree_field call "m.devices").
  - exists []. split; [done|]. by apply Forall_nil.
Qed.

Lemma partitionCalls_returns groupCallId calls call0 others0 :
  Forall (λ c, nullFree c = true) calls →
  (∀ c, call0 = Some c → nullFree c = true) →
  ∃ call others,
    partitionCalls groupCallId calls call0 others0 = Ok (call, others)
    ∧ ∀ c, call = Some c → nullFree c = true.
Proof.
  intros H. revert call0 others0.
  induction H as [|c rest Hc _ IH]; intros call0 others0 H0; simpl.
  - by eexists _, _.
  - rewrite nullFree_prop by done. simpl.
    destruct (isString _ _); apply IH; [|done]. by intros ? [= <-].
Qed.

Lemma readMemberState_returns gc now :
  (∀ content,
     Room.memberStateEvents (room gc) !! MatrixClient.getUserId (client gc) = Some content →
     nullFree (JObj content) = true) →
  ∃ call otherCalls validDevices,
    readMemberState gc now = Ok (call, otherCalls, validDevices).
Proof.
  intros Hnull. unfold readMemberState.
  set (content := default [] (Room.memberStateEvents (room gc)
                                !! MatrixClient.getUserId (client gc))).
  assert (Hc : nullFree (JObj content) = true).
  { subst content. destruct (Room.memberStateEvents (room gc) !! _); [by apply Hnull|done]. }
  destruct (partitionCalls_returns (groupCallId gc) (arrayOrEmpty (assoc "m.calls" content))
              None []) as (call & others & -> & Hcall); [|done|].
  { apply nullFree_items. intros y Hy. by apply (nullFree_field (JObj content) "m.calls"). }
  simpl.
  assert (Hcall' : nullFree (default (JObj []) call) = true).
  { destruct call; [by apply Hcall|done]. }
  rewrite nullFree_prop by done. simpl.
  destruct (filter_res_returns (isValidDevice now)
              (arrayOrEmpty (field (default (JObj []) call) "m.devices"))) as [vds ->].
  { eapply Forall_impl.
    - apply nullFree_items. intros y Hy. by apply (nullFree_field _ "m.devices" y Hcall').
    - intros d Hd. unfold isValidDevice.
      destruct (validDevice_returns now d Hd) as (o & -> & _). by eexists. }
  simpl. by eexists _, _, _.
Qed.

Lemma updateDevices_run gc fn keepAlive now call otherCalls validDevices :
  readMemberState gc now = Ok (call, otherCalls, validDevices) →
  updateDevices fn keepAlive now gc
  = match fn validDevices with
    | None => (Ok tt, gc)
    | Some newDevices =>
        (Ok tt,
         set_trace
           (trace gc ++
            [SendStateEvent (Room.roomId (room gc)) EventType.GroupCallMemberPrefix
               (JObj [("m.calls",
                       JArr (otherCalls ++
                             (if bool_decide (0 < length newDevices)%nat
                              then [JObj (obj_set "m.devices" (JArr newDevices)
                                            (obj_set "m.call_id" (JStr (groupCallId gc))
                                               (ownProperties call)))]
                              else [])))])
               (MatrixClient.getUserId (client gc)) keepAlive]) gc)
    end.
Proof.
  intros H. unfold updateDevices, bind, this, lift. rewrite H.
  by destruct (fn validDevices).
Qed.

(** C6, as the code has it.  The member state is read when it holds no
    [null].  The write is skipped when the callback returns
    [null].  Otherwise one event is written under the user id of the local
    user; its [m.calls] keeps the stored entries of other calls, in order and
    verbatim, followed by an entry for this call iff the new device list is
    not empty; the devices of that entry are the list the callback returned,
    with the [expires_ts] the callback gave them.  The device that
    [addDeviceToMemberState] appends for the local device carries
    [expires_ts] = clock + [DEVICE_TIMEOUT], with [DEVICE_TIMEOUT] =
    3_600_000 ms. *)
Theorem updateDevices_read_modify_write gc fn keepAlive now :
  ((∀ content,
      Room.memberStateEvents (room gc) !! MatrixClient.getUserId (client gc) = Some content →
      nullFree (JObj content) = true) →
   ∃ call otherCalls validDevices,
     readMemberState gc now = Ok (call, otherCalls, validDevices))
  ∧ ∀ call otherCalls validDevices,
  readMemberState gc now = Ok (call, otherCalls, validDevices) →
  (fn validDevices = None → updateDevices fn keepAlive now gc = (Ok tt, gc))
  ∧ (∀ newDevices, fn validDevices = Some newDevices →
       ∃ ours,
         updateDevices fn keepAlive now gc
         = (Ok tt,
            set_trace
              (trace gc ++
               [SendStateEvent (Room.roomId (room gc)) EventType.GroupCallMemberPrefix
                  (JObj [("m.calls",
                          JArr (List.filter (λ c, negb (isOurEntry gc c)) (storedCalls gc)
                                ++ ours))])
                  (MatrixClient.getUserId (client gc)) keepAlive]) gc)
         ∧ (newDevices = [] → ours = [])
         ∧ (newDevices ≠ [] →
            ∃ entry, ours = [entry]
                     ∧ field entry "m.call_id" = Some (JStr (groupCallId gc))
                     ∧ field entry "m.devices" = Some (JArr newDevices)))
  ∧ DEVICE_TIMEOUT = 3600000%Z
  ∧ (∀ now', ∃ entry,
       addDeviceToMemberState now now' gc
       = (Ok tt,
          set_trace
            (trace gc ++
             [SendStateEvent (Room.roomId (room gc)) EventType.GroupCallMemberPrefix
                (JObj [("m.calls",
                        JArr (List.filter (λ c, negb (isOurEntry gc c)) (storedCalls gc)
                              ++ [entry]))])
                (MatrixClient.getUserId (client gc)) false]) gc)
       ∧ field entry "m.call_id" = Some (JStr (groupCallId gc))
       ∧ field entry "m.devices"
         = Some (JArr (List.filter (isNotDevice (MatrixClient.getDeviceId (client gc)))
                         validDevices
                       ++ [JObj [("device_id", JStr (MatrixClient.getDeviceId (client gc)));
                                 ("session_id", JStr (MatrixClient.getSessionId (client gc)));
                                 ("expires_ts", JNum (now' + DEVICE_TIMEOUT));
                                 ("feeds", JArr (advertisedFeed gc <$> getLocalFeeds gc))]]))).
Proof.
  split; [apply readMemberState_returns|]. intros call otherCalls validDevices Hread.
  pose proof (readMemberState_ok _ _ _ _ _ Hread) as Hothers.
  assert (Hentry : ∀ newDevices,
    field (JObj (obj_set "m.devices" (JArr newDevices)
                   (obj_set "m.call_id" (JStr (groupCallId gc)) (ownProperties call))))
      "m.call_id" = Some (JStr (groupCallId gc))
    ∧ field (JObj (obj_set "m.devices" (JArr newDevices)
                     (obj_set "m.call_id" (JStr (groupCallId gc)) (ownProperties call))))
        "m.devices" = Some (JArr newDevices)).
  { intros newDevices. simpl. split.
    - rewrite assoc_obj_set_ne by done. apply assoc_obj_set_eq.
    - apply assoc_obj_set_eq. }
  split; [|split; [|split]].
  - intros Hfn. rewrite (updateDevices_run _ _ _ _ _ _ _ Hread). by rewrite Hfn.
  - intros newDevices Hfn. rewrite (updateDevices_run _ _ _ _ _ _ _ Hread), Hfn.
    rewrite <- Hothers. eexists. split; [reflexivity|]. split.
    + by intros ->.
    + intros Hne. destruct newDevices as [|d rest]; [done|].
      rewrite bool_decide_true by (simpl; lia).
      eexists. split; [reflexivity|]. apply Hentry.
  - reflexivity.
  - intros now'. unfold addDeviceToMemberState.
    rewrite (bind_ok this _ gc gc gc eq_refl).
    rewrite (updateDevices_run _ _ _ _ _ _ _ Hread). unfold withLocalDevice.
    rewrite <- Hothers.
    rewrite bool_decide_true by (rewrite length_app; simpl; lia).
    eexists. split; [reflexivity|]. apply Hentry.
Qed.

Lemma gc_a_with_DX_read :
  readMemberState gc_a_with_DX 0
  = Ok (JObj [("m.call_id", JStr "G"); ("m.devices", JArr [advertisement "DX" "sx" 1000])],
        [], [advertisement "DX" "sx" 1000]).
Proof. vm_compute. reflexivity. Qed.

Lemma updateDevices_read_modify_write_witness :
  updateDevices (λ _, None) false 0 gc_a_with_DX = (Ok tt, gc_a_with_DX).
Proof.
  apply (proj1 (proj2 (updateDevices_read_modify_write gc_a_with_DX (λ _, None) false 0)
                  _ _ _ gc_a_with_DX_read)).
  reflexivity.
Defined.

(** C6 as stated fails where the local user has a second device in the member
    state: publishing the local device writes both devices, and the second
    keeps its stored [expires_ts] of 1000, not 0 + [DEVICE_TIMEOUT]. *)
Lemma written_devices_keep_their_expires_ts :
  ¬ carriesFreshExpiry gc_a_with_DX 0 (addDeviceToMemberState 0 0 gc_a_with_DX).2.
Proof.
  intros H.
  specialize (H (SendStateEvent "!r" EventType.GroupCallMemberPrefix
                   (JObj [("m.calls",
                           JArr [JObj [("m.call_id", JStr "G");
                                       ("m.devices",
                                        JArr [advertisement "DX" "sx" 1000;
                                              JObj [("device_id", JStr "DA");
                                                    ("session_id", JStr "sa");
                                                    ("expires_ts", JNum 3600000);
                                                    ("feeds", JArr [])]])]])])
                   "@a:h" false)
                (advertisement "DX" "sx" 1000)).
  assert (Hin : SendStateEvent "!r" EventType.GroupCallMemberPrefix
                   (JObj [("m.calls",
                           JArr [JObj [("m.call_id", JStr "G");
                                       ("m.devices",
                                        JArr [advertisement "DX" "sx" 1000;
                                              JObj [("device_id", JStr "DA");
                                                    ("session_id", JStr "sa");
                                                    ("expires_ts", JNum 3600000);
                                                    ("feeds", JArr [])]])]])])
                   "@a:h" false
                ∈ drop (length (trace gc_a_with_DX))
                    (trace (addDeviceToMemberState 0 0 gc_a_with_DX).2)).
  { vm_compute. left. }
  specialize (H Hin). clear Hin.
  assert (Hd : advertisement "DX" "sx" 1000
               ∈ writtenDevices (groupCallId gc_a_with_DX)
                   (SendStateEvent "!r" EventType.GroupCallMemberPrefix
                   (JObj [("m.calls",
                           JArr [JObj [("m.call_id", JStr "G");
                                       ("m.devices",
                                        JArr [advertisement "DX" "sx" 1000;
                                              JObj [("device_id", JStr "DA");
                                                    ("session_id", JStr "sa");
                                                    ("expires_ts", JNum 3600000);
                                                    ("feeds", JArr [])]])]])])
                   "@a:h" false)).
  { vm_compute. left. }
  specialize (H Hd). vm_compute in H. discriminate H.
Qed.

Lemma myDeviceMap_lookup (myDevices : list IMyDevice) (device_id : string) :
  myDeviceMap myDevices !! device_id = listedDevice myDevices device_id.
Proof.
  unfold myDeviceMap, listedDevice.
  induction myDevices as [|m rest IH] using rev_ind; [done|].
  rewrite foldl_app, List.filter_app. simpl.
  destruct (String.eqb_spec (my_device_id m) device_id) as [<-|Hne].
  - by rewrite lookup_insert_eq, last_snoc.
  - by rewrite lookup_insert_ne, app_nil_r.
Qed.

Lemma keepsDevice_survivesCleaning gc myDevices d :
  keepsDevice gc (myDeviceMap myDevices) d = survivesCleaning gc myDevices d.
Proof.
  unfold keepsDevice, survivesCleaning, isUnenteredLocalDevice, considersEntered.
  f_equal.
  - destruct (field d "device_id") as [[]|]; try done. by rewrite myDeviceMap_lookup.
  - f_equal. rewrite <- andb_assoc. f_equal. by rewrite negb_orb.
Qed.

Lemma filter_removes {A} (p : A → bool) (xs : list A) :
  List.filter p xs ≠ xs ↔ ∃ x, x ∈ xs ∧ p x = false.
Proof.
  induction xs as [|x rest IH]; simpl.
  - split; [done|]. intros (x & Hx & _). by apply elem_of_nil in Hx.
  - destruct (p x) eqn:E.
    + split.
      * intros Hne. destruct (proj1 IH) as (x' & Hx' & E'); [congruence|].
        exists x'. split; [by right|done].
      * intros (x' & Hx' & E') Heq. apply elem_of_cons in Hx'.
        destruct Hx' as [->|Hx']; [congruence|].
        apply (proj2 IH); [eauto|congruence].
    + split; [intros _; exists x; split; [left|done]|].
      intros _ Heq. pose proof (List.filter_length_le p rest).
      apply (f_equal length) in Heq. simpl in Heq. lia.
Qed.

(** C7, as the code has it.  The member state is read when it holds no
    [null].  With [devices] the stored devices of this call that are still
    valid, which is the list the filter of [cleanMemberState] receives, and
    [kept] those of them that the identity service lists with a
    [last_seen_ts], the local device excepted while it is not considered
    entered: the run returns; it writes nothing, and changes nothing, iff
    [kept] is all of [devices]; and it writes one state event iff some device
    is not kept, namely the member state with [kept] as the devices of this
    call, or without this call when [kept] is empty. *)
Theorem cleanMemberState_writes_iff_filter_removes gc myDevices now :
  ((∀ content,
      Room.memberStateEvents (room gc) !! MatrixClient.getUserId (client gc) = Some content →
      nullFree (JObj content) = true) →
   ∃ call otherCalls devices, readMemberState gc now = Ok (call, otherCalls, devices))
  ∧ ∀ call otherCalls devices,
  readMemberState gc now = Ok (call, otherCalls, devices) →
  let kept := List.filter (survivesCleaning gc myDevices) devices in
  ∃ gc', cleanMemberState myDevices now gc = (Ok tt, gc')
         ∧ (noWrite gc gc' ↔ kept = devices)
         ∧ (oneWrite gc gc' ↔ kept ≠ devices)
         ∧ (kept ≠ devices ↔ ∃ d, d ∈ devices ∧ survivesCleaning gc myDevices d = false)
         ∧ (kept = devices → gc' = gc)
         ∧ (kept ≠ devices →
            gc' = set_trace
                    (trace gc ++
                     [SendStateEvent (Room.roomId (room gc)) EventType.GroupCallMemberPrefix
                        (JObj [("m.calls",
                                JArr (otherCalls ++
                                      if bool_decide (0 < length kept)%nat
                                      then [JObj (obj_set "m.devices" (JArr kept)
                                                    (obj_set "m.call_id"
                                                       (JStr (groupCallId gc))
                                                       (ownProperties call)))]
                                      else []))])
                        (MatrixClient.getUserId (client gc)) false]) gc).
Proof.
  split; [apply readMemberState_returns|]. intros call otherCalls devices Hread kept.
  unfold cleanMemberState.
  rewrite (bind_ok this _ gc gc gc eq_refl).
  rewrite (updateDevices_run _ _ _ _ _ _ _ Hread). unfold withoutUnknownDevices.
  rewrite (List.filter_ext _ _ (keepsDevice_survivesCleaning gc myDevices)).
  fold kept.
  destruct (bool_decide (length kept = length devices)) eqn:E.
  - apply bool_decide_eq_true in E. apply filter_length_eq in E.
    exists gc. split; [done|]. split; [done|]. split; [|split; [|done]].
    + split; [|done]. intros (content & keepAlive & Ht).
      apply (f_equal length) in Ht. rewrite length_app in Ht. simpl in Ht. lia.
    + split; [done|]. intros H. exfalso. apply (proj2 (filter_removes _ _) H E).
  - apply bool_decide_eq_false in E.
    assert (Hne : kept ≠ devices) by (by intros Heq; apply E; rewrite Heq).
    eexists. split; [reflexivity|]. split; [|split; [|split; [|split; [done|done]]]].
    + split; [|done]. unfold noWrite. simpl. intros Ht.
      apply (f_equal length) in Ht. rewrite length_app in Ht. simpl in Ht. lia.
    + split; [done|]. intros _. unfold oneWrite. simpl. eauto.
    + split; [|done]. intros _. by apply filter_removes.
Qed.

Lemma cleanMemberState_writes_iff_filter_removes_witness :
  cleanMemberState [mkIMyDevice "DA" (Some 5%Z); mkIMyDevice "DX" None] 0 gc_a_with_DX
  = (Ok tt,
     set_trace
       (trace gc_a_with_DX ++
        [SendStateEvent "!r" EventType.GroupCallMemberPrefix
           (JObj [("m.calls", JArr [])]) "@a:h" false]) gc_a_with_DX).
Proof.
  destruct (proj2 (cleanMemberState_writes_iff_filter_removes gc_a_with_DX
                     [mkIMyDevice "DA" (Some 5%Z); mkIMyDevice "DX" None] 0)
              _ _ _ gc_a_with_DX_read)
    as (gc' & E & _ & _ & _ & _ & Hw).
  rewrite E. f_equal. apply Hw. vm_compute. discriminate.
Defined.

(** C7 as stated fails for a device that the identity service lists without
    a [last_seen_ts]: the filter of the claim keeps the advertisement of [DX],
    so that nothing should be written, and the code removes it and writes the
    member state. *)
Lemma listed_device_never_seen_is_removed :
  ¬ cleanMemberStateRule gc_a_with_DX
      [mkIMyDevice "DA" (Some 5%Z); mkIMyDevice "DX" None] 0.
Proof.
  intros H. destruct (H _ _ _ gc_a_with_DX_read) as [Hno _].
  assert (Ht : noWrite gc_a_with_DX
                 (cleanMemberState [mkIMyDevice "DA" (Some 5%Z); mkIMyDevice "DX" None] 0
                    gc_a_with_DX).2).
  { apply Hno. vm_compute. reflexivity. }
  vm_compute in Ht. discriminate Ht.
Qed.

(** ** What the passes over the call graph leave alone *)

Lemma disposeCall_frames_participants c r : frames participants (disposeCall c r).
Proof. solve_frames. Qed.

Lemma initCall_frames_participants c : frames participants (initCall c).
Proof. solve_frames. Qed.

Lemma placeOutgoingCalls_frames_participants : frames participants placeOutgoingCalls.
Proof.
  unfold placeOutgoingCalls.
  solve_frames; first [apply initCall_frames_participants
                      |apply disposeCall_frames_participants].
Qed.

Lemma disposeCall_frames_retryCallCounts c r : frames retryCallCounts (disposeCall c r).
Proof. solve_frames. Qed.

Lemma initCall_frames_retryCallCounts c : frames retryCallCounts (initCall c).
Proof. solve_frames. Qed.

Lemma placeOutgoingCalls_frames_retryCallCounts : frames retryCallCounts placeOutgoingCalls.
Proof.
  unfold placeOutgoingCalls.
  solve_frames; first [apply initCall_frames_retryCallCounts
                      |apply disposeCall_frames_retryCallCounts].
Qed.

(** ** Participant view *)

Lemma validDevice_Some now d dev :
  validDevice now d = Ok (Some dev) ↔
  prop d "device_id" = Ok (Some (JStr (device_id dev)))
  ∧ prop d "session_id" = Ok (Some (JStr (session_id dev)))
  ∧ prop d "expires_ts" = Ok (Some (JNum (expires_ts dev)))
  ∧ (now < expires_ts dev)%Z
  ∧ prop d "feeds" = Ok (Some (JArr (feeds dev))).
Proof.
  split.
  - unfold validDevice.
    destruct (prop d "device_id") as [[[]|]|]; simpl; try done;
      destruct (prop d "session_id") as [[[]|]|]; simpl; try done;
      destruct (prop d "expires_ts") as [[[]|]|]; simpl; try done;
      destruct (prop d "feeds") as [[[]|]|]; simpl; try done.
    destruct (now <? n)%Z eqn:E; [|done].
    intros [= <-]. simpl. apply Z.ltb_lt in E. done.
  - intros (H1 & H2 & H3 & H4 & H5). unfold validDevice.
    rewrite H1, H2, H3, H5. simpl.
    rewrite (proj2 (Z.ltb_lt _ _) H4). by destruct dev.
Qed.

Lemma validDevice_advertisement now d dev :
  validDevice now d = Ok (Some dev) →
  isValidAdvertisement now d (device_id dev) (session_id dev).
Proof.
  intros (H1 & H2 & H3 & H4 & H5)%validDevice_Some.
  repeat split; eauto.
Qed.

Lemma advertisement_validDevice now d deviceId sessionId :
  isValidAdvertisement now d deviceId sessionId →
  ∃ dev, validDevice now d = Ok (Some dev)
         ∧ device_id dev = deviceId ∧ session_id dev = sessionId.
Proof.
  intros (H1 & H2 & (ts & H3 & H4) & (fs & H5)).
  exists (mkDevice deviceId sessionId ts fs). split; [|done].
  by apply validDevice_Some.
Qed.

Lemma filter_as_res_elem {A B} (f : A → Res (option B)) (xs : list A) (ys : list B) :
  filter_as_res f xs = Ok ys →
  ∀ y, y ∈ ys ↔ ∃ x, x ∈ xs ∧ f x = Ok (Some y).
Proof.
  revert ys. induction xs as [|x xs IH]; intros ys; simpl.
  - intros [= <-] y. split; [by intros ?%elem_of_nil|].
    by intros (x & ?%elem_of_nil & _).
  - destruct (f x) as [o|e] eqn:E; simpl; [|done].
    destruct (filter_as_res f xs) as [ys'|e]; simpl; [|done].
    intros [= <-] y. specialize (IH ys' eq_refl y).
    destruct o as [y'|].
    + rewrite elem_of_cons, IH. split.
      * intros [->|(x' & Hx' & E')]; [exists x; split; [left|done]|].
        exists x'. split; [by right|done].
      * intros (x' & [->|Hx']%elem_of_cons & E').
        -- left. congruence.
        -- right. eauto.
    + rewrite IH. split.
      * intros (x' & Hx' & E'). exists x'. split; [by right|done].
      * intros (x' & [->|Hx']%elem_of_cons & E'); [congruence|eauto].
Qed.

Lemma suppresses_true gc stateKey :
  suppresses gc stateKey = true ↔
  considersEntered gc = false
  ∧ stateKey = MatrixClient.getUserId (client gc)
  ∧ is_Some (Room.memberships (room gc) !! stateKey).
Proof.
  unfold suppresses, Room.getMember.
  rewrite andb_true_iff, negb_true_iff, bool_decide_eq_true.
  destruct (Room.memberships (room gc) !! stateKey) as [ms|]; simpl.
  - split.
    + intros [? [= ->]]. eauto.
    + intros (? & -> & _). done.
  - split; [by intros [_ ?]|]. by intros (_ & _ & [? ?]).
Qed.

Lemma remainingDevices_elem gc now stateKey content validDevices :
  remainingDevices gc now stateKey content = Ok validDevices →
  ∃ devices,
    advertisedDevices (groupCallId gc) content = Ok devices
    ∧ ∀ dev, dev ∈ validDevices ↔
             (∃ d, d ∈ devices ∧ validDevice now d = Ok (Some dev))
             ∧ ¬ (suppresses gc stateKey = true
                  ∧ device_id dev = MatrixClient.getDeviceId (client gc)).
Proof.
  unfold remainingDevices.
  destruct (advertisedDevices (groupCallId gc) content) as [devices|e]; simpl; [|done].
  destruct (filter_as_res (validDevice now) devices) as [vds|e] eqn:E; simpl; [|done].
  intros [= <-]. exists devices. split; [done|]. intros dev.
  pose proof (filter_as_res_elem _ _ _ E dev) as Hel.
  destruct (suppresses gc stateKey).
  - rewrite list_elem_of_In, List.filter_In, <- list_elem_of_In, Hel.
    rewrite negb_true_iff. split.
    + intros [H Hne]. split; [done|]. intros [_ Heq].
      apply String.eqb_neq in Hne. done.
    + intros [H Hne]. split; [done|]. apply String.eqb_neq. intros Heq. by apply Hne.
  - rewrite Hel. split; [|by intros [? _]]. intros H. split; [done|]. by intros [? _].
Qed.

Lemma deviceMapOf_lookup validDevices m0 ne0 dm ne :
  deviceMapOf validDevices (m0, ne0) = Ok (dm, ne) →
  (∀ d ps, dm !! d = Some ps →
           m0 !! d = Some ps
           ∨ ∃ dev, dev ∈ validDevices ∧ device_id dev = d ∧ session_id dev = sessionId ps)
  ∧ (∀ d, is_Some (m0 !! d) → is_Some (dm !! d))
  ∧ (∀ dev, dev ∈ validDevices → is_Some (dm !! device_id dev)).
Proof.
  revert m0 ne0. induction validDevices as [|dev rest IH]; intros m0 ne0; simpl.
  - intros [= <- <-]. split; [eauto|]. split; [done|]. by intros ? ?%elem_of_nil.
  - destruct (some_res isScreenshareFeed (feeds dev)) as [b|e]; simpl; [|done].
    intros H. destruct (IH _ _ H) as (IH1 & IH2 & IH3). split; [|split].
    + intros d ps Hd. destruct (IH1 d ps Hd) as [Hm|(dev' & Hin & <- & Hs)].
      * destruct (decide (device_id dev = d)) as [<-|Hne].
        -- rewrite lookup_insert_eq in Hm. injection Hm as <-.
           right. exists dev. split; [left|done].
        -- rewrite lookup_insert_ne in Hm by done. by left.
      * right. exists dev'. split; [by right|done].
    + intros d Hd. apply IH2.
      destruct (decide (device_id dev = d)) as [<-|Hne].
      * rewrite lookup_insert_eq. eauto.
      * by rewrite lookup_insert_ne.
    + intros dev' [->|Hin]%elem_of_cons; [|by apply IH3].
      apply IH2. rewrite lookup_insert_eq. eauto.
Qed.

(** The entries that the loop over the events leaves in the view, for events
    with distinct state keys. *)
Lemma participantsOfEvents_lookup gc now events acc view ne :
  NoDup events.*1 →
  participantsOfEvents gc now events acc = Ok (view, ne) →
  ∀ userId,
    (userId ∉ events.*1 → view !! userId = acc.1 !! userId)
    ∧ (∀ content, (userId, content) ∈ events →
         ∃ validDevices,
           remainingDevices gc now userId content = Ok validDevices
           ∧ ((validDevices ≠ [] ∧ isJoined gc userId
               ∧ ∃ dm ne0 ne', deviceMapOf validDevices (∅, ne0) = Ok (dm, ne')
                               ∧ view !! userId = Some dm)
              ∨ (¬ (validDevices ≠ [] ∧ isJoined gc userId)
                 ∧ view !! userId = acc.1 !! userId))).
Proof.
  revert acc. induction events as [|[k content] rest IH]; intros acc Hnd; simpl.
  - intros [= ->] userId. split; [done|]. by intros ? ?%elem_of_nil.
  - apply NoDup_cons in Hnd. destruct Hnd as [Hk Hnd].
    unfold participantsOfEvent at 1. simpl.
    destruct (remainingDevices gc now k content) as [vds|e] eqn:Er; simpl; [|done].
    assert (Hjoin : bool_decide (RoomMember.membership <$> Room.getMember (room gc) k
                                 = Some "join") = true ↔ isJoined gc k).
    { rewrite bool_decide_eq_true. unfold Room.getMember, isJoined.
      destruct (Room.memberships (room gc) !! k); simpl; split; congruence. }
    assert (Hlen : bool_decide (0 < length vds)%nat = true ↔ vds ≠ []).
    { rewrite bool_decide_eq_true. destruct vds; simpl; split; try done; lia. }
    destruct (bool_decide (0 < length vds)%nat
              && bool_decide (RoomMember.membership <$> Room.getMember (room gc) k
                              = Some "join")) eqn:Econd.
    + apply andb_true_iff in Econd. destruct Econd as [H1%Hlen H2%Hjoin].
      destruct (deviceMapOf vds (∅, acc.2)) as [[dm ne1]|e] eqn:Ed; simpl; [|done].
      intros H userId. destruct (IH _ Hnd H userId) as [IHa IHb]. split.
      * intros Hnotin. apply not_elem_of_cons in Hnotin. destruct Hnotin as [Hne Hnotin].
        rewrite (IHa Hnotin). simpl. by rewrite lookup_insert_ne.
      * intros content' [[= -> ->]|Hin]%elem_of_cons.
        -- exists vds. split; [done|]. left. split; [done|]. split; [done|].
           exists dm, acc.2, ne1. split; [done|].
           rewrite (IHa Hk). simpl. by rewrite lookup_insert_eq.
        -- destruct (IHb content' Hin) as (vds' & Er' & Hcase).
           exists vds'. split; [done|].
           destruct Hcase as [?|[Hn Hv]]; [by left|]. right. split; [done|].
           rewrite Hv. simpl. rewrite lookup_insert_ne; [done|].
           intros ->. apply Hk. apply list_elem_of_fmap. by exists (userId, content').
    + intros H userId. destruct (IH _ Hnd H userId) as [IHa IHb]. split.
      * intros Hnotin. apply not_elem_of_cons in Hnotin. destruct Hnotin as [Hne Hnotin].
        by apply IHa.
      * intros content' [[= -> ->]|Hin]%elem_of_cons.
        -- exists vds. split; [done|]. right. split.
           ++ intros [H1%Hlen H2%Hjoin]. by rewrite H1, H2 in Econd.
           ++ by apply IHa.
        -- by apply IHb.
Qed.

Lemma not_in_map_keys {V} (m : gmap string V) (k : string) :
  m !! k = None → k ∉ (map_to_list m).*1.
Proof.
  intros Hnone ([k' v] & -> & Hin%elem_of_map_to_list)%list_elem_of_fmap.
  simpl in Hnone. congruence.
Qed.

Lemma suppressed_suppresses gc userId deviceId :
  isJoined gc userId →
  suppressed gc userId deviceId ↔
  suppresses gc userId = true ∧ deviceId = MatrixClient.getDeviceId (client gc).
Proof.
  unfold suppressed, isJoined. intros Hj. rewrite suppresses_true, Hj. split.
  - intros (? & ? & ?). eauto.
  - intros ((? & ? & _) & ?). eauto.
Qed.

(** The view when the loop over the events is done, before local echo. *)
Lemma events_view gc now v0 ne :
  participantsOfEvents gc now (map_to_list (Room.memberStateEvents (room gc))) (∅, None)
  = Ok (v0, ne) →
  (∀ userId deviceId ps,
     v0 !! userId ≫= (.!! deviceId) = Some ps →
     advertises gc now userId deviceId (sessionId ps)
     ∧ ¬ suppressed gc userId deviceId ∧ isJoined gc userId)
  ∧ (∀ userId,
       is_Some (v0 !! userId) ↔
       (∃ deviceId sessionId,
          advertises gc now userId deviceId sessionId ∧ ¬ suppressed gc userId deviceId)
       ∧ isJoined gc userId)
  ∧ (∀ userId deviceId sessionId,
       advertises gc now userId deviceId sessionId →
       ¬ suppressed gc userId deviceId →
       isJoined gc userId →
       is_Some (v0 !! userId ≫= (.!! deviceId))).
Proof.
  intros H.
  pose proof (participantsOfEvents_lookup _ _ _ _ _ _
                (NoDup_fst_map_to_list (Room.memberStateEvents (room gc))) H) as Hl.
  assert (Hentry : ∀ userId dm,
    v0 !! userId = Some dm →
    ∃ content validDevices ne0 ne',
      Room.memberStateEvents (room gc) !! userId = Some content
      ∧ remainingDevices gc now userId content = Ok validDevices
      ∧ validDevices ≠ [] ∧ isJoined gc userId
      ∧ deviceMapOf validDevices (∅, ne0) = Ok (dm, ne')).
  { intros userId dm Hv. destruct (Hl userId) as [Ha Hb].
    destruct (Room.memberStateEvents (room gc) !! userId) as [content|] eqn:Ee.
    - destruct (Hb content) as (vds & Er & [(Hne & Hj & dm' & ne0 & ne' & Ed & Hv')|[_ Hv']]).
      + by apply elem_of_map_to_list.
      + rewrite Hv in Hv'. injection Hv' as <-. by exists content, vds, ne0, ne'.
      + rewrite Hv in Hv'. simpl in Hv'. by rewrite lookup_empty in Hv'.
    - rewrite (Ha (not_in_map_keys _ _ Ee)) in Hv. simpl in Hv.
      by rewrite lookup_empty in Hv. }
  assert (Hdev : ∀ userId content validDevices dev,
    Room.memberStateEvents (room gc) !! userId = Some content →
    remainingDevices gc now userId content = Ok validDevices →
    isJoined gc userId →
    dev ∈ validDevices →
    advertises gc now userId (device_id dev) (session_id dev)
    ∧ ¬ suppressed gc userId (device_id dev)).
  { intros userId content vds dev Ee Er Hj Hin.
    destruct (remainingDevices_elem _ _ _ _ _ Er) as (devices & Ea & Hel).
    apply Hel in Hin. destruct Hin as [(d & Hd & Hvalid) Hns]. split.
    - exists content, devices, d. split; [done|]. split; [done|]. split; [done|].
      by apply validDevice_advertisement.
    - intros Hs. apply Hns. by apply suppressed_suppresses. }
  assert (Hkept : ∀ userId deviceId sessionId,
    advertises gc now userId deviceId sessionId →
    ¬ suppressed gc userId deviceId →
    isJoined gc userId →
    ∃ dm, v0 !! userId = Some dm ∧ is_Some (dm !! deviceId)).
  { intros userId deviceId sid (content & devices & d & Ee & Ea & Hd & Hvalid) Hns Hj.
    destruct (Hl userId) as [_ Hb].
    destruct (Hb content) as (vds & Er & Hcase); [by apply elem_of_map_to_list|].
    destruct (remainingDevices_elem _ _ _ _ _ Er) as (devices' & Ea' & Hel).
    rewrite Ea in Ea'. injection Ea' as <-.
    destruct (advertisement_validDevice _ _ _ _ Hvalid) as (dev & Hdev' & Hid & _).
    assert (Hin : dev ∈ vds).
    { apply Hel. split; [by exists d|]. rewrite Hid.
      intros Hs. apply Hns. by apply suppressed_suppresses. }
    destruct Hcase as [(_ & _ & dm & ne0 & ne' & Ed & Hv)|[Hn _]].
    - exists dm. split; [done|]. rewrite <- Hid.
      by apply (deviceMapOf_lookup _ _ _ _ _ Ed).
    - destruct Hn. split; [|done]. intros ->. by apply elem_of_nil in Hin. }
  split; [|split].
  - intros userId deviceId ps Hv.
    destruct (v0 !! userId) as [dm|] eqn:Ev; [|done]. simpl in Hv.
    destruct (Hentry _ _ Ev) as (content & vds & ne0 & ne' & Ee & Er & Hne & Hj & Ed).
    destruct (deviceMapOf_lookup _ _ _ _ _ Ed) as (Hd1 & _ & _).
    destruct (Hd1 _ _ Hv) as [Hempty|(dev & Hin & <- & <-)].
    { by rewrite lookup_empty in Hempty. }
    destruct (Hdev _ _ _ _ Ee Er Hj Hin). done.
  - intros userId. split.
    + intros [dm Ev].
      destruct (Hentry _ _ Ev) as (content & vds & ne0 & ne' & Ee & Er & Hne & Hj & Ed).
      split; [|done]. destruct vds as [|dev rest]; [done|].
      exists (device_id dev), (session_id dev). eapply Hdev; eauto. left.
    + intros [(deviceId & sid & Hadv & Hns) Hj].
      destruct (Hkept _ _ _ Hadv Hns Hj) as (dm & Hv & _). by exists dm.
  - intros userId deviceId sid Hadv Hns Hj.
    destruct (Hkept _ _ _ Hadv Hns Hj) as (dm & -> & Hd). done.
Qed.

Lemma bind_frames_snd {A B X} (obs : GroupCall → X) (m : M A) (k : A → M B) gc :
  (∀ a, frames obs (k a)) → obs (bind m k gc).2 = obs (m gc).2.
Proof.
  intros Hk. unfold bind. destruct (m gc) as [[a|e] gc']; simpl; [|done]. apply Hk.
Qed.

Lemma setter_participants_spec value gc :
  participants (setter_participants value gc).2 = value.
Proof.
  unfold setter_participants. rewrite (bind_ok this _ gc gc gc eq_refl).
  destruct (bool_decide (value = participants gc)) eqn:E; simpl.
  - by apply bool_decide_eq_true in E.
  - rewrite (bind_ok (modify (set_participants value)) _ gc tt
               (set_participants value gc) eq_refl).
    rewrite bind_frames_snd.
    + unfold emit. by rewrite perform_run.
    + intros _. unfold onParticipantsChanged.
      apply frames_bind; [apply frames_this|]. intros gc'.
      apply frames_when, placeOutgoingCalls_frames_participants.
Qed.

Lemma participantsOfEvents_timer gc now t events acc :
  participantsOfEvents (set_participantsExpirationTimer t gc) now events acc
  = participantsOfEvents gc now events acc.
Proof.
  revert acc. induction events as [|e rest IH]; intros acc; simpl; [done|].
  change (participantsOfEvent (set_participantsExpirationTimer t gc) now acc e)
    with (participantsOfEvent gc now acc e).
  destruct (participantsOfEvent gc now acc e); simpl; [apply IH|done].
Qed.

Lemma collectParticipants_timer gc now t :
  collectParticipants (set_participantsExpirationTimer t gc) now
  = collectParticipants gc now.
Proof.
  unfold collectParticipants.
  change (room (set_participantsExpirationTimer t gc)) with (room gc).
  by rewrite participantsOfEvents_timer.
Qed.

Lemma updateParticipants_participants gc now :
  (state gc = GroupCallState.Ended → participants (updateParticipants now gc).2 = ∅)
  ∧ (∀ view ne,
       state gc ≠ GroupCallState.Ended →
       collectParticipants gc now = Ok (view, ne) →
       participants (updateParticipants now gc).2 = view).
Proof.
  unfold updateParticipants.
  rewrite (bind_ok (modify (set_participantsExpirationTimer None)) _ gc tt
             (set_participantsExpirationTimer None gc) eq_refl).
  rewrite (bind_ok this _ _ _ _ eq_refl).
  change (state (set_participantsExpirationTimer None gc)) with (state gc).
  split.
  - intros ->. rewrite bool_decide_true by done. apply setter_participants_spec.
  - intros view ne Hs Hc. rewrite bool_decide_false by done.
    unfold lift at 1. rewrite collectParticipants_timer, Hc.
    rewrite (bind_ok _ _ _ (view, ne) (set_participantsExpirationTimer None gc) eq_refl).
    rewrite bind_frames_snd; [apply setter_participants_spec|].
    intros _. simpl. destruct ne; solve_frames.
Qed.

Lemma remainingDevices_returns gc now stateKey content :
  nullFree (JObj content) = true →
  ∃ validDevices,
    remainingDevices gc now stateKey content = Ok validDevices
    ∧ Forall (λ dev, Forall (λ f, nullFree f = true) (feeds dev)) validDevices.
Proof.
  intros Hc. unfold remainingDevices.
  destruct (advertisedDevices_returns (groupCallId gc) content Hc) as (devices & -> & Hd).
  simpl.
  destruct (filter_as_res_returns (validDevice now) devices) as [vds Hv].
  { eapply Forall_impl; [exact Hd|]. intros d Hn.
    destruct (validDevice_returns now d Hn) as (o & ? & _). by exists o. }
  rewrite Hv. simpl.
  assert (Hfeeds : Forall (λ dev, Forall (λ f, nullFree f = true) (feeds dev)) vds).
  { apply Forall_forall. intros dev Hin.
    apply (filter_as_res_elem _ _ _ Hv) in Hin. destruct Hin as (d & Hin & Hdev).
    rewrite Forall_forall in Hd.
    destruct (validDevice_returns now d (Hd d Hin)) as (o & Ho & Hf).
    apply Hf. congruence. }
  eexists. split; [reflexivity|]. destruct (suppresses gc stateKey); [|done].
  apply Forall_forall. intros dev Hin.
  apply list_elem_of_In, List.filter_In in Hin. destruct Hin as [Hin _].
  rewrite Forall_forall in Hfeeds. by apply Hfeeds, list_elem_of_In.
Qed.

Lemma deviceMapOf_returns validDevices acc :
  Forall (λ dev, Forall (λ f, nullFree f = true) (feeds dev)) validDevices →
  ∃ r, deviceMapOf validDevices acc = Ok r.
Proof.
  intros H. revert acc. induction H as [|dev rest Hdev _ IH]; intros acc; simpl.
  - by eexists.
  - destruct (some_res_returns isScreenshareFeed (feeds dev)) as [b ->].
    { eapply Forall_impl; [exact Hdev|]. intros f Hn. unfold isScreenshareFeed.
      rewrite nullFree_prop by done. by eexists. }
    simpl. apply IH.
Qed.

Lemma participantsOfEvents_returns gc now events acc :
  Forall (λ e : string * list (string * json), nullFree (JObj e.2) = true) events →
  ∃ r, participantsOfEvents gc now events acc = Ok r.
Proof.
  intros H. revert acc. induction H as [|[k content] rest Hc _ IH]; intros acc; simpl.
  - by eexists.
  - unfold participantsOfEvent at 1. simpl.
    destruct (remainingDevices_returns gc now k content Hc) as (vds & -> & Hf). simpl.
    destruct (_ && _); [|apply IH].
    destruct (deviceMapOf_returns vds (∅, acc.2) Hf) as [r ->]. simpl. apply IH.
Qed.

Lemma collectParticipants_returns gc now :
  wellFormedRoomState gc → ∃ view ne, collectParticipants gc now = Ok (view, ne).
Proof.
  intros [Hnull Hmember]. unfold collectParticipants.
  destruct (participantsOfEvents_returns gc now
              (map_to_list (Room.memberStateEvents (room gc))) (∅, None)) as [[v0 ne] ->].
  { apply Forall_forall. intros [k content] Hin%elem_of_map_to_list. by apply (Hnull k). }
  simpl. destruct (considersEntered gc); [|by eexists _, _].
  destruct (Hmember eq_refl) as [ms Hms]. unfold Room.getMember. rewrite Hms. simpl.
  by eexists _, _.
Qed.

Lemma getMember_userId gc userId member :
  Room.getMember (room gc) userId = Some member → RoomMember.userId member = userId.
Proof.
  unfold Room.getMember. destruct (Room.memberships (room gc) !! userId); [|done].
  by intros [= <-].
Qed.

(** The view that [collectParticipants] returns, in terms of the view [v0]
    that the loop over the events leaves. *)
Lemma collectParticipants_view gc now view ne :
  collectParticipants gc now = Ok (view, ne) →
  ∃ v0,
    participantsOfEvents gc now (map_to_list (Room.memberStateEvents (room gc))) (∅, None)
    = Ok (v0, ne)
    ∧ ((considersEntered gc = false ∧ view = v0)
       ∨ (considersEntered gc = true
          ∧ view = <[MatrixClient.getUserId (client gc) :=
                       let dm := default ∅ (v0 !! MatrixClient.getUserId (client gc)) in
                       if bool_decide (is_Some (dm !! MatrixClient.getDeviceId (client gc)))
                       then dm
                       else <[MatrixClient.getDeviceId (client gc) := localEcho gc]> dm]>
                     v0)).
Proof.
  unfold collectParticipants.
  destruct (participantsOfEvents gc now _ (∅, None)) as [[v0 ne0]|e]; simpl; [|done].
  destruct (considersEntered gc).
  - destruct (Room.getMember (room gc) (MatrixClient.getUserId (client gc)))
      as [localMember|] eqn:Em; [|done].
    rewrite (getMember_userId _ _ _ Em). intros [= <- <-].
    exists v0. split; [done|]. right. done.
  - intros [= <- <-]. exists v0. split; [done|]. by left.
Qed.

(** C3, as the code has it.  A view is computed when the member-state events
    hold no [null].  In state [Ended] the view is empty.  Otherwise
    every device entry of the view, the local-echo entry of an entered local
    device apart, is a valid advertisement of a joined member: string
    [device_id] and [session_id], numeric [expires_ts] later than now, array
    [feeds].  A member other than the local member of an entered device is an
    outer key iff a valid device of it remains after filtering (local-echo
    suppression included) and it is joined; the local member of an entered
    device is always an outer key. *)
Theorem participant_view_of_valid_devices gc now :
  (wellFormedRoomState gc →
   ∃ view nextExpiration, collectParticipants gc now = Ok (view, nextExpiration))
  ∧ ∀ view nextExpiration,
  collectParticipants gc now = Ok (view, nextExpiration) →
  (state gc = GroupCallState.Ended → participants (updateParticipants now gc).2 = ∅)
  ∧ (state gc ≠ GroupCallState.Ended → participants (updateParticipants now gc).2 = view)
  ∧ (∀ userId deviceId ps,
       view !! userId ≫= (.!! deviceId) = Some ps →
       (considersEntered gc = true ∧ (userId, deviceId) = localIds gc)
       ∨ (advertises gc now userId deviceId (sessionId ps) ∧ isJoined gc userId))
  ∧ (∀ userId,
       ¬ (considersEntered gc = true ∧ userId = MatrixClient.getUserId (client gc)) →
       is_Some (view !! userId) ↔
       (∃ deviceId sessionId,
          advertises gc now userId deviceId sessionId ∧ ¬ suppressed gc userId deviceId)
       ∧ isJoined gc userId)
  ∧ (considersEntered gc = true → is_Some (view !! MatrixClient.getUserId (client gc))).
Proof.
  split; [apply collectParticipants_returns|]. intros view nextExpiration Hc.
  destruct (updateParticipants_participants gc now) as [Hended Hview].
  split; [done|]. split; [eauto|].
  destruct (collectParticipants_view _ _ _ _ Hc) as (v0 & Hv0 & Hcase).
  destruct (events_view _ _ _ _ Hv0) as (E1 & E2 & _).
  destruct Hcase as [[Hent ->]|[Hent ->]].
  - split; [|split].
    + intros userId deviceId ps Hv. right.
      destruct (E1 _ _ _ Hv) as (? & _ & ?). done.
    + intros userId _. apply E2.
    + congruence.
  - set (localUserId := MatrixClient.getUserId (client gc)) in *.
    set (localDeviceId := MatrixClient.getDeviceId (client gc)) in *.
    split; [|split].
    + intros userId deviceId ps.
      destruct (decide (userId = localUserId)) as [->|Hu].
      * rewrite lookup_insert_eq. simpl.
        destruct (decide (deviceId = localDeviceId)) as [->|Hd]; [by left; split|].
        intros Hv. right.
        assert (Hv' : default ∅ (v0 !! localUserId) !! deviceId = Some ps).
        { destruct (bool_decide _) in Hv; [done|]. by rewrite lookup_insert_ne in Hv. }
        destruct (v0 !! localUserId) as [dm|] eqn:E0; simpl in Hv'.
        -- destruct (E1 localUserId deviceId ps) as (? & _ & ?); [by rewrite E0|done].
        -- by rewrite lookup_empty in Hv'.
      * rewrite lookup_insert_ne by done. intros Hv. right.
        destruct (E1 _ _ _ Hv) as (? & _ & ?). done.
    + intros userId Hn. rewrite lookup_insert_ne; [apply E2|].
      intros <-. by apply Hn.
    + intros _. rewrite lookup_insert_eq. eauto.
Qed.

Lemma gc_a_entered_collect :
  collectParticipants gc_a_entered 0
  = Ok ({[ "@a:h" := {[ "DA" := mkParticipantState "sa" false ]};
           "@b:h" := {[ "DB" := mkParticipantState "s1" false ]} ]}, Some 3600000%Z).
Proof. vm_compute. reflexivity. Qed.

Lemma participant_view_of_valid_devices_witness :
  participants (updateParticipants 0 gc_a_entered).2
  = {[ "@a:h" := {[ "DA" := mkParticipantState "sa" false ]};
       "@b:h" := {[ "DB" := mkParticipantState "s1" false ]} ]}.
Proof.
  apply (proj1 (proj2 (proj2 (participant_view_of_valid_devices gc_a_entered 0) _ _
                         gc_a_entered_collect))).
  vm_compute. discriminate.
Defined.

(** C3 as stated fails for an entered device: the view holds the local-echo
    entry of [(@a:h, DA)] although [@a:h] has no member-state event. *)
Lemma local_echo_is_no_advertisement :
  ¬ viewOfValidDevices gc_a_entered 0 (participants (updateParticipants 0 gc_a_entered).2).
Proof.
  intros [H _].
  destruct (H "@a:h" "DA" (mkParticipantState "sa" false)) as (sid & content & ? & ? & Ee & _).
  - vm_compute. reflexivity.
  - vm_compute in Ee. discriminate Ee.
Qed.

(** The entry of a device id in the device map of a member is the entry of
    the last device with this id. *)
Lemma deviceMapOf_last validDevices m0 ne0 dm ne :
  deviceMapOf validDevices (m0, ne0) = Ok (dm, ne) →
  ∀ d ps, dm !! d = Some ps →
    (m0 !! d = Some ps ∧ Forall (λ dev', device_id dev' ≠ d) validDevices)
    ∨ ∃ before dev after,
        validDevices = before ++ dev :: after
        ∧ device_id dev = d
        ∧ Forall (λ dev', device_id dev' ≠ d) after
        ∧ session_id dev = sessionId ps
        ∧ some_res isScreenshareFeed (feeds dev) = Ok (screensharing ps).
Proof.
  revert m0 ne0. induction validDevices as [|dev rest IH]; intros m0 ne0; simpl.
  - intros [= <- <-]. eauto.
  - destruct (some_res isScreenshareFeed (feeds dev)) as [b|e] eqn:Eb; simpl; [|done].
    intros H d ps Hd.
    destruct (IH _ _ H d ps Hd)
      as [[Hm Hrest]|(before & dev' & after & -> & Hid & Hafter & Hs & Hf)].
    + destruct (decide (device_id dev = d)) as [Heq|Hne].
      * subst d. rewrite lookup_insert_eq in Hm. injection Hm as <-.
        right. by exists [], dev, rest.
      * rewrite lookup_insert_ne in Hm by done. left. split; [done|]. by constructor.
    + right. exists (dev :: before), dev', after. done.
Qed.

Lemma filter_as_res_split {A B} (f : A → Res (option B)) (xs : list A)
    (ys1 : list B) (y : B) (ys2 : list B) :
  filter_as_res f xs = Ok (ys1 ++ y :: ys2) →
  ∃ xs1 x xs2, xs = xs1 ++ x :: xs2 ∧ f x = Ok (Some y) ∧ filter_as_res f xs2 = Ok ys2.
Proof.
  revert ys1. induction xs as [|x xs IH]; intros ys1; simpl.
  - intros [= H]. by destruct ys1.
  - destruct (f x) as [o|e] eqn:E; simpl; [|done].
    destruct (filter_as_res f xs) as [ys'|e] eqn:E'; simpl; [|done].
    intros [= H]. destruct o as [y'|].
    + destruct ys1 as [|y1 ys1]; simpl in H.
      * injection H as -> ->. by exists [], x, xs.
      * injection H as -> ->.
        destruct (IH ys1 eq_refl) as (xs1 & x' & xs2 & -> & Hx & Hr).
        by exists (x :: xs1), x', xs2.
    + subst ys'. destruct (IH ys1 eq_refl) as (xs1 & x' & xs2 & -> & Hx & Hr).
      by exists (x :: xs1), x', xs2.
Qed.

Lemma remainingDevices_entered gc now stateKey content :
  considersEntered gc = true →
  remainingDevices gc now stateKey content
  = (devices <~ advertisedDevices (groupCallId gc) content;
     filter_as_res (validDevice now) devices)%res.
Proof.
  intros He. unfold remainingDevices, suppresses. rewrite He. simpl.
  destruct (advertisedDevices (groupCallId gc) content); simpl; [|done].
  by destruct (filter_as_res (validDevice now) a).
Qed.

(** The device map that the loop over the events leaves for a member comes
    from the member-state event of this member. *)
Lemma events_view_member gc now v0 ne userId dm :
  participantsOfEvents gc now (map_to_list (Room.memberStateEvents (room gc))) (∅, None)
  = Ok (v0, ne) →
  v0 !! userId = Some dm →
  ∃ content validDevices ne0 ne',
    Room.memberStateEvents (room gc) !! userId = Some content
    ∧ remainingDevices gc now userId content = Ok validDevices
    ∧ deviceMapOf validDevices (∅, ne0) = Ok (dm, ne').
Proof.
  intros H Hv.
  pose proof (participantsOfEvents_lookup _ _ _ _ _ _
                (NoDup_fst_map_to_list (Room.memberStateEvents (room gc))) H userId)
    as [Ha Hb].
  destruct (Room.memberStateEvents (room gc) !! userId) as [content|] eqn:Ee.
  - destruct (Hb content) as (vds & Er & [(Hne & Hj & dm' & ne0 & ne' & Ed & Hv')|[_ Hv']]).
    + by apply elem_of_map_to_list.
    + rewrite Hv in Hv'. injection Hv' as <-. by exists content, vds, ne0, ne'.
    + rewrite Hv in Hv'. simpl in Hv'. by rewrite lookup_empty in Hv'.
  - rewrite (Ha (not_in_map_keys _ _ Ee)) in Hv. simpl in Hv.
    by rewrite lookup_empty in Hv.
Qed.

(** While the local device is considered entered, an entry that the loop over
    the events leaves is read off the advertisement shown for it. *)
Lemma events_view_shown gc now v0 ne userId deviceId ps :
  considersEntered gc = true →
  participantsOfEvents gc now (map_to_list (Room.memberStateEvents (room gc))) (∅, None)
  = Ok (v0, ne) →
  v0 !! userId ≫= (.!! deviceId) = Some ps →
  ∃ d, shownAdvertisement gc now userId deviceId d ∧ entryOfAdvertisement d ps.
Proof.
  intros He H Hv.
  destruct (v0 !! userId) as [dm|] eqn:Ev; [|done]. simpl in Hv.
  destruct (events_view_member _ _ _ _ _ _ H Ev) as (content & vds & ne0 & ne' & Ee & Er & Ed).
  rewrite (remainingDevices_entered _ _ _ _ He) in Er.
  destruct (advertisedDevices (groupCallId gc) content) as [devices|e] eqn:Ea; [|done].
  simpl in Er.
  destruct (deviceMapOf_last _ _ _ _ _ Ed _ _ Hv)
    as [[Hempty _]|(before & dev & after & -> & Hid & Hafter & Hs & Hf)].
  { by rewrite lookup_empty in Hempty. }
  destruct (filter_as_res_split _ _ _ _ _ Er) as (xs1 & d & xs2 & -> & Hd & Hr).
  pose proof (proj1 (validDevice_Some _ _ _) Hd) as (H1 & H2 & H3 & H4 & H5).
  exists d. split.
  - exists content, xs1, xs2, (session_id dev). split; [done|]. split; [done|]. split.
    + rewrite <- Hid. by apply validDevice_advertisement.
    + intros d' sid' Hin Hvalid.
      destruct (advertisement_validDevice _ _ _ _ Hvalid) as (dev' & Hdev' & Hid' & _).
      assert (Hin' : dev' ∈ after).
      { apply (filter_as_res_elem _ _ _ Hr). eauto. }
      by apply (proj1 (Forall_forall _ _) Hafter dev' Hin').
  - split; [by rewrite <- Hs|]. exists (feeds dev). done.
Qed.

(** C4, as the code has it.  A view is computed when the member-state events
    hold no [null] and the room knows the local member of an entered
    device.  While the local device is not considered
    entered, the view holds no entry for the local device of the local user.
    While it is considered entered and the state is not [Ended], the view
    holds that entry: when the member state of the joined local user
    advertises a valid device with the local device id, the entry is the one
    of that advertisement (of the last such one, should there be several):
    its session id is the [session_id] of the advertisement and its
    screensharing bit says whether the [feeds] of the advertisement hold a
    screen-share feed; otherwise it is the synthesised one, with the session
    id of the client and the screensharing bit of the local feeds.  In state
    [Ended] the view is empty. *)
Theorem local_echo_rule_as_coded gc now :
  (wellFormedRoomState gc →
   ∃ view nextExpiration, collectParticipants gc now = Ok (view, nextExpiration))
  ∧ ∀ view nextExpiration,
  collectParticipants gc now = Ok (view, nextExpiration) →
  (considersEntered gc = false →
   participants (updateParticipants now gc).2 !! (localIds gc).1
     ≫= (.!! (localIds gc).2) = None)
  ∧ (considersEntered gc = true → state gc ≠ GroupCallState.Ended →
     ∃ ps,
       participants (updateParticipants now gc).2 !! (localIds gc).1
         ≫= (.!! (localIds gc).2) = Some ps
       ∧ ((∃ sessionId, advertises gc now (localIds gc).1 (localIds gc).2 sessionId)
          ∧ isJoined gc (localIds gc).1 →
          advertises gc now (localIds gc).1 (localIds gc).2 (sessionId ps)
          ∧ ∃ d, shownAdvertisement gc now (localIds gc).1 (localIds gc).2 d
                 ∧ entryOfAdvertisement d ps)
       ∧ (¬ ((∃ sessionId, advertises gc now (localIds gc).1 (localIds gc).2 sessionId)
             ∧ isJoined gc (localIds gc).1) →
          ps = localEcho gc))
  ∧ (state gc = GroupCallState.Ended → participants (updateParticipants now gc).2 = ∅).
Proof.
  split; [apply collectParticipants_returns|]. intros view nextExpiration Hc.
  destruct (updateParticipants_participants gc now) as [Hended Hview].
  unfold localIds. simpl.
  set (localUserId := MatrixClient.getUserId (client gc)) in *.
  set (localDeviceId := MatrixClient.getDeviceId (client gc)) in *.
  destruct (collectParticipants_view _ _ _ _ Hc) as (v0 & Hv0 & Hcase).
  destruct (events_view _ _ _ _ Hv0) as (E1 & E2 & E3).
  split; [|split; [|done]].
  - intros Hent.
    destruct (decide (state gc = GroupCallState.Ended)) as [Hs|Hs].
    { by rewrite (Hended Hs). }
    rewrite (Hview _ _ Hs Hc).
    destruct Hcase as [[_ ->]|[Hent' _]]; [|congruence].
    destruct (v0 !! localUserId ≫= (.!! localDeviceId)) as [ps|] eqn:Ev; [|done].
    destruct (E1 _ _ _ Ev) as (_ & Hns & _). destruct Hns. done.
  - intros Hent Hs. rewrite (Hview _ _ Hs Hc).
    destruct Hcase as [[Hent' _]|[_ ->]]; [congruence|].
    fold localUserId localDeviceId. rewrite lookup_insert_eq. simpl.
    assert (Hns : ¬ suppressed gc localUserId localDeviceId).
    { intros (Hf & _). congruence. }
    destruct (bool_decide (is_Some (default ∅ (v0 !! localUserId) !! localDeviceId))) eqn:Eb.
    + apply bool_decide_eq_true in Eb. destruct Eb as [ps Eps].
      exists ps. split; [done|].
      assert (Ev : v0 !! localUserId ≫= (.!! localDeviceId) = Some ps).
      { destruct (v0 !! localUserId); [done|]. simpl in Eps. by rewrite lookup_empty in Eps. }
      destruct (E1 _ _ _ Ev) as (Hadv & _ & Hj). split.
      * intros _. split; [done|]. by apply (events_view_shown _ _ _ _ _ _ _ Hent Hv0).
      * intros Hn. destruct Hn. eauto.
    + apply bool_decide_eq_false in Eb. rewrite lookup_insert_eq.
      exists (localEcho gc). split; [done|]. split; [|done].
      intros [[sid Hadv] Hj]. destruct Eb.
      pose proof (E3 _ _ _ Hadv Hns Hj) as Hsome.
      destruct (v0 !! localUserId); [done|]. by destruct Hsome.
Qed.

Lemma gc_a_restarted_sharing_collect :
  collectParticipants gc_a_restarted_sharing 0
  = Ok ({[ "@a:h" := {[ "DA" := mkParticipantState "old" true ]} ]}, Some 3600000%Z).
Proof. vm_compute. reflexivity. Qed.

Lemma local_echo_rule_as_coded_witness :
  ∃ ps d,
    participants (updateParticipants 0 gc_a_restarted_sharing).2 !! "@a:h" ≫= (.!! "DA")
    = Some ps
    ∧ shownAdvertisement gc_a_restarted_sharing 0 "@a:h" "DA" d
    ∧ entryOfAdvertisement d ps.
Proof.
  destruct (proj1 (proj2 (proj2 (local_echo_rule_as_coded gc_a_restarted_sharing 0) _ _
                            gc_a_restarted_sharing_collect)))
    as (ps & Hps & Hadv & _).
  - vm_compute. reflexivity.
  - vm_compute. discriminate.
  - destruct Hadv as (_ & d & Hshown & Hentry).
    + split; [|by vm_compute].
      exists "old". eexists _, _, _. split; [by vm_compute|]. split; [by vm_compute|].
      split; [left|]. by vm_compute; eauto 10.
    + exists ps, d. split; [exact Hps|]. split; [exact Hshown|exact Hentry].
Defined.

(** C4 as stated fails after a restart of the client: the member state still
    advertises the local device with the session [old] of the previous run,
    and the view of the entered device holds that entry, not one with the
    session id [sa] of the client. *)
Lemma local_echo_keeps_the_advertised_session :
  ¬ localEchoRule gc_a_restarted (participants (updateParticipants 0 gc_a_restarted).2).
Proof.
  intros [_ H].
  assert (Hent : considersEntered gc_a_restarted = true) by (vm_compute; reflexivity).
  specialize (H Hent).
  assert (Hv : participants (updateParticipants 0 gc_a_restarted).2
                 !! MatrixClient.getUserId (client gc_a_restarted)
                 ≫= (.!! MatrixClient.getDeviceId (client gc_a_restarted))
               = Some (mkParticipantState "old" false))
    by (vm_compute; reflexivity).
  rewrite Hv in H. vm_compute in H. discriminate H.
Qed.

(** ** Retry loop *)

Lemma set_retryCallCounts_same gc : set_retryCallCounts (retryCallCounts gc) gc = gc.
Proof. by destruct gc. Qed.

(** A loop whose turns only rewrite the retry counts is a fold over them. *)
Lemma for_fold_retryCallCounts {A} gc (xs : list A) (body : A → bool → M bool)
    (step : gmap string (gmap string Z) * bool → A → gmap string (gmap string Z) * bool) :
  (∀ x needsRetry counts,
     body x needsRetry (set_retryCallCounts counts gc)
     = (Ok (step (counts, needsRetry) x).2,
        set_retryCallCounts (step (counts, needsRetry) x).1 gc)) →
  ∀ needsRetry counts,
    for_fold xs body needsRetry (set_retryCallCounts counts gc)
    = (Ok (foldl step (counts, needsRetry) xs).2,
       set_retryCallCounts (foldl step (counts, needsRetry) xs).1 gc).
Proof.
  intros Hbody. induction xs as [|x xs IH]; intros needsRetry counts; simpl; [done|].
  rewrite (bind_ok _ _ _ _ _ (Hbody x needsRetry counts)).
  rewrite IH. by destruct (step (counts, needsRetry) x).
Qed.

Lemma onRetryCallLoop_run gc :
  onRetryCallLoop gc
  = let r := foldl (retrySteps gc) (retryCallCounts gc, false)
               (map_to_list (participants gc)) in
    if r.2 then placeOutgoingCalls (set_retryCallCounts r.1 gc)
    else (Ok tt, set_retryCallCounts r.1 gc).
Proof.
  unfold onRetryCallLoop. rewrite (bind_ok this _ gc gc gc eq_refl).
  rewrite <- (set_retryCallCounts_same gc) at 2.
  erewrite bind_ok; [|apply (for_fold_retryCallCounts gc _ _ (retrySteps gc))].
  - simpl. by destruct (foldl _ _ _).2.
  - intros [member participantMap] needsRetry counts.
    rewrite (bind_ok this _ _ _ _ eq_refl). unfold retrySteps. simpl.
    apply (for_fold_retryCallCounts gc _ _ (retryStep gc member)).
    intros [deviceId participant] needsRetry' counts'.
    rewrite (bind_ok this _ _ _ _ eq_refl). unfold retryStep, qualifies, needsCall. simpl.
    change (retryCallCounts (set_retryCallCounts counts' gc)) with counts'.
    change (sessionDiffers (set_retryCallCounts counts' gc)) with (sessionDiffers gc).
    change (wantsOutgoingCall (set_retryCallCounts counts' gc)) with (wantsOutgoingCall gc).
    fold (retriesIn counts' member deviceId).
    by destruct (_ && _ && _).
Qed.

Lemma retriesIn_insert counts member deviceId n m d :
  retriesIn (<[member := <[deviceId := n]> (default ∅ (counts !! member))]> counts) m d
  = if decide (m = member ∧ d = deviceId) then n else retriesIn counts m d.
Proof.
  unfold retriesIn. destruct (decide (m = member)) as [->|Hm].
  - rewrite lookup_insert_eq. simpl. destruct (decide (d = deviceId)) as [->|Hd].
    + rewrite lookup_insert_eq, decide_True by done. done.
    + rewrite lookup_insert_ne, decide_False by (try intros [_ ?]; done).
      destruct (counts !! member); [done|]. simpl. by rewrite lookup_empty.
  - rewrite lookup_insert_ne, decide_False by (try intros [? _]; done). done.
Qed.

Lemma retryStep_retriesIn gc member acc e m d :
  retriesIn (retryStep gc member acc e).1 m d
  = if decide (m = member ∧ d = e.1)
    then stepCount gc member e.1 e.2 (retriesIn acc.1 member e.1)
    else retriesIn acc.1 m d.
Proof.
  unfold retryStep, stepCount.
  destruct (qualifies gc member e.1 e.2 (retriesIn acc.1 member e.1)); simpl.
  - apply retriesIn_insert.
  - destruct (decide _) as [[-> ->]|]; done.
Qed.

Lemma retryStep_needsRetry gc member acc e :
  (retryStep gc member acc e).2
  = acc.2 || qualifies gc member e.1 e.2 (retriesIn acc.1 member e.1).
Proof.
  unfold retryStep.
  destruct (qualifies gc member e.1 e.2 (retriesIn acc.1 member e.1)); simpl.
  - by rewrite orb_true_r.
  - by rewrite orb_false_r.
Qed.

(** The inner loop, for a member whose devices are listed once each. *)
Lemma retry_inner gc member (l : list (string * ParticipantState)) acc :
  NoDup l.*1 →
  (∀ m d,
     retriesIn (foldl (retryStep gc member) acc l).1 m d
     = if decide (m = member)
       then match (list_to_map l : gmap string ParticipantState) !! d with
            | Some p => stepCount gc member d p (retriesIn acc.1 member d)
            | None => retriesIn acc.1 m d
            end
       else retriesIn acc.1 m d)
  ∧ ((foldl (retryStep gc member) acc l).2 = true ↔
     acc.2 = true
     ∨ ∃ d p, (d, p) ∈ l ∧ qualifies gc member d p (retriesIn acc.1 member d) = true).
Proof.
  revert acc. induction l as [|[d0 p0] rest IH]; intros acc Hnd; simpl.
  - split.
    + intros m d. rewrite lookup_empty. by destruct (decide _).
    + split; [by left|]. intros [?|(d & p & ?%elem_of_nil & _)]; done.
  - apply NoDup_cons in Hnd. destruct Hnd as [Hd0 Hnd].
    destruct (IH (retryStep gc member acc (d0, p0)) Hnd) as [IH1 IH2].
    assert (Hrest : ∀ d, d ∈ rest.*1 →
              retriesIn (retryStep gc member acc (d0, p0)).1 member d
              = retriesIn acc.1 member d).
    { intros d Hd. rewrite retryStep_retriesIn. simpl.
      rewrite decide_False; [done|]. intros [_ ->]. done. }
    split.
    + intros m d. rewrite IH1. destruct (decide (m = member)) as [->|Hm].
      * destruct (decide (d = d0)) as [->|Hd].
        -- rewrite lookup_insert_eq.
           rewrite (not_elem_of_list_to_map_1 _ _ Hd0).
           rewrite retryStep_retriesIn. simpl. by rewrite decide_True.
        -- rewrite lookup_insert_ne by done.
           rewrite !retryStep_retriesIn. simpl.
           rewrite decide_False by (intros [_ ?]; done). done.
      * rewrite retryStep_retriesIn. simpl.
        rewrite decide_False by (intros [? _]; done). done.
    + rewrite IH2, retryStep_needsRetry, orb_true_iff. simpl. split.
      * intros [[?|?]|(d & p & Hin & Hq)].
        -- by left.
        -- right. exists d0, p0. split; [left|done].
        -- right. exists d, p. split; [by right|].
           rewrite <- Hrest; [done|]. apply list_elem_of_fmap. by exists (d, p).
      * intros [?|(d & p & [[= -> ->]|Hin]%elem_of_cons & Hq)].
        -- left. by left.
        -- left. by right.
        -- right. exists d, p. split; [done|].
           rewrite Hrest; [done|]. apply list_elem_of_fmap. by exists (d, p).
Qed.

(** The whole loop, for a view that lists every member once. *)
Lemma retry_outer gc (L : list (string * gmap string ParticipantState)) acc :
  NoDup L.*1 →
  (∀ m d,
     retriesIn (foldl (retrySteps gc) acc L).1 m d
     = match (list_to_map L : gmap string (gmap string ParticipantState)) !! m
             ≫= (.!! d) with
       | Some p => stepCount gc m d p (retriesIn acc.1 m d)
       | None => retriesIn acc.1 m d
       end)
  ∧ ((foldl (retrySteps gc) acc L).2 = true ↔
     acc.2 = true
     ∨ ∃ m pm d p, (m, pm) ∈ L ∧ pm !! d = Some p
                   ∧ qualifies gc m d p (retriesIn acc.1 m d) = true).
Proof.
  revert acc. induction L as [|[m0 pm0] rest IH]; intros acc Hnd; simpl.
  - split.
    + intros m d. by rewrite lookup_empty.
    + split; [by left|]. intros [?|(m & pm & d & p & ?%elem_of_nil & _)]; done.
  - apply NoDup_cons in Hnd. destruct Hnd as [Hm0 Hnd].
    destruct (IH (retrySteps gc acc (m0, pm0)) Hnd) as [IH1 IH2].
    destruct (retry_inner gc m0 (map_to_list pm0) acc (NoDup_fst_map_to_list pm0))
      as [In1 In2].
    rewrite list_to_map_to_list in In1.
    fold (retrySteps gc acc (m0, pm0)) in In1, In2.
    assert (Hrest : ∀ m d, m ≠ m0 →
              retriesIn (retrySteps gc acc (m0, pm0)).1 m d = retriesIn acc.1 m d).
    { intros m d Hm. rewrite In1. by rewrite decide_False. }
    split.
    + intros m d. rewrite IH1. destruct (decide (m = m0)) as [->|Hm].
      * rewrite lookup_insert_eq. simpl.
        rewrite (not_elem_of_list_to_map_1 _ _ Hm0). simpl.
        rewrite In1, decide_True by done. done.
      * rewrite lookup_insert_ne by done. by rewrite !Hrest.
    + rewrite IH2, In2. split.
      * intros [[?|(d & p & Hin & Hq)]|(m & pm & d & p & Hin & Hp & Hq)].
        -- by left.
        -- right. exists m0, pm0, d, p. split; [left|].
           split; [by apply elem_of_map_to_list|done].
        -- right. exists m, pm, d, p. split; [by right|]. split; [done|].
           rewrite <- Hrest; [done|]. intros ->. apply Hm0.
           apply list_elem_of_fmap. by exists (m0, pm).
      * intros [?|(m & pm & d & p & [[= -> ->]|Hin]%elem_of_cons & Hp & Hq)].
        -- left. by left.
        -- left. right. exists d, p. split; [by apply elem_of_map_to_list|done].
        -- right. exists m, pm, d, p. split; [done|]. split; [done|].
           rewrite Hrest; [done|]. intros ->. apply Hm0.
           apply list_elem_of_fmap. by exists (m0, pm).
Qed.

Lemma retry_nothing_qualifies gc :
  (∀ member deviceId p,
     slot gc member deviceId = Some p →
     qualifies gc member deviceId p (retries gc member deviceId) = false) →
  foldl (retrySteps gc) (retryCallCounts gc, false) (map_to_list (participants gc))
  = (retryCallCounts gc, false).
Proof.
  intros Hnone.
  assert (Hin : ∀ m pm, (m, pm) ∈ map_to_list (participants gc) →
                        participants gc !! m = Some pm).
  { intros m pm. apply elem_of_map_to_list. }
  revert Hin. generalize (map_to_list (participants gc)) as L.
  induction L as [|[m pm] rest IH]; intros Hin; simpl; [done|].
  assert (Hm : retrySteps gc (retryCallCounts gc, false) (m, pm)
               = (retryCallCounts gc, false)).
  { unfold retrySteps. simpl.
    assert (Hd : ∀ d p, (d, p) ∈ map_to_list pm → pm !! d = Some p).
    { intros d p. apply elem_of_map_to_list. }
    revert Hd. generalize (map_to_list pm) as l.
    induction l as [|[d p] l IHl]; intros Hd; simpl; [done|].
    unfold retryStep at 2. simpl. fold (retries gc m d).
    rewrite Hnone.
    - apply IHl. intros d' p' Hin'. apply Hd. by right.
    - unfold slot. rewrite (Hin m pm) by left. simpl. apply Hd. left. }
  rewrite Hm. apply IH. intros m' pm' Hin'. apply Hin. by right.
Qed.

Lemma onRetryCallLoop_retryCallCounts gc :
  retryCallCounts (onRetryCallLoop gc).2
  = (foldl (retrySteps gc) (retryCallCounts gc, false) (map_to_list (participants gc))).1.
Proof.
  rewrite onRetryCallLoop_run. simpl.
  destruct (foldl (retrySteps gc) (retryCallCounts gc, false) _) as [counts [|]]; simpl.
  - by rewrite placeOutgoingCalls_frames_retryCallCounts.
  - done.
Qed.

Lemma onCallStateChanged_connected gc call oldState localFeed opponent :
  localCallFeed gc = Some localFeed →
  MatrixCall.getOpponentMember (callHeap gc call) = Some opponent →
  ∃ gc',
    onCallStateChanged call CallState.Connected oldState gc = (Ok tt, gc')
    ∧ retries gc' opponent (MatrixCall.getOpponentDeviceId (callHeap gc call)) = 0%Z
    ∧ ∀ member deviceId,
        (member, deviceId) ≠ (opponent, MatrixCall.getOpponentDeviceId (callHeap gc call)) →
        retries gc' member deviceId = retries gc member deviceId.
Proof.
  intros Hl Ho. unfold onCallStateChanged.
  rewrite (bind_ok this _ gc gc gc eq_refl). rewrite Hl, Ho.
  set (deviceId := MatrixCall.getOpponentDeviceId (callHeap gc call)).
  set (mic := when _ (perform (CallSetMicrophoneMuted _ _))).
  assert (∃ gc1, mic gc = (Ok tt, gc1) ∧ retryCallCounts gc1 = retryCallCounts gc)
    as (gc1 & E1 & R1).
  { subst mic.
    destruct (MatrixCall.localUsermediaStream _
              && negb (eqb (MatrixCall.isMicrophoneMuted _) _)); by eexists. }
  clearbody mic.
  rewrite (bind_ok _ _ _ _ _ E1).
  set (vid := when _ (perform (CallSetLocalVideoMuted _ _))).
  assert (∃ gc2, vid gc1 = (Ok tt, gc2) ∧ retryCallCounts gc2 = retryCallCounts gc)
    as (gc2 & E2 & R2).
  { subst vid.
    destruct (MatrixCall.localUsermediaStream _
              && negb (eqb (MatrixCall.isLocalVideoMuted _) _));
      eexists; (split; [reflexivity|exact R1]). }
  clearbody vid.
  rewrite (bind_ok _ _ _ _ _ E2).
  rewrite bool_decide_true by done. simpl.
  unfold retries, retriesIn.
  destruct (retryCallCounts gc !! opponent) as [retriesMap|] eqn:Er.
  - eexists. split; [reflexivity|]. simpl.
    destruct (bool_decide (size (delete deviceId retriesMap) = 0%nat)) eqn:Es.
    + apply bool_decide_eq_true, map_size_empty_iff in Es. split.
      * by rewrite lookup_delete_eq.
      * intros m d Hne. destruct (decide (m = opponent)) as [->|Hm].
        -- rewrite lookup_delete_eq, Er. simpl.
           assert (Hd : d ≠ deviceId) by congruence.
           rewrite <- (lookup_delete_ne retriesMap deviceId d) by done.
           by rewrite Es, lookup_empty.
        -- by rewrite lookup_delete_ne.
    + split.
      * rewrite lookup_insert_eq. simpl. by rewrite lookup_delete_eq.
      * intros m d Hne. destruct (decide (m = opponent)) as [->|Hm].
        -- rewrite lookup_insert_eq, Er. simpl.
           assert (Hd : d ≠ deviceId) by congruence.
           by rewrite lookup_delete_ne.
        -- by rewrite lookup_insert_ne.
  - exists gc2. split; [done|]. rewrite R2. split; [by rewrite Er|done].
Qed.

(** C9, as the code has it.  On a retry tick the retry count of a slot of
    the view is incremented iff the local side wants the outgoing call of the
    slot, no current call of the slot has the advertised session id, and the
    count is strictly less than 3; every other count stays, so no count
    passes 3.  When no slot is incremented the tick does nothing.  When some
    slot is incremented the tick runs [placeOutgoingCalls], one pass over
    every slot of the view.  When a call reaches [Connected] the retry count
    of its slot is cleared, and the others stay. *)
Theorem retry_tick_counts gc :
  (∀ member deviceId,
     retries (onRetryCallLoop gc).2 member deviceId
     = match slot gc member deviceId with
       | Some p =>
           if needsCall gc member deviceId (sessionId p)
              && (retries gc member deviceId <? 3)%Z
           then (retries gc member deviceId + 1)%Z
           else retries gc member deviceId
       | None => retries gc member deviceId
       end)
  ∧ ((∀ member deviceId, (retries gc member deviceId ≤ 3)%Z) →
     ∀ member deviceId, (retries (onRetryCallLoop gc).2 member deviceId ≤ 3)%Z)
  ∧ ((∀ member deviceId p,
        slot gc member deviceId = Some p →
        needsCall gc member deviceId (sessionId p)
        && (retries gc member deviceId <? 3)%Z = false) →
     onRetryCallLoop gc = (Ok tt, gc))
  ∧ (∀ member deviceId p,
       slot gc member deviceId = Some p →
       needsCall gc member deviceId (sessionId p)
       && (retries gc member deviceId <? 3)%Z = true →
       onRetryCallLoop gc
       = placeOutgoingCalls
           (set_retryCallCounts (retryCallCounts (onRetryCallLoop gc).2) gc))
  ∧ (∀ call oldState localFeed opponent,
       localCallFeed gc = Some localFeed →
       MatrixCall.getOpponentMember (callHeap gc call) = Some opponent →
       ∃ gc',
         onCallStateChanged call CallState.Connected oldState gc = (Ok tt, gc')
         ∧ retries gc' opponent (MatrixCall.getOpponentDeviceId (callHeap gc call)) = 0%Z
         ∧ ∀ member deviceId,
             (member, deviceId)
             ≠ (opponent, MatrixCall.getOpponentDeviceId (callHeap gc call)) →
             retries gc' member deviceId = retries gc member deviceId).
Proof.
  destruct (retry_outer gc (map_to_list (participants gc)) (retryCallCounts gc, false)
              (NoDup_fst_map_to_list (participants gc))) as [Hcounts Hflag].
  rewrite list_to_map_to_list in Hcounts. simpl in Hcounts, Hflag.
  assert (H1 : ∀ member deviceId,
     retries (onRetryCallLoop gc).2 member deviceId
     = match slot gc member deviceId with
       | Some p =>
           if needsCall gc member deviceId (sessionId p)
              && (retries gc member deviceId <? 3)%Z
           then (retries gc member deviceId + 1)%Z
           else retries gc member deviceId
       | None => retries gc member deviceId
       end).
  { intros member deviceId. unfold retries at 1.
    rewrite onRetryCallLoop_retryCallCounts, Hcounts. done. }
  split; [exact H1|]. split; [|split; [|split]].
  - intros Hle member deviceId. rewrite H1.
    pose proof (Hle member deviceId) as Hn.
    destruct (slot gc member deviceId) as [p|]; [|done].
    destruct (needsCall gc member deviceId (sessionId p)); simpl; [|done].
    destruct (retries gc member deviceId <? 3)%Z eqn:E; [|done].
    apply Z.ltb_lt in E. lia.
  - intros Hnone. rewrite onRetryCallLoop_run.
    rewrite (retry_nothing_qualifies gc Hnone). simpl.
    by rewrite set_retryCallCounts_same.
  - intros member deviceId p Hslot Hq.
    rewrite onRetryCallLoop_retryCallCounts. rewrite onRetryCallLoop_run at 1. simpl.
    assert (Hf : (foldl (retrySteps gc) (retryCallCounts gc, false)
                    (map_to_list (participants gc))).2 = true).
    { apply Hflag. right. unfold slot in Hslot.
      destruct (participants gc !! member) as [pm|] eqn:Ep; [|done].
      exists member, pm, deviceId, p. split; [by apply elem_of_map_to_list|].
      split; [done|]. exact Hq. }
    by rewrite Hf.
  - apply onCallStateChanged_connected.
Qed.

Lemma gc_a_retrying_slot :
  slot gc_a_retrying "@c:h" "DC" = Some (mkParticipantState "sc" false).
Proof. vm_compute. reflexivity. Qed.

Lemma retry_tick_counts_witness :
  onRetryCallLoop gc_a_retrying
  = placeOutgoingCalls
      (set_retryCallCounts (retryCallCounts (onRetryCallLoop gc_a_retrying).2)
         gc_a_retrying).
Proof.
  apply (proj1 (proj2 (proj2 (proj2 (retry_tick_counts gc_a_retrying))))
           "@c:h" "DC" (mkParticipantState "sc" false) gc_a_retrying_slot).
  vm_compute. reflexivity.
Defined.

(** C9 as stated fails where a second slot still retries: the retry count of
    [(@b:h, DB)] has reached 3, the tick increments the count of
    [(@c:h, DC)] and runs the placement pass, and the pass places a call
    to [(@b:h, DB)] as well. *)
Lemma placement_after_three_retries :
  ¬ noPlacementAfterThree gc_a_retrying (onRetryCallLoop gc_a_retrying).2.
Proof.
  intros H.
  apply (H "@b:h" "DB" (CallPlaceCallWithCallFeeds 1 [100%nat] false)).
  - vm_compute. discriminate.
  - vm_compute. do 11 right. left.
  - exists 1%nat, [100%nat], false. split; [done|]. split; vm_compute; reflexivity.
Qed.

(** * Further properties of the code *)

(** ** Feed registry *)

Lemma findIndex_None {A} (p : A → bool) (xs : list A) :
  findIndex p xs = None ↔ Forall (λ x, p x = false) xs.
Proof.
  induction xs as [|x xs IH]; simpl; [by split; [constructor|]|].
  destruct (p x) eqn:E.
  - split; [done|]. intros [? _]%Forall_cons. congruence.
  - destruct (findIndex p xs); simpl.
    + split; [done|]. intros [_ H]%Forall_cons. by apply IH in H.
    + split; [|done]. intros _. constructor; [done|]. by apply IH.
Qed.

(** [findIndex] answers the position of the first element that satisfies the
    predicate. *)
Lemma findIndex_first {A} (p : A → bool) (before : list A) (x : A) (after : list A) :
  Forall (λ y, p y = false) before → p x = true →
  findIndex p (before ++ x :: after) = Some (length before).
Proof.
  intros Hb Hx. induction Hb as [|y before Hy _ IH]; simpl; [by rewrite Hx|].
  by rewrite Hy, IH.
Qed.

Lemma findIndex_split {A} (p : A → bool) (xs : list A) (i : nat) :
  findIndex p xs = Some i →
  ∃ before x after, xs = before ++ x :: after ∧ length before = i
                    ∧ Forall (λ y, p y = false) before ∧ p x = true.
Proof.
  revert i. induction xs as [|y xs IH]; intros i; simpl; [done|].
  destruct (p y) eqn:E.
  - intros [= <-]. by exists [], y, xs.
  - destruct (findIndex p xs) as [j|]; simpl; [|done]. intros [= <-].
    destruct (IH j eq_refl) as (before & x & after & -> & <- & Hb & Hx).
    exists (y :: before), x, after. repeat split; [|done]. by constructor.
Qed.

Lemma find_first {A} (p : A → bool) (before : list A) (x : A) (after : list A) :
  Forall (λ y, p y = false) before → p x = true →
  find p (before ++ x :: after) = Some x.
Proof.
  intros Hb Hx. induction Hb as [|y before Hy _ IH]; simpl; [by rewrite Hx|].
  by rewrite Hy.
Qed.

Lemma find_none {A} (p : A → bool) (xs : list A) :
  find p xs = None ↔ Forall (λ x, p x = false) xs.
Proof.
  induction xs as [|x xs IH]; simpl; [by split; [constructor|]|].
  destruct (p x) eqn:E.
  - split; [done|]. intros [? _]%Forall_cons. congruence.
  - rewrite IH. split; [by constructor|]. by intros [_ ?]%Forall_cons.
Qed.

Lemma find_split {A} (p : A → bool) (xs : list A) (x : A) :
  find p xs = Some x →
  ∃ before after, xs = before ++ x :: after
                  ∧ Forall (λ y, p y = false) before ∧ p x = true.
Proof.
  induction xs as [|y xs IH]; simpl; [done|].
  destruct (p y) eqn:E.
  - intros [= <-]. by exists [], xs.
  - intros (before & after & -> & Hb & Hx)%IH.
    exists (y :: before), after. repeat split; [|done]. by constructor.
Qed.

Lemma find_app_r {A} (p : A → bool) (xs ys : list A) :
  find p (xs ++ ys) = match find p xs with Some x => Some x | None => find p ys end.
Proof. induction xs as [|x xs IH]; simpl; [done|]. by destruct (p x). Qed.

Lemma delete_middle {A} (before : list A) (x : A) (after : list A) :
  delete (length before) (before ++ x :: after) = before ++ after.
Proof. induction before as [|y before IH]; simpl; [done|]. by rewrite IH. Qed.

Lemma insert_middle {A} (before : list A) (x y : A) (after : list A) :
  <[length before := y]> (before ++ x :: after) = before ++ y :: after.
Proof. induction before as [|z before IH]; simpl; [done|]. by rewrite IH. Qed.

(** X1.  Registering a feed appends it to the registry, and a lookup by a
    key answers the feed that it answered before, or else the new feed when
    the new feed has the key. *)
Theorem added_feed_is_found_by_its_key gc callFeed :
  (∃ gc', addUserMediaFeed callFeed gc = (Ok tt, gc')
          ∧ userMediaFeeds gc' = userMediaFeeds gc ++ [callFeed]
          ∧ ∀ userId deviceId,
              getUserMediaFeed gc' userId deviceId
              = match getUserMediaFeed gc userId deviceId with
                | Some earlier => Some earlier
                | None => if feedHasKey gc userId (Some deviceId) callFeed
                          then Some callFeed else None
                end)
  ∧ (∃ gc', addScreenshareFeed callFeed gc = (Ok tt, gc')
            ∧ screenshareFeeds gc' = screenshareFeeds gc ++ [callFeed]
            ∧ ∀ userId deviceId,
                getScreenshareFeed gc' userId deviceId
                = match getScreenshareFeed gc userId deviceId with
                  | Some earlier => Some earlier
                  | None => if feedHasKey gc userId (Some deviceId) callFeed
                            then Some callFeed else None
                  end).
Proof.
  split.
  - eexists. split; [reflexivity|]. split; [reflexivity|].
    intros userId deviceId. unfold getUserMediaFeed. simpl.
    change (feedHasKey _ userId (Some deviceId))
      with (feedHasKey gc userId (Some deviceId)).
    rewrite find_app_r. simpl.
    by destruct (find _ (userMediaFeeds gc)), (feedHasKey gc userId (Some deviceId) callFeed).
  - eexists. split; [reflexivity|]. split; [reflexivity|].
    intros userId deviceId. unfold getScreenshareFeed. simpl.
    change (feedHasKey _ userId (Some deviceId))
      with (feedHasKey gc userId (Some deviceId)).
    rewrite find_app_r. simpl.
    by destruct (find _ (screenshareFeeds gc)), (feedHasKey gc userId (Some deviceId) callFeed).
Qed.

Lemma removeUserMediaFeed_missing gc callFeed :
  Forall (λ f, sameKey gc callFeed f = false) (userMediaFeeds gc) →
  removeUserMediaFeed callFeed gc
  = (Throw (Error "Couldn't find user media feed to remove"), gc).
Proof.
  intros H%findIndex_None. unfold removeUserMediaFeed.
  rewrite (bind_ok this _ gc gc gc eq_refl). cbv zeta.
  change (feedHasKey gc _ _) with (sameKey gc callFeed). by rewrite H.
Qed.

Lemma removeUserMediaFeed_found gc callFeed before f after :
  userMediaFeeds gc = before ++ f :: after →
  Forall (λ f, sameKey gc callFeed f = false) before →
  sameKey gc callFeed f = true →
  removeUserMediaFeed callFeed gc
  = (Ok tt,
     set_trace
       (trace gc ++ FeedDispose callFeed
          :: Emit (GroupCallEvent.UserMediaFeedsChanged (before ++ after))
          :: (if bool_decide (activeSpeaker gc = Some callFeed)
              then [Emit (GroupCallEvent.ActiveSpeakerChanged (head (before ++ after)))]
              else []))
       (set_activeSpeaker
          (if bool_decide (activeSpeaker gc = Some callFeed)
           then head (before ++ after) else activeSpeaker gc)
          (set_userMediaFeeds (before ++ after) gc))).
Proof.
  intros Hl Hb Hf. unfold removeUserMediaFeed.
  rewrite (bind_ok this _ gc gc gc eq_refl). cbv zeta.
  change (feedHasKey gc _ _) with (sameKey gc callFeed).
  rewrite Hl, (findIndex_first _ _ _ after Hb Hf), delete_middle.
  unfold bind, modify, perform, emit, perform, modify, this, when, ret. simpl.
  destruct (bool_decide (activeSpeaker gc = Some callFeed)); simpl.
  - rewrite <- !app_assoc. simpl. by destruct gc.
  - rewrite <- !app_assoc. simpl. by destruct gc.
Qed.

Lemma removeScreenshareFeed_missing gc callFeed :
  Forall (λ f, sameKey gc callFeed f = false) (screenshareFeeds gc) →
  removeScreenshareFeed callFeed gc
  = (Throw (Error "Couldn't find screenshare feed to remove"), gc).
Proof.
  intros H%findIndex_None. unfold removeScreenshareFeed.
  rewrite (bind_ok this _ gc gc gc eq_refl). cbv zeta.
  change (feedHasKey gc _ _) with (sameKey gc callFeed). by rewrite H.
Qed.

Lemma removeScreenshareFeed_found gc callFeed before f after :
  screenshareFeeds gc = before ++ f :: after →
  Forall (λ f, sameKey gc callFeed f = false) before →
  sameKey gc callFeed f = true →
  removeScreenshareFeed callFeed gc
  = (Ok tt,
     set_trace
       (trace gc ++ [FeedDispose callFeed;
                     Emit (GroupCallEvent.ScreenshareFeedsChanged (before ++ after))])
       (set_screenshareFeeds (before ++ after) gc)).
Proof.
  intros Hl Hb Hf. unfold removeScreenshareFeed.
  rewrite (bind_ok this _ gc gc gc eq_refl). cbv zeta.
  change (feedHasKey gc _ _) with (sameKey gc callFeed).
  rewrite Hl, (findIndex_first _ _ _ after Hb Hf), delete_middle.
  unfold bind, modify, perform, emit, perform, modify, this, when, ret. simpl.
  rewrite <- !app_assoc. simpl. by destruct gc.
Qed.

(** X2.  Removing a feed whose key no registered feed has throws and changes
    nothing.  Otherwise the first registered feed with the key of the
    argument leaves the registry, the argument is disposed, and observers hear
    of the new list; when the argument was the active speaker, the first
    remaining feed (or none) takes over and [ActiveSpeakerChanged] is
    emitted. *)
Theorem removed_feed_is_the_first_with_its_key gc callFeed :
  (Forall (λ f, sameKey gc callFeed f = false) (userMediaFeeds gc) →
   removeUserMediaFeed callFeed gc
   = (Throw (Error "Couldn't find user media feed to remove"), gc))
  ∧ (∀ before f after,
       userMediaFeeds gc = before ++ f :: after →
       Forall (λ f, sameKey gc callFeed f = false) before →
       sameKey gc callFeed f = true →
       ∃ gc', removeUserMediaFeed callFeed gc = (Ok tt, gc')
              ∧ userMediaFeeds gc' = before ++ after
              ∧ screenshareFeeds gc' = screenshareFeeds gc
              ∧ activeSpeaker gc'
                = (if bool_decide (activeSpeaker gc = Some callFeed)
                   then head (before ++ after) else activeSpeaker gc)
              ∧ trace gc'
                = trace gc ++ FeedDispose callFeed
                    :: Emit (GroupCallEvent.UserMediaFeedsChanged (before ++ after))
                    :: (if bool_decide (activeSpeaker gc = Some callFeed)
                        then [Emit (GroupCallEvent.ActiveSpeakerChanged
                                      (head (before ++ after)))]
                        else [])).
Proof.
  split; [apply removeUserMediaFeed_missing|].
  intros before f after Hl Hb Hf. eexists.
  split; [by apply (removeUserMediaFeed_found gc callFeed before f after)|].
  by repeat split.
Qed.

Lemma removed_feed_is_the_first_with_its_key_witness :
  ∃ gc', removeUserMediaFeed 100%nat gc_b_speaking = (Ok tt, gc')
         ∧ userMediaFeeds gc' = [1%nat].
Proof.
  destruct (proj2 (removed_feed_is_the_first_with_its_key gc_b_speaking 100%nat)
              [] 100%nat [1%nat]) as (gc' & E & Hl & _).
  - reflexivity.
  - constructor.
  - vm_compute. reflexivity.
  - exists gc'. split; [exact E|exact Hl].
Defined.

Lemma sameKey_refl gc callFeed : sameKey gc callFeed callFeed = true.
Proof.
  unfold sameKey, feedKey, feedHasKey. simpl.
  by rewrite String.eqb_refl, bool_decide_true.
Qed.

(** X3.  Registering a feed under a key that no registered feed has and
    removing it again restores the registry: nothing but the record of the
    operations differs. *)
Theorem add_then_remove_restores_the_registry gc callFeed :
  Forall (λ f, sameKey gc callFeed f = false) (userMediaFeeds gc) →
  activeSpeaker gc ≠ Some callFeed →
  ∃ gc', (addUserMediaFeed callFeed ;; removeUserMediaFeed callFeed) gc = (Ok tt, gc')
         ∧ set_trace (trace gc) gc' = gc
         ∧ trace gc'
           = trace gc
             ++ [FeedMeasureVolumeActivity callFeed true;
                 Emit (GroupCallEvent.UserMediaFeedsChanged (userMediaFeeds gc ++ [callFeed]));
                 FeedDispose callFeed;
                 Emit (GroupCallEvent.UserMediaFeedsChanged (userMediaFeeds gc))].
Proof.
  intros Hb Hs.
  erewrite bind_ok; [|reflexivity].
  erewrite (removeUserMediaFeed_found _ callFeed (userMediaFeeds gc) callFeed []);
    [|reflexivity|exact Hb|apply sameKey_refl].
  eexists. split; [reflexivity|]. simpl.
  rewrite bool_decide_false by done. rewrite app_nil_r, <- !app_assoc. simpl.
  split; [by destruct gc|done].
Qed.

Lemma add_then_remove_restores_the_registry_witness :
  ∃ gc', (addUserMediaFeed 1%nat ;; removeUserMediaFeed 1%nat) gc_a_entered = (Ok tt, gc')
         ∧ set_trace (trace gc_a_entered) gc' = gc_a_entered.
Proof.
  destruct (add_then_remove_restores_the_registry gc_a_entered 1%nat)
    as (gc' & E & Hr & _).
  - vm_compute. repeat constructor.
  - vm_compute. discriminate.
  - exists gc'. split; [exact E|exact Hr].
Defined.

(** ** The record of the operations only grows *)

Lemma extends_ret {A} (a : A) : extends (ret a).
Proof. intros gc. exists []. by rewrite app_nil_r. Qed.

Lemma extends_throw {A} e : extends (throw (A:=A) e).
Proof. intros gc. exists []. by rewrite app_nil_r. Qed.

Lemma extends_this : extends this.
Proof. intros gc. exists []. by rewrite app_nil_r. Qed.

Lemma extends_lift {A} (r : Res A) : extends (lift r).
Proof. intros gc. exists []. by rewrite app_nil_r. Qed.

Lemma extends_modify (f : GroupCall → GroupCall) :
  (∀ gc, trace (f gc) = trace gc) → extends (modify f).
Proof. intros H gc. exists []. simpl. by rewrite H, app_nil_r. Qed.

Lemma extends_perform (e : Effect) : extends (perform e).
Proof. intros gc. by exists [e]. Qed.

Lemma extends_bind {A B} (m : M A) (k : A → M B) :
  extends m → (∀ a, extends (k a)) → extends (bind m k).
Proof.
  intros Hm Hk gc. unfold bind. destruct (Hm gc) as [t Ht].
  destruct (m gc) as [[a|e] gc']; simpl in *; [|by exists t].
  destruct (Hk a gc') as [t' Ht']. exists (t ++ t').
  by rewrite Ht', Ht, app_assoc.
Qed.

Lemma extends_when (b : bool) (m : M unit) : extends m → extends (when b m).
Proof. destruct b; [done|]. intros _. apply extends_ret. Qed.

Lemma extends_for_each {A} (xs : list A) (body : A → M unit) :
  (∀ x, extends (body x)) → extends (for_each xs body).
Proof.
  intros H. induction xs as [|x xs IH]; simpl; [apply extends_ret|].
  apply extends_bind; [apply H|]. by intros _.
Qed.

Lemma extends_for_fold {A S} (xs : list A) (body : A → S → M S) (s : S) :
  (∀ x s, extends (body x s)) → extends (for_fold xs body s).
Proof.
  intros H. revert s. induction xs as [|x xs IH]; intros s; simpl; [apply extends_ret|].
  apply extends_bind; [apply H|]. by intros s'.
Qed.

Ltac solve_extends :=
  repeat first
    [ apply extends_ret | apply extends_throw | apply extends_this | apply extends_lift
    | apply extends_perform
    | apply extends_when
    | apply extends_for_each; intros ?
    | apply extends_for_fold; intros ? ?
    | apply extends_bind; [|intros ?]
    | apply extends_modify; intros ?; reflexivity
    | progress unfold emit, update_feed, update_call, forEachCall
    | match goal with
      | |- extends (match ?x with _ => _ end) => destruct x
      | |- extends (let '(_, _) := ?x in _) => destruct x
      | |- extends ((let '(_, _) := ?x in _) _) => destruct x
      end ].

Lemma extends_run {A} (m : M A) gc r gc' :
  extends m → m gc = (r, gc') → ∃ t, trace gc' = trace gc ++ t.
Proof. intros H E. destruct (H gc) as [t Ht]. rewrite E in Ht. eauto. Qed.

Lemma frames_run {A X} (obs : GroupCall → X) (m : M A) gc r gc' :
  frames obs m → m gc = (r, gc') → obs gc' = obs gc.
Proof. intros H E. specialize (H gc). by rewrite E in H. Qed.

Lemma removeUserMediaFeed_extends f : extends (removeUserMediaFeed f).
Proof. unfold removeUserMediaFeed. solve_extends. Qed.

Lemma removeScreenshareFeed_extends f : extends (removeScreenshareFeed f).
Proof. unfold removeScreenshareFeed. solve_extends. Qed.

Lemma onCallFeedsChanged_extends call : extends (onCallFeedsChanged call).
Proof.
  unfold onCallFeedsChanged, addUserMediaFeed, replaceUserMediaFeed, addScreenshareFeed,
    replaceScreenshareFeed, removeUserMediaFeed, removeScreenshareFeed.
  solve_extends.
Qed.

Lemma initCall_extends call : extends (initCall call).
Proof.
  unfold initCall. solve_extends.
Qed.

Lemma disposeCall_extends call r : extends (disposeCall call r).
Proof.
  unfold disposeCall. solve_extends.
Qed.

Lemma feedHasKey_key gc userId deviceId f :
  feedHasKey gc userId deviceId f = true →
  feedHasKey gc userId deviceId = sameKey gc f.
Proof.
  unfold feedHasKey, sameKey, feedKey. simpl.
  intros [Hu%String.eqb_eq Hd%bool_decide_eq_true]%andb_true_iff.
  by rewrite Hu, Hd.
Qed.

Lemma replaceUserMediaFeed_returns gc userId deviceId current replacement :
  getUserMediaFeed gc userId deviceId = Some current →
  ∃ gc', replaceUserMediaFeed current replacement gc = (Ok tt, gc').
Proof.
  unfold getUserMediaFeed. intros (before & after & Hl & Hb & Hc)%find_split.
  unfold replaceUserMediaFeed. rewrite (bind_ok this _ gc gc gc eq_refl). cbv zeta.
  change (feedHasKey gc _ _) with (sameKey gc current).
  rewrite <- (feedHasKey_key _ _ _ _ Hc), Hl, (findIndex_first _ _ _ after Hb Hc).
  by eexists.
Qed.

Lemma removeUserMediaFeed_returns gc userId deviceId current :
  getUserMediaFeed gc userId deviceId = Some current →
  ∃ gc', removeUserMediaFeed current gc = (Ok tt, gc').
Proof.
  unfold getUserMediaFeed. intros (before & after & Hl & Hb & Hc)%find_split.
  rewrite (feedHasKey_key _ _ _ _ Hc) in Hb.
  rewrite (removeUserMediaFeed_found gc current before current after Hl Hb
             (sameKey_refl _ _)).
  by eexists.
Qed.

Lemma replaceScreenshareFeed_returns gc userId deviceId current replacement :
  getScreenshareFeed gc userId deviceId = Some current →
  ∃ gc', replaceScreenshareFeed current replacement gc = (Ok tt, gc').
Proof.
  unfold getScreenshareFeed. intros (before & after & Hl & Hb & Hc)%find_split.
  unfold replaceScreenshareFeed. rewrite (bind_ok this _ gc gc gc eq_refl). cbv zeta.
  change (feedHasKey gc _ _) with (sameKey gc current).
  rewrite <- (feedHasKey_key _ _ _ _ Hc), Hl, (findIndex_first _ _ _ after Hb Hc).
  by eexists.
Qed.

Lemma removeScreenshareFeed_returns gc userId deviceId current :
  getScreenshareFeed gc userId deviceId = Some current →
  ∃ gc', removeScreenshareFeed current gc = (Ok tt, gc').
Proof.
  unfold getScreenshareFeed. intros (before & after & Hl & Hb & Hc)%find_split.
  rewrite (feedHasKey_key _ _ _ _ Hc) in Hb.
  rewrite (removeScreenshareFeed_found gc current before current after Hl Hb
             (sameKey_refl _ _)).
  by eexists.
Qed.

(** A call with a user id never fails to bring the registry up to date. *)
Lemma onCallFeedsChanged_returns gc call userId :
  getCallUserId (callHeap gc call) = Some userId →
  ∃ gc', onCallFeedsChanged call gc = (Ok tt, gc').
Proof.
  intros Hu. unfold onCallFeedsChanged.
  rewrite (bind_ok this _ gc gc gc eq_refl). cbv zeta. rewrite Hu.
  set (deviceId := MatrixCall.getOpponentDeviceId (callHeap gc call)).
  assert (H1 : ∃ gc1,
    match getUserMediaFeed gc userId deviceId,
          MatrixCall.remoteUsermediaFeed (callHeap gc call) with
    | None, Some remote => addUserMediaFeed remote
    | Some current, Some remote =>
        when (negb (bool_decide (remote = current)))
          (replaceUserMediaFeed current remote)
    | Some current, None => removeUserMediaFeed current
    | None, None => ret tt
    end gc = (Ok tt, gc1)).
  { destruct (getUserMediaFeed gc userId deviceId) as [current|] eqn:Ec,
      (MatrixCall.remoteUsermediaFeed (callHeap gc call)) as [remote|].
    - destruct (bool_decide (remote = current)); simpl; [by eexists|].
      by apply (replaceUserMediaFeed_returns gc userId deviceId).
    - by apply (removeUserMediaFeed_returns gc userId deviceId).
    - by eexists.
    - by eexists. }
  destruct H1 as [gc1 E1]. rewrite (bind_ok _ _ _ _ _ E1).
  rewrite (bind_ok this _ gc1 gc1 gc1 eq_refl).
  destruct (getScreenshareFeed gc1 userId deviceId) as [current|] eqn:Ec,
    (MatrixCall.remoteScreensharingFeed (callHeap gc1 call)) as [remote|].
  - destruct (bool_decide (remote = current)); simpl; [by eexists|].
    by apply (replaceScreenshareFeed_returns gc1 userId deviceId).
  - by apply (removeScreenshareFeed_returns gc1 userId deviceId).
  - by eexists.
  - by eexists.
Qed.

(** ** Handler table and call graph *)

Lemma onCallFeedsChanged_frames_callHandlers c : frames callHandlers (onCallFeedsChanged c).
Proof. unfold onCallFeedsChanged. solve_frames. Qed.

Lemma onCallFeedsChanged_frames_callHeap c : frames callHeap (onCallFeedsChanged c).
Proof. unfold onCallFeedsChanged. solve_frames. Qed.

Lemma onCallFeedsChanged_frames_calls c : frames calls (onCallFeedsChanged c).
Proof. unfold onCallFeedsChanged. solve_frames. Qed.

(** What [initCall] has done when it reaches its last statement *)
Lemma initCall_run gc call userId :
  getCallUserId (callHeap gc call) = Some userId →
  initCall call gc
  = onCallFeedsChanged call
      (set_trace
         (trace gc
          ++ [CallOn call CallEvent.FeedsChanged (OnCallFeedsChanged call);
              CallOn call CallEvent.State (OnCallStateChanged call);
              CallOn call CallEvent.Hangup OnCallHangup;
              CallOn call CallEvent.Replaced (OnCallReplaced call);
              ReEmit call])
         (set_callHeap
            (<[call := MatrixCall.set_isPtt (isPtt gc) (callHeap gc call)]> (callHeap gc))
            (set_callHandlers
               (<[userId := <[MatrixCall.getOpponentDeviceId (callHeap gc call)
                                := handlersOf call]>
                              (default ∅ (callHandlers gc !! userId))]>
                  (callHandlers gc))
               gc))).
Proof.
  intros Hu. unfold initCall. rewrite (bind_ok this _ gc gc gc eq_refl), Hu.
  cbv zeta. unfold perform, update_call.
  repeat (erewrite bind_ok; [|reflexivity]).
  f_equal. simpl. rewrite <- !app_assoc. simpl. by destruct gc.
Qed.

(** X4.  [initCall] throws, and changes nothing, exactly when the call has
    neither an opponent member nor an invitee.  Otherwise it never fails: the
    four closures of the call are stored under the user id and the device id
    of the opponent and subscribed on the call, the call takes over the
    push-to-talk mode, and the call graph is left alone. *)
Theorem initCall_stores_and_subscribes_the_handlers gc call :
  (getCallUserId (callHeap gc call) = None →
   initCall call gc = (Throw (Error "Cannot init call without user id"), gc))
  ∧ (∀ userId,
       getCallUserId (callHeap gc call) = Some userId →
       ∃ gc' t,
         initCall call gc = (Ok tt, gc')
         ∧ callHandlers gc'
           = <[userId := <[MatrixCall.getOpponentDeviceId (callHeap gc call)
                            := handlersOf call]>
                          (default ∅ (callHandlers gc !! userId))]>
               (callHandlers gc)
         ∧ callHeap gc'
           = <[call := MatrixCall.set_isPtt (isPtt gc) (callHeap gc call)]> (callHeap gc)
         ∧ calls gc' = calls gc
         ∧ trace gc'
           = trace gc
             ++ [CallOn call CallEvent.FeedsChanged (OnCallFeedsChanged call);
                 CallOn call CallEvent.State (OnCallStateChanged call);
                 CallOn call CallEvent.Hangup OnCallHangup;
                 CallOn call CallEvent.Replaced (OnCallReplaced call);
                 ReEmit call]
             ++ t).
Proof.
  split.
  - intros Hu. unfold initCall. by rewrite (bind_ok this _ gc gc gc eq_refl), Hu.
  - intros userId Hu. rewrite (initCall_run _ _ _ Hu).
    match goal with |- context [onCallFeedsChanged call ?g] => set (gc0 := g) end.
    destruct (onCallFeedsChanged_returns gc0 call userId) as [gc' E].
    { subst gc0. simpl. rewrite fn_lookup_insert.
      by destruct (callHeap gc call). }
    destruct (extends_run _ _ _ _ (onCallFeedsChanged_extends call) E) as [t Ht].
    exists gc', t. split; [exact E|].
    rewrite (frames_run _ _ _ _ _ (onCallFeedsChanged_frames_callHandlers call) E).
    rewrite (frames_run _ _ _ _ _ (onCallFeedsChanged_frames_callHeap call) E).
    rewrite (frames_run _ _ _ _ _ (onCallFeedsChanged_frames_calls call) E).
    rewrite Ht. subst gc0. simpl. by rewrite <- app_assoc.
Qed.

Lemma initCall_stores_and_subscribes_the_handlers_witness :
  ∃ gc', initCall 0%nat gc_a_b_hung_up = (Ok tt, gc')
         ∧ calls gc' = calls gc_a_b_hung_up.
Proof.
  destruct (proj2 (initCall_stores_and_subscribes_the_handlers gc_a_b_hung_up 0%nat)
              "@b:h") as (gc' & t & E & _ & _ & Hc & _).
  - vm_compute. reflexivity.
  - exists gc'. split; [exact E|exact Hc].
Defined.

Lemma handlersAfterDisposal_lookup gc userId deviceMap u d :
  callHandlers gc !! userId = Some deviceMap →
  handlersAfterDisposal gc userId deviceMap !! u ≫= (.!! d)
  = if bool_decide (u = userId ∧ d = userId) then None
    else callHandlers gc !! u ≫= (.!! d).
Proof.
  intros Hm. unfold handlersAfterDisposal.
  destruct (decide (u = userId)) as [->|Hu].
  - rewrite Hm. simpl. case_bool_decide as Hs.
    + apply map_size_empty_iff in Hs. rewrite lookup_delete_eq. simpl.
      case_bool_decide as Hd; [done|].
      assert (d ≠ userId) by (intros ->; by apply Hd).
      rewrite <- (lookup_delete_ne deviceMap userId d) by done. by rewrite Hs.
    + rewrite lookup_insert_eq. simpl. case_bool_decide as Hd.
      * destruct Hd as [_ ->]. apply lookup_delete_eq.
      * apply lookup_delete_ne. intros <-. by apply Hd.
  - rewrite (bool_decide_false (u = userId ∧ d = userId)) by (by intros [? _]).
    case_bool_decide; [by rewrite lookup_delete_ne|by rewrite lookup_insert_ne].
Qed.

Lemma disposeCall_frames_calls c r : frames calls (disposeCall c r).
Proof. unfold disposeCall. solve_frames. Qed.

Lemma disposeCall_frames_callHeap c r : frames callHeap (disposeCall c r).
Proof. unfold disposeCall. solve_frames. Qed.

Lemma removeUserMediaFeed_frames_callHandlers f :
  frames callHandlers (removeUserMediaFeed f).
Proof. unfold removeUserMediaFeed. solve_frames. Qed.

Lemma removeScreenshareFeed_frames_callHandlers f :
  frames callHandlers (removeScreenshareFeed f).
Proof. unfold removeScreenshareFeed. solve_frames. Qed.

(** [disposeCall] on a call whose handlers are in the table *)
Lemma disposeCall_returns gc call reason userId deviceMap handlers :
  getCallUserId (callHeap gc call) = Some userId →
  callHandlers gc !! userId = Some deviceMap →
  deviceMap !! MatrixCall.getOpponentDeviceId (callHeap gc call) = Some handlers →
  ∃ gc' t,
    disposeCall call reason gc = (Ok tt, gc')
    ∧ callHandlers gc' = handlersAfterDisposal gc userId deviceMap
    ∧ trace gc'
      = trace gc ++ unsubscribed call handlers
        ++ (if bool_decide (MatrixCall.hangupReason (callHeap gc call)
                            = Some CallErrorCode.Replaced)
            then []
            else (if bool_decide (MatrixCall.state (callHeap gc call) = CallState.Ended)
                  then [] else [CallHangup call reason false]) ++ t).
Proof.
  intros Hu Hm Hh. unfold disposeCall.
  rewrite (bind_ok this _ gc gc gc eq_refl). cbv zeta. rewrite Hu, Hm, Hh.
  unfold perform. repeat (erewrite bind_ok; [|reflexivity]).
  fold (handlersAfterDisposal gc userId deviceMap).
  destruct (bool_decide (MatrixCall.hangupReason (callHeap gc call)
                         = Some CallErrorCode.Replaced)).
  { eexists _, []. split; [reflexivity|]. split; [reflexivity|].
    simpl. by rewrite <- !app_assoc. }
  match goal with |- context [bind (when ?b ?m) ?k ?g] =>
    set (gc0 := g);
    assert (E0 : ∃ gc1, when b m gc0 = (Ok tt, gc1)
                        ∧ callHandlers gc1 = handlersAfterDisposal gc userId deviceMap
                        ∧ trace gc1 = trace gc ++ unsubscribed call handlers
                                      ++ (if negb b then [] else [CallHangup call reason false]))
  end.
  { subst gc0. destruct (bool_decide (MatrixCall.state (callHeap gc call) = CallState.Ended));
      simpl; eexists; (split; [reflexivity|]); (split; [reflexivity|]); simpl;
      rewrite <- !app_assoc; simpl; by rewrite ?app_nil_r. }
  destruct E0 as (gc1 & E1 & Hh1 & Ht1). rewrite (bind_ok _ _ _ _ _ E1).
  rewrite (bind_ok this _ gc1 gc1 gc1 eq_refl).
  set (deviceId := MatrixCall.getOpponentDeviceId (callHeap gc call)) in *.
  assert (E2 : ∃ gc2, match getUserMediaFeed gc1 userId deviceId with
                      | Some usermediaFeed => removeUserMediaFeed usermediaFeed
                      | None => ret tt
                      end gc1 = (Ok tt, gc2)
                      ∧ callHandlers gc2 = callHandlers gc1
                      ∧ ∃ t, trace gc2 = trace gc1 ++ t).
  { destruct (getUserMediaFeed gc1 userId deviceId) as [f|] eqn:Ef.
    - destruct (removeUserMediaFeed_returns _ _ _ _ Ef) as [gc2 E2].
      exists gc2. split; [exact E2|]. split.
      + apply (frames_run _ _ _ _ _ (removeUserMediaFeed_frames_callHandlers f) E2).
      + apply (extends_run _ _ _ _ (removeUserMediaFeed_extends f) E2).
    - exists gc1. split; [done|]. split; [done|]. exists []. by rewrite app_nil_r. }
  destruct E2 as (gc2 & E2 & Hh2 & t2 & Ht2). rewrite (bind_ok _ _ _ _ _ E2).
  rewrite (bind_ok this _ gc2 gc2 gc2 eq_refl).
  assert (E3 : ∃ gc3, match getScreenshareFeed gc2 userId deviceId with
                      | Some screenshareFeed => removeScreenshareFeed screenshareFeed
                      | None => ret tt
                      end gc2 = (Ok tt, gc3)
                      ∧ callHandlers gc3 = callHandlers gc2
                      ∧ ∃ t, trace gc3 = trace gc2 ++ t).
  { destruct (getScreenshareFeed gc2 userId deviceId) as [f|] eqn:Ef.
    - destruct (removeScreenshareFeed_returns _ _ _ _ Ef) as [gc3 E3].
      exists gc3. split; [exact E3|]. split.
      + apply (frames_run _ _ _ _ _ (removeScreenshareFeed_frames_callHandlers f) E3).
      + apply (extends_run _ _ _ _ (removeScreenshareFeed_extends f) E3).
    - exists gc2. split; [done|]. split; [done|]. exists []. by rewrite app_nil_r. }
  destruct E3 as (gc3 & E3 & Hh3 & t3 & Ht3).
  exists gc3, (t2 ++ t3). split; [exact E3|]. split; [congruence|].
  rewrite Ht3, Ht2, Ht1.
  destruct (bool_decide (MatrixCall.state (callHeap gc call) = CallState.Ended)); simpl;
    by rewrite <- !app_assoc.
Qed.

(** X5.  [disposeCall] throws, and changes nothing, when the call has no
    user id ([Error]) or when the handler table has no entry for the call
    ([TypeError]).  Otherwise it never fails: it removes from the call the
    four listeners that the table holds for it, and the call graph is left
    alone.  The entry that leaves the table is the one whose device id is the
    user id of the opponent; every other entry, that of the call included when
    its device id differs from the user id, stays. *)
Theorem disposeCall_unsubscribes_the_stored_handlers gc call reason :
  (getCallUserId (callHeap gc call) = None →
   disposeCall call reason gc
   = (Throw (Error "Cannot dispose call without user id"), gc))
  ∧ (∀ userId,
       getCallUserId (callHeap gc call) = Some userId →
       callHandlers gc !! userId
         ≫= (.!! MatrixCall.getOpponentDeviceId (callHeap gc call)) = None →
       disposeCall call reason gc = (Throw TypeError, gc))
  ∧ (∀ userId handlers,
       getCallUserId (callHeap gc call) = Some userId →
       callHandlers gc !! userId
         ≫= (.!! MatrixCall.getOpponentDeviceId (callHeap gc call)) = Some handlers →
       ∃ gc' t,
         disposeCall call reason gc = (Ok tt, gc')
         ∧ trace gc' = trace gc ++ unsubscribed call handlers ++ t
         ∧ calls gc' = calls gc
         ∧ ∀ u d,
             callHandlers gc' !! u ≫= (.!! d)
             = if bool_decide (u = userId ∧ d = userId) then None
               else callHandlers gc !! u ≫= (.!! d)).
Proof.
  split; [|split].
  - intros Hu. unfold disposeCall. by rewrite (bind_ok this _ gc gc gc eq_refl), Hu.
  - intros userId Hu Hn. unfold disposeCall.
    rewrite (bind_ok this _ gc gc gc eq_refl). cbv zeta. rewrite Hu.
    destruct (callHandlers gc !! userId) as [deviceMap|]; [|done].
    simpl in Hn. by rewrite Hn.
  - intros userId handlers Hu Hh.
    destruct (callHandlers gc !! userId) as [deviceMap|] eqn:Hm; [|done].
    simpl in Hh.
    destruct (disposeCall_returns gc call reason _ _ _ Hu Hm Hh) as (gc' & t & E & Ht & Htr).
    eexists gc', _. split; [exact E|]. split; [exact Htr|]. split.
    + apply (frames_run _ _ _ _ _ (disposeCall_frames_calls call reason) E).
    + intros u d. rewrite Ht. by apply handlersAfterDisposal_lookup.
Qed.

Lemma disposeCall_unsubscribes_the_stored_handlers_witness :
  ∃ gc', disposeCall 0%nat (Some CallErrorCode.UserHangup) gc_a_b_hung_up = (Ok tt, gc')
         ∧ calls gc' = calls gc_a_b_hung_up.
Proof.
  destruct (proj2 (proj2 (disposeCall_unsubscribes_the_stored_handlers gc_a_b_hung_up 0%nat
                            (Some CallErrorCode.UserHangup)))
              "@b:h" (handlersOf 0%nat)) as (gc' & t & E & _ & Hc & _).
  - vm_compute. reflexivity.
  - vm_compute. reflexivity.
  - exists gc'. split; [exact E|exact Hc].
Defined.

(** X6.  A call that [initCall] has accepted can be disposed of, and the
    four listeners that disposal removes are the four that [initCall]
    subscribed. *)
Theorem disposal_removes_the_listeners_of_initCall gc call reason userId :
  getCallUserId (callHeap gc call) = Some userId →
  ∃ gc' t1 t2,
    (initCall call ;; disposeCall call reason) gc = (Ok tt, gc')
    ∧ trace gc'
      = trace gc
        ++ [CallOn call CallEvent.FeedsChanged (OnCallFeedsChanged call);
            CallOn call CallEvent.State (OnCallStateChanged call);
            CallOn call CallEvent.Hangup OnCallHangup;
            CallOn call CallEvent.Replaced (OnCallReplaced call);
            ReEmit call]
        ++ t1
        ++ [CallRemoveListener call CallEvent.FeedsChanged (OnCallFeedsChanged call);
            CallRemoveListener call CallEvent.State (OnCallStateChanged call);
            CallRemoveListener call CallEvent.Hangup OnCallHangup;
            CallRemoveListener call CallEvent.Replaced (OnCallReplaced call)]
        ++ t2.
Proof.
  intros Hu. rewrite (bind_ok _ _ gc tt (initCall call gc).2).
  2: { rewrite (initCall_run _ _ _ Hu).
       match goal with |- context [onCallFeedsChanged call ?g] => set (gc0 := g) end.
       destruct (onCallFeedsChanged_returns gc0 call userId) as [gc1 E]; [|by rewrite E].
       subst gc0. simpl. rewrite fn_lookup_insert. by destruct (callHeap gc call). }
  rewrite (initCall_run _ _ _ Hu).
  match goal with |- context [onCallFeedsChanged call ?g] => set (gc0 := g) end.
  destruct (onCallFeedsChanged_returns gc0 call userId) as [gc1 E].
  { subst gc0. simpl. rewrite fn_lookup_insert. by destruct (callHeap gc call). }
  rewrite E. simpl.
  destruct (extends_run _ _ _ _ (onCallFeedsChanged_extends call) E) as [t1 Ht1].
  pose proof (frames_run _ _ _ _ _ (onCallFeedsChanged_frames_callHandlers call) E) as Hh1.
  pose proof (frames_run _ _ _ _ _ (onCallFeedsChanged_frames_callHeap call) E) as Hc1.
  assert (Hd : MatrixCall.getOpponentDeviceId (callHeap gc1 call)
               = MatrixCall.getOpponentDeviceId (callHeap gc call)).
  { rewrite Hc1. subst gc0. simpl. rewrite fn_lookup_insert.
    by destruct (callHeap gc call). }
  assert (Hu1 : getCallUserId (callHeap gc1 call) = Some userId).
  { rewrite Hc1. subst gc0. simpl. rewrite fn_lookup_insert.
    by destruct (callHeap gc call). }
  destruct (disposeCall_returns gc1 call reason userId
              (<[MatrixCall.getOpponentDeviceId (callHeap gc call) := handlersOf call]>
                 (default ∅ (callHandlers gc !! userId))) (handlersOf call) Hu1)
    as (gc' & t2 & E' & _ & Ht2).
  { rewrite Hh1. subst gc0. simpl. apply lookup_insert_eq. }
  { rewrite Hd. apply lookup_insert_eq. }
  eexists gc', t1, _. split; [exact E'|].
  rewrite Ht2, Ht1. subst gc0. simpl. rewrite <- !app_assoc. simpl. reflexivity.
Qed.

Lemma disposal_removes_the_listeners_of_initCall_witness :
  ∃ gc', (initCall 0%nat ;; disposeCall 0%nat None) gc_a_b_hung_up = (Ok tt, gc').
Proof.
  destruct (disposal_removes_the_listeners_of_initCall gc_a_b_hung_up 0%nat None "@b:h")
    as (gc' & t1 & t2 & E & _).
  - vm_compute. reflexivity.
  - exists gc'. exact E.
Defined.

Lemma lookup_default_empty {V} (m : gmap string (gmap string V)) (k d : string) :
  default ∅ (m !! k) !! d = m !! k ≫= (.!! d).
Proof. by destruct (m !! k). Qed.

Lemma initCall_frames_calls c : frames calls (initCall c).
Proof. unfold initCall. solve_frames. Qed.

Lemma initCall_returns gc call userId :
  getCallUserId (callHeap gc call) = Some userId →
  ∃ gc' t,
    initCall call gc = (Ok tt, gc')
    ∧ callHandlers gc'
      = <[userId := <[MatrixCall.getOpponentDeviceId (callHeap gc call) := handlersOf call]>
                      (default ∅ (callHandlers gc !! userId))]>
          (callHandlers gc)
    ∧ callHeap gc'
      = <[call := MatrixCall.set_isPtt (isPtt gc) (callHeap gc call)]> (callHeap gc)
    ∧ trace gc' = trace gc ++ t.
Proof.
  intros Hu. rewrite (initCall_run _ _ _ Hu).
  match goal with |- context [onCallFeedsChanged call ?g] => set (gc0 := g) end.
  destruct (onCallFeedsChanged_returns gc0 call userId) as [gc' E].
  { subst gc0. simpl. rewrite fn_lookup_insert. by destruct (callHeap gc call). }
  destruct (extends_run _ _ _ _ (onCallFeedsChanged_extends call) E) as [t Ht].
  eexists gc', _. split; [exact E|].
  rewrite (frames_run _ _ _ _ _ (onCallFeedsChanged_frames_callHandlers call) E).
  rewrite (frames_run _ _ _ _ _ (onCallFeedsChanged_frames_callHeap call) E).
  rewrite Ht. subst gc0. simpl. rewrite <- app_assoc. done.
Qed.



Lemma delete_slot_lookup {V} (m : gmap string (gmap string V)) (k d : string)
    (dm : gmap string V) (k' d' : string) :
  m !! k = Some dm →
  (if bool_decide (size (delete d dm) = 0%nat)
   then delete k m else <[k := delete d dm]> m) !! k' ≫= (.!! d')
  = if bool_decide (k' = k ∧ d' = d) then None else m !! k' ≫= (.!! d').
Proof.
  intros Hm. destruct (decide (k' = k)) as [->|Hk].
  - rewrite Hm. simpl. case_bool_decide as Hs.
    + apply map_size_empty_iff in Hs. rewrite lookup_delete_eq. simpl.
      case_bool_decide as Hd; [done|].
      assert (d' ≠ d) by (intros ->; by apply Hd).
      rewrite <- (lookup_delete_ne dm d d') by done. by rewrite Hs.
    + rewrite lookup_insert_eq. simpl. case_bool_decide as Hd.
      * destruct Hd as [_ ->]. apply lookup_delete_eq.
      * apply lookup_delete_ne. intros <-. by apply Hd.
  - rewrite (bool_decide_false (k' = k ∧ d' = d)) by (by intros [? _]).
    case_bool_decide; [by rewrite lookup_delete_ne|by rewrite lookup_insert_ne].
Qed.

Lemma delete_slot_nonempty {V} (m : gmap string (gmap string V)) (k d : string)
    (dm : gmap string V) :
  (if bool_decide (size (delete d dm) = 0%nat)
   then delete k m else <[k := delete d dm]> m) !! k ≠ Some ∅.
Proof.
  case_bool_decide as Hs.
  - by rewrite lookup_delete_eq.
  - rewrite lookup_insert_eq. intros [= He]. apply Hs. by rewrite He.
Qed.

(** X8.  A hangup of a call that was replaced, or of a call that its slot of
    the graph does not hold, changes nothing.  The hangup of the call that the
    slot holds disposes of the call, empties the slot and no other, leaves no
    empty device map behind, and emits [CallsChanged]. *)
Theorem hangup_empties_the_slot_of_the_call gc call :
  let deviceId := MatrixCall.getOpponentDeviceId (callHeap gc call) in
  (MatrixCall.hangupReason (callHeap gc call) = Some CallErrorCode.Replaced →
   onCallHangup call gc = (Ok tt, gc))
  ∧ (hangupOpponent gc call ≫= (λ opponent, callOf gc opponent deviceId) ≠ Some call →
     onCallHangup call gc = (Ok tt, gc))
  ∧ (∀ opponent userId handlers,
       MatrixCall.hangupReason (callHeap gc call) ≠ Some CallErrorCode.Replaced →
       hangupOpponent gc call = Some opponent →
       callOf gc opponent deviceId = Some call →
       getCallUserId (callHeap gc call) = Some userId →
       callHandlers gc !! userId ≫= (.!! deviceId) = Some handlers →
       ∃ gc' t,
         onCallHangup call gc = (Ok tt, gc')
         ∧ (∀ member d,
              callOf gc' member d
              = if bool_decide (member = opponent ∧ d = deviceId) then None
                else callOf gc member d)
         ∧ calls gc' !! opponent ≠ Some ∅
         ∧ trace gc'
           = trace gc ++ unsubscribed call handlers ++ t
             ++ [Emit GroupCallEvent.CallsChanged]).
Proof.
  intros deviceId. unfold onCallHangup.
  rewrite (bind_ok this _ gc gc gc eq_refl). cbv zeta.
  fold (hangupOpponent gc call). fold deviceId.
  split; [|split].
  - intros Hr. by rewrite bool_decide_true.
  - intros Hn. destruct (bool_decide _); [done|].
    destruct (hangupOpponent gc call) as [opponent|]; [|done]. simpl in *.
    unfold callOf in Hn.
    destruct (calls gc !! opponent) as [deviceMap|]; [|done]. simpl in *.
    by rewrite bool_decide_false.
  - intros opponent userId handlers Hr Ho Hslot Hu Hh.
    rewrite bool_decide_false by done. rewrite Ho. simpl.
    unfold callOf in Hslot.
    destruct (calls gc !! opponent) as [deviceMap|] eqn:Hm; [|done]. simpl in Hslot.
    rewrite bool_decide_true by done. simpl.
    destruct (callHandlers gc !! userId) as [handlerMap|] eqn:Hhm; [|done].
    simpl in Hh.
    destruct (disposeCall_returns gc call (MatrixCall.hangupReason (callHeap gc call))
                _ _ _ Hu Hhm Hh) as (gc1 & t1 & E1 & _ & Ht1).
    rewrite (bool_decide_false (_ = Some CallErrorCode.Replaced)) in Ht1 by done.
    rewrite (bind_ok _ _ _ _ _ E1).
    pose proof (frames_run _ _ _ _ _ (disposeCall_frames_calls _ _) E1) as Hc1.
    eexists _, ((if bool_decide (MatrixCall.state (callHeap gc call) = CallState.Ended)
                 then [] else [CallHangup call (MatrixCall.hangupReason (callHeap gc call))
                                 false]) ++ t1).
    split; [reflexivity|]. simpl. rewrite Hc1. split; [|split].
    + intros member d. unfold callOf. simpl. by apply delete_slot_lookup.
    + apply delete_slot_nonempty.
    + rewrite Ht1. by rewrite <- !app_assoc.
Qed.

Lemma hangup_empties_the_slot_of_the_call_witness :
  ∃ gc', onCallHangup 0%nat gc_a_b_hung_up = (Ok tt, gc')
         ∧ callOf gc' "@b:h" "DB" = None.
Proof.
  destruct (proj2 (proj2 (hangup_empties_the_slot_of_the_call gc_a_b_hung_up 0%nat))
              "@b:h" "@b:h" (handlersOf 0%nat)) as (gc' & t & E & Hs & _).
  - vm_compute. discriminate.
  - vm_compute. reflexivity.
  - vm_compute. reflexivity.
  - vm_compute. reflexivity.
  - vm_compute. reflexivity.
  - exists gc'. split; [exact E|]. rewrite Hs.
    rewrite bool_decide_true; [reflexivity|].
    split; [reflexivity|vm_compute; reflexivity].
Defined.

(** ** Local echo as an observer sees it *)

Lemma updateParticipants_frames_room now : frames room (updateParticipants now).
Proof.
  unfold updateParticipants, setter_participants, onParticipantsChanged,
    placeOutgoingCalls, createNewMatrixCall, initCall, disposeCall, onCallFeedsChanged.
  solve_frames.
Qed.

Lemma updateParticipants_frames_client now : frames client (updateParticipants now).
Proof.
  unfold updateParticipants, setter_participants, onParticipantsChanged,
    placeOutgoingCalls, createNewMatrixCall, initCall, disposeCall, onCallFeedsChanged.
  solve_frames.
Qed.

(** The view that a recomputation stores tells whether the local device is
    considered entered. *)
Lemma hasLocalParticipant_updateParticipants gc now :
  wellFormedRoomState gc →
  hasLocalParticipant (updateParticipants now gc).2
  = considersEntered gc && negb (bool_decide (state gc = GroupCallState.Ended)).
Proof.
  intros Hwf. unfold hasLocalParticipant.
  rewrite !updateParticipants_frames_room, !updateParticipants_frames_client.
  destruct (decide (state gc = GroupCallState.Ended)) as [He|He].
  { rewrite (proj1 (updateParticipants_participants gc now) He).
    rewrite bool_decide_true by done. rewrite andb_false_r.
    destruct (Room.getMember _ _); [|done]. by rewrite lookup_empty. }
  rewrite (bool_decide_false _ He), andb_true_r.
  destruct (collectParticipants_returns gc now Hwf) as (view & ne & Hc).
  rewrite (proj2 (updateParticipants_participants gc now) view ne He Hc).
  destruct (collectParticipants_view _ _ _ _ Hc) as (v0 & Hv0 & [[Hn ->]|[Hy ->]]).
  - rewrite Hn.
    destruct (Room.getMember _ _) as [member|] eqn:Em; [|done].
    rewrite (getMember_userId _ _ _ Em). apply bool_decide_false. intros [ps Hps].
    destruct (proj1 (events_view _ _ _ _ Hv0) _ _ _ Hps) as (_ & Hs & _).
    apply Hs. split; [exact Hn|by split].
  - rewrite Hy. destruct Hwf as [_ Hm]. destruct (Hm Hy) as [ms Hms].
    unfold Room.getMember. rewrite Hms. simpl. apply bool_decide_true.
    rewrite lookup_insert_eq. simpl. case_bool_decide as Hd; [done|].
    rewrite lookup_insert_eq. eauto.
Qed.

(** X9.  After a recomputation of the view, [hasLocalParticipant] tells
    whether the local device counts as entered: always [false] once the call
    has ended, and otherwise [true] exactly in state [Entered] or when the
    device has entered via another session.  Assigning
    [enteredViaAnotherSession] recomputes the view, so that the answer follows
    the assignment at once. *)
Theorem hasLocalParticipant_follows_the_entered_state gc now :
  (∀ userId content,
     Room.memberStateEvents (room gc) !! userId = Some content →
     nullFree (JObj content) = true) →
  is_Some (Room.memberships (room gc) !! MatrixClient.getUserId (client gc)) →
  hasLocalParticipant (updateParticipants now gc).2
  = considersEntered gc && negb (bool_decide (state gc = GroupCallState.Ended))
  ∧ ∀ value,
      hasLocalParticipant (setter_enteredViaAnotherSession value now gc).2
      = (bool_decide (state gc = GroupCallState.Entered) || value)
        && negb (bool_decide (state gc = GroupCallState.Ended)).
Proof.
  intros Hnull Hmember. split.
  - apply hasLocalParticipant_updateParticipants. by split.
  - intros value. unfold setter_enteredViaAnotherSession.
    rewrite (bind_ok _ _ gc tt (set_enteredViaAnotherSession value gc) eq_refl).
    rewrite hasLocalParticipant_updateParticipants; [done|]. by split.
Qed.

Lemma hasLocalParticipant_follows_the_entered_state_witness :
  hasLocalParticipant (updateParticipants 0 gc_a_entered).2 = true.
Proof.
  refine (proj1 (hasLocalParticipant_follows_the_entered_state gc_a_entered 0 _ _)).
  - intros userId content H.
    assert (Hl : (userId, content)
                 ∈ map_to_list (Room.memberStateEvents (room gc_a_entered)))
      by (by apply elem_of_map_to_list).
    vm_compute in Hl. apply list_elem_of_singleton in Hl. by injection Hl as -> ->.
  - vm_compute. eauto.
Defined.

(** ** What a device publishes is what the others read *)

Lemma find_res_skip {A} (p : A → Res bool) (xs ys : list A) :
  Forall (λ x, p x = Ok false) xs → find_res p (xs ++ ys) = find_res p ys.
Proof. induction 1 as [|x xs Hx _ IH]; simpl; [done|]. by rewrite Hx. Qed.

Lemma filter_res_elem {A} (p : A → Res bool) (xs ys : list A) :
  filter_res p xs = Ok ys → ∀ y, y ∈ ys → y ∈ xs ∧ p y = Ok true.
Proof.
  revert ys. induction xs as [|x xs IH]; intros ys; simpl.
  - intros [= <-] y Hy. by apply elem_of_nil in Hy.
  - destruct (p x) as [b|e] eqn:E; simpl; [|done].
    destruct (filter_res p xs) as [rest|e]; simpl; [|done].
    intros [= <-] y Hy. destruct b.
    + apply elem_of_cons in Hy. destruct Hy as [->|Hy].
      * split; [left|done].
      * destruct (IH _ eq_refl y Hy). split; [by right|done].
    + destruct (IH _ eq_refl y Hy). split; [by right|done].
Qed.

Lemma filter_as_res_Forall {A B} (f : A → Res (option B)) (P : B → Prop) (xs : list A) :
  Forall (λ x, ∃ o, f x = Ok o ∧ ∀ y, o = Some y → P y) xs →
  ∃ ys, filter_as_res f xs = Ok ys ∧ Forall P ys.
Proof.
  induction 1 as [|x xs (o & Hx & HP) _ (ys & IH & HF)]; simpl; [by exists []|].
  rewrite Hx, IH. simpl. destruct o as [y|]; eexists; (split; [reflexivity|]); [|done].
  constructor; [by apply HP|done].
Qed.

Lemma filter_as_res_snoc {A B} (f : A → Res (option B)) (xs : list A) (x : A)
    (ys : list B) (y : B) :
  filter_as_res f xs = Ok ys → f x = Ok (Some y) →
  filter_as_res f (xs ++ [x]) = Ok (ys ++ [y]).
Proof.
  revert ys. induction xs as [|x0 xs IH]; intros ys; simpl.
  - intros [= <-] ->. done.
  - destruct (f x0) as [o|e]; simpl; [|done].
    destruct (filter_as_res f xs) as [rest|e]; simpl; [|done].
    intros [= <-] Hx. rewrite (IH rest eq_refl Hx). simpl. by destruct o.
Qed.

(** A device that was valid at one time is read without error at any other
    time, under the same device id. *)
Lemma validDevice_later now t d :
  isValidDevice now d = Ok true →
  ∃ o, validDevice t d = Ok o
       ∧ ∀ dev, o = Some dev → field d "device_id" = Some (JStr (device_id dev)).
Proof.
  unfold isValidDevice.
  destruct (validDevice now d) as [[dev0|]|e] eqn:E; simpl; try done.
  intros _. apply validDevice_Some in E as (H1 & H2 & H3 & _ & H5).
  unfold validDevice. rewrite H1, H2, H3, H5. simpl.
  destruct (t <? expires_ts dev0)%Z; eexists; (split; [reflexivity|]); [|done].
  intros dev [= <-]. simpl. by rewrite <- (prop_ok _ _ _ H1).
Qed.

(** The screen-sharing bit that a reader derives from the feeds that a device
    advertises is the bit of the local feeds of this device. *)
Lemma advertised_screensharing gc (feeds : list FeedRef) :
  some_res isScreenshareFeed (advertisedFeed gc <$> feeds) = Ok (existsb (isScreenshare gc) feeds).
Proof.
  induction feeds as [|f feeds IH]; simpl; [done|].
  unfold isScreenshareFeed at 1, isScreenshare at 1. simpl.
  destruct (CallFeed.purpose (feedHeap gc f)); simpl; [exact IH|done].
Qed.

Lemma deviceMapOf_snoc validDevices dev acc dm ne :
  deviceMapOf (validDevices ++ [dev]) acc = Ok (dm, ne) →
  ∃ screensharing,
    some_res isScreenshareFeed (feeds dev) = Ok screensharing
    ∧ dm !! device_id dev = Some (mkParticipantState (session_id dev) screensharing).
Proof.
  revert acc. induction validDevices as [|d rest IH]; intros acc; simpl.
  - destruct (some_res isScreenshareFeed (feeds dev)) as [b|e]; simpl; [|done].
    intros [= <- <-]. exists b. split; [done|]. apply lookup_insert_eq.
  - destruct (some_res isScreenshareFeed (feeds d)) as [b|e]; simpl; [|done]. apply IH.
Qed.

Lemma readMemberState_facts gc now call otherCalls validDevices :
  (∀ content,
     Room.memberStateEvents (room gc) !! MatrixClient.getUserId (client gc) = Some content →
     nullFree (JObj content) = true) →
  readMemberState gc now = Ok (call, otherCalls, validDevices) →
  Forall (λ c, (id <~ prop c "m.call_id"; Ok (isString id (groupCallId gc)))%res = Ok false)
    otherCalls
  ∧ Forall (λ d, isValidDevice now d = Ok true) validDevices.
Proof.
  intros Hnull Hread. split.
  - rewrite (readMemberState_ok _ _ _ _ _ Hread). apply Forall_forall.
    intros c Hc. apply list_elem_of_In, List.filter_In in Hc as [Hin Hne].
    apply list_elem_of_In in Hin. unfold storedCalls in Hin.
    set (content := default [] (Room.memberStateEvents (room gc)
                                  !! MatrixClient.getUserId (client gc))) in *.
    assert (Hc : nullFree (JObj content) = true).
    { subst content. destruct (Room.memberStateEvents (room gc) !! _); [by apply Hnull|done]. }
    assert (Hn : nullFree c = true).
    { assert (HF : Forall (λ y, nullFree y = true) (arrayOrEmpty (assoc "m.calls" content))).
      { apply nullFree_items. intros y Hy. by apply (nullFree_field (JObj content) "m.calls"). }
      by apply (proj1 (Forall_forall _ _) HF). }
    rewrite nullFree_prop by done. simpl. f_equal.
    unfold isOurEntry in Hne. by apply negb_true_iff in Hne.
  - apply Forall_forall. intros d Hd. revert Hread. unfold readMemberState.
    destruct (partitionCalls _ _ _ _) as [r|e]; simpl; [|done].
    destruct (prop _ "m.devices") as [devices|e]; simpl; [|done].
    destruct (filter_res _ _) as [vds|e] eqn:E; simpl; [|done].
    intros [= _ _ <-]. by apply (filter_res_elem _ _ _ E).
Qed.

Lemma addDeviceToMemberState_run gc now now' call otherCalls validDevices :
  readMemberState gc now = Ok (call, otherCalls, validDevices) →
  addDeviceToMemberState now now' gc
  = (Ok tt,
     set_trace
       (trace gc ++
        [SendStateEvent (Room.roomId (room gc)) EventType.GroupCallMemberPrefix
           (JObj [("m.calls",
                   JArr (otherCalls ++
                         [JObj (obj_set "m.devices"
                                  (JArr (List.filter
                                           (isNotDevice (MatrixClient.getDeviceId (client gc)))
                                           validDevices
                                         ++ [localAdvertisement gc now']))
                                  (obj_set "m.call_id" (JStr (groupCallId gc))
                                     (ownProperties call)))]))])
           (MatrixClient.getUserId (client gc)) false]) gc).
Proof.
  intros Hread. unfold addDeviceToMemberState.
  rewrite (bind_ok this _ gc gc gc eq_refl).
  rewrite (updateDevices_run _ _ _ _ _ _ _ Hread). unfold withLocalDevice.
  by rewrite bool_decide_true by (rewrite length_app; simpl; lia).
Qed.

(** What a reader finds in the content that [addDeviceToMemberState] writes:
    the devices that stay after its filters end with the local device of the
    publisher, and no other of them has the device id of the publisher. *)
Lemma published_devices_read gc now' reader t call otherCalls validDevices now :
  groupCallId reader = groupCallId gc →
  Forall (λ c, (id <~ prop c "m.call_id"; Ok (isString id (groupCallId gc)))%res = Ok false)
    otherCalls →
  Forall (λ d, isValidDevice now d = Ok true) validDevices →
  (t < now' + DEVICE_TIMEOUT)%Z →
  localIds reader ≠ localIds gc →
  ∃ others,
    remainingDevices reader t (MatrixClient.getUserId (client gc))
      [("m.calls",
        JArr (otherCalls ++
              [JObj (obj_set "m.devices"
                       (JArr (List.filter
                                (isNotDevice (MatrixClient.getDeviceId (client gc)))
                                validDevices
                              ++ [localAdvertisement gc now']))
                       (obj_set "m.call_id" (JStr (groupCallId gc))
                          (ownProperties call)))]))]
    = Ok (others
          ++ [mkDevice (MatrixClient.getDeviceId (client gc))
                (MatrixClient.getSessionId (client gc)) (now' + DEVICE_TIMEOUT)
                (advertisedFeed gc <$> getLocalFeeds gc)])
    ∧ Forall (λ dev, device_id dev ≠ MatrixClient.getDeviceId (client gc)) others.
Proof.
  intros Hgid Hothers Hvalid Ht Hids. unfold remainingDevices, advertisedDevices.
  rewrite Hgid. simpl assoc. cbv beta iota. simpl arrayOrEmpty.
  rewrite (find_res_skip _ _ _ Hothers). simpl find_res.
  rewrite assoc_obj_set_ne by done. rewrite assoc_obj_set_eq. simpl.
  rewrite String.eqb_refl. simpl. rewrite assoc_obj_set_eq. simpl.
  destruct (filter_as_res_Forall (validDevice t)
              (λ dev, device_id dev ≠ MatrixClient.getDeviceId (client gc))
              (List.filter (isNotDevice (MatrixClient.getDeviceId (client gc))) validDevices))
    as (others & Ho & HF).
  { apply Forall_forall. intros d Hd.
    apply list_elem_of_In, List.filter_In in Hd as [Hin Hne].
    apply list_elem_of_In in Hin.
    destruct (validDevice_later now t d) as (o & Hv & Hid).
    { by apply (proj1 (Forall_forall _ _) Hvalid). }
    exists o. split; [done|]. intros dev -> Heq.
    unfold isNotDevice in Hne. rewrite (Hid dev eq_refl), Heq in Hne. simpl in Hne.
    by rewrite String.eqb_refl in Hne. }
  rewrite (filter_as_res_snoc _ _ _ _
             (mkDevice (MatrixClient.getDeviceId (client gc))
                (MatrixClient.getSessionId (client gc)) (now' + DEVICE_TIMEOUT)
                (advertisedFeed gc <$> getLocalFeeds gc)) Ho).
  2: { unfold validDevice, localAdvertisement. simpl.
       by rewrite (proj2 (Z.ltb_lt _ _) Ht). }
  simpl. destruct (suppresses reader (MatrixClient.getUserId (client gc))) eqn:Es.
  - exists (List.filter (λ d, negb (String.eqb (device_id d)
                                       (MatrixClient.getDeviceId (client reader)))) others).
    split.
    + rewrite List.filter_app. simpl.
      apply suppresses_true in Es as (_ & Hu & _).
      destruct (String.eqb_spec (MatrixClient.getDeviceId (client gc))
                  (MatrixClient.getDeviceId (client reader))) as [Hd|Hd]; [|done].
      exfalso. apply Hids. unfold localIds. by rewrite Hu, Hd.
    + apply Forall_forall. intros dev Hd.
      apply list_elem_of_In, List.filter_In in Hd as [Hin _].
      apply list_elem_of_In in Hin. by apply (proj1 (Forall_forall _ _) HF).
  - by exists others.
Qed.

(** X10.  What a device publishes is what the others read.  The member state
    that [addDeviceToMemberState] writes, once it is the member-state event of
    the publisher in the room of another device of the call, puts the publisher
    into the participant view of that device for as long as the advertisement
    has not expired: when the call of the reader has not ended, the publisher
    is joined in its room and its room state is well formed, then after
    [updateParticipants] its view holds the publisher under the device id of
    the publisher, with its session id and with the screen-sharing bit of its
    local feeds. *)
Theorem published_device_is_read_back gc now now' :
  (∀ content,
     Room.memberStateEvents (room gc) !! MatrixClient.getUserId (client gc) = Some content →
     nullFree (JObj content) = true) →
  ∃ content,
    addDeviceToMemberState now now' gc
    = (Ok tt,
       set_trace
         (trace gc ++
          [SendStateEvent (Room.roomId (room gc)) EventType.GroupCallMemberPrefix
             (JObj content) (MatrixClient.getUserId (client gc)) false]) gc)
    ∧ ∀ reader t,
        groupCallId reader = groupCallId gc →
        localIds reader ≠ localIds gc →
        Room.memberStateEvents (room reader) !! MatrixClient.getUserId (client gc)
        = Some content →
        isJoined reader (MatrixClient.getUserId (client gc)) →
        (t < now' + DEVICE_TIMEOUT)%Z →
        wellFormedRoomState reader →
        state reader ≠ GroupCallState.Ended →
        participants (updateParticipants t reader).2
          !! MatrixClient.getUserId (client gc)
          ≫= (.!! MatrixClient.getDeviceId (client gc))
        = Some (localParticipantState gc).
Proof.
  intros Hnull.
  destruct (readMemberState_returns gc now Hnull) as (call & otherCalls & validDevices & Hread).
  destruct (readMemberState_facts _ _ _ _ _ Hnull Hread) as [Hothers Hvalid].
  eexists. split; [by apply (addDeviceToMemberState_run _ _ _ _ _ _ Hread)|].
  intros reader t Hgid Hids Hevent Hjoined Ht Hwf Hstate.
  destruct (collectParticipants_returns reader t Hwf) as (view & ne & Hc).
  rewrite (proj2 (updateParticipants_participants reader t) view ne Hstate Hc).
  destruct (published_devices_read gc now' reader t call otherCalls validDevices now
              Hgid Hothers Hvalid Ht Hids) as (others & Hrem & HF).
  destruct (collectParticipants_view _ _ _ _ Hc) as (v0 & Hv0 & Hview).
  pose proof (participantsOfEvents_lookup _ _ _ _ _ _
                (NoDup_fst_map_to_list (Room.memberStateEvents (room reader))) Hv0
                (MatrixClient.getUserId (client gc))) as [_ Hl].
  destruct (Hl _ (proj2 (elem_of_map_to_list _ _ _) Hevent)) as (vds & Hrem' & Hcase).
  rewrite Hrem in Hrem'. injection Hrem' as <-.
  destruct Hcase as [(_ & _ & dm & ne0 & ne' & Hdm & Hv)|[Hn _]].
  2: { exfalso. apply Hn. split; [|done]. by destruct others. }
  destruct (deviceMapOf_snoc _ _ _ _ _ Hdm) as (b & Hb & Hentry). simpl in Hb, Hentry.
  rewrite advertised_screensharing in Hb. injection Hb as <-.
  assert (H0 : v0 !! MatrixClient.getUserId (client gc)
                 ≫= (.!! MatrixClient.getDeviceId (client gc))
               = Some (localParticipantState gc)) by (by rewrite Hv).
  destruct Hview as [[_ ->]|[_ ->]]; [done|].
  destruct (decide (MatrixClient.getUserId (client reader)
                    = MatrixClient.getUserId (client gc))) as [Hu|Hu].
  - rewrite Hu, lookup_insert_eq. simpl. rewrite Hv. simpl.
    case_bool_decide; [done|]. rewrite lookup_insert_ne; [done|].
    intros Hd. apply Hids. unfold localIds. by rewrite Hu, Hd.
  - by rewrite lookup_insert_ne.
Qed.

Lemma published_device_is_read_back_witness :
  ∃ content,
    addDeviceToMemberState 0 0 gc_a_entered
    = (Ok tt,
       set_trace
         (trace gc_a_entered ++
          [SendStateEvent "!r" EventType.GroupCallMemberPrefix (JObj content) "@a:h" false])
         gc_a_entered)
    ∧ participants (updateParticipants 1000 (gc_b_reading content)).2
        !! "@a:h" ≫= (.!! "DA")
      = Some (mkParticipantState "sa" false).
Proof.
  destruct (published_device_is_read_back gc_a_entered 0 0) as (content & E & Hread).
  - intros content H. vm_compute in H. discriminate H.
  - assert (Hc : content
                 = [("m.calls",
                     JArr [JObj [("m.call_id", JStr "G");
                                 ("m.devices",
                                  JArr [JObj [("device_id", JStr "DA");
                                              ("session_id", JStr "sa");
                                              ("expires_ts", JNum 3600000);
                                              ("feeds",
                                               JArr [JObj [("purpose",
                                                            JStr "m.usermedia")]])]])]])]).
    { vm_compute in E. by injection E as ->. }
    pose proof (Hread (gc_b_reading content) 1000%Z) as Hentry.
    exists content. split; [exact E|]. apply Hentry.
    + reflexivity.
    + vm_compute. discriminate.
    + unfold gc_b_reading. simpl. apply lookup_singleton_eq.
    + vm_compute. reflexivity.
    + vm_compute. reflexivity.
    + split; [|by vm_compute].
      intros userId c H. unfold gc_b_reading in H. simpl in H.
      apply lookup_singleton_Some in H as [_ <-]. rewrite Hc. reflexivity.
    + vm_compute. discriminate.
Defined.

(** ** What a write carries *)

Lemma writtenDevices_event gid roomId (otherCalls : list json) call newDevices stateKey
    keepAlive :
  Forall (λ c, isString (field c "m.call_id") gid = false) otherCalls →
  writtenDevices gid
    (SendStateEvent roomId EventType.GroupCallMemberPrefix
       (JObj [("m.calls",
               JArr (otherCalls ++
                     (if bool_decide (0 < length newDevices)%nat
                      then [JObj (obj_set "m.devices" (JArr newDevices)
                                    (obj_set "m.call_id" (JStr gid) (ownProperties call)))]
                      else [])))])
       stateKey keepAlive)
  = newDevices.
Proof.
  intros Hothers. simpl. rewrite bind_app.
  assert (H0 : (otherCalls ≫= λ entry,
                  if isString (field entry "m.call_id") gid
                  then arrayOrEmpty (field entry "m.devices") else []) = []).
  { induction Hothers as [|c rest Hc _ IH]; [done|]. by rewrite bind_cons, Hc, IH. }
  rewrite H0. simpl. case_bool_decide as Hl.
  - simpl. rewrite assoc_obj_set_ne by done. rewrite assoc_obj_set_eq. simpl.
    rewrite String.eqb_refl, assoc_obj_set_eq. simpl. apply app_nil_r.
  - destruct newDevices; [done|]. simpl in Hl. lia.
Qed.

(** The devices that a run of [updateDevices] writes for this call are the
    devices that the callback returned. *)
Lemma updateDevices_written gc fn keepAlive now call otherCalls validDevices :
  readMemberState gc now = Ok (call, otherCalls, validDevices) →
  ∃ gc', updateDevices fn keepAlive now gc = (Ok tt, gc')
         ∧ ∀ e d, e ∈ drop (length (trace gc)) (trace gc') →
                  d ∈ writtenDevices (groupCallId gc) e →
                  ∃ newDevices, fn validDevices = Some newDevices ∧ d ∈ newDevices.
Proof.
  intros Hread. rewrite (updateDevices_run _ _ _ _ _ _ _ Hread).
  destruct (fn validDevices) as [newDevices|].
  - eexists. split; [reflexivity|]. intros e d. simpl.
    rewrite drop_app_length. intros ->%list_elem_of_singleton.
    rewrite writtenDevices_event; [by eauto|].
    rewrite (readMemberState_ok _ _ _ _ _ Hread). apply Forall_forall.
    intros c Hc. apply list_elem_of_In, List.filter_In in Hc as [_ Hc].
    by apply negb_true_iff in Hc.
  - eexists. split; [reflexivity|]. intros e d. rewrite drop_all.
    by intros ?%elem_of_nil.
Qed.

(** X11.  No write of the member state carries a stale device.  Whether the
    local device is added, removed, or the member state cleaned, every device
    that the written entry of this call holds passes the validation at the
    time of the write: the malformed and the expired devices of the stored
    entry are dropped.  The removal, moreover, writes no device with the device
    id of the local device. *)
Theorem writes_carry_only_valid_devices gc now now' myDevices :
  (∀ content,
     Room.memberStateEvents (room gc) !! MatrixClient.getUserId (client gc) = Some content →
     nullFree (JObj content) = true) →
  (now ≤ now')%Z →
  (∃ gc', addDeviceToMemberState now now' gc = (Ok tt, gc')
          ∧ carriesOnlyValidDevices gc now gc')
  ∧ (∃ gc', updateDevices (withoutLocalDevice gc) true now gc = (Ok tt, gc')
            ∧ carriesOnlyValidDevices gc now gc'
            ∧ carriesNoDevice gc (MatrixClient.getDeviceId (client gc)) gc')
  ∧ (∃ gc', cleanMemberState myDevices now gc = (Ok tt, gc')
            ∧ carriesOnlyValidDevices gc now gc').
Proof.
  intros Hnull Hclock.
  destruct (readMemberState_returns gc now Hnull) as (call & otherCalls & validDevices & Hread).
  destruct (readMemberState_facts _ _ _ _ _ Hnull Hread) as [_ Hvalid].
  pose proof (proj1 (Forall_forall _ _) Hvalid) as Hv.
  split; [|split].
  - unfold addDeviceToMemberState. rewrite (bind_ok this _ gc gc gc eq_refl).
    destruct (updateDevices_written gc (withLocalDevice gc now') false now _ _ _ Hread)
      as (gc' & E & Hw).
    exists gc'. split; [exact E|]. intros e d He Hd.
    destruct (Hw e d He Hd) as (newDevices & [= <-] & Hin).
    apply elem_of_app in Hin as [Hin | ->%list_elem_of_singleton].
    + apply list_elem_of_In, List.filter_In in Hin as [Hin _].
      by apply Hv, list_elem_of_In.
    + unfold isValidDevice, validDevice. simpl.
      rewrite (proj2 (Z.ltb_lt now (now' + DEVICE_TIMEOUT))); [done|].
      unfold DEVICE_TIMEOUT. lia.
  - destruct (updateDevices_written gc (withoutLocalDevice gc) true now _ _ _ Hread)
      as (gc' & E & Hw).
    exists gc'. split; [exact E|]. split.
    + intros e d He Hd. destruct (Hw e d He Hd) as (newDevices & [= <-] & Hin).
      apply list_elem_of_In, List.filter_In in Hin as [Hin _].
      by apply Hv, list_elem_of_In.
    + intros e d He Hd Heq. destruct (Hw e d He Hd) as (newDevices & [= <-] & Hin).
      apply list_elem_of_In, List.filter_In in Hin as [_ Hne].
      unfold isNotDevice in Hne. rewrite Heq in Hne. simpl in Hne.
      by rewrite String.eqb_refl in Hne.
  - unfold cleanMemberState. rewrite (bind_ok this _ gc gc gc eq_refl).
    destruct (updateDevices_written gc (withoutUnknownDevices gc (myDeviceMap myDevices))
                false now _ _ _ Hread) as (gc' & E & Hw).
    exists gc'. split; [exact E|]. intros e d He Hd.
    destruct (Hw e d He Hd) as (newDevices & Hfn & Hin).
    unfold withoutUnknownDevices in Hfn. case_bool_decide; [done|].
    injection Hfn as <-.
    apply list_elem_of_In, List.filter_In in Hin as [Hin _].
    by apply Hv, list_elem_of_In.
Qed.

(** The second device [DX] of [@a:h] expired at time 1000: at time 2000 the
    device [DA] publishes itself, and [DX] is gone from the member state. *)
Lemma writes_carry_only_valid_devices_witness :
  ∃ gc', addDeviceToMemberState 2000 2000 gc_a_with_DX = (Ok tt, gc')
         ∧ carriesOnlyValidDevices gc_a_with_DX 2000 gc'
         ∧ carriesNoDevice gc_a_with_DX "DX" gc'.
Proof.
  destruct (proj1 (writes_carry_only_valid_devices gc_a_with_DX 2000 2000 []
                     ltac:(intros content H; vm_compute in H; by injection H as <-)
                     ltac:(lia)))
    as (gc' & E & Hv).
  exists gc'. split; [exact E|]. split; [exact Hv|].
  intros e d He Hd Heq. specialize (Hv e d He Hd).
  assert (Hx : isValidDevice 2000 d = Ok false); [|congruence].
  unfold isValidDevice, validDevice.
  destruct d as [| | | | |fields]; try done. simpl in *. rewrite Heq. simpl.
  revert Hv. unfold isValidDevice, validDevice. simpl. rewrite Heq. simpl.
  assert (Hg : trace gc' = [SendStateEvent "!r" EventType.GroupCallMemberPrefix
                              (JObj [("m.calls",
                                      JArr [JObj [("m.call_id", JStr "G");
                                                  ("m.devices",
                                                   JArr [JObj [("device_id", JStr "DA");
                                                               ("session_id", JStr "sa");
                                                               ("expires_ts", JNum 3602000);
                                                               ("feeds", JArr [])]])]])])
                              "@a:h" false]).
  { assert (Hgc : gc' = (addDeviceToMemberState 2000 2000 gc_a_with_DX).2) by (by rewrite E).
    rewrite Hgc. vm_compute. reflexivity. }
  rewrite Hg in He. simpl in He. apply list_elem_of_singleton in He. subst e.
  vm_compute in Hd. apply list_elem_of_singleton in Hd. by injection Hd as ->.
Defined.

(** ** Reconciliation of the call graph *)

Lemma placeOutgoingCalls_unfold :
  placeOutgoingCalls
  = (gc <- this ;;
     callsChanged <- for_fold (map_to_list (participants gc)) placeToMember false ;;
     when callsChanged (emit GroupCallEvent.CallsChanged)).
Proof. reflexivity. Qed.

Lemma string_leb_empty (s : string) : (s <=? "")%string = true → s = "".
Proof. by destruct s. Qed.

(** The local side never wants a call to a member without a user id. *)
Lemma wanted_member_nonempty gc member deviceId :
  MatrixClient.getUserId (client gc) ≠ "" →
  wantsOutgoingCall gc member deviceId = true → member ≠ "".
Proof.
  intros Hl Hw ->. unfold wantsOutgoingCall in Hw.
  apply andb_true_iff in Hw as [Hw _]. by apply string_leb_empty in Hw.
Qed.

Lemma wantsOutgoingCall_config gc gc0 member deviceId :
  config gc = config gc0 →
  wantsOutgoingCall gc member deviceId = wantsOutgoingCall gc0 member deviceId.
Proof. unfold config, wantsOutgoingCall. by intros [= -> _ _ _ _ _ _]. Qed.

Lemma initCall_frames_config c : frames config (initCall c).
Proof. unfold initCall. solve_frames. Qed.

Lemma initCall_frames_nextCallRef c : frames nextCallRef (initCall c).
Proof. unfold initCall. solve_frames. Qed.

Lemma placeToDevice_skips member found d p callMap changed gc :
  wantsOutgoingCall gc member d = false →
  placeToDevice member found (d, p) (callMap, changed) gc = (Ok (callMap, changed), gc).
Proof.
  intros Hw. unfold placeToDevice. rewrite (bind_ok this _ gc gc gc eq_refl).
  by rewrite Hw, andb_false_r.
Qed.

Lemma createNewMatrixCall_run roomId invitee opponentDeviceId opponentSessionId gid gc :
  MatrixClient.supportsMatrixCall (client gc) = true →
  createNewMatrixCall roomId invitee opponentDeviceId opponentSessionId gid gc
  = (Ok (Some (nextCallRef gc)),
     set_callHeap
       (<[nextCallRef gc :=
            MatrixCall.mk ("c" +:+ pretty (nextCallRef gc)) roomId CallState.Fledgling
              (Some gid) (Some invitee) None None opponentDeviceId (Some opponentSessionId)
              None None None None false false false false]> (callHeap gc))
       (set_nextCallRef (S (nextCallRef gc)) gc)).
Proof.
  intros Hsup. unfold createNewMatrixCall.
  rewrite (bind_ok this _ gc gc gc eq_refl), Hsup. reflexivity.
Qed.

(** One turn of the inner loop for a device that the local side is to call
    and that has no call yet *)
Lemma placeToDevice_places member d p callMap changed gc :
  callMap !! d = None →
  wantsOutgoingCall gc member d = true →
  MatrixClient.supportsMatrixCall (client gc) = true →
  member ≠ "" →
  ∃ gc' t,
    placeToDevice member false (d, p) (callMap, changed) gc
    = (Ok (<[d := nextCallRef gc]> callMap, true), gc')
    ∧ config gc' = config gc
    ∧ calls gc' = calls gc
    ∧ nextCallRef gc' = S (nextCallRef gc)
    ∧ (∀ c, c ≠ nextCallRef gc → callHeap gc' c = callHeap gc c)
    ∧ (∀ u dv, (u, dv) ≠ (member, d) →
               callHandlers gc' !! u ≫= (.!! dv) = callHandlers gc !! u ≫= (.!! dv))
    ∧ trace gc'
      = trace gc ++ t
        ++ [CallPlaceCallWithCallFeeds (nextCallRef gc) (getLocalFeeds gc) (screensharing p)]
    ∧ placedFor gc gc' member d p (nextCallRef gc).
Proof.
  intros Hd Hw Hsup Hm. unfold placeToDevice.
  rewrite (bind_ok this _ gc gc gc eq_refl). cbv zeta. rewrite Hd, Hw. simpl.
  rewrite (bind_ok (ret tt) _ gc tt gc eq_refl).
  rewrite (bind_ok _ _ _ _ _ (createNewMatrixCall_run _ _ _ _ _ gc Hsup)). cbv beta iota.
  match goal with |- context [bind (initCall _) _ ?g] => set (gc1 := g) end.
  set (c := nextCallRef gc) in *.
  assert (Hnew : callHeap gc1 c
                 = MatrixCall.mk ("c" +:+ pretty c) (Room.roomId (room gc))
                     CallState.Fledgling (Some (groupCallId gc)) (Some member) None None d
                     (Some (sessionId p)) None None None None false false false false)
    by (subst gc1; simpl; apply fn_lookup_insert).
  assert (Hheap1 : ∀ c', c' ≠ c → callHeap gc1 c' = callHeap gc c')
    by (intros c' Hne; subst gc1; simpl; by rewrite fn_lookup_insert_ne).
  assert (Hh1 : callHandlers gc1 = callHandlers gc) by reflexivity.
  assert (Ht1 : trace gc1 = trace gc) by reflexivity.
  assert (Hc1 : config gc1 = config gc) by reflexivity.
  assert (Hcalls1 : calls gc1 = calls gc) by reflexivity.
  assert (Hn1 : nextCallRef gc1 = S c) by reflexivity.
  assert (Hptt1 : isPtt gc1 = isPtt gc) by reflexivity.
  clearbody gc1.
  destruct (initCall_returns gc1 c member) as (gc2 & t & E & Hh & Hp & Ht).
  { rewrite Hnew. unfold getCallUserId. simpl. by destruct member. }
  rewrite (bind_ok _ _ _ _ _ E).
  pose proof (frames_run _ _ _ _ _ (initCall_frames_config _) E) as Hc.
  pose proof (frames_run _ _ _ _ _ (initCall_frames_calls _) E) as Hcalls.
  pose proof (frames_run _ _ _ _ _ (initCall_frames_nextCallRef _) E) as Hn.
  rewrite Hnew, Hh1 in Hh. rewrite Hnew, Hptt1 in Hp. simpl in Hh, Hp.
  rewrite Ht1 in Ht. rewrite Hc1 in Hc. rewrite Hcalls1 in Hcalls. rewrite Hn1 in Hn.
  clear E.
  unfold when. rewrite (bind_ok (ret tt) _ gc2 tt gc2 eq_refl).
  rewrite (bind_ok this _ gc2 gc2 gc2 eq_refl).
  unfold perform. erewrite bind_ok; [|reflexivity].
  assert (Hlf : getLocalFeeds gc2 = getLocalFeeds gc).
  { unfold getLocalFeeds. unfold config in Hc. by injection Hc as _ _ _ _ _ -> ->. }
  exists (set_trace (trace gc2 ++ [CallPlaceCallWithCallFeeds c
                                     (getLocalFeeds gc2) (screensharing p)]) gc2), t.
  split; [done|].
  assert (Hheap : ∀ c', c' ≠ c → callHeap gc2 c' = callHeap gc c').
  { intros c' Hne. rewrite Hp. rewrite fn_lookup_insert_ne by done. by apply Hheap1. }
  assert (Hhand : ∀ u dv, (u, dv) ≠ (member, d) →
            callHandlers gc2 !! u ≫= (.!! dv) = callHandlers gc !! u ≫= (.!! dv)).
  { intros u dv Hne. rewrite Hh.
    destruct (decide (u = member)) as [->|Hu]; [|by rewrite lookup_insert_ne].
    assert (d ≠ dv) by (intros <-; by apply Hne).
    rewrite lookup_insert_eq. simpl. rewrite lookup_insert_ne by done.
    apply lookup_default_empty. }
  simpl. rewrite Hlf.
  split; [exact Hc|]. split; [exact Hcalls|]. split; [exact Hn|].
  split; [exact Hheap|]. split; [exact Hhand|].
  split; [by rewrite Ht, <- app_assoc|].
  unfold placedFor. simpl. rewrite Hp, fn_lookup_insert, Hn. simpl.
  split; [lia|]. repeat (split; [done|]). split.
  - rewrite Hh, lookup_insert_eq. simpl. apply lookup_insert_eq.
  - rewrite Ht. set_solver.
Qed.

Lemma advances_refl touched gc : advances touched gc gc.
Proof.
  split; [done|]. split; [done|]. split; [done|]. split; [done|].
  exists []. by rewrite app_nil_r.
Qed.

Lemma advances_trans (t1 t2 t3 : string → string → Prop) gc1 gc2 gc3 :
  (∀ u dv, t1 u dv → t3 u dv) → (∀ u dv, t2 u dv → t3 u dv) →
  advances t1 gc1 gc2 → advances t2 gc2 gc3 → advances t3 gc1 gc3.
Proof.
  intros H1 H2 (Hc1 & Hn1 & Hh1 & Hk1 & s1 & Hs1) (Hc2 & Hn2 & Hh2 & Hk2 & s2 & Hs2).
  split; [congruence|]. split; [lia|]. split; [|split].
  - intros c Hc. rewrite Hh2 by lia. by apply Hh1.
  - intros u dv Hn. rewrite Hk2 by (intros ?; apply Hn; by apply H2).
    apply Hk1. intros ?. apply Hn. by apply H1.
  - exists (s1 ++ s2). by rewrite Hs2, Hs1, app_assoc.
Qed.

Lemma config_getLocalFeeds gc gc' : config gc' = config gc → getLocalFeeds gc' = getLocalFeeds gc.
Proof. unfold config, getLocalFeeds. by intros [= _ _ _ _ _ -> ->]. Qed.

(** A call that the pass has placed stays placed while the pass goes on with
    other slots. *)
Lemma placedFor_advances touched gc0 gc gc' member deviceId p call :
  placedFor gc0 gc member deviceId p call →
  ¬ touched member deviceId →
  advances touched gc gc' →
  placedFor gc0 gc' member deviceId p call.
Proof.
  intros (Hrange & H1 & H2 & H3 & H4 & H5 & H6 & H7 & H8) Hn (Hcfg & Hnext & Hheap & Hhand & t & Ht).
  unfold placedFor. rewrite Hheap by lia. rewrite Hhand by done.
  split; [lia|]. repeat (split; [done|]). rewrite Ht. apply elem_of_app. by left.
Qed.

(** The calls of a later part of the pass are calls of the pass. *)
Lemma placedFor_rebase gc0 gc gc' member deviceId p call :
  config gc = config gc0 → (nextCallRef gc0 ≤ nextCallRef gc)%nat →
  placedFor gc gc' member deviceId p call →
  placedFor gc0 gc' member deviceId p call.
Proof.
  intros Hcfg Hn (Hc & H1 & H2 & H3 & H4 & H5 & H6 & H7 & H8).
  unfold placedFor. rewrite <- (config_getLocalFeeds _ _ Hcfg).
  unfold config in Hcfg. injection Hcfg as _ <- <- <- _ _ _.
  split; [lia|]. by repeat (split; [done|]).
Qed.

Lemma for_fold_cons {A S} (x : A) (xs : list A) (body : A → S → M S) (s : S) :
  for_fold (x :: xs) body s = (s' <- body x s ;; for_fold xs body s').
Proof. reflexivity. Qed.

(** The inner loop of [placeOutgoingCalls] over the devices [l] of a member
    that has no call yet *)
Lemma placeToDevices gc0 member (l : list (string * ParticipantState)) :
  MatrixClient.supportsMatrixCall (client gc0) = true →
  MatrixClient.getUserId (client gc0) ≠ "" →
  NoDup l.*1 →
  ∀ callMap changed gc,
    config gc = config gc0 →
    (∀ d, d ∈ l.*1 → callMap !! d = None) →
    ∃ callMap' changed' gc',
      for_fold l (placeToDevice member false) (callMap, changed) gc
      = (Ok (callMap', changed'), gc')
      ∧ calls gc' = calls gc
      ∧ advances (λ u dv, u = member ∧ dv ∈ l.*1) gc gc'
      ∧ (∀ d, d ∉ l.*1 → callMap' !! d = callMap !! d)
      ∧ (∀ d p, (d, p) ∈ l →
           if wantsOutgoingCall gc0 member d
           then ∃ c, callMap' !! d = Some c ∧ placedFor gc gc' member d p c
           else callMap' !! d = None)
      ∧ changed' = changed || existsb (λ e, wantsOutgoingCall gc0 member e.1) l.
Proof.
  intros Hsup Hlocal. induction l as [|[d p] rest IH]; intros Hnd callMap changed gc Hcfg Hfree.
  { exists callMap, changed, gc. split; [done|]. split; [done|].
    split; [apply advances_refl|]. split; [done|].
    split; [by intros ? ? ?%elem_of_nil|]. by rewrite orb_false_r. }
  apply NoDup_cons in Hnd as [Hd Hnd]. simpl in Hd. rewrite for_fold_cons.
  destruct (wantsOutgoingCall gc0 member d) eqn:Hw.
  - destruct (placeToDevice_places member d p callMap changed gc)
      as (gc1 & t1 & E1 & Hc1 & Hcalls1 & Hn1 & Hheap1 & Hhand1 & Ht1 & Hp1).
    { apply Hfree. left. }
    { by rewrite (wantsOutgoingCall_config _ _ _ _ Hcfg). }
    { unfold config in Hcfg. by injection Hcfg as -> _ _ _ _ _ _. }
    { apply (wanted_member_nonempty gc0 member d Hlocal Hw). }
    rewrite (bind_ok _ _ _ _ _ E1).
    assert (Hadv1 : advances (λ u dv, u = member ∧ dv = d) gc gc1).
    { split; [done|]. split; [lia|]. split; [|split].
      - intros c Hc. apply Hheap1. lia.
      - intros u dv Hn. apply Hhand1. intros [= -> ->]. by apply Hn.
      - eexists. by rewrite Ht1. }
    destruct (IH Hnd (<[d := nextCallRef gc]> callMap) true gc1)
      as (callMap' & changed' & gc' & E & Hcalls & Hadv & Hout & Hin & Hch).
    { congruence. }
    { intros d' Hd'. rewrite lookup_insert_ne by (intros <-; done).
      apply Hfree. by right. }
    exists callMap', changed', gc'. split; [exact E|]. split; [congruence|].
    split; [|split; [|split]].
    + eapply advances_trans; [| |exact Hadv1|exact Hadv].
      * intros u dv [-> ->]. split; [done|left].
      * intros u dv [-> ?]. split; [done|by right].
    + intros d' Hd'. apply not_elem_of_cons in Hd' as [Hne Hd'].
      rewrite (Hout d' Hd'). by rewrite lookup_insert_ne.
    + intros d' p' [[= -> ->]|Hin']%elem_of_cons.
      * rewrite Hw. exists (nextCallRef gc). split.
        -- rewrite (Hout d Hd). apply lookup_insert_eq.
        -- apply (placedFor_advances _ _ _ _ _ _ _ _ Hp1 (λ H, Hd (proj2 H)) Hadv).
      * specialize (Hin d' p' Hin'). destruct (wantsOutgoingCall gc0 member d'); [|done].
        destruct Hin as (c & Hc & Hp). exists c. split; [done|].
        apply (placedFor_rebase gc gc1); [done|lia|done].
    + rewrite Hch. simpl. rewrite Hw. by rewrite orb_true_r.
  - rewrite (bind_ok _ _ gc (callMap, changed) gc).
    2: { apply placeToDevice_skips. by rewrite (wantsOutgoingCall_config _ _ _ _ Hcfg). }
    destruct (IH Hnd callMap changed gc Hcfg)
      as (callMap' & changed' & gc' & E & Hcalls & Hadv & Hout & Hin & Hch).
    { intros d' Hd'. apply Hfree. by right. }
    exists callMap', changed', gc'. split; [exact E|]. split; [exact Hcalls|].
    split; [|split; [|split]].
    + eapply advances_trans; [| |apply (advances_refl (λ _ _, False))|exact Hadv]; [done|].
      intros u dv [-> ?]. split; [done|by right].
    + intros d' Hd'. apply not_elem_of_cons in Hd' as [Hne Hd']. by apply Hout.
    + intros d' p' [[= -> ->]|Hin']%elem_of_cons.
      * rewrite Hw. rewrite (Hout d Hd). apply Hfree. left.
      * by apply Hin.
    + rewrite Hch. simpl. by rewrite Hw.
Qed.

Lemma member_slot_lookup (m : gmap string (gmap string CallRef)) (member : string)
    (callMap : gmap string CallRef) (u d : string) :
  (if bool_decide (0 < size callMap)%nat then <[member := callMap]> m else delete member m)
    !! u ≫= (.!! d)
  = if bool_decide (u = member) then callMap !! d else m !! u ≫= (.!! d).
Proof.
  destruct (decide (u = member)) as [->|Hu].
  - rewrite (bool_decide_true (member = member)) by done. case_bool_decide as Hs.
    + by rewrite lookup_insert_eq.
    + rewrite lookup_delete_eq. simpl.
      assert (callMap = ∅) as -> by (apply map_size_empty_iff; lia). done.
  - rewrite (bool_decide_false (u = member)) by done.
    case_bool_decide; [by rewrite lookup_insert_ne|by rewrite lookup_delete_ne].
Qed.

(** The outer loop of [placeOutgoingCalls] over members [L] that have no call
    yet *)
Lemma placeToMembers gc0 (L : list (string * gmap string ParticipantState)) :
  MatrixClient.supportsMatrixCall (client gc0) = true →
  MatrixClient.getUserId (client gc0) ≠ "" →
  NoDup L.*1 →
  ∀ changed gc,
    config gc = config gc0 →
    (∀ m, m ∈ L.*1 → calls gc !! m = None) →
    ∃ changed' gc',
      for_fold L placeToMember changed gc = (Ok changed', gc')
      ∧ advances (λ u dv, u ∈ L.*1) gc gc'
      ∧ (∀ m, m ∉ L.*1 → calls gc' !! m = calls gc !! m)
      ∧ (∀ m pm d, (m, pm) ∈ L →
           match pm !! d with
           | Some p =>
               if wantsOutgoingCall gc0 m d
               then ∃ c, callOf gc' m d = Some c ∧ placedFor gc gc' m d p c
               else callOf gc' m d = None
           | None => callOf gc' m d = None
           end)
      ∧ (∀ m, m ∈ L.*1 → calls gc' !! m ≠ Some ∅)
      ∧ changed'
        = changed
          || existsb (λ e, existsb (λ e', wantsOutgoingCall gc0 e.1 e'.1) (map_to_list e.2)) L.
Proof.
  intros Hsup Hlocal. induction L as [|[m pm] rest IH]; intros Hnd changed gc Hcfg Hfree.
  { exists changed, gc. split; [done|]. split; [apply advances_refl|].
    split; [done|]. split; [by intros ? ? ? ?%elem_of_nil|].
    split; [by intros ? ?%elem_of_nil|]. by rewrite orb_false_r. }
  apply NoDup_cons in Hnd as [Hm Hnd]. simpl in Hm. rewrite for_fold_cons.
  destruct (placeToDevices gc0 m (map_to_list pm) Hsup Hlocal (NoDup_fst_map_to_list pm)
              ∅ changed gc Hcfg (λ _ _, lookup_empty _))
    as (callMap & changed1 & gc1 & E1 & Hcalls1 & Hadv1 & Hout1 & Hin1 & Hch1).
  set (gc2 := set_calls
                (if bool_decide (0 < size callMap)%nat
                 then <[m := callMap]> (calls gc1) else delete m (calls gc1)) gc1).
  assert (E2 : placeToMember (m, pm) changed gc = (Ok changed1, gc2)).
  { unfold placeToMember. rewrite (bind_ok this _ gc gc gc eq_refl).
    rewrite (Hfree m) by left. rewrite bool_decide_false by (by intros [? ?]).
    simpl default. by rewrite (bind_ok _ _ _ _ _ E1). }
  rewrite (bind_ok _ _ _ _ _ E2).
  assert (Hcalls2 : ∀ u d, callOf gc2 u d
                           = if bool_decide (u = m) then callMap !! d else callOf gc u d).
  { intros u d. unfold callOf. subst gc2. simpl. rewrite Hcalls1. apply member_slot_lookup. }
  assert (Hadv2 : advances (λ u dv, u = m) gc gc2).
  { destruct Hadv1 as (H1 & H2 & H3 & H4 & H5). subst gc2.
    split; [exact H1|]. split; [exact H2|]. split; [exact H3|]. split; [|exact H5].
    intros u dv Hn. simpl. apply H4. by intros [? _]. }
  destruct (IH Hnd changed1 gc2) as (changed' & gc' & E & Hadv & Hout & Hin & Hne & Hch).
  { destruct Hadv2 as [H _]. congruence. }
  { intros m' Hm'. subst gc2. simpl. rewrite Hcalls1.
    assert (m' ≠ m) by (intros ->; done).
    case_bool_decide; [rewrite lookup_insert_ne by done|rewrite lookup_delete_ne by done];
      apply Hfree; by right. }
  exists changed', gc'. split; [exact E|]. split; [|split; [|split; [|split]]].
  - eapply advances_trans; [| |exact Hadv2|exact Hadv].
    + intros u dv ->. left.
    + intros u dv ?. by right.
  - intros m' Hm'. apply not_elem_of_cons in Hm' as [Hne' Hm'].
    rewrite (Hout m' Hm'). subst gc2. simpl. rewrite Hcalls1.
    case_bool_decide; [by rewrite lookup_insert_ne|by rewrite lookup_delete_ne].
  - intros m' pm' d [[= -> ->]|Hin']%elem_of_cons.
    + assert (Hslot : callOf gc' m d = callMap !! d).
      { unfold callOf. rewrite (Hout m Hm). fold (callOf gc2 m d).
        rewrite Hcalls2. by rewrite bool_decide_true. }
      rewrite Hslot. destruct (pm !! d) as [p|] eqn:Hp.
      * specialize (Hin1 d p (proj2 (elem_of_map_to_list _ _ _) Hp)).
        destruct (wantsOutgoingCall gc0 m d); [|done].
        destruct Hin1 as (c & Hc & Hpl). exists c. split; [done|].
        apply (placedFor_advances (λ u dv, u ∈ rest.*1) gc gc2); [|done|done].
        by subst gc2.
      * rewrite Hout1; [apply lookup_empty|]. by apply not_in_map_keys.
    + specialize (Hin m' pm' d Hin'). destruct (pm' !! d) as [p|]; [|done].
      destruct (wantsOutgoingCall gc0 m' d); [|done].
      destruct Hin as (c & Hc & Hpl). exists c. split; [done|].
      apply (placedFor_rebase gc gc2); [by destruct Hadv2|by destruct Hadv2 as (_ & ? & _)|done].
  - intros m' [->|Hm']%elem_of_cons; [|by apply Hne]. simpl.
    rewrite (Hout m Hm). subst gc2. simpl. case_bool_decide as Hs.
    + rewrite lookup_insert_eq. intros [= He]. rewrite He, map_size_empty in Hs. lia.
    + by rewrite lookup_delete_eq.
  - rewrite Hch, Hch1. simpl. symmetry. apply orb_assoc.
Qed.

Lemma slot_in_view gc member deviceId p :
  slot gc member deviceId = Some p ↔
  ∃ pm, (member, pm) ∈ map_to_list (participants gc) ∧ pm !! deviceId = Some p.
Proof.
  unfold slot. split.
  - destruct (participants gc !! member) as [pm|] eqn:E; [|done]. simpl.
    intros Hp. exists pm. split; [by apply elem_of_map_to_list|done].
  - intros (pm & ->%elem_of_map_to_list & Hp). done.
Qed.

(** Without support for calls [createNewMatrixCall] returns no call: on an
    empty call graph a turn of the inner loop changes nothing but the flag. *)
Lemma placeToDevice_no_call member d p changed gc :
  MatrixClient.supportsMatrixCall (client gc) = false →
  placeToDevice member false (d, p) (∅, changed) gc
  = (Ok (∅, changed || wantsOutgoingCall gc member d), gc).
Proof.
  intros Hsup. unfold placeToDevice.
  rewrite (bind_ok this _ gc gc gc eq_refl).
  rewrite lookup_empty. unfold sessionDiffers. simpl.
  destruct (wantsOutgoingCall gc member d); [|by rewrite orb_false_r].
  unfold createNewMatrixCall.
  rewrite (bind_ok (ret tt) _ gc tt gc eq_refl).
  unfold bind at 1. unfold bind at 1. unfold this at 1. rewrite Hsup.
  simpl. by rewrite delete_empty, orb_true_r.
Qed.

Lemma placeToDevices_no_call member (l : list (string * ParticipantState)) changed gc :
  MatrixClient.supportsMatrixCall (client gc) = false →
  for_fold l (placeToDevice member false) (∅, changed) gc
  = (Ok (∅, changed || existsb (λ e, wantsOutgoingCall gc member e.1) l), gc).
Proof.
  intros Hsup. revert changed. induction l as [|[d p] l IH]; intros changed; simpl.
  { by rewrite orb_false_r. }
  rewrite (bind_ok _ _ _ _ _ (placeToDevice_no_call member d p changed gc Hsup)).
  rewrite IH. by rewrite orb_assoc.
Qed.

Lemma placeToMember_no_call m pm changed gc :
  calls gc = ∅ →
  MatrixClient.supportsMatrixCall (client gc) = false →
  placeToMember (m, pm) changed gc
  = (Ok (changed || existsb (λ e, wantsOutgoingCall gc m e.1) (map_to_list pm)), gc).
Proof.
  intros Hempty Hsup. unfold placeToMember.
  rewrite (bind_ok this _ gc gc gc eq_refl).
  rewrite Hempty, lookup_empty. simpl default.
  rewrite bool_decide_false by (by intros [? ?]).
  rewrite (bind_ok _ _ _ _ _ (placeToDevices_no_call m (map_to_list pm) changed gc Hsup)).
  unfold bind at 1. unfold modify at 1. simpl.
  rewrite Hempty, delete_empty, map_size_empty.
  rewrite bool_decide_false by lia.
  replace (set_calls ∅ gc) with gc by (rewrite <- Hempty; by destruct gc).
  reflexivity.
Qed.

Lemma placeToMembers_no_call (L : list (string * gmap string ParticipantState)) changed gc :
  calls gc = ∅ →
  MatrixClient.supportsMatrixCall (client gc) = false →
  for_fold L placeToMember changed gc
  = (Ok (changed
         || existsb (λ m, existsb (λ e, wantsOutgoingCall gc m.1 e.1) (map_to_list m.2)) L),
     gc).
Proof.
  intros Hempty Hsup. revert changed. induction L as [|[m pm] L IH]; intros changed; simpl.
  { by rewrite orb_false_r. }
  rewrite (bind_ok _ _ _ _ _ (placeToMember_no_call m pm changed gc Hempty Hsup)).
  rewrite IH. by rewrite orb_assoc.
Qed.

Lemma someoneToCall_existsb gc :
  someoneToCall gc ↔
  existsb (λ m, existsb (λ e, wantsOutgoingCall gc m.1 e.1) (map_to_list m.2))
    (map_to_list (participants gc)) = true.
Proof.
  split.
  - intros (member & deviceId & [p (pm & Hpm & Hp)%slot_in_view] & Hw).
    apply existsb_exists. exists (member, pm).
    split; [by apply list_elem_of_In|]. apply existsb_exists. exists (deviceId, p).
    split; [by apply list_elem_of_In, elem_of_map_to_list|done].
  - intros ([member pm] & Hpm%list_elem_of_In & ([deviceId p] & Hp%list_elem_of_In & Hw)
            %existsb_exists)%existsb_exists.
    exists member, deviceId. split; [|done]. exists p. apply slot_in_view.
    exists pm. split; [done|]. by apply elem_of_map_to_list.
Qed.

(** The pass on an empty call graph when no call can be created (the branch
    [newCall === null] of line 785) *)
Lemma placeOutgoingCalls_no_call gc :
  calls gc = ∅ →
  MatrixClient.supportsMatrixCall (client gc) = false →
  ∃ changed : bool,
    placeOutgoingCalls gc
    = (Ok tt,
       if changed then set_trace (trace gc ++ [Emit GroupCallEvent.CallsChanged]) gc
       else gc)
    ∧ (changed = true ↔ someoneToCall gc).
Proof.
  intros Hempty Hsup. rewrite placeOutgoingCalls_unfold.
  rewrite (bind_ok this _ gc gc gc eq_refl).
  rewrite (bind_ok _ _ _ _ _ (placeToMembers_no_call _ false gc Hempty Hsup)). simpl.
  eexists. split; [|symmetry; apply someoneToCall_existsb].
  by destruct (existsb _ _).
Qed.

(** X12.  The first placement pass calls every device that it is to call,
    and no other.  On an empty call graph, for a client that supports calls
    and whose user id is not empty, the pass never fails, and when it is done
    the graph holds a call for a device iff the device is in the participant
    view and the local side is the one to call it.  Each of these calls is
    new, is addressed to the member, the device and the advertised session,
    belongs to this group call and room, has its handlers stored under the
    member and the device, and was placed with clones of the local feeds.  No
    member is left with an empty device map, and [CallsChanged] is the last
    thing emitted when there was someone to call.  For a client that does not
    support calls, so that no call can be created, the pass returns as well:
    the graph stays empty, nothing else changes, and [CallsChanged] is
    emitted all the same iff there was someone to call. *)
Theorem first_placement_calls_every_wanted_device gc :
  calls gc = ∅ →
  (MatrixClient.supportsMatrixCall (client gc) = true →
   MatrixClient.getUserId (client gc) ≠ "" →
   ∃ gc',
     placeOutgoingCalls gc = (Ok tt, gc')
     ∧ (∀ member deviceId p,
          slot gc member deviceId = Some p →
          wantsOutgoingCall gc member deviceId = true →
          ∃ call, callOf gc' member deviceId = Some call
                  ∧ placedFor gc gc' member deviceId p call)
     ∧ (∀ member deviceId call,
          callOf gc' member deviceId = Some call →
          is_Some (slot gc member deviceId)
          ∧ wantsOutgoingCall gc member deviceId = true)
     ∧ (∀ member, calls gc' !! member ≠ Some ∅)
     ∧ (someoneToCall gc → last (trace gc') = Some (Emit GroupCallEvent.CallsChanged)))
  ∧ (MatrixClient.supportsMatrixCall (client gc) = false →
     ∃ changed : bool,
       placeOutgoingCalls gc
       = (Ok tt,
          if changed then set_trace (trace gc ++ [Emit GroupCallEvent.CallsChanged]) gc
          else gc)
       ∧ (changed = true ↔ someoneToCall gc)).
Proof.
  intros Hempty. split; [|by apply placeOutgoingCalls_no_call].
  intros Hsup Hlocal. rewrite placeOutgoingCalls_unfold.
  rewrite (bind_ok this _ gc gc gc eq_refl).
  destruct (placeToMembers gc (map_to_list (participants gc)) Hsup Hlocal
              (NoDup_fst_map_to_list _) false gc eq_refl)
    as (changed & gc1 & E & Hadv & Hout & Hin & Hne & Hch).
  { intros m _. by rewrite Hempty. }
  rewrite (bind_ok _ _ _ _ _ E). simpl in Hch.
  assert (Hgraph : ∀ gc', calls gc' = calls gc1 →
    (∀ member deviceId call,
       callOf gc' member deviceId = Some call →
       is_Some (slot gc member deviceId) ∧ wantsOutgoingCall gc member deviceId = true)
    ∧ (∀ member, calls gc' !! member ≠ Some ∅)).
  { intros gc' Hc. split.
    - intros member deviceId call. unfold callOf. rewrite Hc. fold (callOf gc1 member deviceId).
      intros Hcall.
      destruct (participants gc !! member) as [pm|] eqn:Hpm.
      + specialize (Hin member pm deviceId (proj2 (elem_of_map_to_list _ _ _) Hpm)).
        unfold slot. rewrite Hpm. simpl.
        destruct (pm !! deviceId) as [p|]; [|congruence].
        destruct (wantsOutgoingCall gc member deviceId); [by eauto|congruence].
      + unfold callOf in Hcall. rewrite Hout in Hcall by (by apply not_in_map_keys).
        by rewrite Hempty in Hcall.
    - intros member. rewrite Hc.
      destruct (participants gc !! member) as [pm|] eqn:Hpm.
      + apply Hne. apply list_elem_of_fmap. exists (member, pm).
        split; [done|]. by apply elem_of_map_to_list.
      + rewrite Hout by (by apply not_in_map_keys). by rewrite Hempty. }
  assert (Hplaced : ∀ member deviceId p,
    slot gc member deviceId = Some p →
    wantsOutgoingCall gc member deviceId = true →
    ∃ call, callOf gc1 member deviceId = Some call
            ∧ placedFor gc gc1 member deviceId p call).
  { intros member deviceId p (pm & Hpm & Hp)%slot_in_view Hw.
    specialize (Hin member pm deviceId Hpm). by rewrite Hp, Hw in Hin. }
  assert (Hsome : someoneToCall gc → changed = true).
  { intros (member & deviceId & [p (pm & Hpm & Hp)%slot_in_view] & Hw).
    rewrite Hch. apply existsb_exists. exists (member, pm).
    split; [by apply list_elem_of_In|]. apply existsb_exists. exists (deviceId, p).
    split; [by apply list_elem_of_In, elem_of_map_to_list|done]. }
  destruct changed.
  - eexists. split; [reflexivity|]. destruct (Hgraph gc1 eq_refl) as [Hg1 Hg2].
    split; [|split; [exact Hg1|split; [exact Hg2|]]].
    + intros member deviceId p Hs Hw. destruct (Hplaced member deviceId p Hs Hw)
        as (call & Hc & Hp). exists call. split; [exact Hc|].
      apply (placedFor_advances (λ _ _, False) gc gc1); [done|by intros []|].
      split; [done|]. split; [done|]. split; [done|]. split; [done|]. by eexists.
    + intros _. simpl. apply last_snoc.
  - exists gc1. split; [reflexivity|]. destruct (Hgraph gc1 eq_refl) as [Hg1 Hg2].
    split; [exact Hplaced|]. split; [exact Hg1|]. split; [exact Hg2|].
    intros H. by apply Hsome in H.
Qed.

Lemma first_placement_calls_every_wanted_device_witness :
  ∃ gc' call,
    placeOutgoingCalls gc_a_retrying = (Ok tt, gc')
    ∧ callOf gc' "@b:h" "DB" = Some call
    ∧ MatrixCall.getOpponentSessionId (callHeap gc' call) = Some "s1".
Proof.
  destruct (proj1 (first_placement_calls_every_wanted_device gc_a_retrying eq_refl))
    as (gc' & E & Hp & _).
  - reflexivity.
  - discriminate.
  - destruct (Hp "@b:h" "DB" (mkParticipantState "s1" false)) as (call & Hc & Hpl).
    + vm_compute. reflexivity.
    + vm_compute. reflexivity.
    + exists gc', call. split; [exact E|]. split; [exact Hc|].
      by destruct Hpl as (_ & _ & _ & ? & _).
Defined.

(** ** Expiration of the participant view *)

Lemma earlier_le e ne : ∃ t, earlier e ne = Some t ∧ (t ≤ e)%Z
                             ∧ (∀ t0, ne = Some t0 → (t ≤ t0)%Z)
                             ∧ (t = e ∨ ne = Some t).
Proof.
  unfold earlier. destruct ne as [t0|].
  - destruct (Z.ltb_spec e t0).
    + exists e. split; [done|]. split; [lia|]. split; [|by left]. intros ? [= <-]. lia.
    + exists t0. split; [done|]. split; [lia|]. split; [|by right]. intros ? [= <-]. lia.
  - exists e. split; [done|]. split; [lia|]. split; [done|by left].
Qed.

Lemma deviceMapOf_expiry validDevices m0 ne0 dm ne :
  deviceMapOf validDevices (m0, ne0) = Ok (dm, ne) →
  (∀ t, ne = Some t → ne0 = Some t ∨ ∃ dev, dev ∈ validDevices ∧ expires_ts dev = t)
  ∧ (∀ t0, ne0 = Some t0 → ∃ t, ne = Some t ∧ (t ≤ t0)%Z)
  ∧ (∀ dev, dev ∈ validDevices → ∃ t, ne = Some t ∧ (t ≤ expires_ts dev)%Z).
Proof.
  revert m0 ne0. induction validDevices as [|dev rest IH]; intros m0 ne0; simpl.
  - intros [= <- <-]. split; [by left|].
    split; [intros t0 Ht0; exists t0; split; [done|lia]|]. by intros ? ?%elem_of_nil.
  - destruct (some_res isScreenshareFeed (feeds dev)) as [b|e]; simpl; [|done].
    intros H. destruct (IH _ _ H) as (IH1 & IH2 & IH3).
    destruct (earlier_le (expires_ts dev) ne0) as (t1 & Ht1 & Hle & Hmono & Hor).
    split; [|split].
    + intros t Ht. destruct (IH1 t Ht) as [Heq|(dev' & Hin & He)].
      * rewrite Ht1 in Heq. injection Heq as <-.
        destruct Hor as [->|Hor]; [|by left]. right. exists dev. split; [left|done].
      * right. exists dev'. split; [by right|done].
    + intros t0 Ht0. destruct (IH2 t1 Ht1) as (t & Ht & Hle').
      exists t. split; [done|]. specialize (Hmono t0 Ht0). lia.
    + intros dev' [->|Hin]%elem_of_cons; [|by apply IH3].
      destruct (IH2 t1 Ht1) as (t & Ht & Hle'). exists t. split; [done|]. lia.
Qed.

Lemma participantsOfEvents_expiry gc now events acc view ne :
  participantsOfEvents gc now events acc = Ok (view, ne) →
  (∀ t, ne = Some t →
        acc.2 = Some t
        ∨ ∃ userId content validDevices dev,
            (userId, content) ∈ events
            ∧ remainingDevices gc now userId content = Ok validDevices
            ∧ isJoined gc userId ∧ dev ∈ validDevices ∧ expires_ts dev = t)
  ∧ (∀ t0, acc.2 = Some t0 → ∃ t, ne = Some t ∧ (t ≤ t0)%Z)
  ∧ (∀ userId content validDevices dev,
       (userId, content) ∈ events →
       remainingDevices gc now userId content = Ok validDevices →
       isJoined gc userId → dev ∈ validDevices →
       ∃ t, ne = Some t ∧ (t ≤ expires_ts dev)%Z).
Proof.
  revert acc. induction events as [|[k content] rest IH]; intros acc; simpl.
  - intros [= ->]. split; [by left|].
    split; [intros t0 Ht0; exists t0; split; [done|lia]|].
    by intros ? ? ? ? ?%elem_of_nil.
  - unfold participantsOfEvent at 1. simpl.
    destruct (remainingDevices gc now k content) as [vds|e] eqn:Er; simpl; [|done].
    destruct (bool_decide (0 < length vds)%nat
              && bool_decide (RoomMember.membership <$> Room.getMember (room gc) k
                              = Some "join")) eqn:Eg.
    + apply andb_true_iff in Eg as [_ Hj%bool_decide_eq_true].
      assert (Hjoined : isJoined gc k).
      { unfold isJoined. unfold Room.getMember in Hj.
        by destruct (Room.memberships (room gc) !! k); simplify_eq/=. }
      destruct (deviceMapOf vds (∅, acc.2)) as [[dm ne1]|e] eqn:Ed; simpl; [|done].
      destruct (deviceMapOf_expiry _ _ _ _ _ Ed) as (D1 & D2 & D3).
      intros H. destruct (IH _ H) as (IH1 & IH2 & IH3). simpl in *.
      split; [|split].
      * intros t Ht. destruct (IH1 t Ht) as [Heq|(u & c & v & dev & Hin & ? & ? & ? & ?)].
        -- destruct (D1 t Heq) as [?|(dev & Hin & He)]; [by left|].
           right. exists k, content, vds, dev. split; [left|done].
        -- right. exists u, c, v, dev. split; [by right|done].
      * intros t0 Ht0. destruct (D2 t0 Ht0) as (t1 & Ht1 & Hle).
        destruct (IH2 t1 Ht1) as (t & Ht & Hle'). exists t. split; [done|lia].
      * intros u c v dev [[= -> ->]|Hin]%elem_of_cons Hr Hju Hd.
        -- rewrite Er in Hr. injection Hr as <-.
           destruct (D3 dev Hd) as (t1 & Ht1 & Hle).
           destruct (IH2 t1 Ht1) as (t & Ht & Hle'). exists t. split; [done|lia].
        -- by apply (IH3 u c v dev).
    + intros H. destruct (IH _ H) as (IH1 & IH2 & IH3). split; [|split].
      * intros t Ht. destruct (IH1 t Ht) as [?|(u & c & v & dev & Hin & ?)]; [by left|].
        right. exists u, c, v, dev. split; [by right|done].
      * exact IH2.
      * intros u c v dev [[= -> ->]|Hin]%elem_of_cons Hr Hju Hd; [|by apply (IH3 u c v dev)].
        rewrite Er in Hr. injection Hr as <-. exfalso.
        apply andb_false_iff in Eg as [Hl|Hj].
        -- apply bool_decide_eq_false in Hl. destruct vds; [by apply elem_of_nil in Hd|].
           simpl in Hl. lia.
        -- apply bool_decide_eq_false in Hj. apply Hj. unfold Room.getMember.
           unfold isJoined in Hju. by rewrite Hju.
Qed.

Lemma setter_participants_frames_timer value :
  frames participantsExpirationTimer (setter_participants value).
Proof.
  unfold setter_participants, onParticipantsChanged, placeOutgoingCalls,
    createNewMatrixCall, initCall, disposeCall, onCallFeedsChanged.
  solve_frames.
Qed.

(** Outside of state [Entered] the assignment of the view never fails. *)
Lemma setter_participants_returns value gc :
  state gc ≠ GroupCallState.Entered →
  ∃ gc', setter_participants value gc = (Ok tt, gc').
Proof.
  intros Hs. unfold setter_participants. rewrite (bind_ok this _ gc gc gc eq_refl).
  destruct (negb (bool_decide (value = participants gc))); simpl; [|by eexists].
  unfold emit, perform. repeat (erewrite bind_ok; [|reflexivity]).
  unfold onParticipantsChanged. erewrite bind_ok; [|reflexivity]. simpl.
  rewrite bool_decide_false by done. by eexists.
Qed.

(** X13.  The view is recomputed when its first device expires.  When
    [updateParticipants] has computed a view, the expiration timer is armed
    iff some advertised device has entered the view, and its delay is the time
    until the earliest expiry among these devices: positive, reached by one of
    them, and exceeded by none.  In state [Ended] the timer is cleared and not
    armed again. *)
Theorem view_expires_with_its_first_device gc now view ne :
  collectParticipants gc now = Ok (view, ne) →
  match ne with
  | Some t =>
      (now < t)%Z ∧ expiresInView gc now t
      ∧ ∀ t', expiresInView gc now t' → (t ≤ t')%Z
  | None => ∀ t', ¬ expiresInView gc now t'
  end
  ∧ (∀ gc', updateParticipants now gc = (Ok tt, gc') →
            participantsExpirationTimer gc'
            = if bool_decide (state gc = GroupCallState.Ended) then None
              else (λ t, (t - now)%Z) <$> ne)
  ∧ (state gc ≠ GroupCallState.Entered → ∃ gc', updateParticipants now gc = (Ok tt, gc')).
Proof.
  intros Hc. split; [|split].
  - destruct (collectParticipants_view _ _ _ _ Hc) as (v0 & Hv0 & _).
    destruct (participantsOfEvents_expiry _ _ _ _ _ _ Hv0) as (H1 & _ & H3). simpl in H1.
    destruct ne as [t|].
    + destruct (H1 t eq_refl) as [?|(u & c & v & dev & Hin%elem_of_map_to_list & Hr & Hj & Hd & He)];
        [done|].
      split; [|split].
      * destruct (remainingDevices_elem _ _ _ _ _ Hr) as (devices & _ & Hel).
        apply Hel in Hd as [(d & _ & Hv) _].
        apply validDevice_Some in Hv as (_ & _ & _ & Hlt & _). by rewrite <- He.
      * by exists u, c, v, dev.
      * intros t' (u' & c' & v' & dev' & Hin' & Hr' & Hj' & Hd' & <-).
        destruct (H3 u' c' v' dev' (proj2 (elem_of_map_to_list _ _ _) Hin') Hr' Hj' Hd')
          as (t0 & [= <-] & Hle). done.
    + intros t' (u' & c' & v' & dev' & Hin' & Hr' & Hj' & Hd' & <-).
      by destruct (H3 u' c' v' dev' (proj2 (elem_of_map_to_list _ _ _) Hin') Hr' Hj' Hd')
        as (t0 & ? & _).
  - intros gc'. unfold updateParticipants.
    rewrite (bind_ok (modify (set_participantsExpirationTimer None)) _ gc tt
               (set_participantsExpirationTimer None gc) eq_refl).
    rewrite (bind_ok this _ _ _ _ eq_refl).
    change (state (set_participantsExpirationTimer None gc)) with (state gc).
    case_bool_decide as He.
    + intros E. by rewrite (frames_run _ _ _ _ _ (setter_participants_frames_timer ∅) E).
    + unfold lift at 1. rewrite collectParticipants_timer, Hc.
      rewrite (bind_ok _ _ _ (view, ne) (set_participantsExpirationTimer None gc) eq_refl).
      intros (a & gc1 & E1 & E2)%bind_returns.
      pose proof (frames_run _ _ _ _ _ (setter_participants_frames_timer view) E1) as Ht.
      simpl in E2. destruct ne as [t|]; injection E2 as <-; [done|]. by rewrite Ht.
  - intros Hs. unfold updateParticipants.
    rewrite (bind_ok (modify (set_participantsExpirationTimer None)) _ gc tt
               (set_participantsExpirationTimer None gc) eq_refl).
    rewrite (bind_ok this _ _ _ _ eq_refl).
    change (state (set_participantsExpirationTimer None gc)) with (state gc).
    case_bool_decide as He.
    + by apply setter_participants_returns.
    + unfold lift at 1. rewrite collectParticipants_timer, Hc.
      rewrite (bind_ok _ _ _ (view, ne) (set_participantsExpirationTimer None gc) eq_refl).
      destruct (setter_participants_returns view (set_participantsExpirationTimer None gc) Hs)
        as [gc1 E1].
      rewrite (bind_ok _ _ _ _ _ E1). simpl. destruct ne; by eexists.
Qed.

(** In S1 the advertisement of [(@b:h, DB)] expires at time 3600000. *)
Lemma view_expires_with_its_first_device_witness :
  expiresInView gc_a_entered 0 3600000.
Proof.
  exact (proj1 (proj2 (proj1 (view_expires_with_its_first_device gc_a_entered 0 _ _
                                gc_a_entered_collect)))).
Defined.

(** * The life cycle *)

(** ** Reasoning about the methods of the life cycle *)

Lemma bindL_ok {A B} (m : LM A) (k : A → LM B) o a o' :
  m o = (Ok a, o') → bindL m k o = k a o'.
Proof. unfold bindL. by intros ->. Qed.

Lemma bindL_throw {A B} (m : LM A) (k : A → LM B) o e o' :
  m o = (Throw e, o') → bindL m k o = (Throw e, o').
Proof. unfold bindL. by intros ->. Qed.

Lemma bindL_returns {A B} (m : LM A) (k : A → LM B) o b o'' :
  bindL m k o = (Ok b, o'') ↔ ∃ a o', m o = (Ok a, o') ∧ k a o' = (Ok b, o'').
Proof.
  unfold bindL. split.
  - destruct (m o) as [[a|e] o']; [eauto|done].
  - by intros (a & o' & -> & ?).
Qed.

Lemma core_run {A} (m : M A) o r gc' :
  m (fields o) = (r, gc') → core m o = (r, set_fields gc' o).
Proof. unfold core. by intros ->. Qed.

Lemma framesL_ret {A X} (obs : GroupCallObject → X) (a : A) : framesL obs (retL a).
Proof. by intros o. Qed.

Lemma framesL_throw {A X} (obs : GroupCallObject → X) e : framesL obs (throwL (A:=A) e).
Proof. by intros o. Qed.

Lemma framesL_this {X} (obs : GroupCallObject → X) : framesL obs thisL.
Proof. by intros o. Qed.

Lemma framesL_modify {X} (obs : GroupCallObject → X) f :
  (∀ o, obs (f o) = obs o) → framesL obs (modifyL f).
Proof. intros H o. apply H. Qed.

Lemma framesL_bind {A B X} (obs : GroupCallObject → X) (m : LM A) (k : A → LM B) :
  framesL obs m → (∀ a, framesL obs (k a)) → framesL obs (bindL m k).
Proof.
  intros Hm Hk o. unfold bindL. specialize (Hm o).
  destruct (m o) as [[a|e] o']; simpl in *; [|done].
  by rewrite Hk.
Qed.

Lemma framesL_when {X} (obs : GroupCallObject → X) b m :
  framesL obs m → framesL obs (whenL b m).
Proof. destruct b; [done|]. intros _. apply framesL_ret. Qed.

Lemma framesL_for_each {A X} (obs : GroupCallObject → X) (xs : list A) body :
  (∀ x, framesL obs (body x)) → framesL obs (for_eachL xs body).
Proof.
  intros H. induction xs as [|x xs IH]; simpl; [apply framesL_ret|].
  apply framesL_bind; [apply H|done].
Qed.

Lemma framesL_try_catch {A X} (obs : GroupCallObject → X) (m : LM A) handler :
  framesL obs m → (∀ e, framesL obs (handler e)) → framesL obs (try_catch m handler).
Proof.
  intros Hm Hh o. unfold try_catch. specialize (Hm o).
  destruct (m o) as [[a|e] o']; simpl in *; [done|].
  by rewrite Hh.
Qed.

(** A method of the part above keeps what it keeps of the state. *)
Lemma framesL_core {A X} (obs : GroupCall → X) (m : M A) :
  frames obs m → framesL (λ o, obs (fields o)) (core m).
Proof. intros H o. unfold core. simpl. apply H. Qed.

(** A method of the part above keeps the fields of the life cycle. *)
Lemma framesL_core_host {A X} (obs : GroupCallObject → X) (m : M A) :
  (∀ gc o, obs (set_fields gc o) = obs o) → framesL obs (core m).
Proof. intros H o. unfold core. simpl. apply H. Qed.

Lemma framesL_run {A X} (obs : GroupCallObject → X) (m : LM A) o r o' :
  framesL obs m → m o = (r, o') → obs o' = obs o.
Proof. intros H E. specialize (H o). by rewrite E in H. Qed.

(** ** State changes *)

Lemma setter_participants_besidesView value gc :
  state gc ≠ GroupCallState.Entered →
  besidesView (setter_participants value gc).2 = besidesView gc.
Proof.
  intros Hs. unfold setter_participants, bind, this, when. simpl.
  case_bool_decide; simpl; [done|].
  unfold onParticipantsChanged, bind, this, when. simpl.
  by rewrite bool_decide_false.
Qed.

Lemma updateParticipants_besidesView now gc :
  state gc ≠ GroupCallState.Entered →
  besidesView (updateParticipants now gc).2 = besidesView gc.
Proof.
  intros Hs. unfold updateParticipants.
  unfold bind at 1. simpl. unfold bind at 1. simpl.
  case_bool_decide.
  - by rewrite setter_participants_besidesView.
  - unfold bind at 1. unfold lift. simpl.
    destruct (collectParticipants _ now) as [r|e]; [|done].
    unfold bind.
    pose proof (setter_participants_besidesView r.1
                  (set_participantsExpirationTimer None gc) Hs) as Hv.
    destruct (setter_participants _ _) as [[[]|e] gc1]; simpl in *; [|done].
    by destruct r.2.
Qed.

Lemma updateDevices_frames_besidesView fn keepAlive now :
  frames besidesView (updateDevices fn keepAlive now).
Proof. unfold updateDevices. solve_frames. Qed.

Lemma addDeviceToMemberState_frames_besidesView now now' :
  frames besidesView (addDeviceToMemberState now now').
Proof.
  unfold addDeviceToMemberState. apply frames_bind; [apply frames_this|].
  intros gc. apply updateDevices_frames_besidesView.
Qed.

Lemma besidesView_state gc gc' : besidesView gc' = besidesView gc → state gc' = state gc.
Proof. unfold besidesView. congruence. Qed.

Lemma updateMemberState_begin_besidesView clock :
  framesL (λ o, besidesView (fields o)) (updateMemberState_begin clock).
Proof.
  unfold updateMemberState_begin.
  apply framesL_bind; [apply framesL_this|]. intros o.
  apply framesL_bind; [apply framesL_when; by apply framesL_modify|]. intros _.
  apply framesL_bind; [apply framesL_this|]. intros o1.
  case_bool_decide.
  - apply framesL_bind; [|intros; apply framesL_ret].
    apply (framesL_core besidesView), addDeviceToMemberState_frames_besidesView.
  - apply framesL_bind; [|intros; apply framesL_ret].
    apply (framesL_core besidesView), updateDevices_frames_besidesView.
Qed.

Lemma updateMemberState_begin_host {X} (obs : GroupCallObject → X) clock :
  (∀ gc o, obs (set_fields gc o) = obs o) →
  (∀ t o, obs (set_resendMemberStateTimer t o) = obs o) →
  framesL obs (updateMemberState_begin clock).
Proof.
  intros Hf Ht. unfold updateMemberState_begin.
  apply framesL_bind; [apply framesL_this|]. intros o.
  apply framesL_bind; [apply framesL_when; apply framesL_modify, Ht|]. intros _.
  apply framesL_bind; [apply framesL_this|]. intros o1.
  case_bool_decide; (apply framesL_bind; [|intros; apply framesL_ret]);
    by apply framesL_core_host.
Qed.

Lemma onStateChanged_besidesView clock newState oldState o :
  state (fields o) ≠ GroupCallState.Entered →
  besidesView (fields (onStateChanged clock newState oldState o).2)
  = besidesView (fields o).
Proof.
  intros Hs. unfold onStateChanged, whenL.
  destruct (_ || _ || _); [|done].
  unfold bindL, updateParticipants_at.
  pose proof (updateParticipants_besidesView (nowParticipants clock) (fields o) Hs) as Hv.
  unfold core at 1.
  destruct (updateParticipants _ _) as [[[]|e] gc1]; simpl in *; [|done].
  unfold catch_log.
  rewrite (framesL_try_catch (λ o, besidesView (fields o))); [done| |intros; apply framesL_ret].
  apply framesL_bind; [apply updateMemberState_begin_besidesView|intros; apply framesL_ret].
Qed.

Lemma onStateChanged_host {X} (obs : GroupCallObject → X) clock newState oldState :
  (∀ gc o, obs (set_fields gc o) = obs o) →
  (∀ t o, obs (set_resendMemberStateTimer t o) = obs o) →
  framesL obs (onStateChanged clock newState oldState).
Proof.
  intros Hf Ht. unfold onStateChanged. apply framesL_when.
  apply framesL_bind; [by apply framesL_core_host|]. intros _.
  apply framesL_try_catch; [|intros; apply framesL_ret].
  apply framesL_bind; [by apply updateMemberState_begin_host|intros; apply framesL_ret].
Qed.

Lemma setter_state_host {X} (obs : GroupCallObject → X) clock value :
  (∀ gc o, obs (set_fields gc o) = obs o) →
  (∀ t o, obs (set_resendMemberStateTimer t o) = obs o) →
  framesL obs (setter_state clock value).
Proof.
  intros Hf Ht. unfold setter_state.
  apply framesL_bind; [apply framesL_this|]. intros o. apply framesL_when.
  apply framesL_bind; [by apply framesL_core_host|]. intros _.
  apply framesL_bind; [by apply framesL_core_host|]. intros _.
  by apply onStateChanged_host.
Qed.

(** A change to a state other than [Entered] changes the state, the view of
    the participants and the records of the operations, and nothing else of
    the state of the methods above. *)
Lemma setter_state_besidesView clock value o :
  value ≠ GroupCallState.Entered →
  besidesView (fields (setter_state clock value o).2)
  = besidesView (set_state value (fields o)).
Proof.
  intros Hv. unfold setter_state. unfold bindL at 1. simpl. unfold whenL.
  case_bool_decide as Hp; simpl.
  - rewrite Hp. by destruct o as [[]].
  - unfold bindL, core. simpl.
    by rewrite onStateChanged_besidesView.
Qed.

(** A change to a state that is neither the old one nor concerns [Entered]
    or [Ended] emits the change and does nothing else. *)
Lemma setter_state_quiet clock value o :
  value ≠ state (fields o) →
  value ≠ GroupCallState.Entered →
  state (fields o) ≠ GroupCallState.Entered →
  value ≠ GroupCallState.Ended →
  setter_state clock value o
  = (Ok tt,
     set_fields
       (set_trace (trace (fields o)
                   ++ [Emit (GroupCallEvent.GroupCallStateChanged value (state (fields o)))])
          (set_state value (fields o))) o).
Proof.
  intros H1 H2 H3 H4. unfold setter_state. unfold bindL at 1. simpl.
  rewrite bool_decide_false by done. simpl.
  unfold bindL, core, onStateChanged. simpl.
  by rewrite !bool_decide_false.
Qed.

(** ** The local call feed *)

Lemma performL_run e o :
  performL e o = (Ok tt, set_hostTrace (hostTrace o ++ [e]) o).
Proof. reflexivity. Qed.

Lemma catch_log_run (m : LM unit) o r o' :
  m o = (r, o') → catch_log m o = (Ok tt, o').
Proof. unfold catch_log, try_catch. intros ->. by destruct r as [[]|]. Qed.

(** [initLocalCallFeed] when the media handler answers with a stream and the
    call was not disposed in the meantime: [o2] is the object when the stream
    has been asked for and [o3] the object when the answer arrives. *)
Lemma initLocalCallFeed_returns clock w audioTracks videoTracks samples o r o3 t :
  state (fields o) = GroupCallState.LocalCallFeedUninitialized →
  let o2 :=
    set_hostTrace
      (hostTrace o ++ [GetUserMediaStream true (bool_decide (type o = GroupCallType.Video))])
      (set_fields
         (set_trace
            (trace (fields o)
             ++ [Emit (GroupCallEvent.GroupCallStateChanged
                         GroupCallState.InitializingLocalCallFeed
                         GroupCallState.LocalCallFeedUninitialized)])
            (set_state GroupCallState.InitializingLocalCallFeed (fields o))) o) in
  w o2 = (r, o3) →
  trace (fields o3) = trace (fields o2) ++ t →
  heardUninitialized t = false →
  state (fields o3) = GroupCallState.InitializingLocalCallFeed →
  let gc := fields o3 in
  let callFeed := nextFeedRef o3 in
  let audioMuted :=
    initWithAudioMuted gc || bool_decide (audioTracks = 0%nat) || isPtt gc in
  let videoMuted := initWithVideoMuted gc || bool_decide (videoTracks = 0%nat) in
  ∃ o',
    initLocalCallFeed clock w (GotStream audioTracks videoTracks) samples o
    = (Ok callFeed, o')
    ∧ besidesView (fields o')
      = besidesView
          (set_state GroupCallState.LocalCallFeedInitialized
             (set_userMediaFeeds (userMediaFeeds gc ++ [callFeed])
                (set_localCallFeed (Some callFeed)
                   (set_feedHeap
                      (<[callFeed :=
                           newCallFeed (MatrixClient.getUserId (client gc))
                             (MatrixClient.getDeviceId (client gc))
                             SDPStreamMetadataPurpose.Usermedia audioMuted videoMuted
                             samples]> (feedHeap gc)) gc))))
    ∧ trace (fields o')
      = trace gc
        ++ [SetTracksEnabled callFeed AudioTracks (negb audioMuted);
            SetTracksEnabled callFeed VideoTracks (negb videoMuted);
            FeedMeasureVolumeActivity callFeed true;
            Emit (GroupCallEvent.UserMediaFeedsChanged (userMediaFeeds gc ++ [callFeed]));
            Emit (GroupCallEvent.GroupCallStateChanged
                    GroupCallState.LocalCallFeedInitialized
                    GroupCallState.InitializingLocalCallFeed)]
    ∧ nextFeedRef o' = S callFeed
    ∧ hostTrace o' = hostTrace o3.
Proof.
  intros Hs o2 Hw Ht Hh Hs3 gc callFeed audioMuted videoMuted.
  unfold initLocalCallFeed.
  unfold bindL at 1. simpl. rewrite Hs. simpl.
  rewrite (bindL_ok _ _ _ _ _
             (setter_state_quiet clock GroupCallState.InitializingLocalCallFeed o
                ltac:(by rewrite Hs) ltac:(done) ltac:(by rewrite Hs) ltac:(done))).
  rewrite Hs.
  rewrite (bindL_ok _ _ _ _ _ (performL_run _ _)).
  unfold bindL at 1. simpl.
  fold o2.
  rewrite (bindL_ok _ _ _ _ _ (catch_log_run w o2 r o3 Hw)).
  unfold bindL at 1. simpl.
  rewrite Ht.
  change (trace (set_trace ?x _)) with x in *.
  rewrite drop_app_length, Hh.
  unfold constructCallFeed.
  do 6 (unfold bindL at 1; simpl).
  rewrite fn_lookup_insert. simpl.
  match goal with
  | |- context [bindL (setter_state clock ?v) _ ?ob] =>
      pose proof (setter_state_quiet clock v ob) as Hq
  end.
  simpl in Hq. rewrite Hs3 in Hq.
  rewrite (bindL_ok _ _ _ _ _ (Hq ltac:(done) ltac:(done) ltac:(done) ltac:(done))).
  eexists. split; [reflexivity|].
  simpl. repeat split.
  rewrite <- !app_assoc. reflexivity.
Qed.

Lemma forEachCall_no_calls f gc : allCalls gc = [] → forEachCall f gc = (Ok tt, gc).
Proof. intros H. unfold forEachCall, bind, this. by rewrite H. Qed.

(** A mute request before the local call feed exists and while no call is
    up *)
Lemma setMicrophoneMuted_deferred hasAudioDevice muted gc :
  localCallFeed gc = None →
  allCalls gc = [] →
  (muted = false → hasAudioDevice = true) →
  setMicrophoneMuted hasAudioDevice muted gc
  = (Ok true,
     set_trace (trace gc ++ [Emit (GroupCallEvent.LocalMuteStateChanged muted true)])
       (set_initWithAudioMuted muted
          (set_transmitTimer
             (if isPtt gc && negb muted
              then Some (pttMaxTransmitTime gc) else transmitTimer gc) gc))).
Proof.
  intros Hl Hc Ha.
  assert (negb muted && negb hasAudioDevice = false) as Ea.
  { destruct muted; [done|]. by rewrite Ha. }
  unfold setMicrophoneMuted. rewrite Ea.
  rewrite (bind_ok this _ gc gc gc eq_refl).
  unfold isMicrophoneMuted at 1 2. rewrite Hl. simpl (negb true). rewrite andb_false_r.
  rewrite andb_true_r.
  set (gc1 := set_transmitTimer
                (if isPtt gc && negb muted
                 then Some (pttMaxTransmitTime gc) else transmitTimer gc) gc).
  assert (when (isPtt gc)
            (if negb muted
             then modify (set_transmitTimer (Some (pttMaxTransmitTime gc)))
             else ret tt) gc = (Ok tt, gc1)) as E1.
  { unfold gc1. destruct (isPtt gc), muted; by destruct gc. }
  rewrite (bind_ok _ _ _ _ _ E1).
  assert (allCalls gc1 = []) as Hc1 by exact Hc.
  assert (localCallFeed gc1 = None) as Hl1 by (by destruct gc).
  rewrite (bind_ok _ _ _ _ _ (forEachCall_no_calls _ gc1 Hc1)).
  assert (∀ b, when b (forEachCall (λ call, perform (CallSendMetadataUpdate call))) gc1
               = (Ok tt, gc1)) as E2.
  { intros []; [apply (forEachCall_no_calls _ gc1 Hc1)|done]. }
  rewrite (bind_ok _ _ _ _ _ (E2 _)).
  rewrite (bind_ok this _ gc1 gc1 gc1 eq_refl). rewrite Hl1.
  unfold bind at 1. unfold modify at 1.
  set (gc2 := set_initWithAudioMuted muted gc1).
  assert (allCalls gc2 = []) as Hc2 by exact Hc.
  assert (localCallFeed gc2 = None) as Hl2 by (by destruct gc).
  rewrite (bind_ok _ _ _ _ _ (forEachCall_no_calls _ gc2 Hc2)).
  rewrite (bind_ok this _ gc2 gc2 gc2 eq_refl).
  unfold isLocalVideoMuted. rewrite Hl2.
  unfold emit. rewrite (bind_ok _ _ _ _ _ (perform_run _ gc2)).
  set (gc3 := set_trace _ gc2).
  assert (allCalls gc3 = []) as Hc3 by exact Hc.
  assert (∀ b, when b (forEachCall (λ call, perform (CallSendMetadataUpdate call))) gc3
               = (Ok tt, gc3)) as E3.
  { intros []; [apply (forEachCall_no_calls _ gc3 Hc3)|done]. }
  rewrite (bind_ok _ _ _ _ _ (E3 _)).
  reflexivity.
Qed.

Lemma setLocalVideoMuted_deferred hasVideoDevice muted gc :
  localCallFeed gc = None →
  allCalls gc = [] →
  (muted = false → hasVideoDevice = true) →
  setLocalVideoMuted hasVideoDevice muted gc
  = (Ok true,
     set_trace (trace gc ++ [Emit (GroupCallEvent.LocalMuteStateChanged true muted)])
       (set_initWithVideoMuted muted gc)).
Proof.
  intros Hl Hc Hv.
  assert (negb muted && negb hasVideoDevice = false) as Ev.
  { destruct muted; [done|]. by rewrite Hv. }
  unfold setLocalVideoMuted. rewrite Ev.
  rewrite (bind_ok this _ gc gc gc eq_refl). rewrite Hl.
  unfold bind at 1. unfold modify at 1.
  set (gc4 := set_initWithVideoMuted muted gc).
  assert (allCalls gc4 = []) as Hc4 by exact Hc.
  assert (localCallFeed gc4 = None) as Hl4 by (by destruct gc).
  rewrite (bind_ok _ _ _ _ _ (forEachCall_no_calls _ gc4 Hc4)).
  rewrite (bind_ok this _ gc4 gc4 gc4 eq_refl).
  unfold isMicrophoneMuted. rewrite Hl4.
  unfold emit. rewrite (bind_ok _ _ _ _ _ (perform_run _ gc4)).
  reflexivity.
Qed.

Lemma muteRequests_run hasAudioDevice audioMuted hasVideoDevice videoMuted o :
  localCallFeed (fields o) = None →
  allCalls (fields o) = [] →
  (audioMuted = false → hasAudioDevice = true) →
  (videoMuted = false → hasVideoDevice = true) →
  let gc := fields o in
  ∃ gc',
    muteRequests hasAudioDevice audioMuted hasVideoDevice videoMuted o
    = (Ok tt, set_fields gc' o)
    ∧ besidesView gc'
      = besidesView
          (set_initWithVideoMuted videoMuted
             (set_initWithAudioMuted audioMuted
                (set_transmitTimer
                   (if isPtt gc && negb audioMuted
                    then Some (pttMaxTransmitTime gc) else transmitTimer gc) gc)))
    ∧ trace gc'
      = trace gc ++ [Emit (GroupCallEvent.LocalMuteStateChanged audioMuted true);
                     Emit (GroupCallEvent.LocalMuteStateChanged true videoMuted)].
Proof.
  intros Hl Hc Ha Hv gc. unfold muteRequests.
  rewrite (bindL_ok _ _ _ _ _
             (core_run _ _ _ _ (setMicrophoneMuted_deferred _ _ _ Hl Hc Ha))).
  match goal with |- context [set_fields ?g o] => set (gc1 := g) end.
  assert (allCalls gc1 = []) as Hc1 by exact Hc.
  assert (localCallFeed gc1 = None) as Hl1 by (unfold gc1; by destruct (fields o)).
  rewrite (bindL_ok _ _ _ _ _
             (core_run _ (set_fields gc1 o) _ _
                (setLocalVideoMuted_deferred _ _ gc1 Hl1 Hc1 Hv))).
  eexists. split; [destruct o; reflexivity|].
  unfold gc1. fold gc. split.
  - by destruct gc.
  - destruct gc. simpl. by rewrite <- app_assoc.
Qed.

(** What does not read the view of the participants, its timer or the record
    of the operations reads the same from two states that agree on the
    rest. *)
Lemma besidesView_obs {X} (obs : GroupCall → X) gc' gc :
  (∀ g p t tr,
     obs (set_trace tr (set_participantsExpirationTimer t (set_participants p g))) = obs g) →
  besidesView gc' = besidesView gc → obs gc' = obs gc.
Proof.
  intros Hobs H.
  rewrite <- (Hobs gc (participants gc') (participantsExpirationTimer gc') (trace gc')).
  f_equal. destruct gc, gc'. unfold besidesView in H. simpl in *.
  by injection H as -> -> -> -> -> -> -> -> -> -> -> -> -> -> -> -> -> -> -> -> -> ->.
Qed.

Ltac read_besidesView H obs :=
  let E := fresh "E" in
  pose proof (besidesView_obs obs _ _ ltac:(by intros []) H) as E.

(** X14.  A mute state that the application asks for while the media handler
    is awaited is the mute state of the local call feed: when
    [initLocalCallFeed] returns, the feed is the local call feed, it is the
    last of the user media feeds, the call is in state
    [LocalCallFeedInitialized], the microphone reads as muted if that was
    asked for, if the stream has no audio track or if the call is
    push-to-talk, and the video reads as muted if that was asked for or the
    stream has no video track. *)
Theorem local_feed_starts_with_the_requested_mute_states
    clock hasAudioDevice audioMuted hasVideoDevice videoMuted
    audioTracks videoTracks samples o :
  state (fields o) = GroupCallState.LocalCallFeedUninitialized →
  localCallFeed (fields o) = None →
  allCalls (fields o) = [] →
  (audioMuted = false → hasAudioDevice = true) →
  (videoMuted = false → hasVideoDevice = true) →
  ∃ callFeed o',
    initLocalCallFeed clock
      (muteRequests hasAudioDevice audioMuted hasVideoDevice videoMuted)
      (GotStream audioTracks videoTracks) samples o
    = (Ok callFeed, o')
    ∧ state (fields o') = GroupCallState.LocalCallFeedInitialized
    ∧ localCallFeed (fields o') = Some callFeed
    ∧ last (userMediaFeeds (fields o')) = Some callFeed
    ∧ isMicrophoneMuted (fields o')
      = audioMuted || bool_decide (audioTracks = 0%nat) || isPtt (fields o)
    ∧ isLocalVideoMuted (fields o')
      = videoMuted || bool_decide (videoTracks = 0%nat).
Proof.
  intros Hs Hl Hc Ha Hv.
  set (o2 :=
    set_hostTrace
      (hostTrace o ++ [GetUserMediaStream true (bool_decide (type o = GroupCallType.Video))])
      (set_fields
         (set_trace
            (trace (fields o)
             ++ [Emit (GroupCallEvent.GroupCallStateChanged
                         GroupCallState.InitializingLocalCallFeed
                         GroupCallState.LocalCallFeedUninitialized)])
            (set_state GroupCallState.InitializingLocalCallFeed (fields o))) o)).
  assert (localCallFeed (fields o2) = None) as Hl2 by (by destruct o as [[]]).
  assert (allCalls (fields o2) = []) as Hc2 by exact Hc.
  destruct (muteRequests_run hasAudioDevice audioMuted hasVideoDevice videoMuted o2
              Hl2 Hc2 Ha Hv) as (gc3 & Hw & Hb & Ht).
  assert (state gc3 = GroupCallState.InitializingLocalCallFeed) as Hs3.
  { read_besidesView Hb state. rewrite E. by destruct o as [[]]. }
  destruct (initLocalCallFeed_returns clock _ audioTracks videoTracks samples o _ _ _
              Hs Hw Ht eq_refl Hs3) as (o' & E & Hb' & _).
  exists (nextFeedRef (set_fields gc3 o2)), o'. split; [exact E|].
  change (fields (set_fields gc3 o2)) with gc3 in Hb'.
  assert (initWithAudioMuted gc3 = audioMuted) as Eam.
  { read_besidesView Hb initWithAudioMuted. rewrite E0. by destruct o as [[]]. }
  assert (initWithVideoMuted gc3 = videoMuted) as Evm.
  { read_besidesView Hb initWithVideoMuted. rewrite E0. by destruct o as [[]]. }
  assert (isPtt gc3 = isPtt (fields o)) as Eptt.
  { read_besidesView Hb isPtt. rewrite E0. by destruct o as [[]]. }
  rewrite Eam, Evm, Eptt in Hb'.
  split. { read_besidesView Hb' state. rewrite E0. by destruct gc3. }
  split. { read_besidesView Hb' localCallFeed. rewrite E0. by destruct gc3. }
  split.
  { read_besidesView Hb' userMediaFeeds. rewrite E0. destruct gc3. simpl.
    apply last_snoc. }
  split.
  - read_besidesView Hb' isMicrophoneMuted. rewrite E0. destruct gc3.
    unfold isMicrophoneMuted. simpl. by rewrite fn_lookup_insert.
  - read_besidesView Hb' isLocalVideoMuted. rewrite E0. destruct gc3.
    unfold isLocalVideoMuted. simpl. by rewrite fn_lookup_insert.
Qed.

Lemma local_feed_starts_with_the_requested_mute_states_witness :
  ∃ callFeed o',
    initLocalCallFeed (mkClock 0 0 0) (muteRequests true true true false)
      (GotStream 1 1) [] object_a
    = (Ok callFeed, o')
    ∧ state (fields o') = GroupCallState.LocalCallFeedInitialized
    ∧ localCallFeed (fields o') = Some callFeed
    ∧ last (userMediaFeeds (fields o')) = Some callFeed
    ∧ isMicrophoneMuted (fields o') = true
    ∧ isLocalVideoMuted (fields o') = false.
Proof.
  apply (local_feed_starts_with_the_requested_mute_states (mkClock 0 0 0)
           true true true false 1 1 [] object_a); reflexivity.
Defined.

(** ** Disposal *)

Lemma registered_feed_has_its_key gc callFeed (feeds : list FeedRef) :
  callFeed ∈ feeds →
  ∃ before f after,
    feeds = before ++ f :: after
    ∧ Forall (λ f, sameKey gc callFeed f = false) before
    ∧ sameKey gc callFeed f = true.
Proof.
  intros Hin.
  destruct (findIndex (sameKey gc callFeed) feeds) as [i|] eqn:E.
  - destruct (findIndex_split _ _ _ E) as (before & f & after & ? & _ & ? & ?).
    by exists before, f, after.
  - apply findIndex_None in E. rewrite Forall_forall in E.
    specialize (E callFeed Hin). by rewrite sameKey_refl in E.
Qed.

Lemma removeUserMediaFeed_registered gc callFeed :
  callFeed ∈ userMediaFeeds gc → ∃ gc', removeUserMediaFeed callFeed gc = (Ok tt, gc').
Proof.
  intros (before & f & after & Hl & Hb & Hf)%(registered_feed_has_its_key gc).
  rewrite (removeUserMediaFeed_found gc callFeed before f after Hl Hb Hf). by eexists.
Qed.

Lemma removeScreenshareFeed_registered gc callFeed :
  callFeed ∈ screenshareFeeds gc → ∃ gc', removeScreenshareFeed callFeed gc = (Ok tt, gc').
Proof.
  intros (before & f & after & Hl & Hb & Hf)%(registered_feed_has_its_key gc).
  rewrite (removeScreenshareFeed_found gc callFeed before f after Hl Hb Hf). by eexists.
Qed.

Lemma disposeCall_with_handlers gc call reason :
  hasHandlers gc call →
  ∃ gc' t,
    disposeCall call reason gc = (Ok tt, gc')
    ∧ callHandlers gc' = callHandlers gc
    ∧ trace gc' = trace gc ++ t
    ∧ hungUp gc reason t call.
Proof.
  intros (userId & deviceMap & Hu & Hm & [handlers Hh] & Hn).
  destruct (disposeCall_returns gc call reason userId deviceMap handlers Hu Hm Hh)
    as (gc' & t & E & Hc & Ht).
  exists gc'. eexists. split; [exact E|]. split; [|split; [exact Ht|]].
  - rewrite Hc. unfold handlersAfterDisposal.
    rewrite (delete_id deviceMap userId Hn).
    rewrite bool_decide_false.
    + by apply insert_id.
    + intros Hz%map_size_empty_iff. by rewrite Hz in Hh.
  - intros Hr He. rewrite bool_decide_false by done. rewrite bool_decide_false by done.
    apply elem_of_app. right. apply elem_of_app. left. by apply list_elem_of_singleton.
Qed.

Lemma hasHandlers_same gc gc' call :
  callHandlers gc' = callHandlers gc → callHeap gc' = callHeap gc →
  hasHandlers gc call → hasHandlers gc' call.
Proof. unfold hasHandlers. by intros -> ->. Qed.

Lemma hungUp_same gc gc' reason t t' call :
  callHeap gc' = callHeap gc → hungUp gc' reason t call → hungUp gc reason (t' ++ t) call.
Proof.
  unfold hungUp. intros -> H Hr He. apply elem_of_app. right. by apply H.
Qed.

(** Every call of a sequence is disposed of when each has its handlers. *)
Lemma disposeCalls_run reason (xs : list CallRef) gc :
  (∀ call, call ∈ xs → hasHandlers gc call) →
  ∃ gc' t,
    for_each xs (λ call, disposeCall call reason) gc = (Ok tt, gc')
    ∧ callHandlers gc' = callHandlers gc
    ∧ trace gc' = trace gc ++ t
    ∧ ∀ call, call ∈ xs → hungUp gc reason t call.
Proof.
  revert gc. induction xs as [|x xs IH]; intros gc Hall.
  - exists gc, []. simpl. rewrite app_nil_r. repeat split.
    intros call Hin. by apply elem_of_nil in Hin.
  - destruct (disposeCall_with_handlers gc x reason) as (gc1 & t1 & E1 & Hh1 & Ht1 & Hu1).
    { apply Hall. by left. }
    pose proof (frames_run _ _ _ _ _ (disposeCall_frames_callHeap x reason) E1) as Hc1.
    destruct (IH gc1) as (gc2 & t2 & E2 & Hh2 & Ht2 & Hu2).
    { intros call Hin. apply (hasHandlers_same gc); [done..|]. apply Hall. by right. }
    exists gc2, (t1 ++ t2). simpl. rewrite (bind_ok _ _ _ _ _ E1).
    split; [exact E2|]. split; [congruence|]. split.
    { by rewrite Ht2, Ht1, app_assoc. }
    intros call [->|Hin]%elem_of_cons.
    + intros Hr He. apply elem_of_app. left. by apply Hu1.
    + apply (hungUp_same gc gc1); [done|]. by apply Hu2.
Qed.

Lemma removeUserMediaFeed_frames_besidesFeeds f : frames besidesFeeds (removeUserMediaFeed f).
Proof. unfold removeUserMediaFeed. solve_frames. Qed.

Lemma removeScreenshareFeed_frames_besidesFeeds f :
  frames besidesFeeds (removeScreenshareFeed f).
Proof. unfold removeScreenshareFeed. solve_frames. Qed.

Lemma disposeCall_frames_besidesFeeds c r : frames besidesFeeds (disposeCall c r).
Proof.
  unfold disposeCall. solve_frames;
    first [apply removeUserMediaFeed_frames_besidesFeeds
          |apply removeScreenshareFeed_frames_besidesFeeds].
Qed.

Lemma removeUserMediaFeed_frames_screenshareFeeds f :
  frames screenshareFeeds (removeUserMediaFeed f).
Proof. unfold removeUserMediaFeed. solve_frames. Qed.

Lemma besidesFeeds_obs {X} (obs : GroupCall → X) gc' gc :
  (∀ g a u s h tr,
     obs (set_trace tr (set_callHandlers h (set_screenshareFeeds s
            (set_userMediaFeeds u (set_activeSpeaker a g))))) = obs g) →
  besidesFeeds gc' = besidesFeeds gc → obs gc' = obs gc.
Proof.
  intros Hobs H.
  rewrite <- (Hobs gc (activeSpeaker gc') (userMediaFeeds gc') (screenshareFeeds gc')
                (callHandlers gc') (trace gc')).
  f_equal. destruct gc, gc'. unfold besidesFeeds in H. simpl in *.
  by injection H as -> -> -> -> -> -> -> -> -> -> -> -> -> -> -> -> -> -> -> ->.
Qed.

Ltac read_besidesFeeds H obs :=
  let E := fresh "E" in
  pose proof (besidesFeeds_obs obs _ _ ltac:(by intros []) H) as E.

Lemma dispose_keeps_host {X} (obs : GroupCallObject → X) :
  (∀ gc o, obs (set_fields gc o) = obs o) →
  (∀ x o, obs (set_localDesktopCapturerSourceId x o) = obs o) →
  (∀ x o, obs (set_activeSpeakerLoopInterval x o) = obs o) →
  (∀ x o, obs (set_retryCallLoopInterval x o) = obs o) →
  (∀ x o, obs (set_hostTrace x o) = obs o) →
  framesL obs dispose.
Proof.
  intros Hf Hd Ha Hr Ht. unfold dispose.
  repeat first
    [ apply framesL_ret | apply framesL_this | apply framesL_when
    | apply framesL_bind; [|intros ?]
    | by apply framesL_core_host
    | apply framesL_modify; intros ?; first [apply Hd|apply Ha|apply Hr|apply Ht]
    | progress unfold performL
    | match goal with
      | |- framesL _ (match ?x with _ => _ end) => destruct x
      end ].
Qed.

Lemma set_fields_fields o : set_fields (fields o) o = o.
Proof. by destruct o. Qed.

(** [dispose] on a call whose local feeds are registered and whose calls
    have their handlers *)
Lemma dispose_returns o :
  localFeedsRegistered (fields o) →
  (state (fields o) = GroupCallState.Entered →
   ∀ call, call ∈ allCalls (fields o) → hasHandlers (fields o) call) →
  ∃ o' t,
    dispose o = (Ok tt, o')
    ∧ besidesFeeds (fields o') = besidesFeeds (disposed (fields o))
    ∧ trace (fields o') = trace (fields o) ++ t
    ∧ retryCallLoopInterval o' = None
    ∧ (state (fields o) = GroupCallState.Entered →
       activeSpeaker (fields o') = None
       ∧ activeSpeakerLoopInterval o' = clearInterval (activeSpeakerLoopInterval o)
       ∧ ∀ call, call ∈ allCalls (fields o) →
           hungUp (fields o) (Some CallErrorCode.UserHangup) t call).
Proof.
  intros [Hu Hsx] Hcalls. unfold dispose.
  rewrite (bindL_ok thisL _ o o o eq_refl).
  (* the local call feed *)
  assert (∃ gc1 t1,
    (match localCallFeed (fields o) with
     | Some feed => (core (removeUserMediaFeed feed) ;;
                     core (modify (set_localCallFeed None)))%L
     | None => retL tt
     end) o = (Ok tt, set_fields gc1 o)
    ∧ besidesFeeds gc1 = besidesFeeds (set_localCallFeed None (fields o))
    ∧ callHandlers gc1 = callHandlers (fields o)
    ∧ screenshareFeeds gc1 = screenshareFeeds (fields o)
    ∧ trace gc1 = trace (fields o) ++ t1) as (gc1 & t1 & E1 & Hb1 & Hh1 & Hs1 & Ht1).
  { destruct (localCallFeed (fields o)) as [feed|] eqn:El.
    - destruct (removeUserMediaFeed_registered (fields o) feed (Hu feed eq_refl))
        as [gc1 E].
      destruct (extends_run _ _ _ _ (removeUserMediaFeed_extends feed) E) as [t Ht].
      exists (set_localCallFeed None gc1), t.
      rewrite (bindL_ok _ _ _ _ _ (core_run _ _ _ _ E)).
      split; [by destruct o|].
      pose proof (frames_run _ _ _ _ _ (removeUserMediaFeed_frames_besidesFeeds feed) E)
        as Hb.
      split.
      { apply (besidesFeeds_obs (λ g, besidesFeeds (set_localCallFeed None g)));
          [by intros []|done]. }
      split.
      { rewrite <- (frames_run _ _ _ _ _ (removeUserMediaFeed_frames_callHandlers feed) E).
        by destruct gc1. }
      split.
      { rewrite <- (frames_run _ _ _ _ _ (removeUserMediaFeed_frames_screenshareFeeds feed) E).
        by destruct gc1. }
      rewrite <- Ht. by destruct gc1.
    - exists (fields o), []. rewrite set_fields_fields, app_nil_r.
      repeat split. destruct (fields o). simpl in El. by subst. }
  rewrite (bindL_ok _ _ _ _ _ E1).
  rewrite (bindL_ok thisL _ _ _ _ eq_refl).
  change (fields (set_fields gc1 o)) with gc1.
  assert (localScreenshareFeed gc1 = localScreenshareFeed (fields o)) as Hsf1.
  { read_besidesFeeds Hb1 localScreenshareFeed. rewrite E. by destruct (fields o). }
  (* the local screen-sharing feed *)
  assert (∃ o2 t2,
    (match localScreenshareFeed gc1 with
     | Some feed => (performL (StopScreensharingStream feed) ;;
                     core (removeScreenshareFeed feed) ;;
                     core (modify (set_localScreenshareFeed None)) ;;
                     modifyL (set_localDesktopCapturerSourceId None))%L
     | None => retL tt
     end) (set_fields gc1 o) = (Ok tt, o2)
    ∧ besidesFeeds (fields o2) = besidesFeeds (set_localScreenshareFeed None gc1)
    ∧ callHandlers (fields o2) = callHandlers gc1
    ∧ trace (fields o2) = trace gc1 ++ t2
    ∧ retryCallLoopInterval o2 = retryCallLoopInterval o
    ∧ activeSpeakerLoopInterval o2 = activeSpeakerLoopInterval o)
    as (o2 & t2 & E2 & Hb2 & Hh2 & Ht2 & Hr2 & Ha2).
  { destruct (localScreenshareFeed gc1) as [feed|] eqn:El.
    - rewrite (bindL_ok _ _ _ _ _ (performL_run _ _)).
      destruct (removeScreenshareFeed_registered gc1 feed) as [gc2 E].
      { rewrite Hs1. apply Hsx. by rewrite <- Hsf1. }
      destruct (extends_run _ _ _ _ (removeScreenshareFeed_extends feed) E) as [t Ht].
      eexists _, t.
      rewrite (bindL_ok _ _ _ _ _
                 (core_run _ (set_hostTrace _ (set_fields gc1 o)) _ _ E)).
      split; [reflexivity|].
      pose proof (frames_run _ _ _ _ _ (removeScreenshareFeed_frames_besidesFeeds feed) E)
        as Hb.
      split.
      { simpl.
        apply (besidesFeeds_obs (λ g, besidesFeeds (set_localScreenshareFeed None g)));
          [by intros []|done]. }
      split.
      { simpl.
        rewrite <- (frames_run _ _ _ _ _ (removeScreenshareFeed_frames_callHandlers feed) E).
        by destruct gc2. }
      split; [simpl; rewrite <- Ht; by destruct gc2|].
      by destruct o.
    - exists (set_fields gc1 o), []. rewrite app_nil_r.
      repeat split; [|by destruct o..]. simpl. destruct gc1. simpl in El. by subst. }
  rewrite (bindL_ok _ _ _ _ _ E2).
  rewrite (bindL_ok _ _ _ _ _ (performL_run _ _)).
  rewrite (bindL_ok thisL _ _ _ _ eq_refl).
  (* the timers *)
  set (o3 := set_hostTrace (hostTrace o2 ++ [StopAllStreams]) o2).
  assert (∃ o4,
    whenL (bool_decide (is_Some (transmitTimer (fields o3))))
      (core (modify (set_transmitTimer None))) o3 = (Ok tt, o4)
    ∧ besidesFeeds (fields o4) = besidesFeeds (set_transmitTimer None (fields o2))
    ∧ activeSpeaker (fields o4) = activeSpeaker (fields o2)
    ∧ callHandlers (fields o4) = callHandlers (fields o2)
    ∧ trace (fields o4) = trace (fields o2)
    ∧ retryCallLoopInterval o4 = retryCallLoopInterval o2
    ∧ activeSpeakerLoopInterval o4 = activeSpeakerLoopInterval o2)
    as (o4 & E4 & Hb4 & Has4 & Hh4 & Ht4 & Hr4 & Ha4).
  { unfold o3. destruct (transmitTimer (fields o2)) as [timer|] eqn:Et.
    - eexists. split.
      + replace (fields (set_hostTrace (hostTrace o2 ++ [StopAllStreams]) o2))
          with (fields o2) by (by destruct o2).
        rewrite Et. reflexivity.
      + by destruct o2.
    - exists (set_hostTrace (hostTrace o2 ++ [StopAllStreams]) o2). split.
      + replace (fields (set_hostTrace (hostTrace o2 ++ [StopAllStreams]) o2))
          with (fields o2) by (by destruct o2).
        by rewrite Et.
      + destruct o2 as [gc2 ? ? ? ? ? ? ? ? ? ?]. destruct gc2. simpl in *. by subst. }
  rewrite (bindL_ok _ _ _ _ _ E4).
  assert (∃ o5,
    whenL (bool_decide (is_Some (retryCallLoopInterval o3)))
      (modifyL (set_retryCallLoopInterval None)) o4 = (Ok tt, o5)
    ∧ fields o5 = fields o4
    ∧ retryCallLoopInterval o5 = None
    ∧ activeSpeakerLoopInterval o5 = activeSpeakerLoopInterval o4)
    as (o5 & E5 & Hf5 & Hr5 & Ha5).
  { replace (retryCallLoopInterval o3) with (retryCallLoopInterval o4)
      by (rewrite Hr4; unfold o3; by destruct o2).
    destruct o4 as [gc4 ? ? ? ? ? rl ? ? ? ?]. simpl.
    destruct rl; eexists; (split; [reflexivity|]); by repeat split. }
  rewrite (bindL_ok _ _ _ _ _ E5).
  assert (state (fields o3) = state (fields o)) as Hst.
  { unfold o3. replace (fields (set_hostTrace _ o2)) with (fields o2) by (by destruct o2).
    read_besidesFeeds Hb2 state. rewrite E. clear E.
    read_besidesFeeds Hb1 state. replace (state (set_localScreenshareFeed None gc1))
      with (state gc1) by (by destruct gc1). rewrite E. by destruct (fields o). }
  rewrite Hst.
  assert (besidesFeeds (fields o5)
          = besidesFeeds
              (set_transmitTimer None
                 (set_localScreenshareFeed None (set_localCallFeed None (fields o)))))
    as Hb5.
  { rewrite Hf5, Hb4.
    apply (besidesFeeds_obs (λ g, besidesFeeds (set_transmitTimer None g)));
      [by intros []|].
    rewrite Hb2.
    apply (besidesFeeds_obs (λ g, besidesFeeds (set_localScreenshareFeed None g)));
      [by intros []|done]. }
  assert (trace (fields o5) = trace (fields o) ++ (t1 ++ t2)) as Ht5.
  { by rewrite Hf5, Ht4, Ht2, Ht1, app_assoc. }
  assert (callHandlers (fields o5) = callHandlers (fields o)) as Hh5
    by (by rewrite Hf5, Hh4, Hh2, Hh1).
  assert (callHeap (fields o5) = callHeap (fields o)) as Hch5.
  { read_besidesFeeds Hb5 callHeap. rewrite E. by destruct (fields o). }
  assert (allCalls (fields o5) = allCalls (fields o)) as Hc5.
  { read_besidesFeeds Hb5 allCalls. rewrite E. by destruct (fields o). }
  destruct (decide (state (fields o) = GroupCallState.Entered)) as [Hent|Hent];
    [rewrite (bool_decide_true (state (fields o) = GroupCallState.Entered)) by done
    |rewrite (bool_decide_false (state (fields o) = GroupCallState.Entered)) by done];
    unfold negb; cbv iota.
  - destruct (disposeCalls_run (Some CallErrorCode.UserHangup) (allCalls (fields o5))
                (fields o5)) as (gc6 & t6 & E6 & _ & Ht6 & Hu6).
    { intros call Hin. apply (hasHandlers_same (fields o)); [done..|].
      apply Hcalls; [done|]. by rewrite <- Hc5. }
    rewrite <- forEachCall_unfold in E6.
    pose proof (frames_run _ _ _ _ _
                  (frames_for_each besidesFeeds _ _
                     (λ call, disposeCall_frames_besidesFeeds call _)) E6) as Hb6.
    rewrite (bindL_ok _ _ _ _ _ (core_run _ _ _ _ E6)).
    eexists _, ((t1 ++ t2) ++ t6). split; [reflexivity|]. simpl.
    split.
    { unfold disposed. rewrite bool_decide_true by (by destruct (fields o)).
      transitivity (besidesFeeds (set_retryCallCounts ∅
                                    (set_callsOfUndefined None (set_calls ∅ gc6))));
        [by destruct gc6|].
      apply (besidesFeeds_obs
               (λ g, besidesFeeds (set_retryCallCounts ∅
                                     (set_callsOfUndefined None (set_calls ∅ g)))));
        [by intros []|]. by rewrite Hb6. }
    split; [destruct gc6; simpl in *; by rewrite Ht6, Ht5, <- !app_assoc|].
    split; [by destruct o5|].
    intros _. split; [by destruct gc6|]. split.
    { destruct o5; simpl in *. by rewrite Ha5, Ha4, Ha2. }
    intros call Hin. apply (hungUp_same (fields o) (fields o5)); [done|].
    apply Hu6. by rewrite Hc5.
  - exists o5, (t1 ++ t2). split; [reflexivity|].
    split.
    { unfold disposed. rewrite bool_decide_false by (by destruct (fields o)). done. }
    by repeat split.
Qed.

(** ** Leaving *)

Lemma createNewMatrixCall_extends roomId invitee opponentDeviceId opponentSessionId gid :
  extends (createNewMatrixCall roomId invitee opponentDeviceId opponentSessionId gid).
Proof. unfold createNewMatrixCall. solve_extends. Qed.

Lemma placeOutgoingCalls_extends : extends placeOutgoingCalls.
Proof.
  unfold placeOutgoingCalls.
  solve_extends;
    first [apply disposeCall_extends | apply initCall_extends
          | apply createNewMatrixCall_extends].
Qed.

Lemma updateParticipants_extends now : extends (updateParticipants now).
Proof.
  unfold updateParticipants, setter_participants, onParticipantsChanged.
  solve_extends; apply placeOutgoingCalls_extends.
Qed.

Lemma updateDevices_extends fn keepAlive now : extends (updateDevices fn keepAlive now).
Proof. unfold updateDevices. solve_extends. Qed.

Lemma addDeviceToMemberState_extends now now' : extends (addDeviceToMemberState now now').
Proof.
  unfold addDeviceToMemberState. apply extends_bind; [apply extends_this|].
  intros gc. apply updateDevices_extends.
Qed.

Lemma extendsL_ret {A} (a : A) : extendsL (retL a).
Proof. intros o. exists []. by rewrite app_nil_r. Qed.

Lemma extendsL_throw {A} e : extendsL (throwL (A:=A) e).
Proof. intros o. exists []. by rewrite app_nil_r. Qed.

Lemma extendsL_this : extendsL thisL.
Proof. intros o. exists []. by rewrite app_nil_r. Qed.

Lemma extendsL_modify f : (∀ o, fields (f o) = fields o) → extendsL (modifyL f).
Proof. intros H o. exists []. simpl. by rewrite H, app_nil_r. Qed.

Lemma extendsL_core {A} (m : M A) : extends m → extendsL (core m).
Proof. intros H o. destruct (H (fields o)) as [t Ht]. exists t. unfold core. by simpl. Qed.

Lemma extendsL_bind {A B} (m : LM A) (k : A → LM B) :
  extendsL m → (∀ a, extendsL (k a)) → extendsL (bindL m k).
Proof.
  intros Hm Hk o. unfold bindL. destruct (Hm o) as [t Ht].
  destruct (m o) as [[a|e] o']; simpl in *; [|by exists t].
  destruct (Hk a o') as [t' Ht']. exists (t ++ t'). by rewrite Ht', Ht, app_assoc.
Qed.

Lemma extendsL_when b m : extendsL m → extendsL (whenL b m).
Proof. destruct b; [done|]. intros _. apply extendsL_ret. Qed.

Lemma extendsL_try_catch {A} (m : LM A) handler :
  extendsL m → (∀ e, extendsL (handler e)) → extendsL (try_catch m handler).
Proof.
  intros Hm Hh o. unfold try_catch. destruct (Hm o) as [t Ht].
  destruct (m o) as [[a|e] o']; simpl in *; [by exists t|].
  destruct (Hh e o') as [t' Ht']. exists (t ++ t'). by rewrite Ht', Ht, app_assoc.
Qed.

Lemma extendsL_run {A} (m : LM A) o r o' :
  extendsL m → m o = (r, o') → ∃ t, trace (fields o') = trace (fields o) ++ t.
Proof. intros H E. destruct (H o) as [t Ht]. rewrite E in Ht. eauto. Qed.

Lemma updateMemberState_begin_extends clock : extendsL (updateMemberState_begin clock).
Proof.
  unfold updateMemberState_begin.
  apply extendsL_bind; [apply extendsL_this|]. intros o.
  apply extendsL_bind; [apply extendsL_when; by apply extendsL_modify|]. intros _.
  apply extendsL_bind; [apply extendsL_this|]. intros o1.
  case_bool_decide; (apply extendsL_bind; [|intros; apply extendsL_ret]);
    apply extendsL_core;
    [apply addDeviceToMemberState_extends|apply updateDevices_extends].
Qed.

Lemma setter_state_extends clock value : extendsL (setter_state clock value).
Proof.
  unfold setter_state, onStateChanged, updateParticipants_at, catch_log.
  apply extendsL_bind; [apply extendsL_this|]. intros o. apply extendsL_when.
  apply extendsL_bind; [apply extendsL_core; solve_extends|]. intros _.
  apply extendsL_bind; [apply extendsL_core; solve_extends|]. intros _.
  apply extendsL_when.
  apply extendsL_bind; [apply extendsL_core, updateParticipants_extends|]. intros _.
  apply extendsL_try_catch; [|intros; apply extendsL_ret].
  apply extendsL_bind; [apply updateMemberState_begin_extends|intros; apply extendsL_ret].
Qed.

Lemma disposed_fields gc :
  localCallFeed (disposed gc) = None
  ∧ localScreenshareFeed (disposed gc) = None
  ∧ transmitTimer (disposed gc) = None
  ∧ state (disposed gc) = state gc
  ∧ (state gc = GroupCallState.Entered →
     calls (disposed gc) = ∅ ∧ callsOfUndefined (disposed gc) = None
     ∧ retryCallCounts (disposed gc) = ∅).
Proof.
  unfold disposed. destruct gc. simpl. case_bool_decide; simpl; [done|].
  repeat split; done.
Qed.

(** X15.  Leaving a call whose local feeds are registered and whose calls
    have their handlers gives up everything local: the call is in state
    [LocalCallFeedUninitialized], it has no local feed, so that microphone
    and video read as muted, and neither the transmit timer nor the retry
    loop is running.  If the call was entered, then moreover the call graph
    (the entry of the key [undefined] included) and the retry counts are
    empty, there is no active speaker, the active-speaker loop is stopped,
    and every call of the graph that had neither ended nor been replaced was
    asked to hang up with the reason [UserHangup].  All this holds whether or
    not the listeners of the state change fail. *)
Theorem leave_gives_up_everything_local clock o :
  localFeedsRegistered (fields o) →
  (state (fields o) = GroupCallState.Entered →
   ∀ call, call ∈ allCalls (fields o) → hasHandlers (fields o) call) →
  let o' := (leave clock o).2 in
  state (fields o') = GroupCallState.LocalCallFeedUninitialized
  ∧ getLocalFeeds (fields o') = []
  ∧ isMicrophoneMuted (fields o') = true
  ∧ isLocalVideoMuted (fields o') = true
  ∧ transmitTimer (fields o') = None
  ∧ retryCallLoopInterval o' = None
  ∧ (state (fields o) = GroupCallState.Entered →
     calls (fields o') = ∅
     ∧ callsOfUndefined (fields o') = None
     ∧ retryCallCounts (fields o') = ∅
     ∧ activeSpeaker (fields o') = None
     ∧ activeSpeakerLoopInterval o' = clearInterval (activeSpeakerLoopInterval o)
     ∧ ∃ t, trace (fields o') = trace (fields o) ++ t
            ∧ ∀ call, call ∈ allCalls (fields o) →
                hungUp (fields o) (Some CallErrorCode.UserHangup) t call).
Proof.
  intros Hreg Hcalls. cbv zeta.
  destruct (dispose_returns o Hreg Hcalls) as (o1 & t1 & E1 & Hb1 & Ht1 & Hr1 & Hent1).
  unfold leave. rewrite (bindL_ok _ _ _ _ _ E1).
  set (m := setter_state clock GroupCallState.LocalCallFeedUninitialized).
  pose proof (setter_state_besidesView clock GroupCallState.LocalCallFeedUninitialized o1
                ltac:(done)) as Hb. fold m in Hb.
  destruct (disposed_fields (fields o)) as (Hd1 & Hd2 & Hd3 & Hd4 & Hd5).
  assert (∀ X (obs : GroupCall → X),
            (∀ g p t tr,
               obs (set_trace tr (set_participantsExpirationTimer t (set_participants p g)))
               = obs g) →
            (∀ g a u s h tr,
               obs (set_trace tr (set_callHandlers h (set_screenshareFeeds s
                      (set_userMediaFeeds u (set_activeSpeaker a g))))) = obs g) →
            (∀ g s, obs (set_state s g) = obs g) →
            obs (fields (m o1).2) = obs (disposed (fields o))) as Hread.
  { intros X obs H1 H2 H3.
    rewrite (besidesView_obs obs _ _ H1 Hb), H3.
    apply (besidesFeeds_obs obs _ _ H2 Hb1). }
  assert (localCallFeed (fields (m o1).2) = None) as Hl.
  { rewrite (Hread _ localCallFeed); [done|by intros []..]. }
  assert (localScreenshareFeed (fields (m o1).2) = None) as Hls.
  { rewrite (Hread _ localScreenshareFeed); [done|by intros []..]. }
  split.
  { rewrite (besidesView_obs state _ _ ltac:(by intros []) Hb). by destruct (fields o1). }
  split. { unfold getLocalFeeds. by rewrite Hl, Hls. }
  split. { unfold isMicrophoneMuted. by rewrite Hl. }
  split. { unfold isLocalVideoMuted. by rewrite Hl. }
  split. { rewrite (Hread _ transmitTimer); [done|by intros []..]. }
  split.
  { unfold m. rewrite (setter_state_host retryCallLoopInterval); [done|by intros ? []..]. }
  intros Hent. destruct (Hent1 Hent) as (Has1 & Hal1 & Hu1).
  destruct (Hd5 Hent) as (Hd6 & Hd7 & Hd8).
  split. { rewrite (Hread _ calls); [done|by intros []..]. }
  split. { rewrite (Hread _ callsOfUndefined); [done|by intros []..]. }
  split. { rewrite (Hread _ retryCallCounts); [done|by intros []..]. }
  split.
  { rewrite (besidesView_obs activeSpeaker _ _ ltac:(by intros []) Hb).
    rewrite <- Has1. by destruct (fields o1). }
  split.
  { unfold m. rewrite (setter_state_host activeSpeakerLoopInterval); [done|by intros ? []..]. }
  destruct (setter_state_extends clock GroupCallState.LocalCallFeedUninitialized o1)
    as [t2 Ht2]. fold m in Ht2.
  exists (t1 ++ t2). split; [by rewrite Ht2, Ht1, app_assoc|].
  intros call Hin Hr He. apply elem_of_app. left. by apply Hu1.
Qed.

(** ** Termination *)

Lemma updateDevices_keeps {X} (obs : GroupCall → X) fn keepAlive now :
  (∀ g tr, obs (set_trace tr g) = obs g) → frames obs (updateDevices fn keepAlive now).
Proof.
  intros H. unfold updateDevices. solve_frames. apply frames_modify. intros gc. apply H.
Qed.

Lemma updateMemberState_begin_keeps {X} (obs : GroupCall → X) clock :
  (∀ g tr, obs (set_trace tr g) = obs g) →
  framesL (λ o, obs (fields o)) (updateMemberState_begin clock).
Proof.
  intros H. unfold updateMemberState_begin.
  apply framesL_bind; [apply framesL_this|]. intros o.
  apply framesL_bind; [apply framesL_when; by apply framesL_modify|]. intros _.
  apply framesL_bind; [apply framesL_this|]. intros o1.
  case_bool_decide; (apply framesL_bind; [|intros; apply framesL_ret]);
    apply (framesL_core obs).
  - unfold addDeviceToMemberState. apply frames_bind; [apply frames_this|].
    intros gc. by apply updateDevices_keeps.
  - by apply updateDevices_keeps.
Qed.

Lemma catch_log_returns (m : LM unit) o : catch_log m o = (Ok tt, (catch_log m o).2).
Proof.
  unfold catch_log, try_catch. by destruct (m o) as [[[]|e] o'].
Qed.

(** In state [Ended] the view of the participants is emptied, and this never
    fails. *)
Lemma updateParticipants_ended now gc :
  state gc = GroupCallState.Ended →
  ∃ gc', updateParticipants now gc = (Ok tt, gc') ∧ participants gc' = ∅.
Proof.
  intros Hs.
  pose proof (proj1 (updateParticipants_participants gc now) Hs) as Hp.
  unfold updateParticipants in *.
  rewrite (bind_ok (modify (set_participantsExpirationTimer None)) _ gc tt
             (set_participantsExpirationTimer None gc) eq_refl) in *.
  rewrite (bind_ok this _ _ _ _ eq_refl) in *.
  change (state (set_participantsExpirationTimer None gc)) with (state gc) in *.
  rewrite Hs in *. rewrite bool_decide_true in * by done.
  destruct (setter_participants_returns ∅ (set_participantsExpirationTimer None gc))
    as [gc' E]; [change (state gc ≠ GroupCallState.Entered); by rewrite Hs|].
  rewrite E in *. by exists gc'.
Qed.

(** The change to state [Ended] never fails; it empties the view of the
    participants. *)
Lemma setter_state_Ended clock o :
  ∃ o',
    setter_state clock GroupCallState.Ended o = (Ok tt, o')
    ∧ (state (fields o) ≠ GroupCallState.Ended → participants (fields o') = ∅).
Proof.
  unfold setter_state. rewrite (bindL_ok thisL _ o o o eq_refl).
  case_bool_decide as Hp; unfold negb, whenL.
  - exists o. split; [done|]. intros Hn. by rewrite <- Hp in Hn.
  - unfold bindL at 1. unfold core at 1, modify at 1. simpl.
    unfold bindL at 1. unfold core at 1. simpl.
    unfold onStateChanged.
    rewrite (bool_decide_true (GroupCallState.Ended = GroupCallState.Ended)) by done.
    rewrite orb_true_r.
    unfold whenL, updateParticipants_at.
    match goal with
    | |- context [bindL (core (updateParticipants ?n)) _ ?ob] =>
        destruct (updateParticipants_ended n (fields ob)) as (gc' & E & Hv);
        [by destruct o as [[]]|];
        rewrite (bindL_ok _ _ _ _ _ (core_run _ ob _ _ E))
    end.
    rewrite catch_log_returns. eexists. split; [reflexivity|]. intros _.
    unfold catch_log.
    match goal with
    | |- participants (fields (try_catch ?m _ ?ob).2) = _ =>
        rewrite (framesL_try_catch (λ o, participants (fields o)) m (λ _, retL tt))
    end.
    + done.
    + apply framesL_bind; [|intros; apply framesL_ret].
      by apply (updateMemberState_begin_keeps participants).
    + intros; apply framesL_ret.
Qed.

Lemma assoc_obj_set k k' v content :
  assoc k (obj_set k' v content)
  = if String.eqb k k' then Some v else assoc k content.
Proof.
  induction content as [|[k1 v1] rest IH]; simpl.
  - by destruct (String.eqb k k').
  - destruct (String.eqb k' k1) eqn:E1; simpl.
    + apply String.eqb_eq in E1. subst k1. by destruct (String.eqb k k').
    + destruct (String.eqb k k1) eqn:E2; [|exact IH].
      apply String.eqb_eq in E2. subst k1.
      by rewrite String.eqb_sym, E1.
Qed.

(** X16.  Terminating a call whose local feeds are registered and whose
    calls have their handlers ends it: the call is in state [Ended] and has
    no local feed; unless it had ended before, the view of the participants
    is empty and the local device is no participant; and the last things
    done to the room and the client are to stop listening to the room, to
    delete the call from the calls of the client and to announce its end.
    If no state event is asked for, [terminate] returns.  If one is asked
    for and the room has the state event of the call, [terminate] returns,
    and the last event sent is that state event with [m.terminated] set to
    [call_ended] and every other property as it was.  If the room does not
    have the state event, [terminate] throws a [TypeError], after the call
    has ended. *)
Theorem terminate_ends_the_call clock emitStateEvent o :
  localFeedsRegistered (fields o) →
  (state (fields o) = GroupCallState.Entered →
   ∀ call, call ∈ allCalls (fields o) → hasHandlers (fields o) call) →
  let r := terminate clock emitStateEvent o in
  state (fields r.2) = GroupCallState.Ended
  ∧ getLocalFeeds (fields r.2) = []
  ∧ (state (fields o) ≠ GroupCallState.Ended →
     participants (fields r.2) = ∅ ∧ hasLocalParticipant (fields r.2) = false)
  ∧ (∃ t, hostTrace r.2
          = t ++ [RoomOffUpdate; GroupCallsDelete (Room.roomId (room (fields o)));
                  ClientEmitEnded])
  ∧ match emitStateEvent, callStateEvent o with
    | false, _ => r.1 = Ok tt
    | true, None => r.1 = Throw TypeError
    | true, Some content =>
        r.1 = Ok tt
        ∧ ∃ written,
            last (trace (fields r.2))
            = Some (SendStateEvent (Room.roomId (room (fields o)))
                      EventType.GroupCallPrefix (JObj written)
                      (groupCallId (fields o)) false)
            ∧ ∀ k, assoc k written
                   = if String.eqb k "m.terminated" then Some (JStr "call_ended")
                     else assoc k content
    end.
Proof.
  intros Hreg Hcalls. cbv zeta.
  destruct (dispose_returns o Hreg Hcalls) as (o1 & t1 & E1 & Hb1 & Ht1 & Hr1 & Hent1).
  destruct (disposed_fields (fields o)) as (Hd1 & Hd2 & Hd3 & Hd4 & Hd5).
  unfold terminate. rewrite (bindL_ok _ _ _ _ _ E1).
  rewrite (bindL_ok thisL _ _ _ _ eq_refl).
  rewrite (bindL_ok _ _ _ _ _ (performL_run _ _)).
  rewrite (bindL_ok _ _ _ _ _ (performL_run _ _)).
  rewrite (bindL_ok _ _ _ _ _ (performL_run _ _)).
  match goal with
  | |- context [bindL (setter_state clock GroupCallState.Ended) _ ?ob] => set (o2 := ob)
  end.
  assert (fields o2 = fields o1) as Hf2 by (unfold o2; by destruct o1).
  destruct (setter_state_Ended clock o2) as (o3 & E3 & Hv3).
  pose proof (setter_state_besidesView clock GroupCallState.Ended o2 ltac:(done)) as Hb3.
  pose proof (setter_state_host hostTrace clock GroupCallState.Ended
                ltac:(by intros ? []) ltac:(by intros ? []) o2) as Hh3.
  pose proof (setter_state_host callStateEvent clock GroupCallState.Ended
                ltac:(by intros ? []) ltac:(by intros ? []) o2) as Hc3.
  rewrite E3 in Hb3, Hh3, Hc3. cbv beta iota delta [snd] in Hb3, Hh3, Hc3.
  rewrite Hf2 in Hb3.
  rewrite (bindL_ok _ _ _ _ _ E3).
  assert (callStateEvent o3 = callStateEvent o) as Hcs.
  { rewrite Hc3. unfold o2.
    transitivity (callStateEvent o1); [by destruct o1|].
    pose proof (dispose_keeps_host callStateEvent ltac:(by intros ? [])
                  ltac:(by intros ? []) ltac:(by intros ? []) ltac:(by intros ? [])
                  ltac:(by intros ? []) o) as Hk.
    by rewrite E1 in Hk. }
  assert (∀ X (obs : GroupCall → X),
            (∀ g p t tr,
               obs (set_trace tr (set_participantsExpirationTimer t (set_participants p g)))
               = obs g) →
            (∀ g a u s h tr,
               obs (set_trace tr (set_callHandlers h (set_screenshareFeeds s
                      (set_userMediaFeeds u (set_activeSpeaker a g))))) = obs g) →
            (∀ g s, obs (set_state s g) = obs g) →
            obs (fields o3) = obs (disposed (fields o))) as Hread.
  { intros X obs H1 H2 H3.
    rewrite (besidesView_obs obs _ _ H1 Hb3), H3.
    apply (besidesFeeds_obs obs _ _ H2 Hb1). }
  assert (state (fields o3) = GroupCallState.Ended) as Hs3.
  { rewrite (besidesView_obs state _ _ ltac:(by intros []) Hb3). by destruct (fields o1). }
  assert (getLocalFeeds (fields o3) = []) as Hl3.
  { unfold getLocalFeeds.
    rewrite (Hread _ localCallFeed), (Hread _ localScreenshareFeed);
      [by rewrite Hd1, Hd2|by intros []..]. }
  assert (room (fields o3) = room (fields o)) as Hroom.
  { rewrite (Hread _ room); [|by intros []..]. unfold disposed.
    destruct (fields o). simpl. by case_bool_decide. }
  assert (groupCallId (fields o3) = groupCallId (fields o)) as Hgid.
  { rewrite (Hread _ groupCallId); [|by intros []..]. unfold disposed.
    destruct (fields o). simpl. by case_bool_decide. }
  assert (∃ t, hostTrace o3
               = t ++ [RoomOffUpdate; GroupCallsDelete (Room.roomId (room (fields o)));
                       ClientEmitEnded]) as Hht.
  { exists (hostTrace o1). rewrite Hh3. unfold o2.
    replace (room (fields o1)) with (room (fields o));
      [destruct o1; simpl; by rewrite <- !app_assoc|].
    rewrite <- Hroom.
    rewrite (besidesView_obs room _ _ ltac:(by intros []) Hb3). by destruct (fields o1). }
  assert (state (fields o) ≠ GroupCallState.Ended →
          participants (fields o3) = ∅ ∧ hasLocalParticipant (fields o3) = false) as Hp3.
  { intros Hne. assert (participants (fields o3) = ∅) as Hp.
    { apply Hv3. rewrite Hf2.
      rewrite (besidesFeeds_obs state _ _ ltac:(by intros []) Hb1). by rewrite Hd4. }
    split; [done|]. unfold hasLocalParticipant. rewrite Hp.
    destruct (Room.getMember _ _); [|done]. by rewrite lookup_empty. }
  destruct emitStateEvent; unfold whenL.
  - rewrite (bindL_ok thisL _ _ _ _ eq_refl). rewrite Hcs.
    destruct (callStateEvent o) as [content|].
    + rewrite (core_run _ o3 _ _ (perform_run _ (fields o3))).
      cbv beta iota delta [fst snd].
      change (fields (set_fields ?g o3)) with g.
      split; [by destruct (fields o3)|].
      split; [by destruct (fields o3)|].
      split.
      { intros Hne. destruct (Hp3 Hne) as [Hp Hh]. unfold hasLocalParticipant in *.
        by destruct (fields o3). }
      split; [destruct Hht as [t Ht]; exists t; by destruct o3|].
      split; [done|].
      eexists. split.
      * destruct (fields o3). simpl in *. rewrite last_snoc. by rewrite Hroom, Hgid.
      * intros k. apply assoc_obj_set.
    + by cbv beta iota delta [fst snd throwL].
  - by cbv beta iota delta [fst snd retL].
Qed.

(** The call of S1 can be disposed of. *)
Lemma object_a_calling_b_disposable :
  localFeedsRegistered (fields object_a_calling_b)
  ∧ (state (fields object_a_calling_b) = GroupCallState.Entered →
     ∀ call, call ∈ allCalls (fields object_a_calling_b) →
       hasHandlers (fields object_a_calling_b) call).
Proof.
  split; [split|].
  - intros feed H. vm_compute in H. injection H as <-. vm_compute.
    apply list_elem_of_singleton. reflexivity.
  - intros feed H. vm_compute in H. discriminate.
  - intros _ call Hin. vm_compute in Hin. apply list_elem_of_singleton in Hin. subst call.
    exists "@b:h", {[ "DB" := handlersOf 0%nat ]}.
    split; [vm_compute; reflexivity|]. split; [vm_compute; reflexivity|].
    split; [vm_compute; eauto|]. vm_compute. reflexivity.
Defined.

Lemma leave_gives_up_everything_local_witness :
  let o' := (leave (mkClock 0 0 0) object_a_calling_b).2 in
  state (fields o') = GroupCallState.LocalCallFeedUninitialized
  ∧ calls (fields o') = ∅.
Proof.
  intros o'.
  destruct (leave_gives_up_everything_local (mkClock 0 0 0) object_a_calling_b
              (proj1 object_a_calling_b_disposable)
              (proj2 object_a_calling_b_disposable))
    as (Hs & _ & _ & _ & _ & _ & He).
  split; [exact Hs|]. apply He. vm_compute. reflexivity.
Defined.

Lemma terminate_ends_the_call_witness :
  let r := terminate (mkClock 0 0 0) true object_a_calling_b in
  r.1 = Ok tt ∧ state (fields r.2) = GroupCallState.Ended.
Proof.
  intros r.
  destruct (terminate_ends_the_call (mkClock 0 0 0) true object_a_calling_b
              (proj1 object_a_calling_b_disposable)
              (proj2 object_a_calling_b_disposable))
    as (Hs & _ & _ & _ & Hr).
  split; [|exact Hs]. exact (proj1 Hr).
Defined.

(** ** Failed initialisation *)

Lemma heardUninitialized_snoc t newState oldState :
  heardUninitialized
    (t ++ [Emit (GroupCallEvent.GroupCallStateChanged newState oldState)])
  = heardUninitialized t
    || bool_decide (newState = GroupCallState.LocalCallFeedUninitialized).
Proof.
  unfold heardUninitialized. rewrite existsb_app. simpl. rewrite orb_false_r.
  by destruct newState.
Qed.

(** X17.  An initialisation that fails leaves the call uninitialised.  If
    the call is left while the media handler is awaited, [initLocalCallFeed]
    throws [Group call disposed] when the stream arrives; if the media handler
    fails, [initLocalCallFeed] throws its error.  In both cases the call is in
    state [LocalCallFeedUninitialized] again, it has no local call feed, and
    no feed has been constructed. *)
Theorem failed_initialisation_leaves_the_call_uninitialised
    clock clock' audioTracks videoTracks error samples o :
  state (fields o) = GroupCallState.LocalCallFeedUninitialized →
  localCallFeed (fields o) = None →
  localFeedsRegistered (fields o) →
  (∃ o', initLocalCallFeed clock (leave clock') (GotStream audioTracks videoTracks)
           samples o
         = (Throw (Error "Group call disposed"), o')
         ∧ state (fields o') = GroupCallState.LocalCallFeedUninitialized
         ∧ localCallFeed (fields o') = None
         ∧ nextFeedRef o' = nextFeedRef o)
  ∧ (∃ o', initLocalCallFeed clock (retL tt) (MediaError error) samples o
           = (Throw error, o')
           ∧ state (fields o') = GroupCallState.LocalCallFeedUninitialized
           ∧ localCallFeed (fields o') = None
           ∧ nextFeedRef o' = nextFeedRef o).
Proof.
  intros Hs Hl Hreg.
  set (o2 :=
    set_hostTrace
      (hostTrace o ++ [GetUserMediaStream true (bool_decide (type o = GroupCallType.Video))])
      (set_fields
         (set_trace
            (trace (fields o)
             ++ [Emit (GroupCallEvent.GroupCallStateChanged
                         GroupCallState.InitializingLocalCallFeed
                         GroupCallState.LocalCallFeedUninitialized)])
            (set_state GroupCallState.InitializingLocalCallFeed (fields o))) o)).
  assert (state (fields o2) = GroupCallState.InitializingLocalCallFeed) as Hs2
    by (by destruct o as [[]]).
  assert (localCallFeed (fields o2) = None) as Hl2 by (by destruct o as [[]]).
  assert (nextFeedRef o2 = nextFeedRef o) as Hn2 by (by destruct o).
  assert (∀ w answer r ow,
    w o2 = (r, ow) →
    initLocalCallFeed clock w answer samples o
    = match answer with
      | MediaError error =>
          (setter_state clock GroupCallState.LocalCallFeedUninitialized ;;
           throwL error)%L ow
      | GotStream audioTracks videoTracks =>
          if heardUninitialized (drop (length (trace (fields o2))) (trace (fields ow)))
          then (Throw (Error "Group call disposed"), ow)
          else initLocalCallFeed clock w answer samples o
      end) as Hrun.
  { intros w answer r ow Ew. destruct answer as [a v|e].
    2: { unfold initLocalCallFeed at 1.
         unfold bindL at 1. simpl. rewrite Hs. simpl.
         rewrite (bindL_ok _ _ _ _ _
               (setter_state_quiet clock GroupCallState.InitializingLocalCallFeed o
                  ltac:(by rewrite Hs) ltac:(done) ltac:(by rewrite Hs) ltac:(done))).
         rewrite Hs.
         rewrite (bindL_ok _ _ _ _ _ (performL_run _ _)).
         unfold bindL at 1. simpl.
         fold o2. by rewrite (bindL_ok _ _ _ _ _ (catch_log_run _ o2 _ _ Ew)). }
    destruct (heardUninitialized _) eqn:Eh; [|done].
    unfold initLocalCallFeed at 1.
    unfold bindL at 1. simpl. rewrite Hs. simpl.
    rewrite (bindL_ok _ _ _ _ _
               (setter_state_quiet clock GroupCallState.InitializingLocalCallFeed o
                  ltac:(by rewrite Hs) ltac:(done) ltac:(by rewrite Hs) ltac:(done))).
    rewrite Hs.
    rewrite (bindL_ok _ _ _ _ _ (performL_run _ _)).
    unfold bindL at 1. simpl.
    fold o2. rewrite (bindL_ok _ _ _ _ _ (catch_log_run _ o2 _ _ Ew)).
    unfold bindL at 1. simpl.
    match goal with
    | |- context [heardUninitialized ?x] =>
        change (heardUninitialized x)
          with (heardUninitialized
                  (drop (length (trace (fields o2))) (trace (fields ow))))
    end.
    by rewrite Eh. }
  split.
  - (* left while waiting *)
    destruct (dispose_returns o2) as (o3 & t3 & E3 & Hb3 & Ht3 & _).
    { destruct Hreg as [H1 H2]. by destruct o as [[]]. }
    { intros He. by rewrite Hs2 in He. }
    assert (disposed (fields o2)
            = set_transmitTimer None (set_localScreenshareFeed None
                (set_localCallFeed None (fields o2)))) as Hd.
    { unfold disposed. rewrite bool_decide_false; [done|]. by destruct o as [[]]; simpl in *. }
    rewrite Hd in Hb3.
    assert (state (fields o3) = GroupCallState.InitializingLocalCallFeed) as Hs3.
    { rewrite (besidesFeeds_obs state _ _ ltac:(by intros []) Hb3). by destruct o as [[]]. }
    assert (localCallFeed (fields o3) = None) as Hl3.
    { rewrite (besidesFeeds_obs localCallFeed _ _ ltac:(by intros []) Hb3).
      by destruct o as [[]]. }
    assert (nextFeedRef o3 = nextFeedRef o) as Hn3.
    { pose proof (dispose_keeps_host nextFeedRef ltac:(by intros ? [])
                    ltac:(by intros ? []) ltac:(by intros ? []) ltac:(by intros ? [])
                    ltac:(by intros ? []) o2) as Hk.
      rewrite E3 in Hk. simpl in Hk. by rewrite Hk. }
    pose proof (setter_state_quiet clock' GroupCallState.LocalCallFeedUninitialized o3)
      as E4. rewrite Hs3 in E4.
    specialize (E4 ltac:(done) ltac:(done) ltac:(done) ltac:(done)).
    match type of E4 with _ = (_, ?x) => set (o4 := x) in E4 end.
    assert (leave clock' o2 = (Ok tt, o4)) as Ew.
    { unfold leave. by rewrite (bindL_ok _ _ _ _ _ E3). }
    exists o4. split.
    + rewrite (Hrun _ _ _ _ Ew). unfold o4.
      change (fields (set_fields ?g o3)) with g.
      change (trace (set_trace ?t _)) with t.
      rewrite Ht3.
      rewrite <- app_assoc, drop_app_length, heardUninitialized_snoc.
      rewrite bool_decide_true by done. by rewrite orb_true_r.
    + unfold o4. simpl. split; [by destruct (fields o3)|]. split.
      * rewrite <- Hl3. by destruct (fields o3).
      * rewrite <- Hn3. by destruct o3.
  - (* the media handler fails *)
    pose proof (setter_state_quiet clock GroupCallState.LocalCallFeedUninitialized o2)
      as E4. rewrite Hs2 in E4.
    specialize (E4 ltac:(done) ltac:(done) ltac:(done) ltac:(done)).
    match type of E4 with _ = (_, ?x) => set (o4 := x) in E4 end.
    exists o4. split.
    + rewrite (Hrun (retL tt) _ (Ok tt) o2 eq_refl).
      by rewrite (bindL_ok _ _ _ _ _ E4).
    + unfold o4. simpl. split; [by destruct o as [[]]|]. split; by destruct o as [[]].
Qed.

Lemma failed_initialisation_leaves_the_call_uninitialised_witness :
  ∃ o', initLocalCallFeed (mkClock 0 0 0) (leave (mkClock 0 0 0)) (GotStream 1 1) []
          object_a
        = (Throw (Error "Group call disposed"), o')
        ∧ state (fields o') = GroupCallState.LocalCallFeedUninitialized.
Proof.
  destruct (failed_initialisation_leaves_the_call_uninitialised (mkClock 0 0 0)
              (mkClock 0 0 0) 1 1 TypeError [] object_a) as [(o' & E & Hs & _) _].
  - reflexivity.
  - reflexivity.
  - split; intros feed H; vm_compute in H; discriminate.
  - exists o'. by split.
Defined.

(** ** Entering *)

Lemma placeOutgoingCalls_frames_state : frames state placeOutgoingCalls.
Proof.
  unfold placeOutgoingCalls, createNewMatrixCall, initCall, disposeCall,
    onCallFeedsChanged, addUserMediaFeed, replaceUserMediaFeed, removeUserMediaFeed,
    addScreenshareFeed, replaceScreenshareFeed, removeScreenshareFeed.
  solve_frames.
Qed.

Lemma updateParticipants_frames_state now : frames state (updateParticipants now).
Proof.
  unfold updateParticipants, setter_participants, onParticipantsChanged.
  solve_frames; apply placeOutgoingCalls_frames_state.
Qed.

Lemma onIncomingCall_frames_state call : frames state (onIncomingCall call).
Proof.
  unfold onIncomingCall, initCall, disposeCall,
    onCallFeedsChanged, addUserMediaFeed, replaceUserMediaFeed, removeUserMediaFeed,
    addScreenshareFeed, replaceScreenshareFeed, removeScreenshareFeed.
  solve_frames.
Qed.

Lemma onActiveSpeakerLoop_frames_state threshold :
  frames state (onActiveSpeakerLoop threshold).
Proof. unfold onActiveSpeakerLoop. solve_frames. Qed.

(** The call is in the state that was assigned, whatever its listeners do. *)
Lemma setter_state_sets clock value o :
  state (fields (setter_state clock value o).2) = value.
Proof.
  unfold setter_state. rewrite (bindL_ok thisL _ o o o eq_refl).
  case_bool_decide as Hp; unfold negb, whenL; [done|].
  unfold bindL at 1. unfold core at 1, modify at 1. simpl.
  unfold bindL at 1. unfold core at 1. simpl.
  match goal with
  | |- state (fields (onStateChanged ?c ?n ?p ?ob).2) = _ =>
      transitivity (state (fields ob)); [|done];
      generalize ob; intros ob'
  end.
  unfold onStateChanged, updateParticipants_at, catch_log.
  apply (framesL_when (λ o, state (fields o))).
  apply framesL_bind.
  - apply (framesL_core state), updateParticipants_frames_state.
  - intros _. apply framesL_try_catch; [|intros; apply framesL_ret].
    apply framesL_bind; [|intros; apply framesL_ret].
    by apply (updateMemberState_begin_keeps state).
Qed.

(** X18.  When [enter] returns, the call is in state [Entered], the retry
    loop runs with the period [retryCallInterval] and the active-speaker loop
    with the period [activeSpeakerInterval].  A call in state [Entered] can
    neither be entered nor initialised again: [enter] and
    [initLocalCallFeed] throw, naming the state, and change nothing. *)
Theorem entered_call_cannot_be_entered_again
    threshold clock w answer samples w' incoming o o' :
  enter threshold clock w answer samples w' incoming o = (Ok tt, o') →
  state (fields o') = GroupCallState.Entered
  ∧ retryCallLoopInterval o' = Some (retryCallInterval o')
  ∧ activeSpeakerLoopInterval o' = Some (mkInterval (activeSpeakerInterval o') false)
  ∧ (∀ threshold2 clock2 w2 answer2 samples2 w2' incoming2,
       enter threshold2 clock2 w2 answer2 samples2 w2' incoming2 o'
       = (Throw (Error ("Cannot enter call in the " ++ quote ++ "entered" ++ quote
                        ++ " state")), o'))
  ∧ (∀ clock2 w2 answer2 samples2,
       initLocalCallFeed clock2 w2 answer2 samples2 o'
       = (Throw (Error ("Cannot initialize local call feed in the " ++ quote
                        ++ "entered" ++ quote ++ " state.")), o')).
Proof.
  intros E. unfold enter in E.
  rewrite (bindL_ok thisL _ o o o eq_refl) in E.
  apply bindL_returns in E as ([] & o1 & _ & E).
  apply bindL_returns in E as ([] & o2 & Eset & E).
  apply bindL_returns in E as ([] & o3 & Eperf & E).
  apply bindL_returns in E as ([] & o4 & Eloop & E).
  rewrite (bindL_ok thisL _ o4 o4 o4 eq_refl) in E.
  apply bindL_returns in E as ([] & o5 & Em1 & E).
  apply bindL_returns in E as ([] & o6 & Em2 & E).
  apply bindL_returns in E as ([] & o7 & Easl & E).
  assert (state (fields o2) = GroupCallState.Entered) as Hs2.
  { pose proof (setter_state_sets clock GroupCallState.Entered o1) as H.
    by rewrite Eset in H. }
  assert (state (fields o4) = GroupCallState.Entered) as Hs4.
  { rewrite <- Hs2.
    transitivity (state (fields o3)); [|injection Eperf as <-; by destruct o2].
    apply (framesL_run (λ o, state (fields o)) _ _ _ _
             (framesL_for_each _ incoming _
                (λ call, framesL_core state _ (onIncomingCall_frames_state call)))
             Eloop). }
  assert (state (fields o7) = GroupCallState.Entered) as Hs7.
  { rewrite <- Hs4.
    rewrite (framesL_run (λ o, state (fields o)) _ _ _ _
               (framesL_core state _ (onActiveSpeakerLoop_frames_state threshold)) Easl).
    injection Em2 as <-. injection Em1 as <-. by destruct o4 as [[]]. }
  assert (retryCallLoopInterval o7 = Some (retryCallInterval o7)
          ∧ activeSpeakerInterval o7 = activeSpeakerInterval o4) as [Hr7 Ha7].
  { assert (framesL (λ o, (retryCallLoopInterval o, retryCallInterval o,
                            activeSpeakerInterval o))
              (core (onActiveSpeakerLoop threshold))) as Hk
      by (apply framesL_core_host; by intros ? []).
    pose proof (framesL_run _ _ _ _ _ Hk Easl) as H.
    injection H as -> -> ->.
    injection Em2 as <-. injection Em1 as <-. by destruct o4. }
  injection E as <-.
  assert (state (fields (set_activeSpeakerLoopInterval
                           (Some (mkInterval (activeSpeakerInterval o4) false)) o7))
          = GroupCallState.Entered) as Hs' by (by destruct o7).
  split; [exact Hs'|].
  split; [by destruct o7|].
  split; [rewrite <- Ha7; by destruct o7|].
  split.
  - intros. unfold enter. rewrite (bindL_ok thisL _ _ _ _ eq_refl). by rewrite Hs'.
  - intros. unfold initLocalCallFeed. rewrite (bindL_ok thisL _ _ _ _ eq_refl).
    by rewrite Hs'.
Qed.

Lemma entered_call_cannot_be_entered_again_witness :
  state (fields (enter (-60 # 1)%Q (mkClock 0 0 0) (retL tt) (GotStream 1 1) [(-100 # 1)%Q]
                   (retL tt) [] object_a_in_room_ab).2)
  = GroupCallState.Entered.
Proof.
  assert (enter (-60 # 1)%Q (mkClock 0 0 0) (retL tt) (GotStream 1 1) [(-100 # 1)%Q]
            (retL tt) [] object_a_in_room_ab
          = (Ok tt,
             (enter (-60 # 1)%Q (mkClock 0 0 0) (retL tt) (GotStream 1 1) [(-100 # 1)%Q]
                (retL tt) [] object_a_in_room_ab).2)) as E.
  { rewrite (surjective_pairing (enter _ _ _ _ _ _ _ _)) at 1.
    apply (f_equal2 pair); [vm_compute; reflexivity|reflexivity]. }
  exact (proj1 (entered_call_cannot_be_entered_again _ _ _ _ _ _ _ _ _ E)).
Defined.

(** ** Screen sharing *)

(** A loop that only talks to the collaborators of the life cycle returns and
    keeps the state of the methods above. *)
Lemma for_eachL_host {A} (xs : list A) (body : A → LM unit) :
  (∀ x o, ∃ o', body x o = (Ok tt, o') ∧ fields o' = fields o
                ∧ localDesktopCapturerSourceId o' = localDesktopCapturerSourceId o
                ∧ nextFeedRef o' = nextFeedRef o) →
  ∀ o, ∃ o', for_eachL xs body o = (Ok tt, o') ∧ fields o' = fields o
             ∧ localDesktopCapturerSourceId o' = localDesktopCapturerSourceId o
             ∧ nextFeedRef o' = nextFeedRef o.
Proof.
  intros Hbody. induction xs as [|x xs IH]; intros o; simpl; [by exists o|].
  destruct (Hbody x o) as (o1 & E1 & Hf1 & Hd1 & Hn1).
  destruct (IH o1) as (o2 & E2 & Hf2 & Hd2 & Hn2).
  exists o2. rewrite (bindL_ok _ _ _ _ _ E1). repeat split; congruence.
Qed.

Lemma performL_host e o :
  ∃ o', performL e o = (Ok tt, o') ∧ fields o' = fields o
        ∧ localDesktopCapturerSourceId o' = localDesktopCapturerSourceId o
        ∧ nextFeedRef o' = nextFeedRef o.
Proof. eexists. split; [reflexivity|]. by destruct o. Qed.

(** The listener of the local feeds never fails; it touches nothing but the
    record of the operations and the timer of the member state. *)
Lemma onLocalFeedsChanged_returns clock o :
  ∃ o',
    onLocalFeedsChanged clock o = (Ok tt, o')
    ∧ (∀ X (obs : GroupCall → X),
         (∀ g tr, obs (set_trace tr g) = obs g) → obs (fields o') = obs (fields o))
    ∧ localDesktopCapturerSourceId o' = localDesktopCapturerSourceId o
    ∧ nextFeedRef o' = nextFeedRef o.
Proof.
  unfold onLocalFeedsChanged. rewrite (bindL_ok thisL _ o o o eq_refl).
  destruct (bool_decide _); unfold whenL; [|exists o; by repeat split].
  rewrite catch_log_returns. eexists. split; [reflexivity|].
  unfold catch_log. split; [|split].
  - intros X obs Hobs.
    apply (framesL_try_catch (λ o, obs (fields o))); [|intros; apply framesL_ret].
    apply framesL_bind; [|intros; apply framesL_ret].
    by apply updateMemberState_begin_keeps.
  - apply (framesL_try_catch localDesktopCapturerSourceId); [|intros; apply framesL_ret].
    apply framesL_bind; [|intros; apply framesL_ret].
    apply updateMemberState_begin_host; by intros ? [].
  - apply (framesL_try_catch nextFeedRef); [|intros; apply framesL_ret].
    apply framesL_bind; [|intros; apply framesL_ret].
    apply updateMemberState_begin_host; by intros ? [].
Qed.

Lemma try_catch_ok {A} (m : LM A) handler o a o' :
  m o = (Ok a, o') → try_catch m handler o = (Ok a, o').
Proof. unfold try_catch. by intros ->. Qed.

Lemma try_catch_throw {A} (m : LM A) handler o e o' :
  m o = (Throw e, o') → try_catch m handler o = handler e o'.
Proof. unfold try_catch. by intros ->. Qed.

(** Screen sharing is switched on when the media handler answers with a
    stream: [o2] is the object when the answer arrives. *)
Lemma enable_screensharing_run clock src throwOnFail w tracks samples o r o2 :
  isScreensharing (fields o) = false →
  w (set_hostTrace (hostTrace o ++ [GetScreensharingStream]) o) = (r, o2) →
  let gc := fields o2 in
  let callFeed := nextFeedRef o2 in
  ∃ o',
    setScreensharingEnabled clock true src throwOnFail w (GotScreen tracks) samples o
    = (Ok true, o')
    ∧ (∀ X (obs : GroupCall → X),
         (∀ g tr, obs (set_trace tr g) = obs g) →
         obs (fields o')
         = obs (set_screenshareFeeds (screenshareFeeds gc ++ [callFeed])
                  (set_localScreenshareFeed (Some callFeed)
                     (set_feedHeap
                        (<[callFeed :=
                             newCallFeed (MatrixClient.getUserId (client gc))
                               (MatrixClient.getDeviceId (client gc))
                               SDPStreamMetadataPurpose.Screenshare false false samples]>
                           (feedHeap gc)) gc))))
    ∧ localDesktopCapturerSourceId o' = src
    ∧ nextFeedRef o' = S callFeed.
Proof.
  intros Hoff Hw gc callFeed. unfold setScreensharingEnabled.
  rewrite (bindL_ok thisL _ o o o eq_refl). rewrite Hoff. simpl eqb. cbv iota.
  assert (∃ o',
    (performL GetScreensharingStream ;;
     catch_log w ;;
     o0 <- thisL ;;
     for_eachL (seq 0 tracks) (λ track, performL (TrackAddEventListenerEnded track)) ;;
     modifyL (set_localDesktopCapturerSourceId src) ;;
     callFeed <- constructCallFeed
                   (newCallFeed (MatrixClient.getUserId (client (fields o0)))
                      (MatrixClient.getDeviceId (client (fields o0)))
                      SDPStreamMetadataPurpose.Screenshare false false samples) ;;
     core (modify (set_localScreenshareFeed (Some callFeed))) ;;
     core (addScreenshareFeed callFeed) ;;
     core (emit (GroupCallEvent.LocalScreenshareStateChanged true)) ;;
     onLocalFeedsChanged clock ;;
     o1 <- thisL ;;
     for_eachL (allCalls (fields o1)) (λ call, performL (CallPushLocalFeed call callFeed)) ;;
     retL true)%L o = (Ok true, o')
    ∧ (∀ X (obs : GroupCall → X),
         (∀ g tr, obs (set_trace tr g) = obs g) →
         obs (fields o')
         = obs (set_screenshareFeeds (screenshareFeeds gc ++ [callFeed])
                  (set_localScreenshareFeed (Some callFeed)
                     (set_feedHeap
                        (<[callFeed :=
                             newCallFeed (MatrixClient.getUserId (client gc))
                               (MatrixClient.getDeviceId (client gc))
                               SDPStreamMetadataPurpose.Screenshare false false samples]>
                           (feedHeap gc)) gc))))
    ∧ localDesktopCapturerSourceId o' = src
    ∧ nextFeedRef o' = S callFeed) as (o' & E & Hobs & Hd & Hn).
  { rewrite (bindL_ok _ _ _ _ _ (performL_run _ _)).
    rewrite (bindL_ok _ _ _ _ _ (catch_log_run _ _ _ _ Hw)).
    rewrite (bindL_ok thisL _ _ _ _ eq_refl).
    destruct (for_eachL_host (seq 0 tracks)
                (λ track, performL (TrackAddEventListenerEnded track))
                (λ x o, performL_host _ o) o2) as (o3 & E3 & Hf3 & Hd3 & Hn3).
    rewrite (bindL_ok _ _ _ _ _ E3).
    unfold constructCallFeed.
    repeat lazymatch goal with
           | |- ∃ o', bindL (onLocalFeedsChanged clock) _ _ = _ ∧ _ => fail
           | _ => unfold bindL at 1; simpl
           end.
    match goal with
    | |- context [bindL (onLocalFeedsChanged clock) _ ?ob] =>
        destruct (onLocalFeedsChanged_returns clock ob) as (o8 & E8 & Hobs8 & Hd8 & Hn8);
        rewrite (bindL_ok _ _ _ _ _ E8)
    end.
    rewrite (bindL_ok thisL _ _ _ _ eq_refl).
    destruct (for_eachL_host (allCalls (fields o8))
                (λ call, performL (CallPushLocalFeed call (nextFeedRef o3)))
                (λ x o, performL_host _ o) o8) as (o9 & E9 & Hf9 & Hd9 & Hn9).
    rewrite (bindL_ok _ _ _ _ _ E9).
    exists o9. split; [done|].
    split.
    - intros X obs Hinv. rewrite Hf9, (Hobs8 X obs Hinv). simpl.
      rewrite Hf3, Hn3. fold gc callFeed.
      match goal with
      | |- obs ?l = obs ?r => rewrite <- (Hinv r (trace l))
      end.
      reflexivity.
    - rewrite Hd9, Hd8, Hn9, Hn8. simpl. split; [by destruct o3|].
      unfold callFeed. rewrite <- Hn3. by destruct o3. }
  exists o'. split; [|by repeat split].
  apply try_catch_ok. exact E.
Qed.

(** Switching screen sharing off comes down to the removal of the feed. *)
Lemma disable_screensharing_begin clock src throwOnFail w answer samples o feed :
  localScreenshareFeed (fields o) = Some feed →
  ∃ o1,
    fields o1 = fields o ∧ nextFeedRef o1 = nextFeedRef o
    ∧ setScreensharingEnabled clock false src throwOnFail w answer samples o
      = (core (removeScreenshareFeed feed) ;;
         core (modify (set_localScreenshareFeed None)) ;;
         modifyL (set_localDesktopCapturerSourceId None) ;;
         core (emit (GroupCallEvent.LocalScreenshareStateChanged false)) ;;
         onLocalFeedsChanged clock ;;
         retL false)%L o1.
Proof.
  intros Hon. unfold setScreensharingEnabled.
  rewrite (bindL_ok thisL _ o o o eq_refl).
  unfold isScreensharing. rewrite Hon.
  rewrite bool_decide_true by eauto. unfold eqb.
  assert (∀ call ob, ∃ o',
            match MatrixCall.localScreensharingFeed (callHeap (fields o) call) with
            | Some feed => performL (CallRemoveLocalFeed call feed)
            | None => retL tt
            end ob = (Ok tt, o') ∧ fields o' = fields ob
            ∧ localDesktopCapturerSourceId o' = localDesktopCapturerSourceId ob
            ∧ nextFeedRef o' = nextFeedRef ob) as Hbody.
  { intros call ob. destruct (MatrixCall.localScreensharingFeed (callHeap (fields o) call));
      [apply performL_host|by exists ob]. }
  destruct (for_eachL_host (allCalls (fields o)) _ Hbody o)
    as (o1 & E1 & Hf1 & Hd1 & Hn1).
  rewrite (bindL_ok _ _ _ _ _ E1).
  rewrite (bindL_ok _ _ _ _ _ (performL_run _ _)).
  eexists. split; [|split; [|reflexivity]].
  - rewrite <- Hf1. by destruct o1.
  - rewrite <- Hn1. by destruct o1.
Qed.

(** Screen sharing is switched off: the first feed with the key of the local
    screen-sharing feed is removed from the feeds of the call. *)
Lemma disable_screensharing_run clock src throwOnFail w answer samples o feed
    before f after :
  localScreenshareFeed (fields o) = Some feed →
  let gc := fields o in
  screenshareFeeds gc = before ++ f :: after →
  Forall (λ f, sameKey gc feed f = false) before →
  sameKey gc feed f = true →
  ∃ o',
    setScreensharingEnabled clock false src throwOnFail w answer samples o = (Ok false, o')
    ∧ (∀ X (obs : GroupCall → X),
         (∀ g tr, obs (set_trace tr g) = obs g) →
         obs (fields o')
         = obs (set_localScreenshareFeed None (set_screenshareFeeds (before ++ after) gc)))
    ∧ localDesktopCapturerSourceId o' = None
    ∧ nextFeedRef o' = nextFeedRef o.
Proof.
  intros Hon gc Hl Hb Hf.
  destruct (disable_screensharing_begin clock src throwOnFail w answer samples o feed Hon)
    as (o1 & Hf1 & Hn1 & ->).
  pose proof (removeScreenshareFeed_found gc feed before f after Hl Hb Hf) as E2.
  unfold gc in E2. rewrite <- Hf1 in E2.
  rewrite (bindL_ok _ _ _ _ _ (core_run _ o1 _ _ E2)).
  do 3 (unfold bindL at 1; simpl).
  match goal with
  | |- context [bindL (onLocalFeedsChanged clock) _ ?ob] =>
      destruct (onLocalFeedsChanged_returns clock ob) as (o8 & E8 & Hobs8 & Hd8 & Hn8);
      rewrite (bindL_ok _ _ _ _ _ E8)
  end.
  exists o8. split; [done|]. split; [|split].
  - intros X obs Hinv. rewrite (Hobs8 X obs Hinv). simpl.
    match goal with
    | |- obs ?l = obs ?r => rewrite <- (Hinv r (trace l))
    end.
    subst gc. rewrite Hf1. by destruct (fields o).
  - rewrite Hd8. by destruct o1.
  - rewrite Hn8. rewrite <- Hn1. by destruct o1.
Qed.

(** Switching screen sharing off fails when no feed of the call has the key
    of the local screen-sharing feed; the state is as it was. *)
Lemma disable_screensharing_fails clock src throwOnFail w answer samples o feed :
  localScreenshareFeed (fields o) = Some feed →
  Forall (λ f, sameKey (fields o) feed f = false) (screenshareFeeds (fields o)) →
  ∃ o',
    setScreensharingEnabled clock false src throwOnFail w answer samples o
    = (Throw (Error "Couldn't find screenshare feed to remove"), o')
    ∧ fields o' = fields o.
Proof.
  intros Hon Hmiss.
  destruct (disable_screensharing_begin clock src throwOnFail w answer samples o feed Hon)
    as (o1 & Hf1 & Hn1 & ->).
  pose proof (removeScreenshareFeed_missing (fields o) feed Hmiss) as E2.
  rewrite <- Hf1 in E2.
  rewrite (bindL_throw _ _ _ _ _ (core_run _ o1 _ _ E2)).
  eexists. split; [reflexivity|]. simpl. by rewrite Hf1.
Qed.

(** X19.  The answer of [setScreensharingEnabled] is the state of screen
    sharing: if nothing switches screen sharing while the media handler is
    awaited, then the method returns whether the call shares the screen
    when it returns, and when it throws, the call shares the screen iff it
    did before. *)
Theorem setScreensharingEnabled_answers_the_state
    clock enabled src throwOnFail w answer samples o :
  framesL (λ o, localScreenshareFeed (fields o)) w →
  let r := setScreensharingEnabled clock enabled src throwOnFail w answer samples o in
  match r.1 with
  | Ok sharing => isScreensharing (fields r.2) = sharing
  | Throw _ => isScreensharing (fields r.2) = isScreensharing (fields o)
  end.
Proof.
  intros Hw r. subst r.
  destruct (decide (enabled = isScreensharing (fields o))) as [Hsame|Hdiff].
  { unfold setScreensharingEnabled. rewrite (bindL_ok thisL _ o o o eq_refl).
    rewrite <- Hsame. by destruct enabled. }
  destruct enabled.
  - (* switching on *)
    assert (isScreensharing (fields o) = false) as Hoff
      by (by destruct (isScreensharing (fields o))).
    set (o1 := set_hostTrace (hostTrace o ++ [GetScreensharingStream]) o).
    destruct (w o1) as [rw o2] eqn:Ew.
    assert (localScreenshareFeed (fields o2) = localScreenshareFeed (fields o)) as Hl2.
    { rewrite (framesL_run _ _ _ _ _ Hw Ew). by destruct o. }
    destruct answer as [tracks|error].
    + destruct (enable_screensharing_run clock src throwOnFail w tracks samples o rw o2
                  Hoff Ew) as (o' & -> & Hobs & _).
      simpl. unfold isScreensharing.
      rewrite (Hobs _ localScreenshareFeed ltac:(by intros [])).
      by destruct (fields o2).
    + unfold setScreensharingEnabled. rewrite (bindL_ok thisL _ o o o eq_refl).
      rewrite Hoff. unfold eqb.
      assert ((performL GetScreensharingStream ;; catch_log w ;;
               throwL (A:=bool) error)%L o
              = (Throw error, o2)) as Ebody.
      { rewrite (bindL_ok _ _ _ _ _ (performL_run _ _)).
        by rewrite (bindL_ok _ _ _ _ _ (catch_log_run _ _ _ _ Ew)). }
      rewrite (try_catch_throw _ _ _ _ _ Ebody).
      destruct throwOnFail; simpl.
      * unfold isScreensharing. by rewrite Hl2.
      * rewrite <- Hoff. unfold isScreensharing. rewrite <- Hl2. by destruct (fields o2).
  - (* switching off *)
    destruct (localScreenshareFeed (fields o)) as [feed|] eqn:Hon.
    2: { exfalso. apply Hdiff. unfold isScreensharing. rewrite Hon.
         symmetry. apply bool_decide_false. by intros [? ?]. }
    destruct (findIndex (sameKey (fields o) feed) (screenshareFeeds (fields o)))
      as [i|] eqn:Ei.
    + destruct (findIndex_split _ _ _ Ei) as (before & f & after & Hl & _ & Hb & Hf).
      destruct (disable_screensharing_run clock src throwOnFail w answer samples o feed
                  before f after Hon Hl Hb Hf) as (o' & -> & Hobs & _).
      simpl. unfold isScreensharing.
      rewrite (Hobs _ localScreenshareFeed ltac:(by intros [])).
      by destruct (fields o).
    + apply findIndex_None in Ei.
      destruct (disable_screensharing_fails clock src throwOnFail w answer samples o feed
                  Hon Ei) as (o' & -> & Hf).
      simpl. by rewrite Hf.
Qed.

Lemma setScreensharingEnabled_answers_the_state_witness :
  let r := setScreensharingEnabled (mkClock 0 0 0) true None false (retL tt)
             (GotScreen 1) [] object_a in
  match r.1 with
  | Ok sharing => isScreensharing (fields r.2) = sharing
  | Throw _ => isScreensharing (fields r.2) = isScreensharing (fields object_a)
  end.
Proof.
  apply (setScreensharingEnabled_answers_the_state (mkClock 0 0 0) true None false
           (retL tt) (GotScreen 1) [] object_a).
  apply framesL_ret.
Defined.

(** X20.  Sharing the screen and stopping it again is a round trip.  Let
    the call not share the screen, let no screen-sharing feed of the call
    have the ids of the local device, and let the next feed be a new one.
    Then switching screen sharing on returns [true], makes the new feed the
    local screen-sharing feed, registers it as the screen-sharing feed of the
    local device and records the source that was asked for; switching it off
    afterwards returns [false], and the call shares no screen, has the
    screen-sharing feeds it had at first, and records no source. *)
Theorem screen_sharing_round_trip
    clock clock' src src' throwOnFail throwOnFail' tracks samples answer' samples' o :
  let gc := fields o in
  let userId := MatrixClient.getUserId (client gc) in
  let deviceId := MatrixClient.getDeviceId (client gc) in
  isScreensharing gc = false →
  nextFeedRef o ∉ screenshareFeeds gc →
  Forall (λ f, feedHasKey gc userId (Some deviceId) f = false) (screenshareFeeds gc) →
  ∃ o1 o2 callFeed,
    setScreensharingEnabled clock true src throwOnFail (retL tt) (GotScreen tracks)
      samples o = (Ok true, o1)
    ∧ localScreenshareFeed (fields o1) = Some callFeed
    ∧ getScreenshareFeed (fields o1) userId deviceId = Some callFeed
    ∧ localDesktopCapturerSourceId o1 = src
    ∧ setScreensharingEnabled clock' false src' throwOnFail' (retL tt) answer'
        samples' o1 = (Ok false, o2)
    ∧ isScreensharing (fields o2) = false
    ∧ screenshareFeeds (fields o2) = screenshareFeeds gc
    ∧ localDesktopCapturerSourceId o2 = None.
Proof.
  intros gc userId deviceId Hoff Hfresh Hkeys.
  set (callFeed := nextFeedRef o).
  set (feed := newCallFeed userId deviceId SDPStreamMetadataPurpose.Screenshare
                 false false samples).
  destruct (enable_screensharing_run clock src throwOnFail (retL tt) tracks samples o
              (Ok tt) _ Hoff eq_refl) as (o1 & E1 & Hobs1 & Hd1 & Hn1).
  simpl in Hobs1.
  assert (localScreenshareFeed (fields o1) = Some callFeed) as Hl1.
  { rewrite (Hobs1 _ localScreenshareFeed ltac:(by intros [])). by destruct (fields o). }
  assert (screenshareFeeds (fields o1) = screenshareFeeds gc ++ [callFeed]) as Hs1.
  { rewrite (Hobs1 _ screenshareFeeds ltac:(by intros [])). by destruct (fields o). }
  assert (feedHeap (fields o1) = <[callFeed := feed]> (feedHeap gc)) as Hh1.
  { rewrite (Hobs1 _ feedHeap ltac:(by intros [])). by destruct (fields o). }
  assert (client (fields o1) = client gc) as Hc1.
  { rewrite (Hobs1 _ client ltac:(by intros [])). by destruct (fields o). }
  assert (feedHasKey (fields o1) userId (Some deviceId) callFeed = true) as Hkey.
  { unfold feedHasKey. rewrite Hh1, fn_lookup_insert. simpl.
    by rewrite String.eqb_refl, bool_decide_true. }
  assert (Forall (λ f, feedHasKey (fields o1) userId (Some deviceId) f = false)
            (screenshareFeeds gc)) as Hkeys1.
  { rewrite Forall_forall in Hkeys. apply Forall_forall. intros f Hin.
    unfold feedHasKey. rewrite Hh1.
    rewrite fn_lookup_insert_ne by (intros <-; by apply Hfresh).
    by apply Hkeys. }
  assert (feedHasKey (fields o1) userId (Some deviceId) = sameKey (fields o1) callFeed)
    as Hsame by (by apply feedHasKey_key).
  rewrite Hsame in Hkey, Hkeys1.
  destruct (disable_screensharing_run clock' src' throwOnFail' (retL tt) answer' samples'
              o1 callFeed (screenshareFeeds gc) callFeed [] Hl1 Hs1 Hkeys1 Hkey)
    as (o2 & E2 & Hobs2 & Hd2 & Hn2).
  exists o1, o2, callFeed.
  split; [exact E1|]. split; [exact Hl1|]. split.
  { unfold getScreenshareFeed. rewrite Hs1, Hsame. by apply find_first. }
  split; [exact Hd1|]. split; [exact E2|]. split.
  { unfold isScreensharing.
    rewrite (Hobs2 _ localScreenshareFeed ltac:(by intros [])).
    by destruct (fields o1). }
  split; [|exact Hd2].
  rewrite (Hobs2 _ screenshareFeeds ltac:(by intros [])).
  destruct (fields o1). simpl. by rewrite app_nil_r.
Qed.

Lemma screen_sharing_round_trip_witness :
  ∃ o1 o2,
    setScreensharingEnabled (mkClock 0 0 0) true (Some "screen:0") false (retL tt)
      (GotScreen 1) [] object_a = (Ok true, o1)
    ∧ setScreensharingEnabled (mkClock 0 0 0) false None false (retL tt)
        (GotScreen 0) [] o1 = (Ok false, o2)
    ∧ screenshareFeeds (fields o2) = [].
Proof.
  destruct (screen_sharing_round_trip (mkClock 0 0 0) (mkClock 0 0 0) (Some "screen:0")
              None false false 1 [] (GotScreen 0) [] object_a)
    as (o1 & o2 & callFeed & E1 & _ & _ & _ & E2 & _ & Hs & _).
  - reflexivity.
  - apply not_elem_of_nil.
  - constructor.
  - exists o1, o2. split; [exact E1|]. split; [exact E2|exact Hs].
Defined.

(** ** The member state follows the state of the call *)

(** Outside of state [Entered] the view is recomputed without failure when
    the room state is well formed. *)
Lemma updateParticipants_returns now gc :
  state gc ≠ GroupCallState.Entered →
  wellFormedRoomState gc →
  ∃ gc', updateParticipants now gc = (Ok tt, gc').
Proof.
  intros Hs Hwf. unfold updateParticipants.
  rewrite (bind_ok (modify (set_participantsExpirationTimer None)) _ gc tt
             (set_participantsExpirationTimer None gc) eq_refl).
  rewrite (bind_ok this _ _ _ _ eq_refl).
  change (state (set_participantsExpirationTimer None gc)) with (state gc).
  case_bool_decide.
  - by apply setter_participants_returns.
  - destruct (collectParticipants_returns gc now Hwf) as (view & ne & Hc).
    unfold lift at 1. rewrite collectParticipants_timer, Hc.
    rewrite (bind_ok _ _ _ (view, ne) (set_participantsExpirationTimer None gc) eq_refl).
    destruct (setter_participants_returns view (set_participantsExpirationTimer None gc) Hs)
      as [gc1 E1].
    rewrite (bind_ok _ _ _ _ _ E1). simpl. destruct ne; by eexists.
Qed.

Lemma readMemberState_same gc gc' now :
  room gc' = room gc → client gc' = client gc → groupCallId gc' = groupCallId gc →
  readMemberState gc' now = readMemberState gc now.
Proof. unfold readMemberState. by intros -> -> ->. Qed.

(** Outside of state [Entered], [updateMemberState] writes the member state
    without the local device, and is done before any [await] returns. *)
Lemma updateMemberState_begin_withdraws clock o :
  state (fields o) ≠ GroupCallState.Entered →
  (∀ content,
     Room.memberStateEvents (room (fields o)) !! MatrixClient.getUserId (client (fields o))
     = Some content →
     nullFree (JObj content) = true) →
  let gc := fields o in
  ∃ o' content,
    updateMemberState_begin clock o = (Ok false, o')
    ∧ fields o'
      = set_trace
          (trace gc ++ [SendStateEvent (Room.roomId (room gc))
                          EventType.GroupCallMemberPrefix (JObj content)
                          (MatrixClient.getUserId (client gc)) true]) gc
    ∧ (∀ d, d ∈ writtenDevices (groupCallId gc)
                  (SendStateEvent (Room.roomId (room gc))
                     EventType.GroupCallMemberPrefix (JObj content)
                     (MatrixClient.getUserId (client gc)) true) →
            field d "device_id" ≠ Some (JStr (MatrixClient.getDeviceId (client gc))))
    ∧ resendMemberStateTimer o' = None.
Proof.
  intros Hs Hnull gc.
  destruct (readMemberState_returns gc (nowDevices clock) Hnull)
    as (call & otherCalls & validDevices & Hread).
  pose proof (updateDevices_run gc (withoutLocalDevice gc) true (nowDevices clock)
                _ _ _ Hread) as Erun.
  unfold withoutLocalDevice at 2 in Erun.
  unfold updateMemberState_begin.
  rewrite (bindL_ok thisL _ o o o eq_refl).
  set (o1 := set_resendMemberStateTimer None o).
  assert (whenL (bool_decide (is_Some (resendMemberStateTimer o)))
            (modifyL (set_resendMemberStateTimer None)) o
          = (Ok tt, match resendMemberStateTimer o with Some _ => o1 | None => o end))
    as E1.
  { destruct o as [? ? ? ? ? ? ? rt ? ? ?]. simpl. by destruct rt. }
  rewrite (bindL_ok _ _ _ _ _ E1).
  set (o2 := match resendMemberStateTimer o with Some _ => o1 | None => o end).
  assert (fields o2 = gc) as Hf2.
  { unfold o2, o1. destruct (resendMemberStateTimer o); by destruct o. }
  assert (resendMemberStateTimer o2 = None) as Ht2.
  { unfold o2, o1. destruct (resendMemberStateTimer o) eqn:E; [by destruct o|done]. }
  rewrite (bindL_ok thisL _ _ _ _ eq_refl). rewrite Hf2.
  rewrite bool_decide_false by done.
  match type of Erun with
  | _ = ?rhs =>
      assert (updateDevices (withoutLocalDevice gc) true (nowDevices clock) (fields o2)
              = rhs) as Erun2 by (rewrite Hf2; exact Erun)
  end.
  rewrite (bindL_ok _ _ _ _ _ (core_run _ o2 _ _ Erun2)).
  eexists _, _. split; [reflexivity|]. split; [reflexivity|]. split.
  - intros d Hd Heq.
    rewrite writtenDevices_event in Hd.
    + apply list_elem_of_In, List.filter_In in Hd as [_ Hne].
      unfold isNotDevice in Hne. rewrite Heq in Hne. simpl in Hne.
      by rewrite String.eqb_refl in Hne.
    + rewrite (readMemberState_ok _ _ _ _ _ Hread). apply Forall_forall.
      intros c Hc. apply list_elem_of_In, List.filter_In in Hc as [_ Hc].
      by apply negb_true_iff in Hc.
  - by destruct o2.
Qed.

(** X21.  Leaving an entered call withdraws the local device from the
    member state.  If the room state is well formed, the local feeds are
    registered and the calls have their handlers, then [leave] returns, the
    last thing it does is to send the member state of the local user, kept
    alive, in which the entry of this call holds no device with the id of the
    local device, and the member state is not sent again periodically. *)
Theorem leaving_withdraws_the_local_device clock o :
  state (fields o) = GroupCallState.Entered →
  localFeedsRegistered (fields o) →
  (∀ call, call ∈ allCalls (fields o) → hasHandlers (fields o) call) →
  wellFormedRoomState (fields o) →
  let gc := fields o in
  ∃ o' content,
    leave clock o = (Ok tt, o')
    ∧ last (trace (fields o'))
      = Some (SendStateEvent (Room.roomId (room gc)) EventType.GroupCallMemberPrefix
                (JObj content) (MatrixClient.getUserId (client gc)) true)
    ∧ (∀ d, d ∈ writtenDevices (groupCallId gc)
                  (SendStateEvent (Room.roomId (room gc))
                     EventType.GroupCallMemberPrefix (JObj content)
                     (MatrixClient.getUserId (client gc)) true) →
            field d "device_id" ≠ Some (JStr (MatrixClient.getDeviceId (client gc))))
    ∧ resendMemberStateTimer o' = None.
Proof.
  intros Hent Hreg Hcalls [Hnull Hmember] gc.
  destruct (dispose_returns o Hreg (λ _, Hcalls)) as (o1 & t1 & E1 & Hb1 & _).
  destruct (disposed_fields (fields o)) as (_ & _ & _ & Hd4 & _).
  assert (∀ X (obs : GroupCall → X),
            (∀ g a u s h tr,
               obs (set_trace tr (set_callHandlers h (set_screenshareFeeds s
                      (set_userMediaFeeds u (set_activeSpeaker a g))))) = obs g) →
            (∀ g, obs (disposed g) = obs g) →
            obs (fields o1) = obs gc) as Hread.
  { intros X obs H1 H2. rewrite (besidesFeeds_obs obs _ _ H1 Hb1). apply H2. }
  assert (∀ g, room (disposed g) = room g) as Hdr.
  { intros []. unfold disposed. simpl. by case_bool_decide. }
  assert (∀ g, client (disposed g) = client g) as Hdc.
  { intros []. unfold disposed. simpl. by case_bool_decide. }
  assert (∀ g, groupCallId (disposed g) = groupCallId g) as Hdg.
  { intros []. unfold disposed. simpl. by case_bool_decide. }
  assert (room (fields o1) = room gc) as Hr1
    by (apply (Hread _ room); [by intros []|done]).
  assert (client (fields o1) = client gc) as Hc1
    by (apply (Hread _ client); [by intros []|done]).
  assert (groupCallId (fields o1) = groupCallId gc) as Hg1
    by (apply (Hread _ groupCallId); [by intros []|done]).
  assert (state (fields o1) = GroupCallState.Entered) as Hs1.
  { rewrite (besidesFeeds_obs state _ _ ltac:(by intros []) Hb1). by rewrite Hd4. }
  unfold leave. rewrite (bindL_ok _ _ _ _ _ E1).
  unfold setter_state. rewrite (bindL_ok thisL _ _ _ _ eq_refl). rewrite Hs1.
  rewrite bool_decide_false by done. unfold negb, whenL.
  unfold bindL at 1. unfold core at 1, modify at 1. simpl.
  unfold bindL at 1. unfold core at 1. simpl.
  unfold onStateChanged.
  rewrite (bool_decide_true (GroupCallState.Entered = GroupCallState.Entered)) by done.
  rewrite orb_true_r. simpl. unfold updateParticipants_at.
  match goal with
  | |- context [bindL (core (updateParticipants ?n)) _ ?ob] => set (o2 := ob)
  end.
  assert (room (fields o2) = room gc) as Hr2 by (rewrite <- Hr1; by destruct o1 as [[]]).
  assert (client (fields o2) = client gc) as Hc2
    by (rewrite <- Hc1; by destruct o1 as [[]]).
  assert (groupCallId (fields o2) = groupCallId gc) as Hg2
    by (rewrite <- Hg1; by destruct o1 as [[]]).
  assert (state (fields o2) = GroupCallState.LocalCallFeedUninitialized) as Hs2
    by (by destruct o1 as [[]]).
  assert (is_Some (Room.memberships (room gc) !! MatrixClient.getUserId (client gc)))
    as Hm.
  { apply Hmember. unfold considersEntered. by rewrite Hent. }
  destruct (updateParticipants_returns (nowParticipants clock) (fields o2)) as [gc3 E3].
  { by rewrite Hs2. }
  { split; [by rewrite Hr2|]. intros _. by rewrite Hr2, Hc2. }
  pose proof (updateParticipants_besidesView (nowParticipants clock) (fields o2)
                ltac:(by rewrite Hs2)) as Hb3.
  rewrite E3 in Hb3. simpl in Hb3.
  rewrite (bindL_ok _ _ _ _ _ (core_run _ o2 _ _ E3)).
  assert (room gc3 = room gc) as Hr3.
  { rewrite (besidesView_obs room _ _ ltac:(by intros []) Hb3). exact Hr2. }
  assert (client gc3 = client gc) as Hc3.
  { rewrite (besidesView_obs client _ _ ltac:(by intros []) Hb3). exact Hc2. }
  assert (groupCallId gc3 = groupCallId gc) as Hg3.
  { rewrite (besidesView_obs groupCallId _ _ ltac:(by intros []) Hb3). exact Hg2. }
  assert (state gc3 = GroupCallState.LocalCallFeedUninitialized) as Hs3.
  { rewrite (besidesView_obs state _ _ ltac:(by intros []) Hb3). exact Hs2. }
  destruct (updateMemberState_begin_withdraws clock (set_fields gc3 o2))
    as (o4 & content & E4 & Hf4 & Hw4 & Ht4).
  { simpl. by rewrite Hs3. }
  { simpl. rewrite Hr3, Hc3. apply Hnull. }
  change (fields (set_fields gc3 o2)) with gc3 in Hf4, Hw4.
  rewrite Hr3, Hc3 in Hf4. rewrite Hr3, Hc3, Hg3 in Hw4.
  assert (catch_log (updateMemberState_begin clock ;; retL tt)%L (set_fields gc3 o2)
          = (Ok tt, o4)) as E5.
  { apply (catch_log_run _ _ (Ok tt)). by rewrite (bindL_ok _ _ _ _ _ E4). }
  rewrite E5.
  exists o4, content. split; [reflexivity|]. split; [|split; [exact Hw4|exact Ht4]].
  rewrite Hf4. destruct gc3. simpl. apply last_snoc.
Qed.

(** The room state of S1 is well formed. *)
Lemma object_a_calling_b_wellFormed : wellFormedRoomState (fields object_a_calling_b).
Proof.
  split.
  - intros userId content H.
    assert (Hl : (userId, content)
                 ∈ map_to_list (Room.memberStateEvents (room (fields object_a_calling_b))))
      by (by apply elem_of_map_to_list).
    vm_compute in Hl. apply list_elem_of_singleton in Hl. by injection Hl as -> ->.
  - intros _. vm_compute. eauto.
Defined.

Lemma leaving_withdraws_the_local_device_witness :
  ∃ o', leave (mkClock 0 0 0) object_a_calling_b = (Ok tt, o')
        ∧ resendMemberStateTimer o' = None.
Proof.
  destruct (leaving_withdraws_the_local_device (mkClock 0 0 0) object_a_calling_b)
    as (o' & content & E & _ & _ & Ht).
  - vm_compute. reflexivity.
  - exact (proj1 object_a_calling_b_disposable).
  - apply (proj2 object_a_calling_b_disposable). vm_compute. reflexivity.
  - exact object_a_calling_b_wellFormed.
  - exists o'. split; [exact E|exact Ht].
Defined.

(** In state [Entered], [updateMemberState] writes the member state with the
    local device before any [await] returns. *)
Lemma updateMemberState_begin_publishes clock o :
  state (fields o) = GroupCallState.Entered →
  (∀ content,
     Room.memberStateEvents (room (fields o)) !! MatrixClient.getUserId (client (fields o))
     = Some content →
     nullFree (JObj content) = true) →
  let gc := fields o in
  ∃ o' content others,
    updateMemberState_begin clock o = (Ok true, o')
    ∧ fields o'
      = set_trace
          (trace gc ++ [SendStateEvent (Room.roomId (room gc))
                          EventType.GroupCallMemberPrefix (JObj content)
                          (MatrixClient.getUserId (client gc)) false]) gc
    ∧ writtenDevices (groupCallId gc)
        (SendStateEvent (Room.roomId (room gc)) EventType.GroupCallMemberPrefix
           (JObj content) (MatrixClient.getUserId (client gc)) false)
      = others ++ [localAdvertisement gc (nowDevice clock)]
    ∧ Forall (λ d, field d "device_id"
                   ≠ Some (JStr (MatrixClient.getDeviceId (client gc)))) others.
Proof.
  intros Hs Hnull gc.
  destruct (readMemberState_returns gc (nowDevices clock) Hnull)
    as (call & otherCalls & validDevices & Hread).
  pose proof (addDeviceToMemberState_run gc (nowDevices clock) (nowDevice clock)
                _ _ _ Hread) as Erun.
  unfold updateMemberState_begin.
  rewrite (bindL_ok thisL _ o o o eq_refl).
  set (o1 := set_resendMemberStateTimer None o).
  assert (whenL (bool_decide (is_Some (resendMemberStateTimer o)))
            (modifyL (set_resendMemberStateTimer None)) o
          = (Ok tt, match resendMemberStateTimer o with Some _ => o1 | None => o end))
    as E1.
  { destruct o as [? ? ? ? ? ? ? rt ? ? ?]. simpl. by destruct rt. }
  rewrite (bindL_ok _ _ _ _ _ E1).
  set (o2 := match resendMemberStateTimer o with Some _ => o1 | None => o end).
  assert (fields o2 = gc) as Hf2.
  { unfold o2, o1. destruct (resendMemberStateTimer o); by destruct o. }
  rewrite (bindL_ok thisL _ _ _ _ eq_refl). rewrite Hf2.
  rewrite bool_decide_true by done.
  match type of Erun with
  | _ = ?rhs =>
      assert (addDeviceToMemberState (nowDevices clock) (nowDevice clock) (fields o2)
              = rhs) as Erun2 by (rewrite Hf2; exact Erun)
  end.
  rewrite (bindL_ok _ _ _ _ _ (core_run _ o2 _ _ Erun2)).
  eexists _, _, _. split; [reflexivity|]. split; [reflexivity|]. split.
  - match goal with
    | |- context [JArr (otherCalls ++ [JObj (obj_set "m.devices" (JArr ?nd) _)])] =>
        pose proof (writtenDevices_event (groupCallId gc) (Room.roomId (room gc))
                      otherCalls call nd (MatrixClient.getUserId (client gc)) false) as Hw
    end.
    rewrite bool_decide_true in Hw by (rewrite length_app; simpl; lia).
    apply Hw.
    rewrite (readMemberState_ok _ _ _ _ _ Hread). apply Forall_forall.
    intros c Hc. apply list_elem_of_In, List.filter_In in Hc as [_ Hc].
    by apply negb_true_iff in Hc.
  - apply Forall_forall. intros d Hd Heq.
    apply list_elem_of_In, List.filter_In in Hd as [_ Hne].
    unfold isNotDevice in Hne. rewrite Heq in Hne. simpl in Hne.
    by rewrite String.eqb_refl in Hne.
Qed.

Lemma placeOutgoingCalls_frames_local :
  frames (λ gc, (client gc, room gc, groupCallId gc, localCallFeed gc,
                 localScreenshareFeed gc, feedHeap gc)) placeOutgoingCalls.
Proof.
  unfold placeOutgoingCalls, createNewMatrixCall, initCall, disposeCall,
    onCallFeedsChanged, addUserMediaFeed, replaceUserMediaFeed, removeUserMediaFeed,
    addScreenshareFeed, replaceScreenshareFeed, removeScreenshareFeed.
  solve_frames.
Qed.

Lemma updateParticipants_frames_local now :
  frames (λ gc, (client gc, room gc, groupCallId gc, localCallFeed gc,
                 localScreenshareFeed gc, feedHeap gc)) (updateParticipants now).
Proof.
  unfold updateParticipants, setter_participants, onParticipantsChanged.
  solve_frames; apply placeOutgoingCalls_frames_local.
Qed.

Lemma onIncomingCall_extends call : extends (onIncomingCall call).
Proof.
  unfold onIncomingCall. solve_extends;
    first [apply disposeCall_extends | apply initCall_extends].
Qed.

Lemma onActiveSpeakerLoop_extends threshold : extends (onActiveSpeakerLoop threshold).
Proof. unfold onActiveSpeakerLoop. solve_extends. Qed.

Lemma extendsL_for_each {A} (xs : list A) body :
  (∀ x, extendsL (body x)) → extendsL (for_eachL xs body).
Proof.
  intros H. induction xs as [|x xs IH]; simpl; [apply extendsL_ret|].
  apply extendsL_bind; [apply H|done].
Qed.

Lemma localAdvertisement_same gc gc' now' :
  client gc' = client gc → localCallFeed gc' = localCallFeed gc →
  localScreenshareFeed gc' = localScreenshareFeed gc → feedHeap gc' = feedHeap gc →
  localAdvertisement gc' now' = localAdvertisement gc now'.
Proof.
  unfold localAdvertisement, getLocalFeeds, advertisedFeed. by intros -> -> -> ->.
Qed.

(** X22.  Entering a call publishes the local device.  When [enter] returns
    for a call whose local call feed was initialised, whose member state in
    the room holds no [null], it has sent the member state of the local
    user, not kept alive, in which the devices of this call end with the
    advertisement of the local device: its device id and session id, its
    local feeds, and an expiry one [DEVICE_TIMEOUT] after the time of the
    write; no other device of the entry has the id of the local device. *)
Theorem entering_publishes_the_local_device
    threshold clock w answer samples w' incoming o o' :
  state (fields o) = GroupCallState.LocalCallFeedInitialized →
  (∀ content,
     Room.memberStateEvents (room (fields o)) !! MatrixClient.getUserId (client (fields o))
     = Some content →
     nullFree (JObj content) = true) →
  enter threshold clock w answer samples w' incoming o = (Ok tt, o') →
  let gc := fields o in
  ∃ content others,
    SendStateEvent (Room.roomId (room gc)) EventType.GroupCallMemberPrefix (JObj content)
      (MatrixClient.getUserId (client gc)) false
    ∈ drop (length (trace gc)) (trace (fields o'))
    ∧ writtenDevices (groupCallId gc)
        (SendStateEvent (Room.roomId (room gc)) EventType.GroupCallMemberPrefix
           (JObj content) (MatrixClient.getUserId (client gc)) false)
      = others ++ [localAdvertisement gc (nowDevice clock)]
    ∧ Forall (λ d, field d "device_id"
                   ≠ Some (JStr (MatrixClient.getDeviceId (client gc)))) others.
Proof.
  intros Hs Hnull E gc. unfold enter in E.
  rewrite (bindL_ok thisL _ o o o eq_refl) in E. rewrite Hs in E.
  apply bindL_returns in E as ([] & o1 & Eg & E).
  assert (o1 = o) as -> by (by injection Eg).
  clear Eg.
  apply bindL_returns in E as ([] & o2 & Eset & E).
  (* the change of state *)
  unfold setter_state in Eset.
  rewrite (bindL_ok thisL _ o o o eq_refl) in Eset. rewrite Hs in Eset.
  rewrite bool_decide_false in Eset by done. unfold negb, whenL in Eset.
  apply bindL_returns in Eset as ([] & oa & Ea & Eset). injection Ea as <-.
  apply bindL_returns in Eset as ([] & ob & Eb & Eset). injection Eb as <-.
  unfold onStateChanged in Eset.
  rewrite (bool_decide_true (GroupCallState.Entered = GroupCallState.Entered)) in Eset
    by done.
  simpl orb in Eset. unfold whenL in Eset.
  apply bindL_returns in Eset as ([] & oc & Eup & Ecatch).
  unfold updateParticipants_at, core in Eup.
  match type of Eup with
  | context [updateParticipants ?n ?g] =>
      destruct (updateParticipants n g) as [ru gc3] eqn:Eu
  end.
  simpl in Eup. injection Eup as -> <-.
  pose proof (frames_run _ _ _ _ _ (updateParticipants_frames_local _) Eu) as Hk.
  simpl in Hk. injection Hk as Hc3 Hr3 Hg3 Hl3 Hls3 Hh3.
  pose proof (frames_run _ _ _ _ _ (updateParticipants_frames_state _) Eu) as Hs3.
  simpl in Hs3.
  destruct (extends_run _ _ _ _ (updateParticipants_extends _) Eu) as [t3 Ht3].
  simpl in Ht3.
  match type of Ecatch with
  | catch_log _ ?ob = _ =>
      destruct (updateMemberState_begin_publishes clock ob)
        as (o4 & content & others & E4 & Hf4 & Hw4 & Ho4)
  end.
  { exact Hs3. }
  { simpl. rewrite Hr3, Hc3. replace (room (fields o)) with (room gc) by done.
    destruct (fields o); apply Hnull. }
  simpl in Hf4. 
  rewrite (catch_log_run _ _ (Ok tt) o4) in Ecatch
    by (by rewrite (bindL_ok _ _ _ _ _ E4)).
  injection Ecatch as <-.
  (* what follows *)
  match type of E with
  | ?m o4 = _ => assert (extendsL m) as Hext
  end.
  { apply extendsL_bind; [by apply extendsL_modify|]. intros _.
    apply extendsL_bind.
    { apply extendsL_for_each. intros call. apply extendsL_core, onIncomingCall_extends. }
    intros _. apply extendsL_bind; [apply extendsL_this|]. intros oo.
    apply extendsL_bind; [by apply extendsL_modify|]. intros _.
    apply extendsL_bind; [apply extendsL_core; solve_extends|]. intros _.
    apply extendsL_bind; [apply extendsL_core, onActiveSpeakerLoop_extends|]. intros _.
    by apply extendsL_modify. }
  destruct (extendsL_run _ _ _ _ Hext E) as [t5 Ht5].
  change (fields (set_fields gc3 _)) with gc3 in Hw4, Ho4.
  rewrite Hr3, Hc3, Hg3 in Hw4. rewrite Hc3 in Ho4. rewrite Hr3, Hc3 in Hf4.
  rewrite (localAdvertisement_same (fields o) gc3) in Hw4 by done.
  exists content, others. split; [|split; [exact Hw4|exact Ho4]].
  rewrite Ht5, Hf4.
  replace (trace (set_trace _ gc3)) with
    (trace gc ++ ([Emit (GroupCallEvent.GroupCallStateChanged GroupCallState.Entered
                           GroupCallState.LocalCallFeedInitialized)] ++ t3)
     ++ [SendStateEvent (Room.roomId (room (fields o))) EventType.GroupCallMemberPrefix
           (JObj content) (MatrixClient.getUserId (client (fields o))) false]).
  2: { destruct gc3. simpl in *. rewrite Ht3. subst gc. destruct (fields o). simpl.
       by rewrite <- !app_assoc. }
  rewrite <- !app_assoc, drop_app_length.
  apply elem_of_app. right. apply elem_of_app. right. apply elem_of_app. left.
  by apply list_elem_of_singleton.
Qed.

Lemma entering_publishes_the_local_device_witness :
  let o := object_a_initialized in
  let o' := (enter (-60 # 1)%Q (mkClock 0 0 0) (retL tt) (GotStream 1 1) [] (retL tt) []
               o).2 in
  ∃ content others,
    SendStateEvent (Room.roomId (room (fields o))) EventType.GroupCallMemberPrefix
      (JObj content) (MatrixClient.getUserId (client (fields o))) false
    ∈ drop (length (trace (fields o))) (trace (fields o'))
    ∧ writtenDevices (groupCallId (fields o))
        (SendStateEvent (Room.roomId (room (fields o))) EventType.GroupCallMemberPrefix
           (JObj content) (MatrixClient.getUserId (client (fields o))) false)
      = others ++ [localAdvertisement (fields o) 0]
    ∧ Forall (λ d, field d "device_id"
                   ≠ Some (JStr (MatrixClient.getDeviceId (client (fields o))))) others.
Proof.
  intros o o'.
  apply (entering_publishes_the_local_device (-60 # 1)%Q (mkClock 0 0 0) (retL tt)
           (GotStream 1 1) [] (retL tt) [] o o').
  - vm_compute. reflexivity.
  - intros content H. vm_compute in H. discriminate.
  - unfold o'.
    rewrite (surjective_pairing (enter _ _ _ _ _ _ _ _)) at 1.
    apply (f_equal2 pair); [vm_compute; reflexivity|reflexivity].
Defined.

(** ** Replacement of a call *)

(** X24.  The member state is sent again periodically exactly while the
    call is entered.  If the member state of the local user in the room
    holds no [null], then [updateMemberState] returns after one write of the
    member state; afterwards the resend timer runs, with a period of three
    quarters of [DEVICE_TIMEOUT], that is 45 minutes, if the call is in state
    [Entered], and does not run otherwise.  The callback of the timer never
    throws. *)
Theorem member_state_is_resent_while_entered clock clock' o :
  (∀ content,
     Room.memberStateEvents (room (fields o)) !! MatrixClient.getUserId (client (fields o))
     = Some content →
     nullFree (JObj content) = true) →
  ∃ o',
    updateMemberState clock o = (Ok tt, o')
    ∧ oneWrite (fields o) (fields o')
    ∧ resendMemberStateTimer o'
      = (if bool_decide (state (fields o) = GroupCallState.Entered)
         then Some 2700000%Z else None)
    ∧ (onResendMemberState clock' o').1 = Ok tt.
Proof.
  intros Hnull. unfold updateMemberState.
  assert (∀ ob, (onResendMemberState clock' ob).1 = Ok tt) as Hcb.
  { intros ob. unfold onResendMemberState, try_catch.
    by destruct (core _ ob) as [[[]|e] ob']. }
  destruct (decide (state (fields o) = GroupCallState.Entered)) as [Hs|Hs].
  - destruct (updateMemberState_begin_publishes clock o Hs Hnull)
      as (o1 & content & others & E1 & Hf1 & _).
    rewrite (bindL_ok _ _ _ _ _ E1). rewrite bool_decide_true by done.
    eexists. split; [reflexivity|]. split; [|split; [|apply Hcb]].
    + exists (JObj content), false. simpl. rewrite Hf1. by destruct (fields o).
    + done.
  - destruct (updateMemberState_begin_withdraws clock o Hs Hnull)
      as (o1 & content & E1 & Hf1 & _ & Ht1).
    rewrite (bindL_ok _ _ _ _ _ E1). rewrite bool_decide_false by done.
    exists o1. split; [reflexivity|]. split; [|split; [exact Ht1|apply Hcb]].
    exists (JObj content), true. rewrite Hf1. by destruct (fields o).
Qed.

Lemma member_state_is_resent_while_entered_witness :
  ∃ o', updateMemberState (mkClock 0 0 0) object_a_calling_b = (Ok tt, o')
        ∧ resendMemberStateTimer o' = Some 2700000%Z.
Proof.
  destruct (member_state_is_resent_while_entered (mkClock 0 0 0) (mkClock 0 0 0)
              object_a_calling_b) as (o' & E & _ & Ht & _).
  - intros content H. vm_compute in H. discriminate.
  - exists o'. split; [exact E|]. rewrite Ht. vm_compute. reflexivity.
Defined.
Lemma disposeCall_frames_callsOfUndefined c r : frames callsOfUndefined (disposeCall c r).
Proof. solve_frames. Qed.

Lemma initCall_frames_callsOfUndefined c : frames callsOfUndefined (initCall c).
Proof. unfold initCall. solve_frames. Qed.

(** X23.  A call that the single-call layer replaces hands its place to the
    new call under the key that [onCallReplaced] reads off it: its opponent
    member, which for a call that has none (a call that was placed and not
    answered has an invitee only) is [undefined].  If the handlers of the old
    call are in the table and the new call has a user id, then
    [onCallReplaced] returns; under this key and the device id of the old
    call the graph holds the new call, and every other place holds what it
    held, so that without opponent member the old call stays in its slot
    under the invitee; the listeners of the old call are removed first and
    [CallsChanged] is emitted last; the old call is asked to hang up with
    the reason [Replaced] unless it had ended or had that reason already;
    and the handlers of the new call are stored under its own ids. *)
Theorem replacement_is_filed_under_the_opponent_member
    gc prevCall newCall userId deviceMap handlers newUser :
  let deviceId := MatrixCall.getOpponentDeviceId (callHeap gc prevCall) in
  let key := MatrixCall.getOpponentMember (callHeap gc prevCall) in
  getCallUserId (callHeap gc prevCall) = Some userId →
  callHandlers gc !! userId = Some deviceMap →
  deviceMap !! deviceId = Some handlers →
  getCallUserId (callHeap gc newCall) = Some newUser →
  ∃ gc' t,
    onCallReplaced prevCall newCall gc = (Ok tt, gc')
    ∧ callUnder gc' key deviceId = Some newCall
    ∧ (∀ k device,
         (k, device) ≠ (key, deviceId) →
         callUnder gc' k device = callUnder gc k device)
    ∧ trace gc'
      = trace gc ++ unsubscribed prevCall handlers ++ t ++ [Emit GroupCallEvent.CallsChanged]
    ∧ hungUp gc (Some CallErrorCode.Replaced) t prevCall
    ∧ callHandlers gc' !! newUser
        ≫= (.!! MatrixCall.getOpponentDeviceId (callHeap gc newCall))
      = Some (handlersOf newCall).
Proof.
  intros deviceId key Hu Hm Hh Hn. unfold onCallReplaced.
  rewrite (bind_ok this _ gc gc gc eq_refl).
  (* the device map under the key, made if there is none *)
  set (gc0 := match key with
              | Some opponent =>
                  if bool_decide (calls gc !! opponent = None)
                  then set_calls (<[opponent := ∅]> (calls gc)) gc else gc
              | None =>
                  if bool_decide (callsOfUndefined gc = None)
                  then set_callsOfUndefined (Some ∅) gc else gc
              end).
  assert (callHeap gc0 = callHeap gc ∧ callHandlers gc0 = callHandlers gc
          ∧ trace gc0 = trace gc) as (Hp0 & Hh0 & Ht0).
  { unfold gc0. destruct key; case_bool_decide; by destruct gc. }
  assert (∀ k device, callUnder gc0 k device = callUnder gc k device) as Hc0.
  { intros k device. unfold gc0.
    destruct key as [opponent|]; case_bool_decide as Hnone; try done.
    - destruct k as [member|]; [|by destruct gc]. simpl.
      replace (calls (set_calls (<[opponent := ∅]> (calls gc)) gc))
        with (<[opponent := ∅]> (calls gc)) by (by destruct gc).
      destruct (decide (member = opponent)) as [->|Hne].
      + rewrite lookup_insert_eq, Hnone. simpl. apply lookup_empty.
      + by rewrite lookup_insert_ne.
    - destruct k as [member|]; [by destruct gc|]. simpl.
      replace (callsOfUndefined (set_callsOfUndefined (Some ∅) gc))
        with (Some (∅ : gmap string CallRef)) by (by destruct gc).
      rewrite Hnone. simpl. apply lookup_empty. }
  destruct (disposeCall_returns gc0 prevCall (Some CallErrorCode.Replaced)
              userId deviceMap handlers)
    as (gc1 & t1 & E1 & Hh1 & Ht1); [by rewrite ?Hp0, ?Hh0..|].
  pose proof (frames_run _ _ _ _ _ (disposeCall_frames_calls _ _) E1) as Hc1.
  pose proof (frames_run _ _ _ _ _ (disposeCall_frames_callsOfUndefined _ _) E1) as Hu1.
  pose proof (frames_run _ _ _ _ _ (disposeCall_frames_callHeap _ _) E1) as Hp1.
  destruct (initCall_returns gc1 newCall newUser) as (gc2 & t2 & E2 & Hh2 & Hp2 & Ht2).
  { by rewrite Hp1, Hp0. }
  pose proof (frames_run _ _ _ _ _ (initCall_frames_calls newCall) E2) as Hc2.
  pose proof (frames_run _ _ _ _ _ (initCall_frames_callsOfUndefined newCall) E2) as Hu2.
  assert (MatrixCall.getOpponentDeviceId (callHeap gc2 prevCall) = deviceId) as Hd2.
  { rewrite Hp2, Hp1, Hp0.
    destruct (decide (newCall = prevCall)) as [->|Hne].
    - rewrite fn_lookup_insert. by destruct (callHeap gc prevCall).
    - by rewrite fn_lookup_insert_ne. }
  assert (∀ k device, callUnder gc2 k device = callUnder gc k device) as Hc.
  { intros k device. rewrite <- Hc0. unfold callUnder. by rewrite Hc2, Hc1, Hu2, Hu1. }
  set (t := (if bool_decide (MatrixCall.hangupReason (callHeap gc prevCall)
                             = Some CallErrorCode.Replaced)
             then []
             else (if bool_decide (MatrixCall.state (callHeap gc prevCall) = CallState.Ended)
                   then [] else [CallHangup prevCall (Some CallErrorCode.Replaced) false])
                  ++ t1)
            ++ t2).
  assert (Htrace : trace gc2 = trace gc ++ unsubscribed prevCall handlers ++ t).
  { rewrite Ht2, Ht1, Ht0, Hp0. unfold t. by rewrite <- !app_assoc. }
  assert (Hhung : hungUp gc (Some CallErrorCode.Replaced) t prevCall).
  { intros Hr He. unfold t. rewrite bool_decide_false by done.
    rewrite bool_decide_false by done.
    apply elem_of_app. left. apply elem_of_app. left. by apply list_elem_of_singleton. }
  assert (Hnew : callHandlers gc2 !! newUser
                   ≫= (.!! MatrixCall.getOpponentDeviceId (callHeap gc newCall))
                 = Some (handlersOf newCall)).
  { rewrite Hh2, lookup_insert_eq. simpl. rewrite Hp1, Hp0. apply lookup_insert_eq. }
  assert (Hwhen : (match key with
                   | Some opponent =>
                       when (bool_decide (calls gc !! opponent = None))
                         (modify (set_calls (<[opponent := ∅]> (calls gc))))
                   | None =>
                       when (bool_decide (callsOfUndefined gc = None))
                         (modify (set_callsOfUndefined (Some ∅)))
                   end) gc = (Ok tt, gc0)).
  { unfold gc0. destruct key as [opponent|].
    - by destruct (bool_decide (calls gc !! opponent = None)).
    - by destruct (bool_decide (callsOfUndefined gc = None)). }
  exists (set_trace (trace gc2 ++ [Emit GroupCallEvent.CallsChanged])
            (match key with
             | Some opponent =>
                 set_calls (<[opponent := <[deviceId := newCall]>
                                            (default ∅ (calls gc2 !! opponent))]>
                              (calls gc2)) gc2
             | None =>
                 set_callsOfUndefined
                   (Some (<[deviceId := newCall]> (default ∅ (callsOfUndefined gc2)))) gc2
             end)), t.
  split.
  { fold key. destruct key as [opponent|].
    - rewrite (bind_ok _ _ _ _ _ Hwhen). rewrite (bind_ok _ _ _ _ _ E1).
      rewrite (bind_ok _ _ _ _ _ E2).
      unfold bind at 1. unfold modify at 1. unfold emit, perform, modify.
      cbv beta iota. rewrite Hd2. reflexivity.
    - rewrite (bind_ok _ _ _ _ _ Hwhen). rewrite (bind_ok _ _ _ _ _ E1).
      rewrite (bind_ok _ _ _ _ _ E2).
      unfold bind at 1. unfold modify at 1. unfold emit, perform, modify.
      cbv beta iota. rewrite Hd2. reflexivity. }
  split.
  { destruct key as [opponent|]; simpl.
    - rewrite lookup_insert_eq. simpl. apply lookup_insert_eq.
    - apply lookup_insert_eq. }
  split.
  { intros k device Hne. rewrite <- Hc.
    destruct key as [opponent|], k as [member|]; simpl; try done.
    - destruct (decide (member = opponent)) as [->|Hm'].
      + rewrite lookup_insert_eq. simpl.
        rewrite lookup_insert_ne by (intros <-; by apply Hne).
        by destruct (calls gc2 !! opponent).
      + by rewrite lookup_insert_ne.
    - rewrite lookup_insert_ne by (intros <-; by apply Hne).
      by destruct (callsOfUndefined gc2). }
  split.
  { assert (trace gc2 ++ [Emit GroupCallEvent.CallsChanged]
            = trace gc ++ unsubscribed prevCall handlers ++ t
              ++ [Emit GroupCallEvent.CallsChanged]) as Hall.
    { by rewrite Htrace, <- (app_assoc (trace gc)),
        <- (app_assoc (unsubscribed prevCall handlers)). }
    destruct key; exact Hall. }
  split; [exact Hhung|].
  destruct key; exact Hnew.
Qed.

Lemma replacement_is_filed_under_the_opponent_member_witness :
  ∃ gc', onCallReplaced 0%nat 1%nat gc_a_b_glare = (Ok tt, gc')
         ∧ callUnder gc' None "DB" = Some 1%nat
         ∧ callUnder gc' (Some "@b:h") "DB" = Some 0%nat.
Proof.
  destruct (replacement_is_filed_under_the_opponent_member gc_a_b_glare 0%nat 1%nat
              "@b:h" {[ "DB" := handlersOf 0%nat ]} (handlersOf 0%nat) "@b:h")
    as (gc' & t & E & Hslot & Hothers & _).
  - vm_compute. reflexivity.
  - vm_compute. reflexivity.
  - vm_compute. reflexivity.
  - vm_compute. reflexivity.
  - exists gc'. split; [exact E|]. split; [exact Hslot|].
    rewrite (Hothers (Some "@b:h") "DB"); [by vm_compute|].
    intros H. vm_compute in H. discriminate H.
Defined.

